(* ===== verification/_CoqProject ===== *)
-Q . S2P
Prelude.v
GoStd.v
Response.v
Quote.v
Rfc5321.v
Rfc5322.v
Shared.v
Envelope.v
Config.v
Tenant.v
Reader.v
Auth.v
AuthMock.v
Backend.v
Client.v
Server.v
Session.v
Pool.v
Processor.v
Gateway.v
Answers.v
Conveyor.v
EmailAddress.v
AliasStore.v
AliasMessage.v
Pop3.v
AliasIndexer.v
Imap.v
IdleWatch.v
IndexCmd.v
AliasResolve.v
RewriteFrom.v
Outbound.v
Storage.v
GuerrillaDb.v
Listener.v
Daemon.v
Api.v
Log.v
Serve.v
