(* ===== verification/Prelude.v ===== *)
(** * Verification of go-guerrilla

    go-guerrilla is an SMTP server. It listens for clients, runs the SMTP dialogue with
    each of them in a goroutine of its own, and hands complete messages to a backend, a
    gateway that passes them through a configurable stack of processors; in this fork
    the processors send the mail on, with the credentials of the tenant that the
    client belongs to.

    ** The parts of the program and their models

    - package response (src/response/enhanced.go, quote.go): Response.v. The enhanced status codes,
      the table of basic codes and the canned replies are the values of the code. Quote.v has the texts of HELP.
    - package rfc5321 (src/mail/rfc5321/parse.go, address.go): Rfc5321.v and Rfc5322.v.
      Every production of the two recursive-descent parsers is a computation on the state
      of the parser (the input, the position, the current byte, what was collected).
    - package mail (src/mail/envelope.go): Envelope.v. Addresses and their printed form,
      the envelope of a message and its transaction, the decoding of MIME words and of
      headers, the pool of envelopes.
    - the configuration (src/config.go, event.go): Config.v. Defaults, validation, and
      the events that a new configuration publishes.
    - the tenants (src/backends/tenant.go, tenant_registry.go, tenant_send.go,
      src/tenant_registry.go): Tenant.v. The credentials of a tenant, the registry that is
      refreshed from a server, the cache of clients that send.
    - a connection (src/models.go, with bufio and net/textproto of the standard library):
      Reader.v. A stream of network events, read through a limit that is adjusted, a
      buffer, and the reader of dot-encoded text.
    - authentication (src/auth.go): Auth.v. AuthMock.v is the test service of src/cmd/authmock, the other side of its exchange
      and of that of the registry of tenants.
    - the server (src/client.go, src/server.go): Client.v has the client and what it does
      to its connection, Server.v the allowed hosts, one definition for each command
      and state, and [handleClient] as the loop over them. Session.v proves what holds of
      every session.
    - the daemon (src/guerrilla.go, the rest of src/server.go): Listener.v has a server
      between its sessions, with its TLS configuration, Daemon.v the map of servers, start and shutdown, and
      the handlers of the events that a reload of the configuration publishes.
    - the facade of the package (src/api.go, with the event bus of src/event.go): Api.v. What a program that embeds the
      server calls; it keeps a configuration, a log, a backend, an authenticator and subscriptions until it makes the
      daemon of Daemon.v of them, and publishes the events through the bus.
    - the serving process (src/cmd/guerrillad/serve.go, CheckFileLimit of src/guerrilla.go): Serve.v. The command line, the signals,
      what they apply to the facade, and the poller of the registry of tenants.
    - package log (src/log/log.go, hook.go): Log.v. Hooks that write to files, on a model of files as inodes, names and
      descriptors, and the cache of loggers.
    - the pool of clients (src/pool.go): Pool.v. Goroutines that borrow, serve, return and
      shut down, interleaved at every lock, channel operation and shared variable.
    - the backend (src/backends/backend.go, validate.go, processor.go, decorate.go,
      gateway.go and the processors header, hasher, debugger, headersparser, compressor):
      Backend.v is the interface that a session relies on, with its laws; Processor.v has
      the processors, Gateway.v the gateway, which it proves to implement the interface, and follows one message through a
      worker. Answers.v puts it behind the sessions. Conveyor.v has many messages at once: sessions, workers, goroutines left after timeouts, the
      conveyor, the locks of envelopes and the pool of messages, interleaved at every operation on them.
    - the index of aliases (src/backends/email_address.go, alias_store.go) and the processors
      that use it (p_alias_resolve.go, p_rewrite_from.go, with the templates of p_ses.go):
      EmailAddress.v has the normal forms of addresses and message ids, AliasStore.v the
      tables of the index, with every method of the store and the migration of one table,
      AliasResolve.v the processor that finds the thread of a reply and its tenant,
      RewriteFrom.v the processor that replaces the From header.
    - the indexers that fill the index from mailboxes (alias_message_index.go, pop3_client.go,
      alias_indexer.go, imap_client.go, imap_watcher.go): AliasMessage.v records one message,
      Pop3.v is the client of a POP3 server, AliasIndexer.v the configuration, one poll and
      the loop of the indexer, Imap.v the round of a watcher over the folders of an IMAP account,
      IdleWatch.v when a round starts: the loop of the watcher and its IDLE sessions as goroutines. IndexCmd.v is the process that
      runs the indexer (src/cmd/guerrillad/alias_index.go).
    - the processors that send mail on or store it: Outbound.v has ses (p_ses.go) and ociemail (p_ociemail.go)
      with its SMTP dialogue, Storage.v sql (p_sql.go), redis (p_redis.go) and the compressor as it is printed,
      GuerrillaDb.v guerrillaredisdb (p_guerrilla_db_redis.go) with the goroutine that inserts its rows in batches.
      What processors do outside the envelope is recorded, in order, as the effects of Processor.v.
    - Shared.v has the data types that more than one package names. GoStd.v has what the
      code uses of Go's standard library: strings, numbers, base 64, IP addresses.

    A method on a pointer is a computation of the monad [M] below: it takes the state,
    and returns an outcome (a result, an error, a panic, or fuel that ran out) and the new
    state. What is not under src/ is a parameter, a type class: the decoder of a MIME
    word, a database that may fail at every statement, a MIME header reader, hash functions, JSON decoders, HTTP servers, the clock,
    the case mapping of letters outside ASCII, the network, the scheduler. The session
    talks to the authenticator and the backend through classes as well; they are given
    the time of the call, a counter that ticks at each look at the outside world, so
    that they may answer differently each time.

    ** What the theorems show

    - Sessions (Session.v): handleClient returns for every client and network,
      without a panic, in a number of turns bounded by the bytes that the client sends;
      it is no open relay; messages keep to the limits; the tenant of a message is the one
      the authenticator gave last; STARTTLS forgets everything that came before. They are
      invariants of one turn of the loop, carried through all of them. They assume that XCLIENT is off, that
      an authenticator is not taken away during the session ([ServerLaws]), that the backend keeps its laws ([BackendLaws], which the
      gateway does), and that the envelope starts without a transaction; concrete sessions show what happens otherwise.
    - Acknowledgements (Answers.v): a client is told the gateway's own reply to its message, and one that means success
      only if a processor accepted that message in time.
    - Concurrency (Pool.v, Conveyor.v): no more clients than the pool allows, exact counts, no
      deadlock, and everything ends whatever the scheduler does, unless a connection that is refused during a shutdown panics and
      ends the program. A concrete schedule
      shows that a transaction leaks from one session into the next through the pool of
      envelopes. On the conveyor every answer goes to the call it is for and every message is processed once, the calls under way
      never get stuck, and an envelope in work is guarded by its session or its lock. Concrete runs show
      two workers on one envelope, and mail stored after a restart.
    - Backend (Gateway.v, Processor.v): a started gateway is a backend as the sessions
      need it, whatever its processors do; its calls follow the specification of its life,
      a state machine of its own, up to the first call that panics or hangs, of which there are two kinds; stacks run in the order of
      the configuration; failures are reported, which Answers.v carries to the client; no recipient can add lines to the
      delivery header.
    - Parsing (Rfc5321.v, Rfc5322.v, Envelope.v, Auth.v, Reader.v): the parsers return for
      every input, what they collect is printable, and reading is the inverse of writing,
      for paths, addresses, credentials and dot-encoded messages. The address parser
      of RFC 5322 does not return for a bare word, and this is proved too.
    - Daemon (Daemon.v, Api.v): on a machine where nothing fails, a start and every reload, from a value or a file, leave exactly the servers of the
      configuration, listening or not as it says, and accepting its hosts, for every order in which maps are listed; a reload that removes a
      server which an earlier one disabled is left out, since it hangs. All servers have the authenticator that was set last; subscribers
      are told of every event, in order. Timeouts, certificates and logs are not covered: concrete reloads show that these can be
      those of another server or old ones, and where a reload hangs or panics.
    - Process (Serve.v): a SIGHUP makes the process follow its file, and the poller never leaves its first registry.
    - Logs (Log.v): rotation loses no line while the system does not fail, and a Reopen that failed is final.
    - Configuration and tenants (Config.v, Tenant.v): defaults complete every server,
      change events name exactly the changed servers, a refresh of the registry is all
      or nothing, and every message is sent by a client that was made for the cache key of its own tenant, which means with its
      credentials as long as keys do not collide, as concrete ones do. Over the test service the authenticator
      and the registry agree on a tidy file (AuthMock.v).
    - Aliases (AliasStore.v, AliasResolve.v, RewriteFrom.v): what is stored is found again,
      a purge keeps the bounds and drops the oldest rows only, recording ids is atomic by
      batches, a reply never leaves the tenant of the client that sends it, and the From
      header is replaced field by field. Concrete messages show how a folded From header
      survives, and how an interrupted migration loses ids.
    - Sending and storing (Outbound.v, Storage.v, GuerrillaDb.v): with a tenant registry nothing leaves but by the
      client of the tenant in the envelope, which for a reply under an alias is the tenant of its client; a message is
      offered to a server at most three times; every recipient gets its row, and rows say where the mail really is, by the answers of redis
      and of the database; rows are inserted in batches, in order, each once unless the database fails, and at most four times then. Concrete messages show
      how bodies are lost, mail is sent twice, and what a shutdown drops.
    - Indexers (AliasMessage.v, Pop3.v, AliasIndexer.v, Imap.v): a message is recorded once, in its own
      thread; neither the ids of a POP3 mailbox nor the cursor of an IMAP folder, once it has its baseline and while its UIDVALIDITY
      is the same, passes a message that was not dealt with, whatever the servers and the database do; new mail is fetched in
      batches without overflow; mail starts a round, and waiting costs nothing; what a POP3 server lists is what is read, and nothing in an account adds
      commands. Concrete rounds show the mail that baselines lose.
    - Replies (Response.v, Quote.v): the canned replies are well formed, and so are the texts of HELP but for two.

    ** Fuel

    The loops of the parsers run on fuel; the fuel in the definitions is a bound on
    the length of the input, and the termination theorems show that it is never used up
    (or, for the address parser at the end of its input, that no fuel is enough). The loop of
    [handleClient] takes its fuel as an argument; [session_fuel] is enough: three turns
    for each byte that can arrive, and four more. Reading has the size of the stream
    as its fuel, and the loops over UIDs the length of their range, which is shown to be enough. Everything else is structural.

    ** Not modelled

    - The command lines of the programs (cmd/), the file with the process id, and other goroutines
      during a reload. What is logged, and where to, is not part of the other models: a log is the name of its file there.
    - The drivers of redis (redis_generic.go, storage/redigo/driver.go), the client libraries of Amazon and Oracle, and
      the functions of util.go that nothing calls. The deadline of a context is seen only where a sender waits.
    - The accounts of an indexer and its watchers running at the same time: they follow one another here.
    - Other goroutines between the statements of one call of the store.
    - The lock of an envelope while the backend works on it after a timeout, inside a session: see
      [gateway_backend] in Gateway.v for what of it a session sees, and Conveyor.v for the lock. *)
From Stdlib Require Export ZArith Ascii Lia.
From Stdlib Require String.
From stdpp Require Export base list strings gmap numbers option.

#[global] Open Scope string_scope.
#[global] Open Scope Z_scope.
#[global] Open Scope nat_scope.
#[global] Open Scope list_scope.

(** ** Byte strings

    A Go [string] and a Go [[]byte] are both lists of bytes. *)
Abbreviation bytes := (list ascii).

Definition bs (s : string) : bytes := String.list_ascii_of_string s.
Coercion bs : string >-> list.
#[global] Arguments bs !s /.

(** The numeric value of a byte. *)
Definition code (c : ascii) : Z := Z.of_N (N_of_ascii c).

(** [lo <= c && c <= hi] of the source, on bytes. *)
Definition between (lo hi c : ascii) : bool := (code lo <=? code c)%Z && (code c <=? code hi)%Z.

(** The byte 0, which the parsers use as the end-of-input mark. *)
Definition NUL : ascii := "000".
Definition DQUOTE : ascii := "034".
Definition CR : ascii := "013".
Definition LF : ascii := "010".
Definition TAB : ascii := "009".

(** ** Results of Go calls

    [Ok] is a return with a nil error, [Err] a return with an error,
    [Panic] a run-time panic and [OutOfFuel] a call that has not returned
    within the number of loop iterations it was given. *)
Inductive outcome (E A : Type) : Type :=
| Ok (a : A)
| Err (e : E)
| Panic
| OutOfFuel.
#[global] Arguments Ok {E A} a.
#[global] Arguments Err {E A} e.
#[global] Arguments Panic {E A}.
#[global] Arguments OutOfFuel {E A}.

Definition is_ok {E A} (r : outcome E A) : bool :=
  match r with Ok _ => true | _ => false end.

#[export] Instance outcome_ret {E} : MRet (outcome E) := λ A a, Ok a.
#[export] Instance outcome_bind {E} : MBind (outcome E) := λ A B f r,
  match r with Ok a => f a | Err e => Err e | Panic => Panic | OutOfFuel => OutOfFuel end.
(** A nil error, or the error. *)
Definition ok_unless {E} (err : option E) : outcome E unit := match err with Some e => Err e | None => Ok tt end.
(** The error in other words: [fmt.Errorf("...: %w", err)]. *)
Definition map_error {E F A} (f : E → F) (r : outcome E A) : outcome F A :=
  match r with Ok a => Ok a | Err e => Err (f e) | Panic => Panic | OutOfFuel => OutOfFuel end.

(** ** A state and error monad

    Methods on a pointer receiver change the receiver on every path, the error
    paths too, so the state is returned beside the outcome. *)
Definition M (S E A : Type) : Type := S → outcome E A * S.

Section Monad.
Context {S E : Type}.

#[export] Instance M_ret : MRet (M S E) := λ A a s, (Ok a, s).
#[export] Instance M_bind : MBind (M S E) := λ A B f m s,
  match m s with
  | (Ok a, s') => f a s'
  | (Err e, s') => (Err e, s')
  | (Panic, s') => (Panic, s')
  | (OutOfFuel, s') => (OutOfFuel, s')
  end.

Definition fail {A} (e : E) : M S E A := λ s, (Err e, s).
Definition panic {A} : M S E A := λ s, (Panic, s).
Definition out_of_fuel {A} : M S E A := λ s, (OutOfFuel, s).
Definition get : M S E S := λ s, (Ok s, s).
Definition gets {A} (f : S → A) : M S E A := λ s, (Ok (f s), s).
Definition modify (f : S → S) : M S E unit := λ s, (Ok tt, f s).

(** [v, err := m()] without returning on the error. *)
Definition try_ {A} (m : M S E A) : M S E (A + E) := λ s,
  match m s with
  | (Ok a, s') => (Ok (inl a), s')
  | (Err e, s') => (Ok (inr e), s')
  | (Panic, s') => (Panic, s')
  | (OutOfFuel, s') => (OutOfFuel, s')
  end.

(** [defer func() { state = f(state) }()] around a body. *)
Definition deferred {A} (f : S → S) (m : M S E A) : M S E A := λ s,
  let '(r, s') := m s in (r, f s').

(** Total-correctness triples: the call returns, without panicking and
    within its fuel; [Q] holds of a normal return, [R] of an error. *)
Definition wp {A} (m : M S E A) (Q : A → S → Prop) (R : E → S → Prop) (s : S) : Prop :=
  match m s with
  | (Ok a, s') => Q a s'
  | (Err e, s') => R e s'
  | _ => False
  end.

Lemma wp_ret {A} (a : A) Q R s : Q a s → wp (mret a) Q R s.
Proof. done. Qed.
Lemma wp_fail {A} e (Q : A → S → Prop) R s : R e s → wp (fail e) Q R s.
Proof. done. Qed.
Lemma wp_gets {A} (f : S → A) Q R s : Q (f s) s → wp (gets f) Q R s.
Proof. done. Qed.
Lemma wp_modify f Q R s : Q tt (f s) → wp (modify f) Q R s.
Proof. done. Qed.
Lemma wp_bind {A B} (m : M S E A) (f : A → M S E B) Q R s :
  wp m (λ a s', wp (f a) Q R s') R s → wp (m ≫= f) Q R s.
Proof. unfold wp, mbind, M_bind. by destruct (m s) as [[] ?]. Qed.
Lemma wp_try {A} (m : M S E A) Q R s :
  wp m (λ a s', Q (inl a) s') (λ e s', Q (inr e) s') s → wp (try_ m) Q R s.
Proof. unfold wp, try_. by destruct (m s) as [[] ?]. Qed.
Lemma wp_deferred {A} f (m : M S E A) Q R s :
  wp m (λ a s', Q a (f s')) (λ e s', R e (f s')) s → wp (deferred f m) Q R s.
Proof. unfold wp, deferred. by destruct (m s) as [[] ?]. Qed.
Lemma wp_mono {A} (m : M S E A) (Q Q' : A → S → Prop) (R R' : E → S → Prop) s :
  wp m Q R s → (∀ a s', Q a s' → Q' a s') → (∀ e s', R e s' → R' e s') → wp m Q' R' s.
Proof. unfold wp. destruct (m s) as [[] ?]; naive_solver. Qed.
Lemma wp_conj {A} (m : M S E A) (Q Q' : A → S → Prop) (R R' : E → S → Prop) s :
  wp m Q R s → wp m Q' R' s →
  wp m (λ a s', Q a s' ∧ Q' a s') (λ e s', R e s' ∧ R' e s') s.
Proof. unfold wp. destruct (m s) as [[] ?]; naive_solver. Qed.
Lemma wp_ok {A} (m : M S E A) Q R s a s' : wp m Q R s → m s = (Ok a, s') → Q a s'.
Proof. unfold wp. intros H Hm. by rewrite Hm in H. Qed.
Lemma wp_err {A} (m : M S E A) Q R s e s' : wp m Q R s → m s = (Err e, s') → R e s'.
Proof. unfold wp. intros H Hm. by rewrite Hm in H. Qed.
Lemma bind_ok {A B} (m : M S E A) (k : A → M S E B) s b s2 :
  (m ≫= k) s = (Ok b, s2) → ∃ a s1, m s = (Ok a, s1) ∧ k a s1 = (Ok b, s2).
Proof. unfold mbind, M_bind. destruct (m s) as [[] ?]; try discriminate. eauto. Qed.
Lemma bind_err {A B} (m : M S E A) (k : A → M S E B) s e s2 : (m ≫= k) s = (Err e, s2) →
  m s = (Err e, s2) ∨ ∃ a s1, m s = (Ok a, s1) ∧ k a s1 = (Err e, s2).
Proof. unfold mbind, M_bind. destruct (m s) as [[] ?]; try discriminate; naive_solver. Qed.
(** Every outcome: the first part ends the call, or the second goes on from it. *)
Lemma bind_inv {A B} (m : M S E A) (k : A → M S E B) s r s2 : (m ≫= k) s = (r, s2) →
  (∃ a s1, m s = (Ok a, s1) ∧ k a s1 = (r, s2)) ∨ (is_ok r = false ∧ ∃ r0, m s = (r0, s2) ∧ is_ok r0 = false).
Proof.
  unfold mbind, M_bind. destruct (m s) as [[] ?]; intros H; [by left; eauto|right..];
    injection H as <- <-; (split; [done|]); by eexists.
Qed.
Lemma bind_runs {A B} (m : M S E A) (k : A → M S E B) s a s1 :
  m s = (Ok a, s1) → (m ≫= k) s = k a s1.
Proof. unfold mbind, M_bind. by intros ->. Qed.

(** Every call relates its state before and after, whatever its outcome. *)
Definition preserves {A} (R : S → S → Prop) (m : M S E A) : Prop := ∀ s, R s (m s).2.
Section Preserves.
Context (R : S → S → Prop) {HR : PreOrder R}.
Lemma preserves_ret {A} (a : A) : preserves R (mret a).
Proof. by intros s. Qed.
Lemma preserves_fail {A} e : preserves R (@fail A e).
Proof. by intros s. Qed.
Lemma preserves_panic {A} : preserves R (@panic A).
Proof. by intros s. Qed.
Lemma preserves_out_of_fuel {A} : preserves R (@out_of_fuel A).
Proof. by intros s. Qed.
Lemma preserves_gets {A} (f : S → A) : preserves R (gets f).
Proof. by intros s. Qed.
Lemma preserves_modify f : (∀ s, R s (f s)) → preserves R (modify f).
Proof. by intros H s. Qed.
Lemma preserves_bind {A B} (m : M S E A) (k : A → M S E B) :
  preserves R m → (∀ a, preserves R (k a)) → preserves R (m ≫= k).
Proof.
  intros Hm Hk s. specialize (Hm s). unfold mbind, M_bind. destruct (m s) as [[a|e| |] s1]; cbn in *; [|done..].
  etrans; [exact Hm|apply Hk].
Qed.
End Preserves.
End Monad.

#[global] Typeclasses Opaque M.
#[global] Arguments wp : simpl never.

(** ** Automation

    [wp_step] applies the rule of the call at the head of a program; [go]
    splits the branches of the code and closes arithmetic and equations. *)
Create HintDb go discriminated.
Create Rewrite HintDb go.

Create HintDb preserves discriminated.
#[export] Hint Extern 1 (PreOrder _) => apply _ : preserves.
(** [preserved] goes through a program of which each call preserves a relation. *)
Ltac preserved :=
  repeat match goal with
  | |- PreOrder _ => apply _
  | |- preserves _ (_ ≫= _) => apply preserves_bind; [..|intros ?]
  | |- preserves _ (mret _) => apply preserves_ret
  | |- preserves _ (fail _) => apply preserves_fail
  | |- preserves _ panic => apply preserves_panic
  | |- preserves _ out_of_fuel => apply preserves_out_of_fuel
  | |- preserves _ (gets _) => apply preserves_gets
  | |- preserves _ (if ?b then _ else _) => destruct b
  | |- preserves _ (match ?x with _ => _ end) => destruct x
  end; eauto with preserves.

Ltac wp_step :=
  lazymatch goal with
  | |- wp (_ ≫= _) _ _ _ => apply wp_bind
  | |- wp (mret _) _ _ _ => apply wp_ret
  | |- wp (fail _) _ _ _ => apply wp_fail
  | |- wp (gets _) _ _ _ => apply wp_gets
  | |- wp (modify _) _ _ _ => apply wp_modify
  | |- wp (try_ _) _ _ _ => apply wp_try
  | |- wp (deferred _ _) _ _ _ => apply wp_deferred
  | |- wp (if ?b then _ else _) _ _ _ => let H := fresh "Hb" in destruct b eqn:H
  | |- wp (match ?x with _ => _ end) _ _ _ => let H := fresh "Hm" in destruct x eqn:H
  end.

Ltac bool_hyps :=
  repeat match goal with
    | H : _ && _ = true |- _ => apply andb_true_iff in H; destruct H
    | H : _ || _ = false |- _ => apply orb_false_iff in H; destruct H
    | H : negb _ = true |- _ => apply negb_true_iff in H
    | H : negb _ = false |- _ => apply negb_false_iff in H
    | H : bool_decide _ = true |- _ => apply bool_decide_eq_true in H
    | H : bool_decide _ = false |- _ => apply bool_decide_eq_false in H
    end.

(** ** Lists *)
Section Lists.
Context {A : Type}.

(** [drop] at a position that exists. *)
Lemma drop_cons_lookup (l : list A) i x r :
  drop i l = x :: r → l !! i = Some x ∧ drop (S i) l = r.
Proof.
  intros H. split.
  - by rewrite <- (Nat.add_0_r i), <- lookup_drop, H.
  - replace (S i) with (i + 1) by lia. by rewrite <- drop_drop, H.
Qed.

Lemma Forall_last (P : A → Prop) l d : P d → Forall P l → P (List.last l d).
Proof. intros Hd. induction 1 as [|x l Hx Hl IH]; [done|]. by destruct l. Qed.
End Lists.

(** ** Sums over a list, as counts of who holds what *)
Section Sums.
Context {A : Type} (f : A → nat).
Lemma sum_insert l i x y : l !! i = Some x → sum_list_with f (<[i := y]> l) + f x = sum_list_with f l + f y.
Proof.
  revert i. induction l as [|z l IH]; intros [|i]; [done..| |].
  - intros [= ->]. change (<[0 := y]> (x :: l)) with (y :: l). cbn. lia.
  - intros Hi. specialize (IH _ Hi). change (<[S i := y]> (z :: l)) with (z :: <[i := y]> l). cbn. lia.
Qed.
Lemma sum_delete l i x : l !! i = Some x → sum_list_with f (delete i l) + f x = sum_list_with f l.
Proof.
  revert i. induction l as [|z l IH]; intros [|i]; [done..| |].
  - intros [= ->]. change (delete 0 (x :: l)) with l. cbn. lia.
  - intros Hi. specialize (IH _ Hi). change (delete (S i) (z :: l)) with (z :: delete i l). cbn. lia.
Qed.
Lemma sum_lookup l i x : l !! i = Some x → f x ≤ sum_list_with f l.
Proof. intros Hi. pose proof (sum_delete l i x Hi). lia. Qed.
Lemma sum_exists l : 0 < sum_list_with f l → ∃ i x, l !! i = Some x ∧ 0 < f x.
Proof.
  induction l as [|x l IH]; cbn; [lia|]. destruct (f x) as [|q] eqn:E.
  - intros (i&y&Hi&Hy)%IH. by exists (S i), y.
  - intros _. exists 0, x. split; [done|lia].
Qed.
End Sums.
