(* ===== verification/GoStd.v ===== *)
(** * The parts of the Go standard library that the program calls

    Text functions of [strings], [bytes], [strconv] and [encoding/base64], as
    executable functions on bytes. Upper- and lower-casing of text that is not
    ASCII depends on the Unicode tables and is the class [Unicode]; everything
    else is a definition. Nothing here models a file of the repository. *)
From S2P Require Import Prelude.
From Stdlib Require Import DecimalString DecimalZ DecimalPos.

(** ** Classes of bytes *)
Definition is_digit (c : ascii) : bool := between "0" "9" c.
Definition is_lower (c : ascii) : bool := between "a" "z" c.
Definition is_upper (c : ascii) : bool := between "A" "Z" c.
Definition is_ascii (c : ascii) : bool := (code c <? 128)%Z.
Definition ascii_text (s : bytes) : bool := forallb is_ascii s.

Definition lower (c : ascii) : ascii :=
  if is_upper c then ascii_of_N (N_of_ascii c + 32) else c.
Definition upper (c : ascii) : ascii :=
  if is_lower c then ascii_of_N (N_of_ascii c - 32) else c.

(** ** Case mapping *)
Class Unicode : Type := {
  uni_lower : bytes → bytes;
  uni_upper : bytes → bytes
}.

(** The witnesses run on ASCII text; this instance leaves other text alone. *)
Definition ascii_only : Unicode := {| uni_lower := id; uni_upper := id |}.

Section Case.
Context {U : Unicode}.
Definition ToLower (s : bytes) : bytes := if ascii_text s then map lower s else uni_lower s.
Definition ToUpper (s : bytes) : bytes := if ascii_text s then map upper s else uni_upper s.
End Case.

(** [strings.EqualFold] against an ASCII word none of whose letters folds to a
    character outside ASCII. *)
Definition EqualFold (s t : bytes) : bool := bool_decide (map lower s = map lower t).

(** ** Prefixes, suffixes and searching *)
Fixpoint HasPrefix (s p : bytes) : bool :=
  match p, s with
  | [], _ => true
  | c :: p', d :: s' => bool_decide (c = d) && HasPrefix s' p'
  | _ :: _, [] => false
  end.
Definition HasSuffix (s p : bytes) : bool := HasPrefix (rev s) (rev p).
Definition TrimSuffix (s p : bytes) : bytes :=
  if HasSuffix s p then take (length s - length p) s else s.

(** The position of the first occurrence; Go's -1 is [None]. *)
Fixpoint Index (s p : bytes) : option nat :=
  if HasPrefix s p then Some 0
  else match s with
       | [] => None
       | _ :: s' => S <$> Index s' p
       end.
Definition Contains (s p : bytes) : bool := if Index s p is Some _ then true else false.

(** The position of the last occurrence of a byte. *)
Fixpoint LastIndexByte (s : bytes) (c : ascii) : option nat :=
  match s with
  | [] => None
  | d :: s' => match LastIndexByte s' c with
               | Some i => Some (S i)
               | None => if bool_decide (c = d) then Some 0 else None
               end
  end.

(** ** Trimming *)

(** The UTF-8 encodings of the white space outside ASCII (U+0085, U+00A0,
    U+1680, U+2000 to U+200A, U+2028, U+2029, U+202F, U+205F, U+3000). *)
Definition ascii_of_codes (l : list N) : bytes := map ascii_of_N l.
Definition wide_spaces : list bytes :=
  map ascii_of_codes
    ([[0xC2; 0x85]; [0xC2; 0xA0]; [0xE1; 0x9A; 0x80]; [0xE2; 0x80; 0xA8]; [0xE2; 0x80; 0xA9];
      [0xE2; 0x80; 0xAF]; [0xE2; 0x81; 0x9F]; [0xE3; 0x80; 0x80]]
     ++ map (λ n, [0xE2; 0x80; 0x80 + N.of_nat n]) (seq 0 11))%N.

Definition is_space (c : ascii) : bool :=
  bool_decide (c ∈ [" "; "009"; "010"; "011"; "012"; "013"]%char).

(** The length of the white-space character at the front, 0 if there is none. *)
Definition space_at (s : bytes) : nat :=
  match s with
  | [] => 0
  | c :: _ =>
      if is_space c then 1
      else if is_ascii c then 0
      else match List.find (HasPrefix s) wide_spaces with
           | Some w => length w
           | None => 0
           end
  end.
Definition space_at_end (s : bytes) : nat :=
  match rev s with
  | [] => 0
  | c :: _ =>
      if is_space c then 1
      else if is_ascii c then 0
      else match List.find (HasSuffix s) wide_spaces with
           | Some w => length w
           | None => 0
           end
  end.

(** An ASCII character that is not white space. *)
Definition solid (c : ascii) : bool := is_ascii c && negb (is_space c).

Fixpoint trim_left (n : nat) (s : bytes) : bytes :=
  match n, space_at s with
  | S n', S k => trim_left n' (drop (S k) s)
  | _, _ => s
  end.
Fixpoint trim_right (n : nat) (s : bytes) : bytes :=
  match n, space_at_end s with
  | S n', S k => trim_right n' (take (length s - S k) s)
  | _, _ => s
  end.
Definition TrimSpace (s : bytes) : bytes :=
  let l := trim_left (length s) s in trim_right (length l) l.
#[global] Arguments TrimSpace : simpl never.

(** [strings.Trim] with a cutset of ASCII characters. *)
Fixpoint drop_while (f : ascii → bool) (s : bytes) : bytes :=
  match s with
  | c :: s' => if f c then drop_while f s' else s
  | [] => []
  end.
Definition trim_func (f : ascii → bool) (s : bytes) : bytes :=
  rev (drop_while f (rev (drop_while f s))).
Definition Trim (s cutset : bytes) : bytes := trim_func (λ c, bool_decide (c ∈ cutset)) s.

(** ** Splitting and joining *)

(** [strings.Split] with a separator of one byte. *)
Fixpoint split_byte (sep : ascii) (s : bytes) : list bytes :=
  match s with
  | [] => [[]]
  | c :: s' =>
      if bool_decide (c = sep) then [] :: split_byte sep s'
      else match split_byte sep s' with
           | w :: ws => (c :: w) :: ws
           | [] => [[c]]
           end
  end.

(** [strings.Split] with any non-empty separator: [skip] counts the bytes of a
    separator still to be passed over. *)
Fixpoint split_go (sep s : bytes) (skip : nat) (cur : bytes) : list bytes :=
  match s with
  | [] => [rev cur]
  | c :: s' =>
      match skip with
      | S k => split_go sep s' k cur
      | 0 => if HasPrefix s sep then rev cur :: split_go sep s' (length sep - 1) []
             else split_go sep s' 0 (c :: cur)
      end
  end.
Definition Split (s sep : bytes) : list bytes := split_go sep s 0 [].

Fixpoint Join (l : list bytes) (sep : bytes) : bytes :=
  match l with
  | [] => []
  | [w] => w
  | w :: l' => w ++ sep ++ Join l' sep
  end.

(** [strings.FieldsFunc] for a predicate that only holds of ASCII characters. *)
Fixpoint fields_go (f : ascii → bool) (s cur : bytes) : list bytes :=
  match s with
  | [] => match cur with [] => [] | _ => [rev cur] end
  | c :: s' =>
      if f c then match cur with
                  | [] => fields_go f s' []
                  | _ => rev cur :: fields_go f s' []
                  end
      else fields_go f s' (c :: cur)
  end.
Definition FieldsFunc (s : bytes) (f : ascii → bool) : list bytes := fields_go f s [].

(** [strings.Fields] and [bytes.Fields]: [skip] counts the bytes of a wide
    white-space character still to be passed over. *)
Fixpoint fields_space (s : bytes) (skip : nat) (cur : bytes) : list bytes :=
  match s with
  | [] => match cur with [] => [] | _ => [rev cur] end
  | c :: s' =>
      match skip with
      | S k => fields_space s' k cur
      | 0 => match space_at s with
             | 0 => fields_space s' 0 (c :: cur)
             | S k => match cur with
                      | [] => fields_space s' k []
                      | _ => rev cur :: fields_space s' k []
                      end
             end
      end
  end.
Definition Fields (s : bytes) : list bytes := fields_space s 0 [].

(** ** Numbers *)

(** [%d] and [strconv.Itoa]. *)
Definition Itoa (z : Z) : bytes := bs (NilZero.string_of_int (Z.to_int z)).

Definition int_min : Z := (- 2 ^ 63)%Z.
Definition int_max : Z := (2 ^ 63 - 1)%Z.

Fixpoint digits_value (s : bytes) (acc : Z) : option Z :=
  match s with
  | [] => Some acc
  | c :: s' => if is_digit c then digits_value s' (acc * 10 + (code c - 48))%Z else None
  end.

(** [strconv.Atoi]: an optional sign and at least one digit, within an int. *)
Definition Atoi (s : bytes) : option Z :=
  let '(neg, d) := match s with
                   | "-"%char :: d => (true, d)
                   | "+"%char :: d => (false, d)
                   | _ => (false, s)
                   end in
  match d with
  | [] => None
  | _ => match digits_value d 0 with
         | Some v =>
             let z := if neg then (- v)%Z else v in
             if (int_min <=? z)%Z && (z <=? int_max)%Z then Some z else None
         | None => None
         end
  end.

(** [%x] of a number below 2^16. *)
Definition hex_digit (n : Z) : ascii :=
  ascii_of_N (Z.to_N (if (n <? 10)%Z then (48 + n)%Z else (87 + n)%Z)).
Fixpoint hex_go (fuel : nat) (n : Z) (acc : bytes) : bytes :=
  match fuel with
  | 0 => acc
  | S f => let acc' := hex_digit (n mod 16) :: acc in
           if (n <? 16)%Z then acc' else hex_go f (n / 16) acc'
  end.
Definition hex (n : Z) : bytes := hex_go 5 n [].

Definition hex_value (c : ascii) : option Z :=
  if is_digit c then Some (code c - 48)%Z
  else if between "a" "f" c then Some (code c - 87)%Z
  else if between "A" "F" c then Some (code c - 55)%Z
  else None.

(** ** Base 64 *)
Definition b64_value (c : ascii) : option Z :=
  if is_upper c then Some (code c - 65)%Z
  else if is_lower c then Some (code c - 71)%Z
  else if is_digit c then Some (code c + 4)%Z
  else if bool_decide (c = "+"%char) then Some 62%Z
  else if bool_decide (c = "/"%char) then Some 63%Z
  else None.

Definition byte_of (z : Z) : ascii := ascii_of_N (Z.to_N (z mod 256)).

(** A final group of 2 or 3 sextets gives 1 or 2 bytes; unused bits are not
    checked. *)
Fixpoint b64_groups (l : list Z) : option bytes :=
  match l with
  | [] => Some []
  | [_] => None
  | [a; b] => Some [byte_of (a * 4 + b / 16)]
  | [a; b; c] => Some [byte_of (a * 4 + b / 16); byte_of (b * 16 + c / 4)]
  | a :: b :: c :: d :: l' =>
      r ← b64_groups l';
      Some (byte_of (a * 4 + b / 16) :: byte_of (b * 16 + c / 4) :: byte_of (c * 64 + d) :: r)
  end%Z.

(** Carriage returns and line feeds are skipped anywhere in the input. *)
Definition b64_strip (s : bytes) : bytes :=
  List.filter (λ c, negb (bool_decide (c = "010"%char) || bool_decide (c = "013"%char))) s.

(** [base64.RawStdEncoding.DecodeString]. *)
Definition b64_raw_decode (s : bytes) : option bytes :=
  l ← mapM b64_value (b64_strip s); b64_groups l.

(** [base64.StdEncoding.DecodeString]: padded to a multiple of four. *)
Definition b64_std_decode (s : bytes) : option bytes :=
  let t := b64_strip s in
  if negb (length t mod 4 =? 0) then None
  else
    let body := if HasSuffix t "==" then take (length t - 2) t
                else if HasSuffix t "=" then take (length t - 1) t
                else t in
    l ← mapM b64_value body; b64_groups l.

(** ** Internet addresses

    A parsed [net.IP] has 16 bytes; an IPv4 address is mapped into the last
    four of them. *)
Definition IP : Type := list Z.

Definition v4_prefix : IP := [0; 0; 0; 0; 0; 0; 0; 0; 0; 0; 255; 255]%Z.

(** One octet: decimal, at most 255, no leading zero. *)
Fixpoint octet_go (s : bytes) (val : Z) (n : nat) : option Z :=
  match s with
  | [] => if n =? 0 then None else Some val
  | c :: s' =>
      if is_digit c then
        if (n =? 1) && (val =? 0)%Z then None
        else let v := (val * 10 + (code c - 48))%Z in
             if (255 <? v)%Z then None else octet_go s' v (S n)
      else None
  end.
Definition parse_ipv4 (s : bytes) : option (list Z) :=
  match split_byte "." s with
  | [a; b; c; d] => mapM (λ w, octet_go w 0 0) [a; b; c; d]
  | _ => None
  end.

(** The hexadecimal digits at the front, at most four of them. *)
Fixpoint hex_prefix (s : bytes) (acc : Z) (off : nat) : option (Z * nat * bytes) :=
  match s with
  | c :: s' => match hex_value c with
               | Some v => if 3 <? off then None else hex_prefix s' (acc * 16 + v)%Z (S off)
               | None => Some (acc, off, s)
               end
  | [] => Some (acc, off, [])
  end.

(** The loop over the groups: [acc] the bytes so far, [ell] the position of the
    ellipsis in them. Eight groups at most. *)
Fixpoint ipv6_groups (fuel : nat) (s : bytes) (out : list Z) (ell : option nat)
    : option (list Z * option nat * bytes) :=
  match fuel with
  | 0 => Some (out, ell, s)
  | S f =>
      '(v, off, rest) ← hex_prefix s 0 0;
      if off =? 0 then None
      else match rest with
      | "."%char :: _ =>
          if (match ell with None => negb (length out =? 12) | _ => false end) then None
          else if 16 <? length out + 4 then None
          else four ← parse_ipv4 s; Some (out ++ four, ell, [])
      | [] => Some (out ++ [v / 256; v mod 256], ell, [])%Z
      | ":"%char :: rest' =>
          let out' := out ++ [v / 256; v mod 256]%Z in
          match rest' with
          | [] => None
          | ":"%char :: rest'' =>
              match ell with
              | Some _ => None
              | None => match rest'' with
                        | [] => Some (out', Some (length out'), [])
                        | _ => ipv6_groups f rest'' out' (Some (length out'))
                        end
              end
          | _ => ipv6_groups f rest' out' ell
          end
      | _ => None
      end
  end.

Definition parse_ipv6 (s : bytes) : option IP :=
  let finish (r : list Z * option nat * bytes) : option IP :=
    let '(out, ell, rest) := r in
    match rest with
    | _ :: _ => None
    | [] => if length out <? 16 then
              match ell with
              | None => None
              | Some k => Some (take k out ++ replicate (16 - length out) 0%Z ++ drop k out)
              end
            else match ell with Some _ => None | None => Some out end
    end in
  match s with
  | ":"%char :: ":"%char :: [] => Some (replicate 16 0%Z)
  | ":"%char :: ":"%char :: s' => r ← ipv6_groups 8 s' [] (Some 0); finish r
  | _ => r ← ipv6_groups 8 s [] None; finish r
  end.

(** [net.ParseIP]; an address with a zone is not an IP. *)
Definition ParseIP (s : bytes) : option IP :=
  match List.find (λ c, bool_decide (c ∈ ["."; ":"; "%"]%char)) s with
  | Some "."%char => (app v4_prefix) <$> parse_ipv4 s
  | Some ":"%char => if bool_decide ("%"%char ∈ s) then None else parse_ipv6 s
  | _ => None
  end.

(** [net.IP.String]: dotted for IPv4, else groups of hexadecimal with the first
    longest run of two or more zero groups written [::]. *)
Fixpoint ip_words (l : list Z) : list Z :=
  match l with
  | a :: b :: l' => (a * 256 + b)%Z :: ip_words l'
  | _ => []
  end.
Fixpoint zero_run (l : list Z) : nat :=
  match l with
  | 0%Z :: l' => S (zero_run l')
  | _ => 0
  end.
Fixpoint best_run (l : list Z) (i : nat) (best : nat * nat) : nat * nat :=
  match l with
  | [] => best
  | _ :: l' => let n := zero_run l in
               best_run l' (S i) (if (2 <=? n) && (snd best <? n) then (i, n) else best)
  end.
Definition ip_string (ip : IP) : bytes :=
  if bool_decide (take 12 ip = v4_prefix)
  then Join (map Itoa (drop 12 ip)) "."
  else
    let w := ip_words ip in
    let '(i, n) := best_run w 0 (0, 0) in
    if n =? 0 then Join (map hex w) ":"
    else Join (map hex (take i w)) ":" ++ "::" ++ Join (map hex (drop (i + n) w)) ":".

(** ** Printable text *)

(** The bytes from space to tilde: no control byte, no line break. *)
Definition printable (c : ascii) : bool := between " " "~" c.
Definition Printable (s : bytes) : Prop := Forall (λ c, printable c) s.
(** Text without a line end. *)
Definition one_line (s : bytes) : Prop := (LF ∉ s) ∧ (CR ∉ s).

Lemma code_inj c d : code c = code d → c = d.
Proof.
  unfold code. intros H%N2Z.inj. rewrite <- (ascii_N_embedding c), <- (ascii_N_embedding d).
  by f_equal.
Qed.

Lemma Printable_nil : Printable [].
Proof. constructor. Qed.
Lemma Printable_app s t : Printable s → Printable t → Printable (s ++ t).
Proof. apply Forall_app_2. Qed.
Lemma Printable_one c : printable c → Printable [c].
Proof. intros. by repeat constructor. Qed.
#[export] Hint Resolve Printable_nil Printable_app Printable_one : go.

Lemma Printable_Join l sep : Forall Printable l → Printable sep → Printable (Join l sep).
Proof.
  intros Hl Hs. induction Hl as [|x l Hx Hl IH]; [apply Printable_nil|].
  destruct l; [done|]. simpl in *. auto with go.
Qed.

Lemma string_of_uint_printable u : Printable (NilEmpty.string_of_uint u).
Proof. induction u; simpl; [constructor|by constructor..]. Qed.
Lemma Itoa_printable z : Printable (Itoa z).
Proof.
  unfold Itoa. destruct (Z.to_int z) as [u|u]; simpl.
  - unfold NilZero.string_of_uint. destruct u; try apply string_of_uint_printable.
    by repeat constructor.
  - constructor; [done|]. unfold NilZero.string_of_uint.
    destruct u; try apply string_of_uint_printable. by repeat constructor.
Qed.

Lemma hex_digit_printable n : (0 ≤ n < 16)%Z → printable (hex_digit n).
Proof.
  intros H. assert (n ∈ seqZ 0 16) as E by (apply elem_of_seqZ; lia).
  clear H. revert n E. apply list.Forall_forall. vm_compute. by repeat constructor.
Qed.
Lemma hex_go_printable fuel n acc : Printable acc → Printable (hex_go fuel n acc).
Proof.
  revert n acc. induction fuel as [|f IH]; intros n acc H; simpl; [done|].
  assert (Printable (hex_digit (n mod 16) :: acc)).
  { constructor; [|done]. apply hex_digit_printable. apply Z.mod_pos_bound. lia. }
  destruct (n <? 16)%Z; auto.
Qed.
Lemma hex_printable n : Printable (hex n).
Proof. apply hex_go_printable, Printable_nil. Qed.

Lemma ip_string_printable ip : Printable (ip_string ip).
Proof.
  assert (∀ l, Printable (Join (map hex l) ":")) as Hh.
  { intros l. apply Printable_Join; [|by repeat constructor].
    apply Forall_fmap, Forall_true. intros. apply hex_printable. }
  unfold ip_string. case_bool_decide.
  - apply Printable_Join; [|by repeat constructor].
    apply Forall_fmap, Forall_true. intros. apply Itoa_printable.
  - destruct (best_run _ _ _) as [i n]. destruct (n =? 0); [apply Hh|].
    apply Printable_app; [apply Hh|]. constructor; [done|]. constructor; [done|]. apply Hh.
Qed.

(** ** Trimming twice *)
Lemma HasPrefix_app_l s t p : HasPrefix s p = true → HasPrefix (s ++ t) p = true.
Proof.
  revert s. induction p as [|c p IH]; intros s H; [by destruct (s ++ t)|].
  destruct s as [|d s]; [done|]. simpl in *. apply andb_true_iff in H as [-> H]. simpl. by apply IH.
Qed.
Lemma find_some_nz {A} (f : A → bool) l x : List.find f l = Some x → x ∈ l ∧ f x = true.
Proof. intros H%List.find_some. by rewrite list_elem_of_In. Qed.
Lemma wide_space_nonempty w : w ∈ wide_spaces → w ≠ [].
Proof.
  revert w. apply list.Forall_forall.
  assert (forallb (λ w : bytes, negb (bool_decide (w = []))) wide_spaces = true) as H by (vm_compute; reflexivity).
  apply List.Forall_forall. intros w Hw. rewrite forallb_forall in H.
  specialize (H w Hw). by apply negb_true_iff, bool_decide_eq_false in H.
Qed.
Lemma space_at_0_prefix s t : space_at (s ++ t) = 0 → space_at s = 0.
Proof.
  destruct s as [|c s]; [done|]. cbn [space_at app].
  destruct (is_space c); [done|]. destruct (is_ascii c); [done|]. intros H.
  destruct (List.find (HasPrefix (c :: s)) wide_spaces) as [w|] eqn:E; [|done].
  apply find_some_nz in E as [Hw Hp].
  destruct (List.find (HasPrefix (c :: s ++ t)) wide_spaces) as [w'|] eqn:E'.
  - apply find_some_nz in E' as [Hw' _]. apply wide_space_nonempty in Hw'. by destruct w'.
  - exfalso. pose proof (List.find_none _ _ E' w) as N. rewrite <- list_elem_of_In in N.
    change (c :: s ++ t) with ((c :: s) ++ t) in N. rewrite HasPrefix_app_l in N; [|done].
    by specialize (N Hw).
Qed.
Lemma trim_left_clean n : ∀ s, length s ≤ n → space_at (trim_left n s) = 0.
Proof.
  induction n as [|n IH]; intros s H; [by destruct s; [|cbn in H; lia]|]. simpl.
  destruct (space_at s) as [|k] eqn:E; [done|]. apply IH. destruct s; [done|].
  rewrite length_drop. simpl in *. lia.
Qed.
Lemma trim_right_clean n : ∀ s, length s ≤ n → space_at_end (trim_right n s) = 0.
Proof.
  induction n as [|n IH]; intros s H; [by destruct s; [|cbn in H; lia]|]. simpl.
  destruct (space_at_end s) as [|k] eqn:E; [done|]. apply IH. destruct s; [done|].
  rewrite length_take. simpl in *. lia.
Qed.
Lemma trim_right_prefix n : ∀ s, ∃ t, s = trim_right n s ++ t.
Proof.
  induction n as [|n IH]; intros s; [exists []; by rewrite app_nil_r|]. simpl.
  destruct (space_at_end s) as [|k] eqn:E; [exists []; by rewrite app_nil_r|].
  destruct (IH (take (length s - S k) s)) as [t Ht].
  exists (t ++ drop (length s - S k) s). rewrite app_assoc, <- Ht. by rewrite take_drop.
Qed.
Lemma trim_left_id n s : space_at s = 0 → trim_left n s = s.
Proof. destruct n; [done|]. simpl. by intros ->. Qed.
Lemma trim_right_id n s : space_at_end s = 0 → trim_right n s = s.
Proof. destruct n; [done|]. simpl. by intros ->. Qed.
Lemma TrimSpace_idem s : TrimSpace (TrimSpace s) = TrimSpace s.
Proof.
  unfold TrimSpace at 1. cbv zeta.
  assert (space_at (TrimSpace s) = 0) as Hl.
  { unfold TrimSpace. cbv zeta. destruct (trim_right_prefix (length (trim_left (length s) s)) (trim_left (length s) s)) as [t Ht].
    apply (space_at_0_prefix _ t). rewrite <- Ht. by apply trim_left_clean. }
  rewrite (trim_left_id _ _ Hl). apply trim_right_id. unfold TrimSpace. cbv zeta. by apply trim_right_clean.
Qed.

(** ** What trimming keeps *)
Lemma HasSuffix_split s w : HasSuffix s w = true → ∃ u, s = u ++ w.
Proof.
  unfold HasSuffix. intros H. assert (∀ p q : bytes, HasPrefix q p = true → ∃ r, q = p ++ r) as L.
  { induction p as [|c p IH]; intros q Hq; [by exists q|]. destruct q as [|d q]; [done|].
    simpl in Hq. apply andb_true_iff in Hq as [Hc Hq]. apply IH in Hq as [r ->]. apply bool_decide_eq_true in Hc as ->. by exists r. }
  apply L in H as [r Hr]. exists (rev r). by rewrite <- (rev_involutive s), Hr, rev_app_distr, rev_involutive.
Qed.
Lemma wide_space_bytes w c : w ∈ wide_spaces → c ∈ w → is_ascii c = false.
Proof.
  assert (forallb (forallb (λ c, negb (is_ascii c))) wide_spaces = true) as H by (vm_compute; reflexivity).
  rewrite forallb_forall in H. intros Hw Hc. specialize (H w (proj1 (list_elem_of_In _ _) Hw)).
  rewrite forallb_forall in H. apply negb_true_iff, H. by apply list_elem_of_In.
Qed.
Lemma space_at_end_solid p c t : solid c = true → space_at_end (p ++ c :: t) ≤ length t.
Proof.
  intros Hc. apply andb_true_iff in Hc as [Ha Hs]. apply negb_true_iff in Hs.
  unfold space_at_end. destruct t as [|d t] using rev_ind.
  - rewrite rev_app_distr. cbn. by rewrite Hs, Ha.
  - assert (length (t ++ [d]) = length t + 1) as El by (rewrite length_app; done).
    rewrite El, app_comm_cons, app_assoc, rev_app_distr. cbn [rev app].
    clear IHt. destruct (is_space d); [lia|]. destruct (is_ascii d) eqn:Hd; [lia|].
    destruct (List.find _ wide_spaces) as [w|] eqn:Ew; [|lia]. apply find_some_nz in Ew as [Hw Hsuf].
    apply HasSuffix_split in Hsuf as [u Hu]. destruct (decide (length w ≤ length t + 1)); [done|]. exfalso.
    assert (is_ascii c = false); [|congruence]. apply (wide_space_bytes w); [done|].
    assert ((u ++ w) !! length p = Some c) as Hl.
    { rewrite <- Hu. rewrite <- app_assoc, <- app_comm_cons. by apply list_lookup_middle. }
    apply (f_equal length) in Hu. rewrite !length_app in Hu. cbn in Hu.
    rewrite lookup_app_r in Hl by lia. by eapply list_elem_of_lookup_2.
Qed.
Lemma trim_right_solid n p c t : solid c = true → ∃ t', trim_right n (p ++ c :: t) = p ++ c :: t'.
Proof.
  intros Hc. revert t. induction n as [|n IH]; intros t; cbn [trim_right]; [by exists t|].
  pose proof (space_at_end_solid p c t Hc) as Hle. destruct (space_at_end (p ++ c :: t)) as [|k]; [by exists t|].
  rewrite length_app. cbn [length]. rewrite take_app_ge by lia.
  replace (length p + S (length t) - S k - length p) with (S (length t - S k)) by lia. cbn [take]. apply IH.
Qed.
(** Text that begins with a character that is not a space, and has another one at its
    end or later: trimming keeps what is between. *)
Lemma TrimSpace_solid c p d t : solid c = true → solid d = true →
  ∃ t', TrimSpace (c :: p ++ d :: t) = c :: p ++ d :: t'.
Proof.
  intros Hc Hd. unfold TrimSpace. cbv zeta. rewrite trim_left_id.
  - rewrite app_comm_cons. destruct (trim_right_solid (length ((c :: p) ++ d :: t)) (c :: p) d t Hd) as [t' ->]. by exists t'.
  - cbn. apply andb_true_iff in Hc as [-> Hs]. apply negb_true_iff in Hs as ->. done.
Qed.

Lemma trim_left_sub c n : ∀ s, c ∈ trim_left n s → c ∈ s.
Proof.
  induction n as [|n IH]; intros s; [done|]. cbn [trim_left]. destruct (space_at s) as [|k]; [done|].
  intros H%IH. by eapply subseteq_drop.
Qed.
Lemma TrimSpace_length s : length (TrimSpace s) ≤ length s.
Proof.
  assert (Hl : ∀ n s, length (trim_left n s) ≤ length s).
  { induction n as [|n IH]; intros t; [done|]. cbn. destruct (space_at t); [done|]. etrans; [apply IH|]. rewrite length_drop. lia. }
  unfold TrimSpace. destruct (trim_right_prefix (length (trim_left (length s) s)) (trim_left (length s) s)) as [t Ht].
  pose proof (f_equal length Ht) as E. rewrite length_app in E. specialize (Hl (length s) s). lia.
Qed.
Lemma TrimSpace_sub c s : c ∈ TrimSpace s → c ∈ s.
Proof.
  unfold TrimSpace. cbv zeta. intros H. apply (trim_left_sub c (length s)).
  destruct (trim_right_prefix (length (trim_left (length s) s)) (trim_left (length s) s)) as [t Ht].
  rewrite Ht, elem_of_app. by left.
Qed.

Lemma Printable_one_line s : Printable s → one_line s.
Proof. unfold Printable, one_line. rewrite !list.Forall_forall. intros H. split; intros Hc%H; by vm_compute in Hc. Qed.
Lemma one_line_app s t : one_line s → one_line t → one_line (s ++ t).
Proof. intros [] []. split; rewrite elem_of_app; tauto. Qed.
Lemma one_line_TrimSpace s : one_line s → one_line (TrimSpace s).
Proof. intros []. by split; intros ?%TrimSpace_sub. Qed.


(** ** Splitting at a byte *)
Lemma split_byte_app a r c : (c ∉ a) → split_byte c (a ++ c :: r) = a :: split_byte c r.
Proof.
  induction a as [|d a IH]; intros H; cbn [split_byte app]; [by rewrite bool_decide_true|].
  rewrite not_elem_of_cons in H. destruct H. rewrite bool_decide_false by congruence. by rewrite IH.
Qed.
Lemma split_byte_none a c : (c ∉ a) → split_byte c a = [a].
Proof.
  induction a as [|d a IH]; intros H; [done|]. rewrite not_elem_of_cons in H. destruct H.
  cbn [split_byte]. rewrite bool_decide_false by congruence. by rewrite IH.
Qed.

(** ** Decimal numbers *)
Lemma digits_value_pos u : ∀ p, digits_value (bs (NilEmpty.string_of_uint u)) (Z.pos p) = Some (Z.pos (Pos.of_uint_acc u p)).
Proof.
  induction u; intros p; [done|..]; cbn [NilEmpty.string_of_uint bs String.list_ascii_of_string digits_value];
    match goal with |- context [is_digit ?c] => replace (is_digit c) with true by (vm_compute; reflexivity) end.
  all: cbn [Pos.of_uint_acc]; rewrite <- IHu; f_equal; unfold code; cbn; lia.
Qed.
Lemma digits_value_uint u : digits_value (bs (NilEmpty.string_of_uint u)) 0 = Some (Z.of_N (Pos.of_uint u)).
Proof.
  induction u; [done|..]; cbn [NilEmpty.string_of_uint bs String.list_ascii_of_string digits_value];
    match goal with |- context [is_digit ?c] => replace (is_digit c) with true by (vm_compute; reflexivity) end.
  - exact IHu.
  - apply (digits_value_pos u 1).
  - apply (digits_value_pos u 2).
  - apply (digits_value_pos u 3).
  - apply (digits_value_pos u 4).
  - apply (digits_value_pos u 5).
  - apply (digits_value_pos u 6).
  - apply (digits_value_pos u 7).
  - apply (digits_value_pos u 8).
  - apply (digits_value_pos u 9).
Qed.
(** The decimal digits of a number, none of them a sign. *)
Lemma unsigned_digits u : u ≠ Decimal.Nil → ∃ c s, bs (NilZero.string_of_uint u) = c :: s ∧
  is_digit c = true ∧ NilZero.string_of_uint u = NilEmpty.string_of_uint u.
Proof. destruct u; [done|..]; intros _; (do 2 eexists; split; [reflexivity|split; [vm_compute; reflexivity|done]]). Qed.
Lemma Itoa_digits z : (0 ≤ z)%Z → ∃ c s, Itoa z = c :: s ∧ is_digit c = true ∧ digits_value (Itoa z) 0 = Some z.
Proof.
  intros Hz. unfold Itoa. destruct z as [|p|p]; [do 2 eexists; split_and!; [reflexivity|vm_compute; reflexivity..]| |lia].
  assert (Hn : Pos.to_uint p ≠ Decimal.Nil) by apply DecimalPos.Unsigned.to_uint_nonnil.
  destruct (unsigned_digits _ Hn) as (c&s&H1&H2&H3). exists c, s.
  cbn [Z.to_int NilZero.string_of_int]. split_and!; [done..|].
  rewrite H3, digits_value_uint. by rewrite DecimalPos.Unsigned.of_to.
Qed.
Lemma Atoi_digits c s v : is_digit c = true → digits_value (c :: s) 0 = Some v → (0 ≤ v ≤ int_max)%Z → Atoi (c :: s) = Some v.
Proof.
  intros Hc Hv Hr. unfold Atoi. transitivity (match digits_value (c :: s) 0 with
    | Some v => if (int_min <=? v)%Z && (v <=? int_max)%Z then Some v else None | None => None end).
  - destruct c as [[][][][][][][][]]; first [reflexivity|vm_compute in Hc; discriminate].
  - rewrite Hv. replace (int_min <=? v)%Z with true; [replace (v <=? int_max)%Z with true; [done|]|];
      symmetry; apply Z.leb_le; unfold int_min, int_max in *; lia.
Qed.
(** Reading a number that was written. *)
Lemma Atoi_Itoa z : (0 ≤ z ≤ int_max)%Z → Atoi (Itoa z) = Some z.
Proof.
  intros Hr. destruct (Itoa_digits z) as (c&s&H1&H2&H3); [lia|]. rewrite H1 in H3 |- *. by apply Atoi_digits.
Qed.

(** ** Fields *)
Lemma fields_space_word w s : ∀ cur, Forall solid w → fields_space (w ++ s) 0 cur = fields_space s 0 (rev w ++ cur).
Proof.
  induction w as [|c w IH]; intros cur Hw; [done|]. apply list.Forall_cons in Hw as [Hc Hw].
  apply andb_prop_elim in Hc as [Hc1 Hc2]. cbn [fields_space app space_at].
  destruct (is_space c); [done|]. destruct (is_ascii c); [|done]. rewrite IH by done.
  cbn. by rewrite <- app_assoc.
Qed.
Lemma Fields_two a b : Forall solid a → Forall solid b → a ≠ [] → b ≠ [] → Fields (a ++ bs " " ++ b) = [a; b].
Proof.
  intros Ha Hb Ha0 Hb0. unfold Fields. rewrite fields_space_word, app_nil_r by done.
  destruct a as [|c a _] using rev_ind; [done|]. rewrite rev_app_distr. cbn. rewrite rev_involutive. f_equal.
  rewrite <- (app_nil_r b) at 1. rewrite fields_space_word, app_nil_r by done. cbn.
  destruct b as [|d b _] using rev_ind; [done|]. rewrite rev_app_distr. cbn. by rewrite rev_involutive.
Qed.
Lemma solid_digit c : is_digit c = true → solid c.
Proof. destruct c as [[][][][][][][][]]; vm_compute; done. Qed.
Lemma string_of_uint_digits u : Forall is_digit (bs (NilEmpty.string_of_uint u)).
Proof. induction u; cbn [NilEmpty.string_of_uint bs String.list_ascii_of_string]; constructor; done. Qed.
Lemma Itoa_solid z : (0 ≤ z)%Z → Forall solid (Itoa z).
Proof.
  intros Hz. apply (list.Forall_impl is_digit); [|intros c Hc; apply solid_digit; by destruct (is_digit c)].
  unfold Itoa. destruct z as [|p|p]; [by repeat constructor| |lia]. cbn.
  pose proof (string_of_uint_digits (Pos.to_uint p)) as H. by destruct (Pos.to_uint p); [repeat constructor|..].
Qed.
