(* ===== verification/Response.v ===== *)
(** * SMTP replies: the package [response] (response/enhanced.go)

    Enhanced status codes (RFC 3463), their mapping to basic codes, the text of
    a reply and the canned replies the server sends. The file [quote.go] is a
    table of quotations and is left out; [GetQuote] is an oracle of the server. *)
From S2P Require Import Prelude GoStd.

(** ** Classes and subject-detail codes *)
Definition class : Type := Z.
Definition ClassSuccess : class := 2%Z.
Definition ClassTransientFailure : class := 4%Z.
Definition ClassPermanentFailure : class := 5%Z.

Definition SP : bytes := " ".

(** [class.String]: the verb is [%c], so the class is written as a character. *)
Definition class_String (c : class) : bytes := ascii_of_N (Z.to_N c) :: bs "00".

Definition subjectDetail : Type := bytes.
Definition OtherStatus : subjectDetail := ".0.0".
Definition OtherAddressStatus : subjectDetail := ".1.0".
Definition BadDestinationMailboxAddress : subjectDetail := ".1.1".
Definition BadDestinationSystemAddress : subjectDetail := ".1.2".
Definition BadDestinationMailboxAddressSyntax : subjectDetail := ".1.3".
Definition DestinationMailboxAddressAmbiguous : subjectDetail := ".1.4".
Definition DestinationMailboxAddressValid : subjectDetail := ".1.5".
Definition MailboxHasMoved : subjectDetail := ".1.6".
Definition BadSendersMailboxAddressSyntax : subjectDetail := ".1.7".
Definition BadSendersSystemAddress : subjectDetail := ".1.8".
Definition OtherOrUndefinedMailboxStatus : subjectDetail := ".2.0".
Definition MailboxDisabled : subjectDetail := ".2.1".
Definition MailboxFull : subjectDetail := ".2.2".
Definition MessageLengthExceedsAdministrativeLimit : subjectDetail := ".2.3".
Definition MailingListExpansionProblem : subjectDetail := ".2.4".
Definition OtherOrUndefinedMailSystemStatus : subjectDetail := ".3.0".
Definition MailSystemFull : subjectDetail := ".3.1".
Definition SystemNotAcceptingNetworkMessages : subjectDetail := ".3.2".
Definition SystemNotCapableOfSelectedFeatures : subjectDetail := ".3.3".
Definition MessageTooBigForSystem : subjectDetail := ".3.4".
Definition OtherOrUndefinedNetworkOrRoutingStatus : subjectDetail := ".4.0".
Definition NoAnswerFromHost : subjectDetail := ".4.1".
Definition BadConnection : subjectDetail := ".4.2".
Definition RoutingServerFailure : subjectDetail := ".4.3".
Definition UnableToRoute : subjectDetail := ".4.4".
Definition NetworkCongestion : subjectDetail := ".4.5".
Definition RoutingLoopDetected : subjectDetail := ".4.6".
Definition DeliveryTimeExpired : subjectDetail := ".4.7".
Definition OtherOrUndefinedProtocolStatus : subjectDetail := ".5.0".
Definition InvalidCommand : subjectDetail := ".5.1".
Definition SyntaxError : subjectDetail := ".5.2".
Definition TooManyRecipients : subjectDetail := ".5.3".
Definition InvalidCommandArguments : subjectDetail := ".5.4".
Definition WrongProtocolVersion : subjectDetail := ".5.5".
Definition OtherOrUndefinedMediaError : subjectDetail := ".6.0".
Definition MediaNotSupported : subjectDetail := ".6.1".
Definition ConversionRequiredAndProhibited : subjectDetail := ".6.2".
Definition ConversionRequiredButNotSupported : subjectDetail := ".6.3".
Definition ConversionWithLossPerformed : subjectDetail := ".6.4".
Definition ConversionFailed : subjectDetail := ".6.5".

(** ** Enhanced status codes *)
Record EnhancedStatusCode := EnhancedStatusCode_ {
  esc_Class : class;
  SubjectDetailCode : subjectDetail
}.
#[export] Instance esc_eq_dec : EqDecision EnhancedStatusCode.
Proof. solve_decision. Defined.
#[export] Instance esc_countable : Countable EnhancedStatusCode.
Proof.
  refine (inj_countable' (λ e, (esc_Class e : Z, SubjectDetailCode e : bytes))
            (λ p, EnhancedStatusCode_ p.1 p.2) _).
  by intros [].
Defined.

Definition esc_String (e : EnhancedStatusCode) : bytes :=
  Itoa (esc_Class e) ++ SubjectDetailCode e.

(** The basic code of an enhanced code. *)
Definition codeMap_entries : list (EnhancedStatusCode * Z) :=
  [(EnhancedStatusCode_ ClassSuccess OtherAddressStatus, 250);
   (EnhancedStatusCode_ ClassSuccess DestinationMailboxAddressValid, 250);
   (EnhancedStatusCode_ ClassSuccess OtherOrUndefinedMailSystemStatus, 250);
   (EnhancedStatusCode_ ClassSuccess OtherOrUndefinedProtocolStatus, 250);
   (EnhancedStatusCode_ ClassSuccess ConversionWithLossPerformed, 250);
   (EnhancedStatusCode_ ClassSuccess ".6.8", 252);
   (EnhancedStatusCode_ ClassSuccess ".7.0", 220);
   (EnhancedStatusCode_ ClassTransientFailure BadDestinationMailboxAddress, 451);
   (EnhancedStatusCode_ ClassTransientFailure BadSendersSystemAddress, 451);
   (EnhancedStatusCode_ ClassTransientFailure MailingListExpansionProblem, 450);
   (EnhancedStatusCode_ ClassTransientFailure OtherOrUndefinedMailSystemStatus, 421);
   (EnhancedStatusCode_ ClassTransientFailure MailSystemFull, 452);
   (EnhancedStatusCode_ ClassTransientFailure SystemNotAcceptingNetworkMessages, 453);
   (EnhancedStatusCode_ ClassTransientFailure NoAnswerFromHost, 451);
   (EnhancedStatusCode_ ClassTransientFailure BadConnection, 421);
   (EnhancedStatusCode_ ClassTransientFailure RoutingServerFailure, 451);
   (EnhancedStatusCode_ ClassTransientFailure NetworkCongestion, 451);
   (EnhancedStatusCode_ ClassTransientFailure OtherOrUndefinedProtocolStatus, 451);
   (EnhancedStatusCode_ ClassTransientFailure InvalidCommand, 430);
   (EnhancedStatusCode_ ClassTransientFailure TooManyRecipients, 452);
   (EnhancedStatusCode_ ClassTransientFailure InvalidCommandArguments, 451);
   (EnhancedStatusCode_ ClassTransientFailure ".7.0", 450);
   (EnhancedStatusCode_ ClassTransientFailure ".7.1", 451);
   (EnhancedStatusCode_ ClassTransientFailure ".7.12", 422);
   (EnhancedStatusCode_ ClassTransientFailure ".7.15", 450);
   (EnhancedStatusCode_ ClassTransientFailure ".7.24", 451);
   (EnhancedStatusCode_ ClassPermanentFailure BadDestinationMailboxAddress, 550);
   (EnhancedStatusCode_ ClassPermanentFailure BadDestinationMailboxAddressSyntax, 501);
   (EnhancedStatusCode_ ClassPermanentFailure BadSendersSystemAddress, 501);
   (EnhancedStatusCode_ ClassPermanentFailure ".1.10", 556);
   (EnhancedStatusCode_ ClassPermanentFailure MailboxFull, 552);
   (EnhancedStatusCode_ ClassPermanentFailure MessageLengthExceedsAdministrativeLimit, 552);
   (EnhancedStatusCode_ ClassPermanentFailure OtherOrUndefinedMailSystemStatus, 550);
   (EnhancedStatusCode_ ClassPermanentFailure MessageTooBigForSystem, 552);
   (EnhancedStatusCode_ ClassPermanentFailure RoutingServerFailure, 550);
   (EnhancedStatusCode_ ClassPermanentFailure OtherOrUndefinedProtocolStatus, 501);
   (EnhancedStatusCode_ ClassPermanentFailure InvalidCommand, 500);
   (EnhancedStatusCode_ ClassPermanentFailure SyntaxError, 500);
   (EnhancedStatusCode_ ClassPermanentFailure InvalidCommandArguments, 501);
   (EnhancedStatusCode_ ClassPermanentFailure ".5.6", 500);
   (EnhancedStatusCode_ ClassPermanentFailure ConversionRequiredButNotSupported, 554);
   (EnhancedStatusCode_ ClassPermanentFailure ".6.6", 554);
   (EnhancedStatusCode_ ClassPermanentFailure ".6.7", 553);
   (EnhancedStatusCode_ ClassPermanentFailure ".6.8", 550);
   (EnhancedStatusCode_ ClassPermanentFailure ".6.9", 550);
   (EnhancedStatusCode_ ClassPermanentFailure ".7.0", 550);
   (EnhancedStatusCode_ ClassPermanentFailure ".7.1", 551);
   (EnhancedStatusCode_ ClassPermanentFailure ".7.2", 550);
   (EnhancedStatusCode_ ClassPermanentFailure ".7.4", 504);
   (EnhancedStatusCode_ ClassPermanentFailure ".7.8", 554);
   (EnhancedStatusCode_ ClassPermanentFailure ".7.9", 534);
   (EnhancedStatusCode_ ClassPermanentFailure ".7.10", 523);
   (EnhancedStatusCode_ ClassPermanentFailure ".7.11", 524);
   (EnhancedStatusCode_ ClassPermanentFailure ".7.13", 525);
   (EnhancedStatusCode_ ClassPermanentFailure ".7.14", 535);
   (EnhancedStatusCode_ ClassPermanentFailure ".7.15", 550);
   (EnhancedStatusCode_ ClassPermanentFailure ".7.16", 552);
   (EnhancedStatusCode_ ClassPermanentFailure ".7.17", 500);
   (EnhancedStatusCode_ ClassPermanentFailure ".7.18", 500);
   (EnhancedStatusCode_ ClassPermanentFailure ".7.19", 500);
   (EnhancedStatusCode_ ClassPermanentFailure ".7.20", 550);
   (EnhancedStatusCode_ ClassPermanentFailure ".7.21", 550);
   (EnhancedStatusCode_ ClassPermanentFailure ".7.22", 550);
   (EnhancedStatusCode_ ClassPermanentFailure ".7.23", 550);
   (EnhancedStatusCode_ ClassPermanentFailure ".7.24", 550);
   (EnhancedStatusCode_ ClassPermanentFailure ".7.25", 550);
   (EnhancedStatusCode_ ClassPermanentFailure ".7.26", 550);
   (EnhancedStatusCode_ ClassPermanentFailure ".7.27", 550)]%Z.
Definition codeMap : gmap EnhancedStatusCode Z := list_to_map codeMap_entries.

Definition getBasicStatusCode (e : EnhancedStatusCode) : Z :=
  match codeMap !! e with
  | Some val => val
  | None => (esc_Class e * 100)%Z
  end.

Definition defaultTexts : gmap EnhancedStatusCode bytes :=
  list_to_map
    [(EnhancedStatusCode_ ClassSuccess ".0.0", bs "OK");
     (EnhancedStatusCode_ ClassSuccess ".1.0", bs "OK");
     (EnhancedStatusCode_ ClassSuccess ".1.5", bs "OK");
     (EnhancedStatusCode_ ClassSuccess ".5.0", bs "OK");
     (EnhancedStatusCode_ ClassTransientFailure ".5.3", bs "Too many recipients");
     (EnhancedStatusCode_ ClassTransientFailure ".5.4", bs "Relay access denied");
     (EnhancedStatusCode_ ClassPermanentFailure ".5.1", bs "Invalid command")].

(** ** Responses *)
Record Response := mkResponse {
  EnhancedCode : subjectDetail;
  BasicCode : Z;
  Class_ : class;
  Comment : bytes;
  cached : bytes
}.

Definition set_cached (r : Response) (s : bytes) : Response :=
  mkResponse (EnhancedCode r) (BasicCode r) (Class_ r) (Comment r) s.

(** The comment that [String] writes: the given one, or a default when neither a
    comment nor a basic code is given. *)
Definition default_comment (r : Response) : bytes :=
  if (length (Comment r) =? 0) && (BasicCode r =? 0)%Z then
    match defaultTexts !! EnhancedStatusCode_ (Class_ r) (EnhancedCode r) with
    | Some comment => comment
    | None =>
        if (Class_ r =? 2)%Z then "OK"
        else if (Class_ r =? 4)%Z then "Temporary failure."
        else if (Class_ r =? 5)%Z then "Permanent failure."
        else []
    end
  else Comment r.

(** [String] returns the text and keeps it in the receiver. *)
Definition Response_String (r : Response) : bytes * Response :=
  if bool_decide (cached r ≠ []) then (cached r, r)
  else if bool_decide (EnhancedCode r = []) then (Comment r, set_cached r (Comment r))
  else
    let comment := default_comment r in
    let e := EnhancedStatusCode_ (Class_ r) (EnhancedCode r) in
    let basicCode := if (BasicCode r =? 0)%Z then getBasicStatusCode e else BasicCode r in
    let s := Itoa basicCode ++ SP ++ esc_String e ++ SP ++ comment in
    (s, set_cached r s).

Definition text (r : Response) : bytes := fst (Response_String r).

(** ** The canned replies *)
Module Canned.
Definition FailLineTooLong : Response :=
  mkResponse InvalidCommand 554%Z ClassPermanentFailure "Line too long." [].
Definition FailNestedMailCmd : Response :=
  mkResponse InvalidCommand 503%Z ClassPermanentFailure "Error: nested MAIL command" [].
Definition SuccessMailCmd : Response :=
  mkResponse OtherAddressStatus 0%Z ClassSuccess "" [].
Definition SuccessRcptCmd : Response :=
  mkResponse DestinationMailboxAddressValid 0%Z ClassSuccess "" [].
Definition SuccessResetCmd : Response := SuccessMailCmd.
Definition SuccessNoopCmd : Response :=
  mkResponse OtherStatus 0%Z ClassSuccess "" [].
Definition SuccessVerifyCmd : Response :=
  mkResponse OtherOrUndefinedProtocolStatus 252%Z ClassSuccess "Cannot verify user" [].
Definition ErrorTooManyRecipients : Response :=
  mkResponse TooManyRecipients 452%Z ClassTransientFailure "Too many recipients" [].
Definition ErrorRelayDenied : Response :=
  mkResponse BadDestinationMailboxAddress 454%Z ClassTransientFailure "Error: Relay access denied:" [].
Definition SuccessQuitCmd : Response :=
  mkResponse OtherStatus 221%Z ClassSuccess "Bye" [].
Definition FailNoSenderDataCmd : Response :=
  mkResponse InvalidCommand 503%Z ClassPermanentFailure "Error: No sender" [].
Definition FailNoRecipientsDataCmd : Response :=
  mkResponse InvalidCommand 503%Z ClassPermanentFailure "Error: No recipients" [].
Definition SuccessDataCmd : Response :=
  mkResponse "" 354%Z 0%Z "354 Enter message, ending with '.' on a line by itself" [].
Definition SuccessStartTLSCmd : Response :=
  mkResponse OtherStatus 220%Z ClassSuccess "Ready to start TLS" [].
Definition FailUnrecognizedCmd : Response :=
  mkResponse InvalidCommand 554%Z ClassPermanentFailure "Unrecognized command" [].
Definition FailMaxUnrecognizedCmd : Response :=
  mkResponse InvalidCommand 554%Z ClassPermanentFailure "Too many unrecognized commands" [].
Definition ErrorShutdown : Response :=
  mkResponse OtherOrUndefinedMailSystemStatus 421%Z ClassTransientFailure "Server is shutting down. Please try again later. Sayonara!" [].
Definition FailSyntaxError : Response :=
  mkResponse SyntaxError 550%Z ClassPermanentFailure "Syntax error" [].
Definition FailReadLimitExceededDataCmd : Response :=
  mkResponse MessageLengthExceedsAdministrativeLimit 550%Z ClassPermanentFailure "Error:" [].
Definition FailMessageSizeExceeded : Response :=
  mkResponse OtherOrUndefinedNetworkOrRoutingStatus 552%Z ClassPermanentFailure "Error:" [].
Definition FailReadErrorDataCmd : Response :=
  mkResponse OtherOrUndefinedMailSystemStatus 451%Z ClassTransientFailure "Error:" [].
Definition FailPathTooLong : Response :=
  mkResponse InvalidCommandArguments 550%Z ClassPermanentFailure "Path too long" [].
Definition FailInvalidAddress : Response :=
  mkResponse InvalidCommandArguments 501%Z ClassPermanentFailure "Invalid address" [].
Definition FailLocalPartTooLong : Response :=
  mkResponse InvalidCommandArguments 550%Z ClassPermanentFailure "Local part too long, cannot exceed 64 characters" [].
Definition FailDomainTooLong : Response :=
  mkResponse InvalidCommandArguments 550%Z ClassPermanentFailure "Domain cannot exceed 255 characters" [].
Definition FailBackendNotRunning : Response :=
  mkResponse OtherOrUndefinedProtocolStatus 554%Z ClassPermanentFailure "Transaction failed - backend not running" [].
Definition FailBackendTransaction : Response :=
  mkResponse OtherOrUndefinedProtocolStatus 554%Z ClassPermanentFailure "Error:" [].
Definition SuccessMessageQueued : Response :=
  mkResponse OtherStatus 250%Z ClassSuccess "OK: queued as" [].
Definition FailBackendTimeout : Response :=
  mkResponse OtherOrUndefinedProtocolStatus 554%Z ClassPermanentFailure "Error: transaction timeout" [].
Definition FailRcptCmd : Response :=
  mkResponse BadDestinationMailboxAddress 550%Z ClassPermanentFailure "User unknown in local recipient table" [].

(** Every field of [Responses]. *)
Definition Responses : list Response :=
  [FailLineTooLong;
   FailNestedMailCmd;
   SuccessMailCmd;
   SuccessRcptCmd;
   SuccessResetCmd;
   SuccessNoopCmd;
   SuccessVerifyCmd;
   ErrorTooManyRecipients;
   ErrorRelayDenied;
   SuccessQuitCmd;
   FailNoSenderDataCmd;
   FailNoRecipientsDataCmd;
   SuccessDataCmd;
   SuccessStartTLSCmd;
   FailUnrecognizedCmd;
   FailMaxUnrecognizedCmd;
   ErrorShutdown;
   FailSyntaxError;
   FailReadLimitExceededDataCmd;
   FailMessageSizeExceeded;
   FailReadErrorDataCmd;
   FailPathTooLong;
   FailInvalidAddress;
   FailLocalPartTooLong;
   FailDomainTooLong;
   FailBackendNotRunning;
   FailBackendTransaction;
   SuccessMessageQueued;
   FailBackendTimeout;
   FailRcptCmd].
End Canned.

(** ** What the replies look like *)

(** A reply line: three digits and a space, no line break; with an enhanced code
    its class digit repeats the first digit of the basic code. *)
Definition no_line_break (s : bytes) : bool :=
  forallb (λ c, negb (bool_decide (c = "010"%char) || bool_decide (c = "013"%char))) s.

Definition reply_line (s : bytes) : bool :=
  match s with
  | a :: b :: c :: " "%char :: _ => between "2" "5" a && is_digit b && is_digit c && no_line_break s
  | _ => false
  end.

Definition class_digit (s : bytes) : option ascii := s !! 0.

Definition canned_ok (r : Response) : bool :=
  reply_line (text r)
  && (bool_decide (EnhancedCode r = [])
      || bool_decide (class_digit (text r) = text r !! 4)).

Lemma codeMap_entries_class :
  Forall (λ p : EnhancedStatusCode * Z, (p.2 / 100)%Z = esc_Class p.1) codeMap_entries.
Proof. apply (bool_decide_unpack _). vm_compute. exact I. Qed.

(** The basic code that [getBasicStatusCode] gives to an enhanced status code
    belongs to the class of the enhanced code (2xx, 4xx, 5xx), for mapped codes and
    for the fallback. *)
Theorem getBasicStatusCode_class (e : EnhancedStatusCode) :
  (getBasicStatusCode e / 100)%Z = esc_Class e.
Proof.
  unfold getBasicStatusCode. destruct (codeMap !! e) as [v|] eqn:H.
  - apply elem_of_list_to_map_2 in H.
    pose proof codeMap_entries_class as F. rewrite list.Forall_forall in F. exact (F _ H).
  - by rewrite Z.div_mul.
Qed.

(** Every canned reply is one line that starts with a three-digit code from 200
    to 599 and a space, and its enhanced code repeats the class of the basic code. *)
Theorem canned_replies_well_formed (r : Response) :
  r ∈ Canned.Responses → canned_ok r = true.
Proof.
  assert (Forall (λ r, canned_ok r = true) Canned.Responses) as F.
  { repeat constructor. }
  rewrite list.Forall_forall in F. exact (F r).
Qed.

Lemma canned_replies_well_formed_witness :
  canned_ok Canned.ErrorRelayDenied = true.
Proof. apply (canned_replies_well_formed Canned.ErrorRelayDenied). repeat constructor. Defined.

(** The text that [String] keeps in a response is the text it returned, so
    calling it again changes nothing. *)
Theorem Response_String_stable (r : Response) :
  Response_String (snd (Response_String r)) = Response_String r.
Proof.
  unfold Response_String, set_cached.
  destruct r as [ec bc cl co [|c cs]]; simpl; [|done].
  destruct (bool_decide (ec = [])) eqn:He; simpl.
  - by destruct co; simpl; rewrite ?He.
  - rewrite He. unfold default_comment; simpl.
    match goal with |- context [bool_decide (?x ≠ [])] => generalize x end.
    intros s. by destruct (bool_decide (s ≠ [])).
Qed.
