(* ===== verification/Rfc5321.v ===== *)
(** * The SMTP address parser: package [rfc5321], type [Parser]
    (mail/rfc5321/parse.go)

    A recursive-descent parser over a byte buffer with a position, the last byte
    read and an accept buffer. Every production is a method that changes the
    parser on all paths, so each is a computation of the state and error monad of
    the prelude. The loops [for c := s.next(); ; c = s.next()] take the number of
    iterations they may run; [MailFrom] and the other entry points are proved to
    return within the length of their input plus two. *)
From S2P Require Import Prelude GoStd.

Definition LimitPath : nat := 256.
Definition LimitLocalPart : nat := 64 * 2.
Definition LimitDomain : nat := 255.
Definition LimitRecipients : nat := 100.

(** The errors of the package; only [atExpected] and [errExpectingAngleAddress]
    are ever compared. *)
Inductive parse_error : Type :=
| atExpected
| errNotAtom
| errExpectingAngleAddress
| errNotAWord
| errExpectingColon
| errExpectingSemicolon
| errExpectingAngleClose
| errExpectingAngleOpen
| errQuotedUnclosed
| parse_err (msg : bytes).

Record Parser := mkParser {
  accept : bytes;
  buf : bytes;
  PathParams : list (list bytes);
  ADL : list bytes;
  LocalPart : bytes;
  LocalPartQuotes : bool;
  Domain : bytes;
  p_IP : option IP;
  pos : Z;
  NullPath : bool;
  ch : ascii
}.

(** ** Field updates *)
Definition set_accept (v : bytes) (s : Parser) : Parser :=
  mkParser v (buf s) (PathParams s) (ADL s) (LocalPart s) (LocalPartQuotes s) (Domain s) (p_IP s)
    (pos s) (NullPath s) (ch s).
Definition set_PathParams (v : list (list bytes)) (s : Parser) : Parser :=
  mkParser (accept s) (buf s) v (ADL s) (LocalPart s) (LocalPartQuotes s) (Domain s) (p_IP s)
    (pos s) (NullPath s) (ch s).
Definition add_ADL (v : bytes) (s : Parser) : Parser :=
  mkParser (accept s) (buf s) (PathParams s) (ADL s ++ [v]) (LocalPart s) (LocalPartQuotes s)
    (Domain s) (p_IP s) (pos s) (NullPath s) (ch s).
Definition set_LocalPart (v : bytes) (s : Parser) : Parser :=
  mkParser (accept s) (buf s) (PathParams s) (ADL s) v (LocalPartQuotes s) (Domain s) (p_IP s)
    (pos s) (NullPath s) (ch s).
Definition set_LocalPartQuotes (v : bool) (s : Parser) : Parser :=
  mkParser (accept s) (buf s) (PathParams s) (ADL s) (LocalPart s) v (Domain s) (p_IP s)
    (pos s) (NullPath s) (ch s).
Definition set_Domain (v : bytes) (s : Parser) : Parser :=
  mkParser (accept s) (buf s) (PathParams s) (ADL s) (LocalPart s) (LocalPartQuotes s) v (p_IP s)
    (pos s) (NullPath s) (ch s).
Definition set_IP (v : option IP) (s : Parser) : Parser :=
  mkParser (accept s) (buf s) (PathParams s) (ADL s) (LocalPart s) (LocalPartQuotes s) (Domain s) v
    (pos s) (NullPath s) (ch s).
Definition set_NullPath (v : bool) (s : Parser) : Parser :=
  mkParser (accept s) (buf s) (PathParams s) (ADL s) (LocalPart s) (LocalPartQuotes s) (Domain s)
    (p_IP s) (pos s) v (ch s).
Definition set_pos_ch (p : Z) (c : ascii) (s : Parser) : Parser :=
  mkParser (accept s) (buf s) (PathParams s) (ADL s) (LocalPart s) (LocalPartQuotes s) (Domain s)
    (p_IP s) p (NullPath s) c.

(** A parser that was declared and not initialised. *)
Definition zero_Parser : Parser := mkParser [] [] [] [] [] false [] None 0%Z false NUL.

Definition NewParser (b : bytes) : Parser := mkParser [] b [] [] [] false [] None (-1)%Z false NUL.

(** [Reset] leaves [ch] alone, and does nothing more than truncating the buffer
    when nothing was read. *)
Definition Reset (s : Parser) : Parser :=
  if (pos s =? -1)%Z
  then mkParser (accept s) [] (PathParams s) (ADL s) (LocalPart s) (LocalPartQuotes s) (Domain s)
         (p_IP s) (pos s) (NullPath s) (ch s)
  else mkParser [] [] [] [] [] false [] None (-1)%Z false (ch s).

Definition set_buf (input : bytes) (s : Parser) : Parser :=
  let s := Reset s in
  mkParser (accept s) input (PathParams s) (ADL s) (LocalPart s) (LocalPartQuotes s) (Domain s)
    (p_IP s) (pos s) (NullPath s) (ch s).

(** ** Reading *)
Abbreviation P := (M Parser parse_error).

(** The input after the position. *)
Definition rest (s : Parser) : bytes := drop (Z.to_nat (pos s + 1)) (buf s).

(** [next] returns 0 at the end and keeps the last byte in [ch]. *)
Definition next : P ascii := λ s,
  let i := (pos s + 1)%Z in
  match buf s !! Z.to_nat i with
  | Some c => (Ok c, set_pos_ch i c s)
  | None => (Ok NUL, set_pos_ch i (ch s) s)
  end.

Definition peek_of (s : Parser) : ascii := default NUL (buf s !! Z.to_nat (pos s + 1)).
Definition peek : P ascii := gets peek_of.
Definition cur : P ascii := gets ch.

Definition WriteByte (c : ascii) : P unit := modify (λ s, set_accept (accept s ++ [c]) s).
Definition WriteString (v : bytes) : P unit := modify (λ s, set_accept (accept s ++ v) s).

Definition err {A} (msg : string) : P A := fail (parse_err msg).

(** ** Character classes *)
Definition isLetDig (c : ascii) : bool :=
  between "0" "9" c || between "A" "Z" c || between "a" "z" c.

Definition isAtext (c : ascii) : bool :=
  between "0" "9" c || between "a" "z" c || between "A" "Z" c
  || bool_decide (c ∈ ["!"; "#"; "$"; "%"; "&"; "'"; "*"; "+"; "-"; "/"; "="; "?"; "^"; "_";
                       "`"; "{"; "|"; "}"; "~"]%char).

Definition isESMTPValue (c : ascii) : bool := between "!" "<" c || between ">" "~" c.

(** The first and the last bytes of a printable string: space and tilde. *)
Definition is_qtext (c : ascii) : bool :=
  bool_decide (c = " "%char) || bool_decide (c = "!"%char)
  || between "#" "[" c || between "]" "~" c.

(** ** Domains *)

(** The two states of the loop of [subdomain]. *)
Fixpoint subdomain_loop (fuel : nat) (state : bool) : P unit :=
  match fuel with
  | 0 => out_of_fuel
  | S f =>
      c ← next;
      p ← peek;
      if negb state then
        if isLetDig c then
          WriteByte c;;
          if negb (isLetDig p) && negb (bool_decide (p = "-"%char)) then mret tt
          else subdomain_loop f true
        else err "subdomain parse err"
      else
        (if isLetDig c || bool_decide (c = "-"%char) then WriteByte c else mret tt);;
        if negb (isLetDig p) && negb (bool_decide (p = "-"%char)) then
          if bool_decide (c = "-"%char) then err "subdomain parse err" else mret tt
        else subdomain_loop f true
  end.
Definition subdomain (fuel : nat) : P unit := subdomain_loop fuel false.

Fixpoint domain_loop (fuel : nat) (n : nat) : P unit :=
  match n with
  | 0 => out_of_fuel
  | S n' =>
      subdomain fuel;;
      p ← peek;
      if negb (bool_decide (p = "."%char)) then
        if negb (bool_decide (p = ":"%char)) && negb (bool_decide (p = ","%char))
           && negb (bool_decide (p = ">"%char)) && negb (bool_decide (p = NUL))
        then err "domain parse error"
        else mret tt
      else
        c ← next; WriteByte c;; domain_loop fuel n'
  end.
Definition domain (fuel : nat) : P unit := domain_loop fuel fuel.

Definition atDomain (fuel : nat) : P unit :=
  c ← next;
  if bool_decide (c = "@"%char) then WriteByte "@"%char;; domain fuel
  else err "syntax error".

Fixpoint adl_loop (fuel : nat) (n : nat) : P unit :=
  match n with
  | 0 => out_of_fuel
  | S n' =>
      atDomain fuel;;
      modify (λ s, set_accept [] (add_ADL (accept s) s));;
      p ← peek;
      if negb (bool_decide (p = ","%char)) then mret tt
      else next;; adl_loop fuel n'
  end.
Definition adl (fuel : nat) : P unit := adl_loop fuel fuel.

(** ** Address literals *)

(** [for i := 4; i > 0; i--] with its two states; [num] is the local buffer. *)
Fixpoint snum_loop (i : nat) (state : bool) (num : bytes) : P unit :=
  match i with
  | 0 => err "too many digits"
  | S i' =>
      c ← next;
      if negb state then
        if negb (between "0" "9" c) then err "snum parse error"
        else
          d ← cur;
          WriteByte d;;
          snum_loop i' true (num ++ [d])
      else if negb (between "0" "9" c) then
        match Atoi num with
        | None => err "strconv.Atoi"
        | Some v => if (0 <=? v)%Z && (v <=? 255)%Z then mret tt else err "invalid ipv4"
        end
      else
        d ← cur;
        WriteByte d;;
        snum_loop i' true (num ++ [d])
  end.
Definition snum : P unit := snum_loop 4 false [].

Fixpoint ipv4_loop (i : nat) : P unit :=
  match i with
  | 0 => mret tt
  | S i' =>
      snum;;
      c ← cur;
      if negb (bool_decide (c = "."%char)) then mret tt
      else WriteByte c;; ipv4_loop i'
  end.
Definition ipv4AddressLiteral : P unit :=
  ipv4_loop 4;;
  a ← gets accept;
  match ParseIP a with
  | None => err "invalid ip"
  | Some ip => modify (set_IP (Some ip))
  end.

Definition is_ipv6_char (c : ascii) : bool :=
  between "0" "9" c || between "A" "F" c || between "a" "f" c
  || bool_decide (c = ":"%char) || bool_decide (c = "."%char).

Fixpoint ipv6_loop (fuel : nat) (ip : bytes) : P unit :=
  match fuel with
  | 0 => out_of_fuel
  | S f =>
      c ← next;
      if negb (is_ipv6_char c) then
        match ParseIP ip with
        | Some v => WriteString (ip_string v);; modify (set_IP (Some v))
        | None => err "invalid ipv6"
        end
      else ipv6_loop f (ip ++ [c])
  end.
Definition ipv6AddressLiteral (fuel : nat) : P unit := ipv6_loop fuel [].

Definition addressLiteral (fuel : nat) : P unit :=
  c ← next;
  if bool_decide (c = "["%char) then
    p ← peek;
    (if bool_decide (p = "I"%char) || bool_decide (p = "i"%char) then
       next;; next;; next;; next;; next;; ipv6AddressLiteral fuel
     else if between "0" "9" p then ipv4AddressLiteral
     else mret tt);;
    d ← cur;
    if negb (bool_decide (d = "]"%char)) then err "] expected for address literal" else mret tt
  else mret tt.

(** ** Local parts *)

(** The two states of [QcontentSMTP]: inside the text, or after a backslash. *)
Fixpoint Qcontent_loop (fuel : nat) (escaped : bool) : P unit :=
  match fuel with
  | 0 => out_of_fuel
  | S f =>
      c ← next;
      if negb escaped then
        if bool_decide (c = "\"%char) then Qcontent_loop f true
        else if is_qtext c then
          q ← gets LocalPartQuotes;
          (if negb q && negb (isAtext c) then modify (set_LocalPartQuotes true) else mret tt);;
          WriteByte c;;
          Qcontent_loop f false
        else mret tt
      else if between " " "~" c then
        q ← gets LocalPartQuotes;
        (if negb q && negb (isAtext c) then modify (set_LocalPartQuotes true) else mret tt);;
        WriteByte c;;
        Qcontent_loop f false
      else err "non-printable character found"
  end.
Definition QcontentSMTP (fuel : nat) : P unit := Qcontent_loop fuel false.

Definition quotedString (fuel : nat) : P unit :=
  c ← next;
  if bool_decide (c = DQUOTE) then
    QcontentSMTP fuel;;
    d ← cur;
    if negb (bool_decide (d = DQUOTE)) then err "quoted string not closed"
    else next;; mret tt
  else mret tt.

Fixpoint atom_loop (fuel : nat) (state : bool) : P unit :=
  match fuel with
  | 0 => out_of_fuel
  | S f =>
      c ← next;
      if negb (isAtext c) then
        if state then mret tt else err "atom parse error"
      else
        d ← cur;
        WriteByte d;;
        atom_loop f true
  end.
Definition atom (fuel : nat) : P unit := atom_loop fuel false.

Fixpoint dotString_loop (fuel n : nat) : P unit :=
  match n with
  | 0 => out_of_fuel
  | S n' =>
      atom fuel;;
      c ← cur;
      if negb (bool_decide (c = "."%char)) then mret tt
      else WriteByte c;; dotString_loop fuel n'
  end.
Definition dotString (fuel : nat) : P unit := dotString_loop fuel fuel.

(** The deferred function of [localPart]. *)
Definition take_LocalPart (s : Parser) : Parser :=
  match accept s with
  | [] => s
  | a => set_accept [] (set_LocalPart a s)
  end.
Definition localPart (fuel : nat) : P unit :=
  deferred take_LocalPart
    (p ← peek;
     if bool_decide (p = DQUOTE) then quotedString fuel else dotString fuel).

(** The deferred function of [mailbox]. *)
Definition take_Domain (s : Parser) : Parser :=
  match accept s with
  | [] => s
  | a => set_accept [] (set_Domain a s)
  end.
Definition mailbox (fuel : nat) : P unit :=
  deferred take_Domain
    (localPart fuel;;
     c ← cur;
     if negb (bool_decide (c = "@"%char)) then fail atExpected
     else
       p ← peek;
       if bool_decide (p = "["%char) then addressLiteral fuel else domain fuel).

(** ** Paths *)

(** The result of [adl] is only tested; an error of it is dropped. *)
Definition path (fuel : nat) : P unit :=
  c ← next;
  p ← peek;
  (if bool_decide (c = "<"%char) && bool_decide (p = "@"%char) then
     r ← try_ (adl fuel);
     match r with
     | inl _ =>
         next;;
         d ← cur;
         if negb (bool_decide (d = ":"%char)) then err "syntax error" else mret tt
     | inr _ => mret tt
     end
   else mret tt);;
  mailbox fuel;;
  q ← peek;
  if negb (bool_decide (q = ">"%char)) then err "missing closing >" else mret tt.

Definition skip_space : P unit :=
  p ← peek;
  if bool_decide (p = " "%char) then next;; mret tt else mret tt.

Definition reversePath (fuel : nat) : P unit :=
  skip_space;;
  r ← gets rest;
  if HasPrefix r "<>" then modify (set_NullPath true)
  else path fuel.

Definition postmasterLocalPart : bytes := "postmaster".

(** ** Parameters *)

(** [param] appends its key and value on every return, the error returns too. *)
Definition param_ret (key value : bytes) : P (list bytes) :=
  modify (set_accept []);; mret [key; value].
Definition param_err {A} : P A := modify (set_accept []);; err "parse error".

Fixpoint param_loop (fuel : nat) (state : nat) (key : bytes) : P (list bytes) :=
  match fuel with
  | 0 => out_of_fuel
  | S f =>
      c ← next;
      match state with
      | 0 =>
          if negb (isLetDig c) then param_err
          else WriteByte c;; param_loop f 1 key
      | 1 =>
          if negb (isLetDig c) then
            if bool_decide (c = "="%char) then
              k ← gets accept;
              modify (set_accept []);;
              param_loop f 2 k
            else if bool_decide (c = "-"%char) then
              p ← peek;
              if negb (isLetDig p) && negb (bool_decide (p = "-"%char)) then param_err
              else WriteByte c;; param_loop f 1 key
            else
              k ← gets accept;
              param_ret k []
          else WriteByte c;; param_loop f 1 key
      | 2 =>
          if negb (isESMTPValue c) then param_err
          else
            WriteByte c;;
            p ← peek;
            if negb (isESMTPValue p) then v ← gets accept; param_ret key v
            else param_loop f 3 key
      | _ =>
          WriteByte c;;
          p ← peek;
          if negb (isESMTPValue p) then v ← gets accept; param_ret key v
          else param_loop f 3 key
      end
  end.
Definition param (fuel : nat) : P (list bytes) := param_loop fuel 0 [].

Fixpoint parameters_loop (fuel n : nat) (params : list (list bytes)) : P (list (list bytes)) :=
  match n with
  | 0 => out_of_fuel
  | S n' =>
      result ← param fuel;
      p ← next;
      if negb (bool_decide (p = " "%char)) then mret (params ++ [result])
      else parameters_loop fuel n' (params ++ [result])
  end.
Definition parameters (fuel : nat) : P (list (list bytes)) := parameters_loop fuel fuel [].

(** What [MailFrom] and [RcptTo] do after the path. *)
Definition path_parameters (fuel : nat) : P unit :=
  next;;
  p ← next;
  if bool_decide (p = " "%char) then
    r ← try_ (parameters fuel);
    match r with
    | inr _ => err "param parse error"
    | inl tup => if bool_decide (tup ≠ []) then modify (set_PathParams tup) else mret tt
    end
  else mret tt.

(** ** Entry points *)
Definition MailFrom_fuel (fuel : nat) (input : bytes) : P unit :=
  modify (set_buf input);;
  reversePath fuel;;
  path_parameters fuel.

Definition is_atExpected (e : parse_error) : bool :=
  match e with atExpected => true | _ => false end.

Section Forward.
Context {U : Unicode}.

(** The local part is rewritten when its lower-case form starts with
    [postmaster]; the missing [@] is then forgiven. *)
Definition forwardPath (fuel : nat) : P unit :=
  skip_space;;
  r ← try_ (path fuel);
  match r with
  | inr e => if is_atExpected e then mret tt else fail e
  | inl _ => mret tt
  end;;
  l ← gets LocalPart;
  if HasPrefix (ToLower l) postmasterLocalPart
  then modify (set_LocalPart postmasterLocalPart)
  else match r with inl _ => mret tt | inr e => fail e end.

Definition RcptTo_fuel (fuel : nat) (input : bytes) : P unit :=
  modify (set_buf input);;
  forwardPath fuel;;
  path_parameters fuel.
End Forward.

Definition Ehlo_fuel (fuel : nat) (input : bytes) : P (bytes * option IP) :=
  modify (set_buf input);;
  next;;
  c ← cur;
  if bool_decide (c = " "%char) then
    p ← peek;
    if bool_decide (p = "["%char) then
      addressLiteral fuel;;
      d ← gets accept;
      match ParseIP d with
      | None => err "invalid ip"
      | Some ip => mret (d, Some ip)
      end
    else
      domain fuel;;
      d ← gets accept;
      mret (d, None)
  else err "ehlo parse error".

Definition Helo_fuel (fuel : nat) (input : bytes) : P bytes :=
  modify (set_buf input);;
  next;;
  c ← cur;
  if bool_decide (c = " "%char) then domain fuel;; gets accept
  else err "helo parse error".

(** The loops run at most once per byte read, plus one. *)
Definition fuel_for (input : bytes) : nat := length input + 2.

Definition MailFrom (input : bytes) : P unit := MailFrom_fuel (fuel_for input) input.
Definition RcptTo `{Unicode} (input : bytes) : P unit := RcptTo_fuel (fuel_for input) input.
Definition Ehlo (input : bytes) : P (bytes * option IP) := Ehlo_fuel (fuel_for input) input.
Definition Helo (input : bytes) : P bytes := Helo_fuel (fuel_for input) input.

(** Every text the parser has collected is printable. *)
Definition clean (s : Parser) : Prop :=
  Printable (accept s) ∧ Printable (LocalPart s) ∧ Printable (Domain s) ∧
  Forall Printable (ADL s) ∧ Forall (Forall Printable) (PathParams s).

(** [ch] is the byte at the position, and at the end of the input it is stale: the
    last byte. *)
Definition in_step (s : Parser) : Prop :=
  (0 ≤ pos s)%Z → buf s ≠ [] →
  buf s !! Nat.min (Z.to_nat (pos s)) (length (buf s) - 1) = Some (ch s).

(** The invariant of the parser: a position, the byte there, printable text. *)
Definition reading (s : Parser) : Prop := (-1 ≤ pos s)%Z ∧ clean s ∧ in_step s.

(** [s'] is [s] after some reads. *)
Definition reach (s s' : Parser) : Prop :=
  reading s' ∧ buf s' = buf s ∧ (pos s ≤ pos s')%Z ∧ (pos s' = pos s → ch s' = ch s).

Definition len (s : Parser) : nat := length (rest s).

(** [s'] is [s] with other collected text. *)
Definition still (s s' : Parser) : Prop :=
  reading s' ∧ buf s' = buf s ∧ pos s' = pos s ∧ ch s' = ch s.

(** A call that returns, and leaves the parser further on in the same buffer
    with its invariant. *)
Definition returns {A} (m : P A) (s : Parser) : Prop :=
  wp m (λ _ s', reach s s') (λ _ s', reach s s') s.

(** ** Written paths *)
(** The parser after it has read [k] bytes, the last of them [c], and collected
    [cs]. *)
Definition jump (cs : bytes) (k : nat) (c : ascii) (s : Parser) : Parser :=
  set_accept (accept s ++ cs) (set_pos_ch (pos s + Z.of_nat k) c s).

(** A label of a domain: letters, digits and hyphens, none of them at an end. *)
Definition is_ldh (c : ascii) : bool := isLetDig c || bool_decide (c = "-"%char).
Definition is_label (x : bytes) : bool :=
  match x with
  | [] => false
  | c :: _ => isLetDig c && forallb is_ldh x && negb (bool_decide (List.last x NUL = "-"%char))
  end.

(** An atom of a local part. *)
Definition is_atom (a : bytes) : bool := negb (bool_decide (a = [])) && forallb isAtext a.

(** How a quoted local part is written. *)
Definition escape (c : ascii) : bytes :=
  if bool_decide (c = "\"%char) || bool_decide (c = DQUOTE) then ["\"%char; c] else [c].
Definition quote (l : bytes) : bytes := DQUOTE :: concat (map escape l) ++ [DQUOTE].

(** A local part as it is written: a dot-string of atoms or a quoted string. *)
Inductive local : Type :=
| DotString (atoms : list bytes)
| QuotedString (txt : bytes).
Definition local_text (l : local) : bytes :=
  match l with DotString a => Join a "." | QuotedString t => quote t end.
Definition local_value (l : local) : bytes :=
  match l with DotString a => Join a "." | QuotedString t => t end.
Definition local_quoted (l : local) : bool :=
  match l with DotString _ => false | QuotedString t => negb (forallb isAtext t) end.
Definition local_ok (l : local) : Prop :=
  match l with
  | DotString a => a ≠ [] ∧ Forall (λ x, is_atom x = true) a
  | QuotedString t => Printable t
  end.
Definition domain_ok (labels : list bytes) : Prop :=
  labels ≠ [] ∧ Forall (λ x, is_label x = true) labels.

(** What a parser holds after it has read the mailbox [l@labels]. *)
Definition holds (l : local) (labels : list bytes) (s s' : Parser) : Prop :=
  LocalPart s' = match local_value l with [] => LocalPart s | v => v end ∧
  LocalPartQuotes s' = LocalPartQuotes s || local_quoted l ∧
  Domain s' = Join labels "." ∧ accept s' = [] ∧
  PathParams s' = PathParams s ∧ ADL s' = ADL s ∧ p_IP s' = p_IP s ∧ NullPath s' = NullPath s.

(** ** Notions used by the statements *)

(** A call that has returned, and the text it has collected. *)
Definition returned {A} (r : outcome parse_error A) : Prop :=
  match r with Ok _ | Err _ => True | _ => False end.

(** * Proofs *)

(** ** Character classes *)
Lemma isLetDig_printable c : isLetDig c = true → printable c = true.
Proof. by destruct c as [[][][][][][][][]]. Qed.
Lemma isAtext_printable c : isAtext c = true → printable c = true.
Proof. by destruct c as [[][][][][][][][]]. Qed.
Lemma isESMTPValue_printable c : isESMTPValue c = true → printable c = true.
Proof. by destruct c as [[][][][][][][][]]. Qed.
Lemma is_qtext_printable c : is_qtext c = true → printable c = true.
Proof. by destruct c as [[][][][][][][][]]. Qed.
Lemma digit_printable c : between "0" "9" c = true → printable c = true.
Proof. by destruct c as [[][][][][][][][]]. Qed.

(** ** Reading *)
Lemma reach_refl s : reading s → reach s s.
Proof. intros. split_and!; [done..|lia|done]. Qed.
Lemma reach_trans s1 s2 s3 : reach s1 s2 → reach s2 s3 → reach s1 s3.
Proof.
  unfold reach. intros (?&?&?&Hc1) (?&?&?&Hc2). split_and!; [done|congruence|lia|].
  intros. rewrite Hc2, Hc1; lia || done.
Qed.
Lemma reach_reading s s' : reach s s' → reading s'.
Proof. by intros []. Qed.
Lemma reach_len s s' : reading s → reach s s' → len s' ≤ len s.
Proof.
  unfold reach, reading, len, rest. intros [? _] (_&->&?&_). rewrite !length_drop. lia.
Qed.
Lemma still_reach s s' : still s s' → reach s s'.
Proof. intros (?&?&?&?). split_and!; [done..|lia|done]. Qed.
Lemma still_len s s' : still s s' → len s' = len s.
Proof. unfold len, rest. by intros (?&->&->&?). Qed.
Lemma still_peek s s' : still s s' → peek_of s' = peek_of s.
Proof. unfold peek_of. by intros (?&->&->&?). Qed.
Lemma still_ch s s' : still s s' → ch s' = ch s.
Proof. by intros (?&?&?&?). Qed.
Lemma still_reading s s' : still s s' → reading s'.
Proof. by intros []. Qed.
#[export] Hint Resolve reach_refl reach_reading still_reach still_reading : go.

Lemma rest_next s c r p : reading s → rest s = c :: r → rest (set_pos_ch (pos s + 1) p s) = r.
Proof.
  unfold rest, reading. simpl. intros [Hp _] H. apply drop_cons_lookup in H as [_ <-].
  f_equal. lia.
Qed.
Lemma rest_end s p : reading s → rest s = [] → rest (set_pos_ch (pos s + 1) p s) = [].
Proof.
  unfold rest, reading. simpl. intros [Hp _] H.
  apply drop_ge. apply (f_equal length) in H. rewrite length_drop in H. simpl in H. lia.
Qed.
Lemma lookup_rest s : buf s !! Z.to_nat (pos s + 1) = head (rest s).
Proof. unfold rest. by rewrite head_lookup, lookup_drop, Nat.add_0_r. Qed.

Lemma next_cons s c r :
  rest s = c :: r → next s = (Ok c, set_pos_ch (pos s + 1) c s).
Proof. unfold next. intros H. by rewrite lookup_rest, H. Qed.
Lemma next_nil s : rest s = [] → next s = (Ok NUL, set_pos_ch (pos s + 1) (ch s) s).
Proof. unfold next. intros H. by rewrite lookup_rest, H. Qed.
Lemma peek_of_head s : peek_of s = default NUL (head (rest s)).
Proof. unfold peek_of. by rewrite lookup_rest. Qed.

(** The step of [next]. *)
Lemma reach_next s c :
  reading s → c = default (ch s) (buf s !! Z.to_nat (pos s + 1)) →
  reach s (set_pos_ch (pos s + 1) c s).
Proof.
  unfold reach, reading, in_step. simpl. intros (Hp & Hc & Hs) ->.
  split_and!; try done; try lia. intros _ Hn.
  assert (0 < length (buf s)) by (destruct (buf s); [done|simpl; lia]).
  destruct (buf s !! Z.to_nat (pos s + 1)) as [c|] eqn:E; simpl.
  - pose proof (lookup_lt_Some _ _ _ E).
    by replace (Nat.min (Z.to_nat (pos s + 1)) (length (buf s) - 1)) with (Z.to_nat (pos s + 1)) by lia.
  - apply lookup_ge_None in E. destruct (decide (pos s = -1)%Z) as [Hm|Hm].
    + rewrite Hm in E. simpl in E. lia.
    + rewrite <- Hs; [|lia|done]. f_equal. lia.
Qed.

Lemma peek_end s : len s = 0 → peek_of s = NUL.
Proof. unfold len. rewrite peek_of_head. by destruct (rest s). Qed.
Lemma peek_more s : peek_of s ≠ NUL → 0 < len s.
Proof. unfold len. rewrite peek_of_head. destruct (rest s); [done|simpl; lia]. Qed.

(** The rule of [next]: a byte was read and is in [ch], or the input is at its
    end and [ch] is stale. *)
Lemma wp_next (Q : ascii → Parser → Prop) R s :
  reading s →
  (∀ s', reach s s' → len s = S (len s') → peek_of s = ch s' → Q (ch s') s') →
  (∀ s', reach s s' → ch s' = ch s → len s = 0 → len s' = 0 →
      peek_of s = NUL → peek_of s' = NUL → Q NUL s') →
  wp next Q R s.
Proof.
  intros Hr Hc Hn. unfold wp. destruct (rest s) as [|c r] eqn:E.
  - rewrite next_nil by done.
    assert (len (set_pos_ch (pos s + 1) (ch s) s) = 0) as Hl.
    { unfold len. by rewrite rest_end. }
    assert (len s = 0) by (unfold len; by rewrite E).
    apply Hn; auto using peek_end. apply reach_next; [done|]. by rewrite lookup_rest, E.
  - rewrite (next_cons _ _ _ E). apply (Hc (set_pos_ch (pos s + 1) c s)).
    + apply reach_next; [done|]. by rewrite lookup_rest, E.
    + unfold len. by rewrite E, (rest_next _ _ _ _ Hr E).
    + rewrite peek_of_head. by rewrite E.
Qed.

Lemma wp_peek (Q : ascii → Parser → Prop) R s : Q (peek_of s) s → wp peek Q R s.
Proof. done. Qed.
Lemma wp_cur (Q : ascii → Parser → Prop) R s : Q (ch s) s → wp cur Q R s.
Proof. done. Qed.
Lemma wp_err_ {A} (m : string) (Q : A → Parser → Prop) R s : R (parse_err m) s → wp (err m) Q R s.
Proof. done. Qed.

Ltac by_parts :=
  unfold still, reach, reading, clean, in_step in *; simpl; intros; destruct_and?; split_and!;
  auto with go.

(** Collecting text is sound when the text is printable. *)
Lemma wp_still f (Q : unit → Parser → Prop) (R : parse_error → Parser → Prop) s :
  still s (f s) → (∀ s', still s s' → Q tt s') → wp (modify f) Q R s.
Proof. intros H HQ. apply wp_modify. by apply HQ. Qed.
Lemma wp_WriteByte c (Q : unit → Parser → Prop) (R : parse_error → Parser → Prop) s :
  reading s → printable c = true → (∀ s', still s s' → Q tt s') → wp (WriteByte c) Q R s.
Proof.
  intros ? Hc ?. apply wp_still; [|done].
  apply Is_true_true_2 in Hc. by_parts.
Qed.
Lemma wp_WriteString v (Q : unit → Parser → Prop) (R : parse_error → Parser → Prop) s :
  reading s → Printable v → (∀ s', still s s' → Q tt s') → wp (WriteString v) Q R s.
Proof.
  intros. apply wp_still; [|done]. by_parts.
Qed.
Lemma wp_accept (Q : bytes → Parser → Prop) (R : parse_error → Parser → Prop) s :
  reading s → (∀ v, Printable v → v = accept s → Q v s) → wp (gets accept) Q R s.
Proof. intros (_&(?&_)&_) HQ. by apply HQ. Qed.

Lemma still_set_accept v s : reading s → Printable v → still s (set_accept v s).
Proof. by_parts. Qed.
Lemma still_set_IP v s : reading s → still s (set_IP v s).
Proof. by_parts. Qed.
Lemma still_set_NullPath v s : reading s → still s (set_NullPath v s).
Proof. by_parts. Qed.
Lemma still_set_LocalPartQuotes v s : reading s → still s (set_LocalPartQuotes v s).
Proof. by_parts. Qed.
Lemma still_set_LocalPart v s : reading s → Printable v → still s (set_LocalPart v s).
Proof. by_parts. Qed.
Lemma still_set_PathParams v s :
  reading s → Forall (Forall Printable) v → still s (set_PathParams v s).
Proof. by_parts. Qed.
Lemma still_take_ADL s : reading s → still s (set_accept [] (add_ADL (accept s) s)).
Proof. by_parts. by apply Forall_app_2; [|constructor]. Qed.
Lemma reach_take_LocalPart s s' : reach s s' → reach s (take_LocalPart s').
Proof.
  unfold take_LocalPart, reach, reading, clean, in_step. intros ((?&(?&?&?&?&?)&?)&?&?&?).
  destruct (accept s') eqn:E; simpl; rewrite ?E; split_and!; auto with go.
Qed.
Lemma reach_take_Domain s s' : reach s s' → reach s (take_Domain s').
Proof.
  unfold take_Domain, reach, reading, clean, in_step. intros ((?&(?&?&?&?&?)&?)&?&?&?).
  destruct (accept s') eqn:E; simpl; rewrite ?E; split_and!; auto with go.
Qed.
#[export] Hint Resolve still_set_accept still_set_IP still_set_NullPath still_set_LocalPartQuotes
  still_set_LocalPart still_set_PathParams still_take_ADL reach_take_LocalPart reach_take_Domain : go.

(** ** Termination, absence of panics and printable text

    A call that starts with more fuel than there are bytes left returns, and
    leaves the parser further on in the same buffer. *)
Ltac at_end :=
  repeat match goal with
    | H : peek_of ?s = NUL, H' : context [peek_of ?s] |- _ =>
        lazymatch type of H' with peek_of s = NUL => fail | _ => rewrite H in H' end
    end.

(** What is known of every state that was reached. *)
Ltac preach_facts :=
  repeat match goal with
    | H : still ?s ?s' |- _ =>
        lazymatch goal with
        | _ : len s' = len s |- _ => fail
        | _ => pose proof (still_len s s' H); pose proof (still_peek s s' H);
               pose proof (still_reach s s' H); pose proof (still_reading s s' H)
        end
    | H : reading ?s, H' : reach ?s ?s' |- _ =>
        lazymatch goal with
        | _ : len s' ≤ len s |- _ => fail
        | _ => pose proof (reach_len s s' H H'); pose proof (reach_reading s s' H')
        end
    end.

Ltac printable_byte :=
  bool_hyps; subst;
  first [ done
        | by apply isLetDig_printable | by apply isAtext_printable
        | by apply isESMTPValue_printable | by apply is_qtext_printable
        | by apply digit_printable
        | match goal with
          | H : isLetDig ?c || bool_decide (?c = _) = true |- _ =>
              apply orb_true_iff in H; destruct H; bool_hyps; subst;
              [by apply isLetDig_printable|];
              match goal with H : c = _ |- _ => by rewrite H end
          | H : ?c = _ |- printable ?c = true => by rewrite H
          | H : peek_of ?s0 = ch ?s |- printable (ch ?s) = true =>
              rewrite <- H;
              first [ by apply isESMTPValue_printable
                    | match goal with H' : peek_of s0 = _ |- _ => by rewrite H' end ]
          end ].

Ltac preach :=
  intros; repeat match goal with H : _ ∧ _ |- _ => destruct H end;
  preach_facts;
  repeat match goal with |- _ ∧ _ => split end; intros;
  try first [done | lia | printable_byte | solve [eauto 7 using reach_trans with go]
            | naive_solver lia].

Ltac pstep :=
  lazymatch goal with
  | |- wp (_ ≫= _) _ _ _ => apply wp_bind
  | |- wp (mret _) _ _ _ => apply wp_ret
  | |- wp (fail _) _ _ _ => apply wp_fail
  | |- wp (err _) _ _ _ => apply wp_err_
  | |- wp peek _ _ _ => apply wp_peek
  | |- wp cur _ _ _ => apply wp_cur
  | |- wp (gets accept) _ _ _ => apply wp_accept; [solve [preach] | intros ? ? ?]
  | |- wp (gets _) _ _ _ => apply wp_gets
  | |- wp (modify _) _ _ _ => apply wp_still; [solve [preach] | intros ? ?]
  | |- wp (WriteByte _) _ _ _ =>
      apply wp_WriteByte; [solve [preach] | solve [printable_byte] | intros ? ?]
  | |- wp (WriteString _) _ _ _ =>
      apply wp_WriteString; [solve [preach] | solve [auto using ip_string_printable with go] | intros ? ?]
  | |- wp (try_ _) _ _ _ => apply wp_try
  | |- wp (deferred _ _) _ _ _ => apply wp_deferred
  | |- wp next _ _ _ =>
      apply wp_next; [solve [preach] | intros ? ? ? ? | intros ? ? ? ? ? ? ?; at_end; try done]
  | |- wp (if ?b then _ else _) _ _ _ => let H := fresh "Hb" in destruct b eqn:H; at_end; try done
  | |- wp (match ?x with _ => _ end) _ _ _ => let H := fresh "Hm" in destruct x eqn:H
  end.
Ltac psteps := repeat pstep; try (solve [preach]).

Lemma wp_subdomain_loop fuel : ∀ st s,
  reading s → len s < fuel →
  wp (subdomain_loop fuel st) (λ _ s', reach s s' ∧ (st = false → len s' < len s))
     (λ _ s', reach s s') s.
Proof.
  induction fuel as [|f IH]; intros st s Hr Hl; [lia|]. destruct st; simpl.
  all: psteps.
  all: eapply wp_mono; [apply IH; preach | simpl; preach.. ].
Qed.

Lemma wp_domain_loop fuel : ∀ n s,
  reading s → len s < fuel → len s < n →
  wp (domain_loop fuel n) (λ _ s', reach s s' ∧ len s' < len s) (λ _ s', reach s s') s.
Proof.
  induction n as [|n IH]; intros s Hr Hf Hn; [lia|]. simpl. pstep.
  eapply wp_mono; [by apply wp_subdomain_loop| |done]. simpl. intros _ s1 [Hr1 Hl1].
  specialize (Hl1 eq_refl). psteps.
  all: eapply wp_mono; [apply IH; preach | simpl; preach.. ].
Qed.

Lemma wp_domain fuel s :
  reading s → len s < fuel →
  wp (domain fuel) (λ _ s', reach s s' ∧ len s' < len s) (λ _ s', reach s s') s.
Proof. intros. by apply wp_domain_loop. Qed.

Lemma wp_adl_loop fuel : ∀ n s,
  reading s → len s < fuel → len s < n → returns (adl_loop fuel n) s.
Proof.
  unfold returns. induction n as [|n IH]; intros s Hr Hf Hn; [lia|]. simpl. pstep. unfold atDomain.
  psteps.
  eapply wp_mono; [apply wp_domain; preach| |simpl; preach]. simpl. intros _ s2 [Hr2 Hd2].
  psteps.
  all: eapply wp_mono; [apply IH; preach | simpl; preach.. ].
Qed.

Lemma wp_snum_loop i : ∀ st num s, reading s → returns (snum_loop i st num) s.
Proof.
  unfold returns. induction i as [|i IH]; intros st num s Hr; simpl; [psteps|].
  destruct st; simpl; psteps.
  all: eapply wp_mono; [apply IH; preach | simpl; preach.. ].
Qed.

Lemma wp_ipv4_loop i : ∀ s, reading s → returns (ipv4_loop i) s.
Proof.
  unfold returns. induction i as [|i IH]; intros s Hr; simpl; [psteps|]. pstep.
  eapply wp_mono; [by apply wp_snum_loop| |done]. simpl. intros _ s1 Hr1. simpl. psteps.
  all: eapply wp_mono; [apply IH; preach | simpl; preach.. ].
Qed.

Lemma wp_ipv4AddressLiteral s : reading s → returns ipv4AddressLiteral s.
Proof.
  unfold returns, ipv4AddressLiteral. intros. pstep.
  eapply wp_mono; [by apply wp_ipv4_loop| |done]. simpl. intros _ s1 Hr1. psteps.
Qed.

Lemma wp_ipv6_loop fuel : ∀ ip s, reading s → len s < fuel → returns (ipv6_loop fuel ip) s.
Proof.
  unfold returns. induction fuel as [|f IH]; intros ip s Hr Hl; [lia|]. simpl. psteps.
  all: eapply wp_mono; [apply IH; preach | simpl; preach.. ].
Qed.

Lemma wp_addressLiteral fuel s : reading s → len s < fuel → returns (addressLiteral fuel) s.
Proof.
  unfold returns, addressLiteral. intros. psteps.
  all: eapply wp_mono; [ first [apply wp_ipv6_loop | apply wp_ipv4AddressLiteral]; preach
                       | simpl; intros; psteps | simpl; preach ].
Qed.

Lemma wp_Qcontent_loop fuel : ∀ st s, reading s → len s < fuel → returns (Qcontent_loop fuel st) s.
Proof.
  unfold returns. induction fuel as [|f IH]; intros st s Hr Hl; [lia|]. simpl. psteps.
  all: eapply wp_mono; [apply IH; preach | simpl; preach.. ].
Qed.

Lemma wp_quotedString fuel s : reading s → len s < fuel → returns (quotedString fuel) s.
Proof.
  unfold returns, quotedString, QcontentSMTP. intros. psteps.
  eapply wp_mono; [apply wp_Qcontent_loop; preach| |simpl; preach]. simpl. intros. psteps.
Qed.

Lemma wp_atom_loop fuel : ∀ st s,
  reading s → len s < fuel →
  wp (atom_loop fuel st) (λ _ s', reach s s' ∧ (st = false → len s' < len s))
     (λ _ s', reach s s') s.
Proof.
  induction fuel as [|f IH]; intros st s Hr Hl; [lia|]. simpl. psteps.
  all: eapply wp_mono; [apply IH; preach | simpl; preach.. ].
Qed.

Lemma wp_dotString_loop fuel : ∀ n s,
  reading s → len s < fuel → len s < n → returns (dotString_loop fuel n) s.
Proof.
  unfold returns. induction n as [|n IH]; intros s Hr Hf Hn; [lia|]. simpl. pstep.
  eapply wp_mono; [by apply wp_atom_loop| |done]. simpl. intros _ s1 [Hr1 Hl1].
  specialize (Hl1 eq_refl). psteps.
  all: eapply wp_mono; [apply IH; preach | simpl; preach.. ].
Qed.

Lemma wp_localPart fuel s : reading s → len s < fuel → returns (localPart fuel) s.
Proof.
  unfold returns, localPart. intros. psteps.
  all: eapply wp_mono;
    [ first [by apply wp_quotedString | by apply wp_dotString_loop] | simpl; preach.. ].
Qed.

Lemma wp_mailbox fuel s : reading s → len s < fuel → returns (mailbox fuel) s.
Proof.
  unfold returns, mailbox. intros. do 2 pstep.
  eapply wp_mono; [by apply wp_localPart| |simpl; preach]. simpl. intros _ s1 Hr1. psteps.
  all: eapply wp_mono;
    [ first [apply wp_addressLiteral | apply wp_domain]; preach | simpl; preach.. ].
Qed.

Lemma wp_path fuel s : reading s → len s < fuel → returns (path fuel) s.
Proof.
  intros Hr Hl. unfold returns, path. do 2 pstep.
  all: do 3 pstep; apply wp_mono with (Q := λ _ s', reach s s') (R := λ _ s', reach s s');
    [| simpl; intros _ s1 Hr1 | preach].
  3: psteps. 1: psteps; eapply wp_mono; [apply wp_adl_loop; preach | |]; simpl; intros; psteps.
  all: pstep; eapply wp_mono; [apply wp_mailbox; preach | simpl; intros; psteps | simpl; preach].
Qed.

Lemma wp_skip_space s : reading s → returns skip_space s.
Proof. unfold returns, skip_space. intros. psteps. Qed.

Lemma wp_reversePath fuel s : reading s → len s < fuel → returns (reversePath fuel) s.
Proof.
  unfold returns, reversePath. intros. pstep.
  eapply wp_mono; [by apply wp_skip_space| |done]. simpl. intros _ s1 Hr1. psteps.
  eapply wp_mono; [apply wp_path; preach | simpl; preach..].
Qed.

(** A parameter is printable, and reading one consumes input. *)
Lemma wp_param_loop fuel : ∀ st key s,
  reading s → len s < fuel → Printable key →
  (st ≠ 0 → st ≠ 1 → st ≠ 2 → isESMTPValue (peek_of s) = true) →
  wp (param_loop fuel st key)
     (λ kv s', reach s s' ∧ Forall Printable kv ∧ (st = 0 → len s' < len s))
     (λ _ s', reach s s') s.
Proof.
  induction fuel as [|f IH]; intros st key s Hr Hl Hk Hst; [lia|]. simpl.
  unfold param_ret, param_err.
  destruct st as [|[|[|st]]]; simpl.
  4: specialize (Hst ltac:(done) ltac:(done) ltac:(done)).
  all: psteps.
  all: try (eapply wp_mono; [apply IH; preach | simpl; preach.. ]).
Qed.

Lemma wp_parameters_loop fuel : ∀ n ps s,
  reading s → len s < fuel → len s < n → Forall (Forall Printable) ps →
  wp (parameters_loop fuel n ps) (λ r s', reach s s' ∧ Forall (Forall Printable) r)
     (λ _ s', reach s s') s.
Proof.
  induction n as [|n IH]; intros ps s Hr Hf Hn Hps; [lia|]. simpl. pstep.
  eapply wp_mono; [apply wp_param_loop; try done; constructor| |done].
  simpl. intros kv s1 (Hr1 & Hkv & Hl1). specialize (Hl1 eq_refl).
  assert (Forall (Forall Printable) (ps ++ [kv])) by (by apply Forall_app_2; [|constructor]).
  psteps. all: eapply wp_mono; [apply IH; preach | simpl; preach.. ].
Qed.

Lemma wp_path_parameters fuel s : reading s → len s < fuel → returns (path_parameters fuel) s.
Proof.
  unfold returns, path_parameters. intros. psteps.
  eapply wp_mono; [apply wp_parameters_loop; preach; constructor | |]; simpl; intros; psteps.
Qed.

Lemma wp_forwardPath `{Unicode} fuel s :
  reading s → len s < fuel → returns (forwardPath fuel) s.
Proof.
  assert (Printable postmasterLocalPart) by (by repeat constructor).
  unfold returns, forwardPath. intros. pstep.
  eapply wp_mono; [by apply wp_skip_space| |done]. simpl. intros _ s1 Hr1. do 2 pstep.
  eapply wp_mono; [apply wp_path; preach | |]; simpl; intros; psteps.
Qed.

(** [set_buf] starts from a parser that satisfies the invariant. *)
Lemma reading_set_buf input s :
  reading s → reading (set_buf input s) ∧ buf (set_buf input s) = input ∧
              len (set_buf input s) = length input.
Proof.
  intros Hr. unfold set_buf, Reset, len, rest. destruct (pos s =? -1)%Z eqn:E; simpl.
  - apply Z.eqb_eq in E. rewrite E. split_and!; [|done|done].
    destruct Hr as (_ & Hc & _). split; [done|]. split; [exact Hc|]. unfold in_step. simpl. lia.
  - split_and!; [|done|done]. unfold reading, clean, in_step. simpl.
    split_and!; by auto with go || lia.
Qed.

Lemma wp_input {A} (m : nat → P A) input s :
  reading s →
  (∀ s1, reading s1 → len s1 < fuel_for input → returns (m (fuel_for input)) s1) →
  wp (modify (set_buf input);; m (fuel_for input))
     (λ _ s', reading s' ∧ buf s' = input) (λ _ s', reading s' ∧ buf s' = input) s.
Proof.
  intros Hr Hm. apply wp_bind, wp_modify. destruct (reading_set_buf input s Hr) as (H1 & H2 & H3).
  eapply wp_mono; [apply Hm; [done|unfold fuel_for; lia]| |]; simpl.
  all: intros _ s1 (? & Hb & _); by rewrite Hb, H2.
Qed.

Lemma reading_zero : reading zero_Parser.
Proof. unfold reading, clean, in_step. simpl. split_and!; auto with go; try lia; done. Qed.
Lemma reading_NewParser b : reading (NewParser b).
Proof. unfold reading, clean, in_step. simpl. split_and!; auto with go; try lia; done. Qed.

(** ** Reading well-formed text

    [jump cs k c s] is [s] after [k] bytes were read, [c] the last of them, and
    [cs] was collected. The forward lemmas below give the state in this form. *)
Lemma jump_0 s : s = jump [] 0 (ch s) s.
Proof.
  destruct s. unfold jump, set_accept, set_pos_ch. simpl.
  f_equal; [by rewrite app_nil_r|lia].
Qed.
Lemma rest_jump s cs k c : (-1 ≤ pos s)%Z → rest (jump cs k c s) = drop k (rest s).
Proof. intros H. unfold rest, jump. simpl. rewrite drop_drop. f_equal. lia. Qed.
Lemma next_jump s cs k d c r :
  (-1 ≤ pos s)%Z → drop k (rest s) = c :: r → next (jump cs k d s) = (Ok c, jump cs (S k) c s).
Proof.
  intros Hp H. rewrite <- (rest_jump s cs k d Hp) in H. rewrite (next_cons _ _ _ H).
  unfold jump. by replace (pos s + Z.of_nat (S k))%Z with (pos s + Z.of_nat k + 1)%Z by lia.
Qed.
Lemma peek_jump s cs k d :
  (-1 ≤ pos s)%Z → peek_of (jump cs k d s) = default NUL (head (drop k (rest s))).
Proof. intros Hp. by rewrite peek_of_head, rest_jump. Qed.
Lemma WriteByte_jump s cs k d c : WriteByte c (jump cs k d s) = (Ok tt, jump (cs ++ [c]) k d s).
Proof. unfold WriteByte, modify, jump, set_accept. simpl. by rewrite app_assoc. Qed.

Lemma drop_step {A} k (l : list A) x r : drop k l = x :: r → drop (S k) l = r.
Proof. intros H. by apply drop_cons_lookup in H as []. Qed.
Lemma drop_more {A} k (l : list A) xs r : drop k l = xs ++ r → drop (k + length xs) l = r.
Proof. intros H. by rewrite <- drop_drop, H, drop_app_length. Qed.


Lemma atom_jump s c r : (-1 ≤ pos s)%Z → isAtext c = false → ∀ xs fuel st cs k d,
  drop k (rest s) = xs ++ c :: r → forallb isAtext xs = true → (st = false → xs ≠ []) →
  length xs < fuel →
  atom_loop fuel st (jump cs k d s) = (Ok tt, jump (cs ++ xs) (k + S (length xs)) c s).
Proof.
  intros Hp Hc. induction xs as [|x xs IH]; intros fuel st cs k d H Hx Hst Hf.
  - destruct fuel as [|f]; [simpl in Hf; lia|]. simpl.
    rewrite (bind_runs _ _ _ _ _ (next_jump _ _ _ _ _ _ Hp H)). rewrite Hc. simpl.
    destruct st; [|by destruct Hst]. by rewrite app_nil_r, Nat.add_1_r.
  - destruct fuel as [|f]; [simpl in Hf; lia|]. simpl in *. apply andb_true_iff in Hx as [Hx Hxs].
    rewrite (bind_runs _ _ _ _ _ (next_jump _ _ _ _ _ _ Hp H)). rewrite Hx. simpl.
    rewrite (bind_runs cur _ _ x (jump cs (S k) x s)) by done.
    rewrite (bind_runs _ _ _ _ _ (WriteByte_jump _ _ _ _ _)).
    rewrite (IH f true); [| by apply drop_step in H | done | done | lia].
    rewrite <- app_assoc.
    by replace (S k + S (length xs)) with (k + S (S (length xs))) by lia.
Qed.

Lemma dotString_jump s c r : (-1 ≤ pos s)%Z → isAtext c = false → c ≠ "."%char →
  ∀ l fuel n cs k d,
  l ≠ [] → Forall (λ a, a ≠ [] ∧ forallb isAtext a = true) l →
  drop k (rest s) = Join l "." ++ c :: r → length (Join l ".") < fuel → length l ≤ n →
  dotString_loop fuel n (jump cs k d s) =
    (Ok tt, jump (cs ++ Join l ".") (k + S (length (Join l "."))) c s).
Proof.
  intros Hp Hc Hdot. induction l as [|a l IH]; [done|]. intros fuel n cs k d _ Hl H Hf Hn.
  inversion_clear Hl as [|?? [Ha Haa] Hl'].
  destruct n as [|n]; [simpl in Hn; lia|]. simpl dotString_loop. unfold atom.
  destruct l as [|b l].
  - simpl in H, Hf. rewrite (bind_runs _ _ _ _ _ (atom_jump s c r Hp Hc a fuel false cs k d H Haa (λ _, Ha) Hf)).
    rewrite (bind_runs cur _ _ c (jump (cs ++ a) (k + S (length a)) c s)) by done.
    by rewrite bool_decide_false.
  - change (Join (a :: b :: l) ".") with (a ++ "."%char :: Join (b :: l) ".") in *.
    rewrite <- app_assoc in H. rewrite length_app in Hf.
    rewrite (bind_runs _ _ _ _ _
      (atom_jump s "."%char (Join (b :: l) "." ++ c :: r) Hp eq_refl a fuel false cs k d
         H Haa (λ _, Ha) ltac:(cbn [length] in *; lia))).
    rewrite (bind_runs cur _ _ "."%char (jump (cs ++ a) (k + S (length a)) "." s)) by done.
    rewrite bool_decide_true by done. cbn [negb].
    rewrite (bind_runs _ _ _ _ _ (WriteByte_jump _ _ _ _ _)).
    rewrite (IH fuel n); [ | done | done | | cbn [length] in *; lia | cbn [length] in *; lia ].
    + rewrite <- !app_assoc. do 2 f_equal. rewrite length_app. cbn [length]. lia.
    + replace (k + S (length a)) with (k + length (a ++ ["."%char])) by (rewrite length_app; simpl; lia).
      apply drop_more. by rewrite <- app_assoc.
Qed.

Lemma subdomain_jump s r : (-1 ≤ pos s)%Z → is_ldh (default NUL (head r)) = false →
  ∀ xs x fuel st cs k d,
  drop k (rest s) = x :: xs ++ r →
  (st = false → isLetDig x = true) → forallb is_ldh (x :: xs) = true →
  List.last (x :: xs) NUL ≠ "-"%char → length xs < fuel →
  subdomain_loop fuel st (jump cs k d s) =
    (Ok tt, jump (cs ++ x :: xs) (k + S (length xs)) (List.last (x :: xs) NUL) s).
Proof.
  intros Hp Hr. induction xs as [|y ys IH]; intros x fuel st cs k d H Hst Hx Hlast Hf.
  all: destruct fuel as [|f]; [simpl in Hf; lia|]; cbn [subdomain_loop].
  all: pose proof (drop_step _ _ _ _ H) as H'.
  all: rewrite (bind_runs _ _ _ _ _ (next_jump _ _ _ _ _ _ Hp H)).
  all: rewrite (bind_runs peek _ _ _ _ eq_refl), peek_jump, H' by done.
  - cbn [app] in *. unfold is_ldh in Hr.  apply orb_false_iff in Hr as [-> ->].
    apply andb_true_iff in Hx as [Hx _]. cbn [negb andb].
    unfold is_ldh in Hx. rewrite Hx, (bool_decide_false _ Hlast), Nat.add_1_r.
    destruct st; cbn [negb].
    + by rewrite (bind_runs _ _ _ _ _ (WriteByte_jump _ _ _ _ _)).
    + rewrite Hst by done. by rewrite (bind_runs _ _ _ _ _ (WriteByte_jump _ _ _ _ _)).
  - cbn [forallb] in Hx. apply andb_true_iff in Hx as [Hx Hys].
    assert (negb (isLetDig y) && negb (bool_decide (y = "-"%char)) = false) as Hy.
    { apply andb_true_iff in Hys as [Hy _]. rewrite <- negb_orb. unfold is_ldh in Hy. by rewrite Hy. }
    cbn [app head default]. unfold id. rewrite Hy. unfold is_ldh in Hx. rewrite Hx.
    destruct st; cbn [negb].
    2: rewrite Hst by done.
    all: rewrite (bind_runs _ _ _ _ _ (WriteByte_jump _ _ _ _ _)).
    all: rewrite (IH y); [|done..|simpl in *; lia].
    all: rewrite <- app_assoc; by replace (S k + S (length ys)) with (k + S (length (y :: ys))) by (simpl; lia).
Qed.

Lemma forallb_last {A} (f : A → bool) l d :
  l ≠ [] → forallb f l = true → f (List.last l d) = true.
Proof.
  intros H. destruct (exists_last H) as (l' & x & ->). rewrite List.last_last, forallb_app. simpl.
  intros (_ & Hx)%andb_true_iff. by apply andb_true_iff in Hx as [].
Qed.

Lemma domain_jump s r : (-1 ≤ pos s)%Z →
  default NUL (head r) ∈ [":"; ","; ">"]%char ++ [NUL] →
  ∀ l fuel n cs k d,
  l ≠ [] → Forall (λ x, is_label x = true) l →
  drop k (rest s) = Join l "." ++ r → length (Join l ".") < fuel → length l ≤ n →
  ∃ e, is_ldh e = true ∧ domain_loop fuel n (jump cs k d s) =
    (Ok tt, jump (cs ++ Join l ".") (k + length (Join l ".")) e s).
Proof.
  intros Hp Hr. assert (is_ldh (default NUL (head r)) = false) as Hstop.
  { revert Hr. generalize (default NUL (head r)). intros c. set_unfold. intros. by destruct_or?; subst. }
  induction l as [|x l IH]; [done|]. intros fuel n cs k d _ Hl H Hf Hn.
  inversion_clear Hl as [|?? Hx Hl'].
  destruct x as [|c x]; [done|]. cbn [is_label] in Hx.
  apply andb_true_iff in Hx as [[Hc Hx]%andb_true_iff Hlast].
  apply negb_true_iff, bool_decide_eq_false in Hlast.
  destruct n as [|n]; [simpl in Hn; lia|]. cbn [domain_loop]. unfold subdomain.
  destruct l as [|y l].
  - cbn [Join] in *.
    rewrite (bind_runs _ _ _ _ _ (subdomain_jump s r Hp Hstop x c fuel false cs k d H (λ _, Hc) Hx Hlast
      ltac:(simpl in *; lia))).
    rewrite (bind_runs peek _ _ _ _ eq_refl), peek_jump by done.
    apply (drop_more k _ (c :: x)) in H. cbn [length] in H. rewrite H.
    revert Hr. generalize (default NUL (head r)). intros p Hpp. exists (List.last (c :: x) NUL).
    split; [by apply forallb_last|].
    replace (negb (bool_decide (p = "."%char))) with true.
    2: { symmetry. apply negb_true_iff, bool_decide_eq_false. set_unfold. intros. by destruct_or?; subst. }
    replace (negb (bool_decide (p = ":"%char)) && negb (bool_decide (p = ","%char)) &&
       negb (bool_decide (p = ">"%char)) && negb (bool_decide (p = NUL))) with false; [done|].
    clear -Hpp. symmetry. set_unfold. intros. by destruct_or?; subst.
  - change (Join ((c :: x) :: y :: l) ".") with ((c :: x) ++ "."%char :: Join (y :: l) ".") in *.
    rewrite <- app_assoc in H. rewrite length_app in Hf.
    rewrite (bind_runs _ _ _ _ _ (subdomain_jump s ("."%char :: Join (y :: l) "." ++ r) Hp eq_refl x c
      fuel false cs k d H (λ _, Hc) Hx Hlast ltac:(cbn [length] in *; lia))).
    rewrite (bind_runs peek _ _ _ _ eq_refl), peek_jump by done.
    apply (drop_more k _ (c :: x)) in H. cbn [length] in H. rewrite H.
    cbn [head app default]. unfold id. rewrite bool_decide_true by done. cbn [negb].
    rewrite (bind_runs _ _ _ _ _ (next_jump _ _ _ _ _ _ Hp H)).
    rewrite (bind_runs _ _ _ _ _ (WriteByte_jump _ _ _ _ _)).
    destruct (IH fuel n ((cs ++ c :: x) ++ ["."%char]) (S (k + S (length x))) "."%char) as (e & Hle & He);
      [done|done| by apply drop_step in H | cbn [length] in *; lia | cbn [length] in *; lia |].
    exists e. split; [done|]. rewrite He, <- !app_assoc. cbn [length app]. rewrite length_app. cbn [length].
    by replace (S (k + S (length x)) + length (Join (y :: l) "."))
      with (k + (S (length x) + S (length (Join (y :: l) ".")))) by lia.
Qed.

Lemma set_LocalPartQuotes_id s : set_LocalPartQuotes (LocalPartQuotes s) s = s.
Proof. by destruct s. Qed.

Lemma Qcontent_jump r : ∀ l s fuel cs k d, (-1 ≤ pos s)%Z →
  drop k (rest s) = concat (map escape l) ++ DQUOTE :: r → Printable l →
  length (concat (map escape l)) < fuel →
  Qcontent_loop fuel false (jump cs k d s) =
    (Ok tt, jump (cs ++ l) (k + S (length (concat (map escape l)))) DQUOTE
              (set_LocalPartQuotes (LocalPartQuotes s || negb (forallb isAtext l)) s)).
Proof.
  induction l as [|x l IH]; intros s fuel cs k d Hp H Hl Hf.
  - destruct fuel as [|f]; [simpl in Hf; lia|]. cbn [Qcontent_loop].
    rewrite (bind_runs _ _ _ _ _ (next_jump _ _ _ _ _ _ Hp H)). cbn.
    by rewrite orb_false_r, set_LocalPartQuotes_id, app_nil_r, Nat.add_1_r.
  - apply Forall_cons_1 in Hl as [Hx Hl]. apply Is_true_true_1 in Hx.
    cbn [map concat] in *. rewrite <- app_assoc in H. rewrite length_app in *.
    set (s2 := set_LocalPartQuotes (LocalPartQuotes s || negb (isAtext x)) s).
    assert (∀ f k' d', ((if negb (LocalPartQuotes s) && negb (isAtext x)
                   then modify (set_LocalPartQuotes true) else mret tt);;
                   WriteByte x;; Qcontent_loop f false) (jump cs k' d' s) =
            Qcontent_loop f false (jump (cs ++ [x]) k' d' s2)) as Hstep.
    { intros f k' d'. rewrite (bind_runs _ _ _ tt (jump cs k' d' s2)).
      - by rewrite (bind_runs _ _ _ _ _ (WriteByte_jump _ _ _ _ _)).
      - unfold s2. destruct s as [? ? ? ? ? [] ? ? ? ? ?], (isAtext x); done. }
    assert (∀ f k' d', length (concat (map escape l)) < f →
      drop k' (rest s) = concat (map escape l) ++ DQUOTE :: r →
      Qcontent_loop f false (jump (cs ++ [x]) k' d' s2) =
      (Ok tt, jump (cs ++ x :: l) (k' + S (length (concat (map escape l)))) DQUOTE
         (set_LocalPartQuotes (LocalPartQuotes s || negb (forallb isAtext (x :: l))) s))) as Hrec.
    { intros f k' d' Hf' H'. rewrite (IH s2); try done. rewrite <- app_assoc. cbn [forallb].
      by rewrite negb_andb, orb_assoc. }
    destruct (bool_decide (x = "\"%char) || bool_decide (x = DQUOTE)) eqn:Ex.
    + assert (escape x = ["\"%char; x]) as Ee by (unfold escape; by rewrite Ex). rewrite Ee in *.
      cbn [app length] in *. destruct fuel as [|[|f]]; [lia|lia|]. cbn [Qcontent_loop].
      rewrite (bind_runs _ _ _ _ _ (next_jump _ _ _ _ _ _ Hp H)). cbn [negb].
      rewrite bool_decide_true by done. apply drop_step in H.
      rewrite (bind_runs _ _ _ _ _ (next_jump _ _ _ _ _ _ Hp H)). cbn [negb].
      unfold printable in Hx. rewrite Hx. rewrite (bind_runs (gets _) _ (jump _ _ _ s) (LocalPartQuotes s) _ eq_refl).
      apply drop_step in H. rewrite Hstep, Hrec; [|lia|done].
      by replace (S (S k) + S (length (concat (map escape l))))
        with (k + S (2 + length (concat (map escape l)))) by lia.
    + assert (escape x = [x]) as Ee by (unfold escape; by rewrite Ex). rewrite Ee in *.
      cbn [app length] in *. destruct fuel as [|f]; [lia|]. cbn [Qcontent_loop].
      rewrite (bind_runs _ _ _ _ _ (next_jump _ _ _ _ _ _ Hp H)). cbn [negb].
      apply orb_false_iff in Ex as [Ex1 Ex2]. rewrite Ex1.
      replace (is_qtext x) with true.
      2: { symmetry. revert Hx Ex1 Ex2. clear. by destruct x as [[][][][][][][][]]. }
      rewrite (bind_runs (gets _) _ (jump _ _ _ s) (LocalPartQuotes s) _ eq_refl).
      apply drop_step in H. rewrite Hstep, Hrec; [|lia|done].
      by replace (S k + S (length (concat (map escape l))))
        with (k + S (1 + length (concat (map escape l)))) by lia.
Qed.

Lemma deferred_ok {S E A} f (m : M S E A) s a s' : m s = (Ok a, s') → deferred f m s = (Ok a, f s').
Proof. intros H. unfold deferred. by rewrite H. Qed.

Lemma Join_length l sep : length l ≤ S (length (Join l sep)) ∨ sep = [].
Proof.
  destruct sep as [|c sep]; [by right|left].
  induction l as [|x [|y l] IH]; [simpl; lia..|].
  change (Join (x :: y :: l) (c :: sep)) with (x ++ (c :: sep) ++ Join (y :: l) (c :: sep)).
  rewrite !length_app. cbn [length] in *. lia.
Qed.

Lemma local_text_head l r :
  local_ok l → ∃ c t, local_text l ++ r = c :: t ∧ c ≠ ">"%char ∧ c ≠ "@"%char ∧
    (bool_decide (c = DQUOTE) = match l with QuotedString _ => true | _ => false end).
Proof.
  destruct l as [a|t]; simpl.
  - intros [Ha Hl]. destruct a as [|x a]; [done|]. apply Forall_cons_1 in Hl as [Hx _].
    unfold is_atom in Hx. apply andb_true_iff in Hx as [Hx Hxx].
    destruct x as [|c x]; [done|]. apply andb_true_iff in Hxx as [Hc _].
    exists c. destruct a as [|y a]; simpl; (eexists; split; [done|]); split_and!;
      try apply bool_decide_eq_false; by intros ->.
  - intros _. eexists DQUOTE, _. by split.
Qed.

(** Reading a local part and the [@] behind it. *)
Lemma localPart_jump l r fuel s k d : (-1 ≤ pos s)%Z → local_ok l →
  drop k (rest s) = local_text l ++ "@"%char :: r → length (local_text l) + 1 < fuel →
  localPart fuel (jump [] k d s) =
    (Ok tt, take_LocalPart (jump (local_value l) (k + S (length (local_text l))) "@"
              (set_LocalPartQuotes (LocalPartQuotes s || local_quoted l) s))).
Proof.
  intros Hp Hl H Hf. unfold localPart. apply deferred_ok.
  destruct (local_text_head l ("@"%char :: r) Hl) as (c & t & Hct & _ & _ & Hq).
  rewrite (bind_runs peek _ _ _ _ eq_refl), peek_jump, H, Hct by done. cbn [head default]. unfold id.
  rewrite Hq. destruct l as [a|txt]; simpl in *.
  - destruct Hl as [Ha Hl]. unfold dotString. rewrite orb_false_r, set_LocalPartQuotes_id.
    apply (dotString_jump s "@"%char r Hp eq_refl ltac:(done) a fuel fuel [] k d); try done; try (simpl; lia).
    + eapply list.Forall_impl; [exact Hl|]. intros x Hx. unfold is_atom in Hx.
      apply andb_true_iff in Hx as [Hx ?]. by apply negb_true_iff, bool_decide_eq_false in Hx.
    + destruct (Join_length a ["."%char]) as [?|?]; [lia|done].
  - rewrite <- app_assoc in H. unfold quotedString, QcontentSMTP.
    rewrite (bind_runs _ _ _ _ _ (next_jump _ _ _ _ _ _ Hp H)). rewrite bool_decide_true by done.
    apply drop_step in H. rewrite length_app in *.
    rewrite (bind_runs _ _ _ _ _ (Qcontent_jump ("@"%char :: r) txt s fuel [] (S k) DQUOTE Hp H Hl
      ltac:(cbn [length] in *; lia))).
    rewrite (bind_runs cur _ (jump _ _ _ _) DQUOTE _ eq_refl). rewrite bool_decide_true by done.
    cbn [negb app]. apply drop_more in H. cbn [length] in *.
    assert (drop (S k + S (length (concat (map escape txt)))) (rest s) = "@"%char :: r) as H2.
    { rewrite Nat.add_succ_r. by apply drop_step in H. }
    rewrite (bind_runs next _ _ _ _ (next_jump (set_LocalPartQuotes
      (LocalPartQuotes s || negb (forallb isAtext txt)) s) _ _ _ _ _ Hp H2)).
    replace (S (S k + S (length (concat (map escape txt)))))
      with (k + S (S (length (concat (map escape txt)) + 1))) by lia. done.
Qed.

Lemma take_LocalPart_jump v k c s : accept s = [] →
  take_LocalPart (jump v k c s) = jump [] k c (match v with [] => s | _ => set_LocalPart v s end).
Proof. by destruct s, v; simpl; intros ->. Qed.
Lemma take_Domain_jump v k c s : accept s = [] →
  take_Domain (jump v k c s) = jump [] k c (match v with [] => s | _ => set_Domain v s end).
Proof. by destruct s, v; simpl; intros ->. Qed.

Lemma domain_text_head labels r :
  domain_ok labels → ∃ c t, Join labels "." ++ r = c :: t ∧ Join labels "." ≠ [] ∧ c ≠ "["%char.
Proof.
  intros [Hn Hl]. destruct labels as [|x l]; [done|]. apply Forall_cons_1 in Hl as [Hx _].
  destruct x as [|c x]; [done|]. cbn [is_label] in Hx.
  apply andb_true_iff in Hx as [[Hc _]%andb_true_iff _].
  exists c. destruct l; simpl; (eexists; split; [done|]); split; [done| |done|]; by intros ->.
Qed.

Lemma mailbox_jump l labels r fuel s k d : (-1 ≤ pos s)%Z → accept s = [] →
  local_ok l → domain_ok labels →
  drop k (rest s) = local_text l ++ "@"%char :: Join labels "." ++ ">"%char :: r →
  length (local_text l) + length (Join labels ".") + 1 < fuel →
  ∃ s' k' e, mailbox fuel (jump [] k d s) = (Ok tt, jump [] k' e s') ∧ is_ldh e = true ∧
    holds l labels s s' ∧ pos s' = pos s ∧ drop k' (rest s') = ">"%char :: r.
Proof.
  intros Hp Ha Hl Hd H Hf. unfold mailbox.
  destruct (domain_text_head labels (">"%char :: r) Hd) as (c & t & Hct & Hnil & Hc).
  set (s1 := set_LocalPartQuotes (LocalPartQuotes s || local_quoted l) s).
  set (s2 := match local_value l with [] => s1 | _ => set_LocalPart (local_value l) s1 end).
  set (K := k + S (length (local_text l))).
  assert (pos s2 = pos s ∧ buf s2 = buf s ∧ accept s2 = []) as (Hp2 & Hb2 & Ha2).
  { unfold s2, s1. by destruct (local_value l). }
  assert (-1 ≤ pos s2)%Z as Hp3 by (by rewrite Hp2).
  assert (drop K (rest s2) = Join labels "." ++ ">"%char :: r) as H2.
  { unfold rest. rewrite Hp2, Hb2. unfold K. rewrite Nat.add_succ_r.
    apply drop_more in H. by apply drop_step in H. }
  pose proof (localPart_jump l _ fuel s k d Hp Hl H ltac:(lia)) as HL.
  fold K s1 in HL. rewrite take_LocalPart_jump in HL by done. fold s2 in HL.
  destruct Hd as [Hne Hlab].
  assert (">"%char ∈ [":"; ","; ">"]%char ++ [NUL]) as Hin by (do 2 right; left).
  destruct (domain_jump s2 (">"%char :: r) Hp3 Hin labels fuel fuel [] K "@"
    Hne Hlab H2 ltac:(lia)) as (e & Hle & He).
  { destruct (Join_length labels ".") as [?|?]; [lia|done]. }
  exists (set_Domain (Join labels ".") s2), (K + length (Join labels ".")), e. split_and!.
  - erewrite deferred_ok.
    2: { rewrite (bind_runs _ _ _ _ _ HL). rewrite (bind_runs cur _ (jump _ _ _ _) "@"%char _ eq_refl).
         rewrite bool_decide_true by done. cbn [negb].
         rewrite (bind_runs peek _ _ _ _ eq_refl), peek_jump, H2, Hct by done. cbn [head default]. unfold id.
         rewrite bool_decide_false by done. exact He. }
    rewrite take_Domain_jump by done. cbn [app]. by destruct (Join labels ".").
  - done.
  - unfold holds, s2, s1. destruct (local_value l); simpl; split_and!; done.
  - done.
  - change (rest (set_Domain (Join labels ".") s2)) with (rest s2).
    by apply drop_more in H2.
Qed.

Lemma path_jump l labels r fuel s k d : (-1 ≤ pos s)%Z → accept s = [] →
  local_ok l → domain_ok labels →
  drop k (rest s) = "<"%char :: local_text l ++ "@"%char :: Join labels "." ++ ">"%char :: r →
  length (local_text l) + length (Join labels ".") + 1 < fuel →
  ∃ s' k' e, path fuel (jump [] k d s) = (Ok tt, jump [] k' e s') ∧
    holds l labels s s' ∧ pos s' = pos s ∧ drop k' (rest s') = ">"%char :: r.
Proof.
  intros Hp Ha Hl Hd H Hf.
  destruct (local_text_head l ("@"%char :: Join labels "." ++ ">"%char :: r) Hl)
    as (c & t & Hct & _ & Hc & _).
  pose proof (drop_step _ _ _ _ H) as H1.
  destruct (mailbox_jump l labels r fuel s (S k) "<"%char Hp Ha Hl Hd H1 Hf)
    as (s' & k' & e & Hm & _ & Hh & Hps & Hr).
  exists s', k', e. split_and!; [|done..]. unfold path.
  rewrite (bind_runs _ _ _ _ _ (next_jump _ _ _ _ _ _ Hp H)).
  rewrite (bind_runs peek _ _ _ _ eq_refl), peek_jump, H1, Hct by done. cbn [head default]. unfold id.
  rewrite (bool_decide_false (c = "@"%char)), andb_false_r by done.
  rewrite (bind_runs (mret tt) _ (jump _ _ _ _) tt _ eq_refl), (bind_runs _ _ _ _ _ Hm).
  rewrite (bind_runs peek _ _ _ _ eq_refl), peek_jump, Hr by (by rewrite Hps). done.
Qed.

Lemma path_parameters_jump fuel s k d r : (-1 ≤ pos s)%Z →
  drop k (rest s) = ">"%char :: r → head r ≠ Some " "%char →
  ∃ k' e, path_parameters fuel (jump [] k d s) = (Ok tt, jump [] k' e s).
Proof.
  intros Hp H Hr. unfold path_parameters.
  rewrite (bind_runs _ _ _ _ _ (next_jump _ _ _ _ _ _ Hp H)). apply drop_step in H.
  destruct r as [|c r].
  - rewrite <- (rest_jump s [] (S k) ">"%char Hp) in H.
    rewrite (bind_runs _ _ _ _ _ (next_nil _ H)). exists (S (S k)), ">"%char.
    unfold mret, M_ret. simpl. do 2 f_equal. unfold jump.
    by replace (pos s + Z.of_nat (S (S k)))%Z with (pos s + Z.of_nat (S k) + 1)%Z by lia.
  - rewrite (bind_runs _ _ _ _ _ (next_jump _ _ _ _ _ _ Hp H)).
    rewrite bool_decide_false by naive_solver. by eexists _, _.
Qed.

(** The wire form of a path. *)
Lemma input_jump l labels r s :
  pos s ≠ (-1)%Z → local_ok l → domain_ok labels →
  let input := "<" ++ local_text l ++ "@" ++ Join labels "." ++ ">" ++ r in
  let fuel := fuel_for input in
  ∃ s' k e d, set_buf input s = jump [] 0 d (set_buf input s) ∧
    path fuel (set_buf input s) = (Ok tt, jump [] k e s') ∧
    holds l labels (NewParser input) s' ∧ (-1 ≤ pos s')%Z ∧ drop k (rest s') = ">"%char :: r ∧
    HasPrefix (rest (set_buf input s)) "<>" = false ∧ peek_of (set_buf input s) = "<"%char.
Proof.
  intros Hpos Hl Hd input fuel. set (s1 := set_buf input s).
  assert (pos s1 = (-1)%Z ∧ accept s1 = [] ∧ rest s1 = input) as (Hp & Ha & Hr).
  { unfold s1, set_buf, Reset. apply Z.eqb_neq in Hpos. by rewrite Hpos. }
  destruct (path_jump l labels r fuel s1 0 (ch s1)) as (s' & k' & e & Hm & Hh & Hps & Hrr).
  1-4: by rewrite ?Hp.
  { by rewrite Hr. }
  { unfold fuel, fuel_for, input. cbn [bs String.list_ascii_of_string].
    repeat first [rewrite length_app | progress cbn [length app]]. lia. }
  exists s', k', e, (ch s1). rewrite <- jump_0 in Hm. split_and!; try done.
  - apply jump_0.
  - revert Hh. unfold s1, set_buf, Reset, holds. apply Z.eqb_neq in Hpos. by rewrite Hpos.
  - by rewrite Hps, Hp.
  - rewrite Hr. unfold input.
    destruct (local_text_head l ("@" ++ Join labels "." ++ ">" ++ r) Hl) as (c & t & Hct & Hc & _).
    rewrite Hct. simpl. by rewrite bool_decide_false.
  - by rewrite peek_of_head, Hr.
Qed.

(** ** Properties *)

(** [MailFrom], [RcptTo], [Helo] and [Ehlo] return and keep the invariant. *)
Lemma wp_MailFrom input s :
  reading s →
  wp (MailFrom input) (λ _ s', reading s' ∧ buf s' = input) (λ _ s', reading s' ∧ buf s' = input) s.
Proof.
  intros Hr. apply (wp_input (λ f, reversePath f;; path_parameters f)); [done|].
  intros s1 H1 Hl. apply wp_bind. eapply wp_mono; [by apply wp_reversePath| |done].
  simpl. intros _ s2 H2. pose proof (reach_len _ _ H1 H2).
  eapply wp_mono; [apply wp_path_parameters; preach | simpl; preach..].
Qed.
Lemma wp_RcptTo `{Unicode} input s :
  reading s →
  wp (RcptTo input) (λ _ s', reading s' ∧ buf s' = input) (λ _ s', reading s' ∧ buf s' = input) s.
Proof.
  intros Hr. apply (wp_input (λ f, forwardPath f;; path_parameters f)); [done|].
  intros s1 H1 Hl. apply wp_bind. eapply wp_mono; [by apply wp_forwardPath| |done].
  simpl. intros _ s2 H2. pose proof (reach_len _ _ H1 H2).
  eapply wp_mono; [apply wp_path_parameters; preach | simpl; preach..].
Qed.
Lemma wp_Helo_Ehlo input s :
  reading s →
  wp (Helo input) (λ d s', Printable d ∧ reading s') (λ _ s', reading s') s ∧
  wp (Ehlo input) (λ d s', Printable d.1 ∧ reading s') (λ _ s', reading s') s.
Proof.
  intros Hr. destruct (reading_set_buf input s Hr) as (H1 & H2 & H3).
  split; apply wp_bind, wp_modify; assert (len (set_buf input s) < fuel_for input)
    by (unfold fuel_for; lia); generalize dependent (set_buf input s); intros s1 ? ? ? ?; psteps.
  all: eapply wp_mono; [first [apply wp_domain | apply wp_addressLiteral]; preach | |]; simpl; intros;
    psteps.
Qed.

Lemma wp_returned {A} (m : P A) Q R s :
  wp m Q R s → returned (fst (m s)) ∧ (∀ C : Parser → Prop, (∀ a s', Q a s' → C s') → (∀ e s', R e s' → C s') → C (snd (m s))).
Proof. unfold wp, returned. destruct (m s) as [[a|e| |] s']; naive_solver. Qed.

(** C32. A session can feed the parser anything: after any sequence of commands (the
    parser invariant), the paths of MAIL and RCPT are parsed in [length input + 2]
    iterations of each loop at most and without a panic, to a result or an error; and in
    both cases every text that was collected (local part, domain, source route,
    parameters) is printable ASCII, so that no control byte and no line break of the
    input reaches an address. *)
Theorem paths_return `{Unicode} input s :
  reading s →
  (returned (fst (MailFrom input s)) ∧ returned (fst (RcptTo input s))) ∧
  (clean (snd (MailFrom input s)) ∧ clean (snd (RcptTo input s))) ∧
  (reading (snd (MailFrom input s)) ∧ reading (snd (RcptTo input s))).
Proof.
  intros Hr. destruct (wp_returned _ _ _ _ (wp_MailFrom input s Hr)) as [H1 K1].
  destruct (wp_returned _ _ _ _ (wp_RcptTo input s Hr)) as [H2 K2].
  split; [done|]. unfold reading in K1, K2.
  split; split; first [apply K1|apply K2]; intros; by destruct_and?.
Qed.
Lemma paths_return_witness : @returned unit (fst (MailFrom "<a@b.c> SIZE=5" zero_Parser)).
Proof.
  refine (proj1 (proj1 (@paths_return ascii_only (bs "<a@b.c> SIZE=5") zero_Parser _))). apply reading_zero.
Defined.

(** [Helo] and [Ehlo] return for every input, and the name they return is
    printable. *)
Theorem greeting_returns input s :
  reading s →
  match fst (Helo input s) with Ok d => Printable d | Err _ => True | _ => False end ∧
  match fst (Ehlo input s) with Ok (d, _) => Printable d | Err _ => True | _ => False end.
Proof.
  intros Hr. destruct (wp_Helo_Ehlo input s Hr) as [H1 H2]. unfold wp in H1, H2.
  split; [destruct (Helo input s) as [[?|?| |] ?]|destruct (Ehlo input s) as [[[? ?]|?| |] ?]]; naive_solver.
Qed.
Lemma greeting_returns_witness : match fst (Helo "host.example" zero_Parser) with Ok d => Printable d | Err _ => True | _ => False end.
Proof. apply (greeting_returns (bs "host.example") zero_Parser), reading_zero. Defined.

(** The state after a written path. *)
Lemma MailFrom_path l labels s :
  pos s ≠ (-1)%Z → local_ok l → domain_ok labels →
  let input := "<" ++ local_text l ++ "@" ++ Join labels "." ++ ">" in
  ∃ s', MailFrom input s = (Ok tt, s') ∧ holds l labels (NewParser input) s'.
Proof.
  intros Hpos Hl Hd input.
  destruct (input_jump l labels [] s Hpos Hl Hd) as (s' & k & e & d & H0 & Hm & Hh & Hp & Hr & Hn & Hpk).
  rewrite app_nil_r in *. fold input in H0, Hm, Hh, Hn, Hpk.
  destruct (path_parameters_jump (fuel_for input) s' k e [] Hp Hr ltac:(done)) as (k' & e' & Hpar).
  exists (jump [] k' e' s'). split.
  - unfold MailFrom, MailFrom_fuel. rewrite (bind_runs (modify _) _ _ tt _ eq_refl).
    erewrite (bind_runs (reversePath _)).
    2: { unfold reversePath, skip_space.
         erewrite (bind_runs (peek ≫= _)).
         2: { rewrite (bind_runs peek _ _ _ _ eq_refl), Hpk. reflexivity. }
         rewrite (bind_runs (gets _) _ _ _ _ eq_refl), Hn. exact Hm. }
    done.
  - unfold holds in *. simpl. rewrite app_nil_r. exact Hh.
Qed.

(** C33. [MailFrom] reads back a path that is written in the form of RFC 5321:
    for every local part, a dot-string of atoms or a quoted string of printable
    text with its quotes and backslashes escaped, and every domain of
    letter-digit-hyphen labels, the parser accepts and holds exactly that local
    part (unescaped), whether it needs quotes, and that domain, with no
    parameters and no source route. *)
Theorem MailFrom_reads_path l labels s :
  pos s ≠ (-1)%Z → local_ok l → domain_ok labels →
  let input := "<" ++ local_text l ++ "@" ++ Join labels "." ++ ">" in
  ∃ s', MailFrom input s = (Ok tt, s') ∧ holds l labels (NewParser input) s'.
Proof. apply MailFrom_path. Qed.
Lemma MailFrom_reads_path_witness :
  zero_Parser.(pos) ≠ (-1)%Z ∧
  ∃ s', MailFrom ("<" ++ local_text (QuotedString "a b") ++ "@" ++ Join [bs "x"; bs "org"] "." ++ ">")
          zero_Parser = (Ok tt, s') ∧
        holds (QuotedString "a b") [bs "x"; bs "org"]
          (NewParser ("<" ++ local_text (QuotedString "a b") ++ "@" ++ Join [bs "x"; bs "org"] "." ++ ">")) s'.
Proof.
  split; [done|]. apply (MailFrom_reads_path (QuotedString "a b") [bs "x"; bs "org"] zero_Parser).
  - done.
  - by repeat constructor.
  - split; [done|]. by repeat constructor.
Defined.

(** [RcptTo] reads back a written path like [MailFrom], except that a local
    part whose lower-case form begins with [postmaster] is replaced by
    [postmaster], whatever follows. *)
Theorem RcptTo_reads_path `{Unicode} l labels s :
  pos s ≠ (-1)%Z → local_ok l → domain_ok labels →
  let input := "<" ++ local_text l ++ "@" ++ Join labels "." ++ ">" in
  ∃ s' s'', RcptTo input s = (Ok tt, s'') ∧ holds l labels (NewParser input) s' ∧
    s'' = if HasPrefix (ToLower (LocalPart s')) postmasterLocalPart
          then set_LocalPart postmasterLocalPart s' else s'.
Proof.
  intros Hpos Hl Hd input.
  destruct (input_jump l labels [] s Hpos Hl Hd) as (s' & k & e & d & H0 & Hm & Hh & Hp & Hr & Hn & Hpk).
  rewrite app_nil_r in *. fold input in H0, Hm, Hh, Hn, Hpk.
  set (s2 := if HasPrefix (ToLower (LocalPart s')) postmasterLocalPart
             then set_LocalPart postmasterLocalPart s' else s').
  assert (pos s2 = pos s' ∧ rest s2 = rest s') as [Hp2 Hr2] by (unfold s2; destruct (HasPrefix (ToLower (LocalPart s')) postmasterLocalPart); by split).
  destruct (path_parameters_jump (fuel_for input) s2 k e []) as (k' & e' & Hpar).
  1-3: by rewrite ?Hp2, ?Hr2.
  exists (jump [] k' e' s'), (jump [] k' e' s2). split_and!.
  - unfold RcptTo, RcptTo_fuel. rewrite (bind_runs (modify _) _ _ tt _ eq_refl).
    erewrite (bind_runs (forwardPath _)).
    2: { unfold forwardPath, skip_space.
         erewrite (bind_runs (peek ≫= _)).
         2: { rewrite (bind_runs peek _ _ _ _ eq_refl), Hpk. reflexivity. }
         rewrite (bind_runs (try_ _) _ _ (inl tt) (jump [] k e s')).
         2: { unfold try_. by rewrite Hm. }
         rewrite (bind_runs (mret tt) _ _ _ _ eq_refl).
         rewrite (bind_runs (gets _) _ (jump _ _ _ _) (LocalPart s') _ eq_refl).
         instantiate (1 := jump [] k e s2). instantiate (1 := tt). unfold s2.
         by destruct (HasPrefix (ToLower (LocalPart s')) postmasterLocalPart). }
    done.
  - unfold holds in *. simpl. rewrite app_nil_r. exact Hh.
  - change (LocalPart (jump [] k' e' s')) with (LocalPart s'). unfold s2. by destruct (HasPrefix (ToLower (LocalPart s')) postmasterLocalPart).
Qed.
Lemma RcptTo_reads_path_witness :
  zero_Parser.(pos) ≠ (-1)%Z ∧
  ∃ s' s'', RcptTo (H := ascii_only) ("<" ++ local_text (DotString [bs "postmaster-x"]) ++ "@" ++ Join [bs "org"] "." ++ ">")
          zero_Parser = (Ok tt, s'') ∧
        holds (DotString [bs "postmaster-x"]) [bs "org"]
          (NewParser ("<" ++ local_text (DotString [bs "postmaster-x"]) ++ "@" ++ Join [bs "org"] "." ++ ">")) s' ∧
    s'' = if HasPrefix (ToLower (U := ascii_only) (LocalPart s')) postmasterLocalPart
          then set_LocalPart postmasterLocalPart s' else s'.
Proof.
  split; [done|].
  apply (RcptTo_reads_path (H := ascii_only) (DotString [bs "postmaster-x"]) [bs "org"] zero_Parser).
  - done.
  - split; [done|]. by repeat constructor.
  - split; [done|]. by repeat constructor.
Defined.
