(* ===== verification/Rfc5322.v ===== *)
(** * RFC 5322 addresses: package [rfc5321], type [RFC5322]
    (mail/rfc5321/address.go)

    The type embeds the SMTP [Parser] and adds a list of addresses, a group name
    and the address under construction. Unlike the SMTP productions it looks at
    [ch], the last byte read, which keeps its value at the end of the input; the
    loops therefore take fuel, and which inputs they end on is a theorem. *)
From S2P Require Import Prelude GoStd Rfc5321.

Record SingleAddress := mkSingleAddress {
  DisplayName : bytes;
  DisplayNameQuoted : bool;
  sa_LocalPart : bytes;
  sa_LocalPartQuoted : bool;
  sa_Domain : bytes;
  sa_IP : option IP;
  sa_NullPath : bool
}.
Definition zero_SingleAddress : SingleAddress := mkSingleAddress [] false [] false [] None false.

Record AddressList := mkAddressList { List : list SingleAddress; Group : bytes }.

Record RFC5322 := mkRFC5322 { lst : AddressList; prs : Parser; addr : SingleAddress }.
Definition zero_RFC5322 : RFC5322 := mkRFC5322 (mkAddressList [] []) zero_Parser zero_SingleAddress.

Definition set_List (v : list SingleAddress) (s : RFC5322) : RFC5322 :=
  mkRFC5322 (mkAddressList v (Group (lst s))) (prs s) (addr s).
Definition set_Group (v : bytes) (s : RFC5322) : RFC5322 :=
  mkRFC5322 (mkAddressList (List (lst s)) v) (prs s) (addr s).
Definition set_prs (p : Parser) (s : RFC5322) : RFC5322 := mkRFC5322 (lst s) p (addr s).
Definition set_addr (a : SingleAddress) (s : RFC5322) : RFC5322 := mkRFC5322 (lst s) (prs s) a.
Definition set_DisplayName (v : bytes) (s : RFC5322) : RFC5322 :=
  let a := addr s in
  set_addr (mkSingleAddress v (DisplayNameQuoted a) (sa_LocalPart a) (sa_LocalPartQuoted a)
              (sa_Domain a) (sa_IP a) (sa_NullPath a)) s.
Definition set_DisplayNameQuoted (v : bool) (s : RFC5322) : RFC5322 :=
  let a := addr s in
  set_addr (mkSingleAddress (DisplayName a) v (sa_LocalPart a) (sa_LocalPartQuoted a)
              (sa_Domain a) (sa_IP a) (sa_NullPath a)) s.

Abbreviation R := (M RFC5322 parse_error).

(** A method of the embedded parser. *)
Definition lift {A} (m : P A) : R A := λ s, let '(r, p) := m (prs s) in (r, set_prs p s).

Definition curr : R ascii := lift cur.

Definition is_wsp (c : ascii) : bool := bool_decide (c = " "%char) || bool_decide (c = TAB).

(** [skipSpace] counts the bytes it skips. *)
Fixpoint skipSpace (fuel : nat) (skipped : nat) : P nat :=
  match fuel with
  | 0 => out_of_fuel
  | S f =>
      c ← cur;
      if negb (is_wsp c) then mret skipped else next;; skipSpace f (S skipped)
  end.

Fixpoint words_loop (fuel n : nat) : P unit :=
  match n with
  | 0 => out_of_fuel
  | S n' =>
      c ← cur;
      if isAtext c then WriteByte c;; next;; words_loop fuel n'
      else
        skipped ← skipSpace fuel 0;
        d ← cur;
        if negb (isAtext d) then mret tt
        else
          (if 0 <? skipped then WriteByte " "%char else mret tt);;
          WriteByte d;; next;; words_loop fuel n'
  end.
(** [RFC5322.atom]: atext separated by white space. *)
Definition phrase_atom (fuel : nat) : P unit :=
  skipSpace fuel 0;;
  c ← cur;
  if negb (isAtext c) then fail errNotAtom else words_loop fuel fuel.

(** [RFC5322.quotedString] starts at the quote, which was read already. *)
Definition phrase_quotedString (fuel : nat) : P unit :=
  c ← cur;
  if bool_decide (c = DQUOTE) then
    QcontentSMTP fuel;;
    d ← cur;
    if negb (bool_decide (d = DQUOTE)) then fail errQuotedUnclosed else next;; mret tt
  else mret tt.

Definition word (fuel : nat) : R unit :=
  c ← curr;
  if bool_decide (c = DQUOTE) then
    modify (set_DisplayNameQuoted true);; lift (phrase_quotedString fuel)
  else if isAtext c || is_wsp c then lift (phrase_atom fuel)
  else fail errNotAWord.

Fixpoint displayName_loop (fuel n : nat) : R unit :=
  match n with
  | 0 => out_of_fuel
  | S n' =>
      r ← try_ (word fuel);
      match r with
      | inr _ => mret tt
      | inl _ => displayName_loop fuel n'
      end
  end.
Definition take_DisplayName (s : RFC5322) : RFC5322 :=
  match accept (prs s) with
  | [] => s
  | a => set_prs (set_accept [] (prs s)) (set_DisplayName a s)
  end.
Definition displayName (fuel : nat) : R unit :=
  deferred take_DisplayName (word fuel;; displayName_loop fuel fuel).

Definition angleAddr (fuel : nat) : R unit :=
  lift (skipSpace fuel 0);;
  c ← curr;
  if negb (bool_decide (c = "<"%char)) then fail errExpectingAngleOpen
  else
    lift (Rfc5321.mailbox fuel);;
    lift (skipSpace fuel 0);;
    mret tt.

Definition addAddress : R unit := modify (λ s,
  let p := prs s in
  let a := mkSingleAddress (DisplayName (addr s)) (DisplayNameQuoted (addr s)) (LocalPart p)
             (LocalPartQuotes p) (Domain p) (p_IP p) (sa_NullPath (addr s)) in
  set_addr zero_SingleAddress (set_List (List (lst s) ++ [a]) s)).

Definition nameAddr (fuel : nat) : R unit :=
  try_ (displayName fuel);;
  c ← curr;
  if bool_decide (c = "<"%char) then
    angleAddr fuel;;
    lift next;;
    d ← curr;
    if negb (bool_decide (d = ">"%char)) then fail errExpectingAngleClose else addAddress
  else fail errExpectingAngleAddress.

(** [s.pos = pos - 1; if s.pos > -1 { s.ch = s.buf[s.pos] }]: an index outside of
    the buffer panics. *)
Definition rewind (p : Z) : P unit := λ s,
  if (-1 <? p)%Z then
    match buf s !! Z.to_nat p with
    | Some c => (Ok tt, set_pos_ch p c s)
    | None => (Panic, set_pos_ch p (ch s) s)
    end
  else (Ok tt, set_pos_ch p (ch s) s).

Definition is_errExpectingAngleAddress (e : parse_error) : bool :=
  match e with errExpectingAngleAddress => true | _ => false end.

Definition mailbox (fuel : nat) : R unit :=
  p ← gets (λ s, pos (prs s));
  r ← try_ (nameAddr fuel);
  match r with
  | inl _ => mret tt
  | inr e =>
      c ← curr;
      if is_errExpectingAngleAddress e && negb (bool_decide (c = ":"%char)) then
        modify (set_DisplayName []);;
        modify (set_DisplayNameQuoted false);;
        lift (rewind (p - 1));;
        lift (Rfc5321.mailbox fuel);;
        addAddress
      else fail e
  end.

Fixpoint groupList_loop (fuel n : nat) : R unit :=
  match n with
  | 0 => out_of_fuel
  | S n' =>
      lift (skipSpace fuel 0);;
      c ← curr;
      if negb (bool_decide (c = ","%char)) then mret tt
      else
        lift next;;
        lift (skipSpace fuel 0);;
        mailbox fuel;;
        lift next;;
        groupList_loop fuel n'
  end.
Definition groupList (fuel : nat) : R unit :=
  mailbox fuel;; lift next;; groupList_loop fuel fuel.

Definition group (fuel : nat) : R unit :=
  d ← gets (λ s, DisplayName (addr s));
  (match d with
   | [] => displayName fuel
   | _ => modify (set_Group d);; modify (set_DisplayName [])
   end);;
  c ← curr;
  if negb (bool_decide (c = ":"%char)) then fail errExpectingColon
  else
    lift next;;
    try_ (groupList fuel);;
    lift (skipSpace fuel 0);;
    e ← curr;
    if negb (bool_decide (e = ";"%char)) then fail errExpectingSemicolon else mret tt.

(** The address list is returned beside an error too: it is in the state. *)
Definition Address_fuel (fuel : nat) (input : bytes) : R AddressList :=
  lift (modify (set_buf input));;
  lift next;;
  modify (set_List []);;
  modify (set_addr zero_SingleAddress);;
  r ← try_ (mailbox fuel);
  match r with
  | inl _ => gets lst
  | inr e =>
      c ← curr;
      if bool_decide (c = ":"%char) then group fuel;; gets lst
      else fail e
  end.

Definition Address (input : bytes) : R AddressList := Address_fuel (fuel_for input) input.

(** A display name as it is written: atoms with one space between them. *)
Fixpoint is_phrase (t : bytes) : bool :=
  match t with
  | [] => false
  | c :: t' =>
      isAtext c &&
      match t' with
      | [] => true
      | d :: t'' => if bool_decide (d = " "%char) then is_phrase t'' else is_phrase t'
      end
  end.

(** A byte that none of the loops accepts: an address that ends with one is read
    in finitely many steps. *)
Definition stop (c : ascii) : bool :=
  negb (isAtext c) && negb (is_wsp c) && negb (bool_decide (c = DQUOTE)).

(** The buffer ends with such a byte, and reading has begun. *)
Definition ends_well (s : Parser) : Prop :=
  (0 ≤ pos s)%Z ∧ buf s ≠ [] ∧ stop (List.last (buf s) NUL) = true.

(** What the byte that was read last may be. *)
Definition read_from (s : Parser) : Prop := ch s ∈ buf s.

(** ** Notions used by the statements *)

(** A call that has read at least one byte. *)
Definition advances (s s' : Parser) : Prop := reach s s' ∧ len s' < len s.

(** The parser inside has read on. *)
Definition goes (s s' : RFC5322) : Prop := reach (prs s) (prs s').

Definition ready (fuel : nat) (s : RFC5322) : Prop :=
  reading (prs s) ∧ ends_well (prs s) ∧ len (prs s) < fuel.

(** An input without a colon never shows one in [ch]. *)
Definition no_colon (s : Parser) : Prop :=
  buf s ≠ [] ∧ (":"%char ∉ buf s) ∧ ch s ≠ ":"%char.

(** * Proofs *)

(** ** The end of the input *)
Lemma last_lookup_ (l : bytes) d : l ≠ [] → l !! (length l - 1) = Some (List.last l d).
Proof.
  intros H. destruct (exists_last H) as (l' & x & ->).
  rewrite List.last_last, length_app. simpl.
  rewrite Nat.add_sub. by apply list_lookup_middle.
Qed.

Lemma at_end_stop s : reading s → ends_well s → len s = 0 → stop (ch s) = true.
Proof.
  intros (_ & _ & Hs) (Hp & Hb & Hl) Hz. specialize (Hs Hp Hb).
  unfold len, rest in Hz. rewrite length_drop in Hz.
  replace (Nat.min (Z.to_nat (pos s)) (length (buf s) - 1)) with (length (buf s) - 1) in Hs by lia.
  rewrite (last_lookup_ _ NUL Hb) in Hs. injection Hs as <-. done.
Qed.
Lemma more_input s : reading s → ends_well s → stop (ch s) = false → 0 < len s.
Proof.
  intros Hr He Hs. destruct (decide (len s = 0)) as [Hz|]; [|lia].
  by rewrite (at_end_stop s Hr He Hz) in Hs.
Qed.
Lemma isAtext_stop c : isAtext c = true → stop c = false.
Proof. unfold stop. by intros ->. Qed.
Lemma is_wsp_stop c : is_wsp c = true → stop c = false.
Proof. unfold stop. intros ->. by rewrite andb_false_r. Qed.
Lemma ends_well_reach s s' : reach s s' → ends_well s → ends_well s'.
Proof. intros (_ & Hb & Hp & _) (? & ? & ?). unfold ends_well. rewrite Hb. split_and!; [lia|done..]. Qed.

Lemma wp_next_more (Q : ascii → Parser → Prop) (R : parse_error → Parser → Prop) s :
  reading s → 0 < len s → (∀ s', advances s s' → Q (ch s') s') → wp next Q R s.
Proof. intros Hr Hl HQ. apply wp_next; [done| |intros; lia]. intros. apply HQ. split; [done|lia]. Qed.

(** ** Termination of the loops *)
Lemma wp_skipSpace fuel : ∀ k s, reading s → ends_well s → len s < fuel →
  wp (skipSpace fuel k) (λ _ s', reach s s' ∧ is_wsp (ch s') = false) (λ _ _, False) s.
Proof.
  induction fuel as [|f IH]; intros k s Hr He Hl; [lia|]. simpl.
  apply wp_bind, wp_cur. destruct (is_wsp (ch s)) eqn:E; simpl.
  - apply wp_bind, wp_next_more; [done|by apply more_input; auto using is_wsp_stop|].
    intros s' [Hs1 Hs2]. eapply wp_mono; [apply IH| |done].
    + by eapply reach_reading.
    + by eapply ends_well_reach.
    + lia.
    + simpl. intros _ s2 [Hs3 ?]. split; [by eapply reach_trans|done].
  - apply wp_ret. by split; [apply reach_refl|].
Qed.

(** White space is skipped before the continuation. *)
Lemma wp_skip {A} fuel k (f : nat → P A) Q R s : reading s → ends_well s → len s < fuel →
  (∀ n s', reach s s' → reading s' → ends_well s' → len s' < fuel → is_wsp (ch s') = false →
     wp (f n) Q R s') →
  wp (skipSpace fuel k ≫= f) Q R s.
Proof.
  intros Hr He Hl Hf. apply wp_bind. eapply wp_mono; [by apply wp_skipSpace| |done].
  simpl. intros n s1 [Hs1 Hw]. pose proof (reach_len _ _ Hr Hs1).
  apply Hf; eauto using ends_well_reach, reach_reading; lia.
Qed.

Lemma wp_words_loop fuel : ∀ n s, reading s → ends_well s → len s < fuel → len s < n →
  wp (words_loop fuel n) (λ _ s', reach s s' ∧ (isAtext (ch s) = true → len s' < len s))
     (λ _ _, False) s.
Proof.
  induction n as [|n IH]; intros s Hr He Hf Hn; [lia|]. simpl.
  assert (∀ c s1, reach s s1 → reading s1 → isAtext (ch s1) = true → c = ch s1 →
    wp (WriteByte c;; next;; words_loop fuel n)
       (λ _ s', reach s s' ∧ len s' < len s) (λ _ _, False) s1) as Htake.
  { intros c s1 Hs1 Hr1 Hc ->. pose proof (ends_well_reach _ _ Hs1 He) as He1.
    pose proof (reach_len _ _ Hr Hs1).
    assert (0 < len s1) by (apply more_input; auto using isAtext_stop).
    apply wp_bind, wp_WriteByte; [done|by apply isAtext_printable|]. intros s2 Hs2.
    pose proof (still_len _ _ Hs2). pose proof (still_reach _ _ Hs2) as Hs2'.
    pose proof (still_reading _ _ Hs2).
    apply wp_bind, wp_next_more; [done|lia|]. intros s3 [Hs3 ?].
    eapply wp_mono; [apply IH| |done]; try lia.
    - by eapply reach_reading.
    - by eapply ends_well_reach; [|eapply ends_well_reach].
    - simpl. intros _ s4 [Hs4 _]. pose proof (reach_len _ _ (reach_reading _ _ Hs3) Hs4).
      split; [eauto using reach_trans|lia]. }
  apply wp_bind, wp_cur. destruct (isAtext (ch s)) eqn:E.
  - eapply wp_mono; [apply Htake; auto with go| |done]. simpl. intros _ s1 []. by split.
  - apply wp_skip; [done..|]. intros k s1 Hs1 Hr1 He1 Hl1 _. apply wp_bind, wp_cur.
    destruct (isAtext (ch s1)) eqn:E1; simpl; [|by apply wp_ret].
    apply wp_bind. destruct (0 <? k).
    + apply wp_WriteByte; [done|done|]. intros s2 Hs2.
      pose proof (still_reach _ _ Hs2) as Hs2'. pose proof (still_ch _ _ Hs2) as Hc2.
      rewrite <- Hc2. eapply wp_mono; [apply Htake| |done]; try done.
      * by eapply reach_trans.
      * by apply still_reading in Hs2.
      * by rewrite Hc2.
      * simpl. intros _ s3 []. by split.
    + apply wp_ret. eapply wp_mono; [by apply Htake| |done]. simpl. intros _ s3 []. by split.
Qed.

Lemma wp_phrase_atom fuel s : reading s → ends_well s → len s < fuel →
  wp (phrase_atom fuel) (λ _ s', advances s s') (λ _ s', reach s s') s.
Proof.
  intros Hr He Hl. apply wp_skip; [done..|]. intros _ s1 Hs1 Hr1 He1 Hl1 Hw.
  apply wp_bind, wp_cur. pose proof (reach_len _ _ Hr Hs1).
  destruct (isAtext (ch s1)) eqn:E; simpl; [|by apply wp_fail].
  eapply wp_mono; [apply wp_words_loop; auto; lia| |done].
  simpl. intros _ s2 [Hs2 Hl2]. specialize (Hl2 E). split; [by eapply reach_trans|lia].
Qed.

Lemma wp_phrase_quotedString fuel s : reading s → ends_well s → len s < fuel → ch s = DQUOTE →
  wp (phrase_quotedString fuel) (λ _ s', advances s s') (λ _ s', reach s s') s.
Proof.
  intros Hr He Hl Hc. unfold phrase_quotedString. apply wp_bind, wp_cur.
  rewrite bool_decide_true by done. apply wp_bind.
  eapply wp_mono; [by apply wp_Qcontent_loop| |done]. simpl. intros _ s1 Hs1.
  apply wp_bind, wp_cur. destruct (bool_decide (ch s1 = DQUOTE)) eqn:E; simpl; [|by apply wp_fail].
  apply bool_decide_eq_true in E. pose proof (reach_len _ _ Hr Hs1).
  assert (0 < len s1).
  { apply more_input; eauto using reach_reading, ends_well_reach. by rewrite E. }
  apply wp_bind, wp_next_more; [by eapply reach_reading|done|]. intros s2 [Hs2 ?].
  apply wp_ret. split; [by eapply reach_trans|lia].
Qed.

(** ** The productions *)
Lemma wp_lift {A} (m : P A) (Q : A → RFC5322 → Prop) (R : parse_error → RFC5322 → Prop) s :
  wp m (λ a p, Q a (set_prs p s)) (λ e p, R e (set_prs p s)) (prs s) → wp (lift m) Q R s.
Proof. unfold wp, lift. by destruct (m (prs s)) as [[] ?]. Qed.

Lemma goes_ready fuel s s' : ready fuel s → goes s s' → ready fuel s'.
Proof.
  intros (Hr & He & Hl) Hg. pose proof (reach_len _ _ Hr Hg).
  split_and!; [by eapply reach_reading|by eapply ends_well_reach|lia].
Qed.
Lemma goes_trans s1 s2 s3 : goes s1 s2 → goes s2 s3 → goes s1 s3.
Proof. apply reach_trans. Qed.
Lemma goes_refl fuel s : ready fuel s → goes s s.
Proof. intros (Hr & _). by apply reach_refl. Qed.

Lemma wp_word fuel s : ready fuel s →
  wp (word fuel) (λ _ s', goes s s' ∧ len (prs s') < len (prs s)) (λ _ s', goes s s') s.
Proof.
  intros (Hr & He & Hl). unfold word, curr. apply wp_bind, wp_lift, wp_cur.
  destruct (bool_decide (ch (prs s) = DQUOTE)) eqn:E.
  - apply bool_decide_eq_true in E. apply wp_bind, wp_modify, wp_lift. by apply wp_phrase_quotedString.
  - destruct (_ || _).
    + apply wp_lift. by apply wp_phrase_atom.
    + apply wp_fail. by apply reach_refl.
Qed.

Lemma wp_displayName_loop fuel : ∀ n s, ready fuel s → len (prs s) < n →
  wp (displayName_loop fuel n) (λ _ s', goes s s') (λ _ _, False) s.
Proof.
  induction n as [|n IH]; intros s Hs Hn; [lia|]. simpl. apply wp_bind, wp_try.
  eapply wp_mono; [by apply wp_word| |]; simpl.
  - intros _ s1 [Hg Hl]. eapply wp_mono; [apply IH| |done].
    + by eapply goes_ready.
    + lia.
    + simpl. intros _ s2 ?. by eapply goes_trans.
  - intros _ s1 Hg. by apply wp_ret.
Qed.

Lemma goes_take_DisplayName s s' : goes s s' → goes s (take_DisplayName s').
Proof.
  unfold goes, take_DisplayName. destruct (accept (prs s')); [done|]. intros Hg.
  eapply reach_trans; [done|]. apply still_reach, still_set_accept; auto with go.
  by eapply reach_reading.
Qed.

Lemma wp_displayName fuel s : ready fuel s →
  wp (displayName fuel) (λ _ s', goes s s') (λ _ s', goes s s') s.
Proof.
  intros Hs. apply wp_deferred, wp_bind. eapply wp_mono; [by apply wp_word| |]; simpl.
  - intros _ s1 [Hg Hl]. pose proof (goes_ready _ _ _ Hs Hg) as (? & ? & ?).
    eapply wp_mono; [by apply wp_displayName_loop| |done].
    simpl. intros _ s2 ?. by eapply goes_take_DisplayName, goes_trans.
  - intros _ s1 Hg. by apply goes_take_DisplayName.
Qed.

Lemma wp_angleAddr fuel s : ready fuel s →
  wp (angleAddr fuel) (λ _ s', goes s s') (λ _ s', goes s s') s.
Proof.
  intros (Hr & He & Hl). unfold angleAddr, curr. apply wp_bind, wp_lift.
  eapply wp_mono; [by apply wp_skipSpace| |done]. simpl. intros _ p1 [Hp1 _].
  apply wp_bind, wp_lift, wp_cur. simpl. destruct (negb _); [by apply wp_fail|].
  apply wp_bind, wp_lift. pose proof (reach_len _ _ Hr Hp1).
  eapply wp_mono; [apply wp_mailbox; [by eapply reach_reading|simpl; lia]| |]; simpl.
  - intros _ p2 Hp2. pose proof (reach_trans _ _ _ Hp1 Hp2) as Hp12.
    pose proof (reach_len _ _ Hr Hp12). apply wp_bind, wp_lift.
    eapply wp_mono; [apply wp_skipSpace; simpl| |done]; eauto using reach_reading, ends_well_reach; [lia|].
    simpl. intros _ p3 [Hp3 _]. apply wp_ret. by eapply (reach_trans _ p2).
  - intros _ p2 Hp2. by eapply (reach_trans _ p1).
Qed.

Lemma wp_nameAddr fuel s : ready fuel s →
  wp (nameAddr fuel) (λ _ s', goes s s') (λ _ s', goes s s') s.
Proof.
  intros Hs. unfold nameAddr, curr.
  assert (∀ s1, goes s s1 → wp (c ← lift cur;
    if bool_decide (c = "<"%char) then
      angleAddr fuel;; lift next;; d ← lift cur;
      if negb (bool_decide (d = ">"%char)) then fail errExpectingAngleClose else addAddress
    else fail errExpectingAngleAddress) (λ _ s', goes s s') (λ _ s', goes s s') s1) as Hrest.
  { intros s1 Hg1. apply wp_bind, wp_lift, wp_cur. simpl.
    replace (set_prs (prs s1) s1) with s1 by (by destruct s1).
    destruct (bool_decide _); [|by apply wp_fail].
    apply wp_bind. eapply wp_mono; [apply wp_angleAddr; by eapply goes_ready| |]; simpl.
    - intros _ s2 Hg2. pose proof (goes_ready _ _ _ (goes_ready _ _ _ Hs Hg1) Hg2) as (Hr2 & _).
      apply wp_bind, wp_lift, wp_next; [done|..].
      all: intros; apply wp_bind, wp_lift, wp_cur; simpl.
      all: destruct (negb _); [apply wp_fail|apply wp_modify].
      all: eapply (reach_trans _ (prs s1)); [done|by eapply (reach_trans _ (prs s2))].
    - intros _ s2 Hg2. by eapply goes_trans. }
  apply wp_bind, wp_try. eapply wp_mono; [by apply wp_displayName| |]; simpl; intros _ s1; apply Hrest.
Qed.

Lemma no_colon_reach s s' : reading s → reach s s' → no_colon s → no_colon s'.
Proof.
  intros [Hp _] ((Hp' & _ & Hs') & Hb & Hle & Hch) (? & Hn & ?). unfold no_colon. rewrite Hb.
  split_and!; [done..|]. destruct (decide (pos s' = pos s)) as [E|E]; [by rewrite Hch|].
  intros Hc. apply Hn. rewrite <- Hc, <- Hb. eapply list_elem_of_lookup_2, Hs'; [lia|by rewrite Hb].
Qed.

Lemma wp_rewind_first Q (R : parse_error → Parser → Prop) s :
  Q tt (set_pos_ch (-1) (ch s) s) → wp (rewind (-1)) Q R s.
Proof. done. Qed.
Lemma reading_rewind s : reading s → reading (set_pos_ch (-1) (ch s) s).
Proof. intros (_ & Hc & _). split; [done|]. split; [exact Hc|]. unfold in_step. simpl. lia. Qed.

(** [mailbox] at the first byte of an input without a colon. *)
Lemma wp_mailbox_first fuel s : ready fuel s → pos (prs s) = 0%Z → no_colon (prs s) →
  length (buf (prs s)) < fuel →
  wp (mailbox fuel) (λ _ _, True) (λ _ s', no_colon (prs s')) s.
Proof.
  intros Hs Hp Hcolon Hl. unfold mailbox, curr. apply wp_bind, wp_gets. rewrite Hp.
  apply wp_bind, wp_try. eapply wp_mono; [by apply wp_nameAddr| |]; simpl; intros e s1 Hg.
  { by apply wp_ret. }
  pose proof (no_colon_reach _ _ (proj1 Hs) Hg Hcolon) as Hc1. pose proof Hc1 as (_ & _ & Hne).
  apply wp_bind, wp_lift, wp_cur. simpl. rewrite (bool_decide_false _ Hne), andb_true_r.
  destruct (is_errExpectingAngleAddress e); simpl; [|by apply wp_fail].
  apply wp_bind, wp_modify, wp_bind, wp_modify, wp_bind, wp_lift, wp_rewind_first, wp_bind, wp_lift.
  simpl. eapply wp_mono; [apply wp_mailbox| |].
  - apply reading_rewind. by eapply reach_reading.
  - destruct Hg as (_ & Hb & _). unfold len, rest. simpl. by rewrite Hb.
  - done.
  - simpl. intros _ p Hp2. eapply no_colon_reach; [|exact Hp2|exact Hc1].
    apply reading_rewind. by eapply reach_reading.
Qed.

Lemma reading_first input s :
  reading (prs s) → input ≠ [] →
  let p := set_buf input (prs s) in
  ∃ c, input !! 0 = Some c ∧ next p = (Ok c, set_pos_ch 0 c p) ∧ reach p (set_pos_ch 0 c p) ∧
       len (set_pos_ch 0 c p) < length input.
Proof.
  intros Hr Hne p. destruct (reading_set_buf input (prs s) Hr) as (Hr1 & Hb & Hl). fold p in Hr1, Hb, Hl.
  destruct input as [|c r]; [done|].
  assert (pos p = (-1)%Z) as Hp.
  { unfold p, set_buf, Reset. destruct (pos (prs s) =? -1)%Z eqn:E; simpl; [by apply Z.eqb_eq|done]. }
  assert (rest p = c :: r) as Hrest by (unfold rest; by rewrite Hb, Hp).
  exists c. pose proof (next_cons _ _ _ Hrest) as Hn. pose proof (rest_next p c r c Hr1 Hrest) as Hrn.
  pose proof (reach_next p c Hr1) as Hrr. rewrite Hp in Hn, Hrn, Hrr.
  split_and!; [done|exact Hn| |].
  - apply Hrr. by rewrite Hb.
  - unfold len. change 0%Z with (-1 + 1)%Z. rewrite Hrn. simpl. lia.
Qed.

(** An address ends: for every input that has no colon (no group) and whose last
    byte is neither an atom character nor a space, a tab or a double quote, such
    as every input that ends with [>] or with [)] or with a dot, [Address]
    returns a list or an error without a panic, within [length input + 2]
    iterations of its loops. *)
Theorem Address_returns input s :
  reading (prs s) → ":"%char ∉ input → stop (List.last input NUL) = true → input ≠ [] →
  wp (Address input) (λ _ _, True) (λ _ _, True) s.
Proof.
  intros Hr Hcolon Hstop Hne. destruct (reading_first input s Hr Hne) as (c & Hc & Hn & Hrc & Hl).
  destruct (reading_set_buf input (prs s) Hr) as (Hr1 & Hb & _).
  unfold Address, Address_fuel, curr. apply wp_bind, wp_lift, wp_modify, wp_bind, wp_lift.
  set (p := set_buf input (prs s)) in *. clearbody p.
  simpl. unfold wp at 1. rewrite Hn. apply wp_bind, wp_modify, wp_bind, wp_modify, wp_bind, wp_try.
  eapply wp_mono; [apply wp_mailbox_first| |]; simpl.
  - split_and!; simpl; [by eapply reach_reading| |unfold fuel_for; simpl in *; lia].
    unfold ends_well. simpl. rewrite Hb. done.
  - done.
  - unfold no_colon. simpl. rewrite Hb. split_and!; [done..|].
    intros ->. apply Hcolon. by eapply list_elem_of_lookup_2.
  - rewrite Hb. unfold fuel_for. lia.
  - intros. by apply wp_gets.
  - intros e s2 (_ & _ & H2). apply wp_bind, wp_lift, wp_cur. simpl.
    rewrite bool_decide_false by done. by apply wp_fail.
Qed.
Lemma Address_returns_witness :
  reading (prs zero_RFC5322) ∧ wp (Address "Gogh Fir <gf@example.com>") (λ _ _, True) (λ _ _, True) zero_RFC5322.
Proof.
  split; [apply reading_zero|]. apply (Address_returns "Gogh Fir <gf@example.com>").
  - apply reading_zero.
  - refine (bool_decide_eq_true_1 (":"%char ∉ bs "Gogh Fir <gf@example.com>") _). by vm_compute.
  - by vm_compute.
  - done.
Defined.

(** ** Inputs on which the parser does not return *)
Lemma words_diverge fuel : ∀ n p, isAtext (ch p) = true → forallb isAtext (rest p) = true →
  (-1 ≤ pos p)%Z → (words_loop fuel n p).1 = OutOfFuel.
Proof.
  induction n as [|n IH]; intros p Hc Hr Hp; [done|]. cbn [words_loop].
  rewrite (bind_runs cur _ _ _ _ eq_refl), Hc, (bind_runs (WriteByte _) _ _ _ _ eq_refl).
  set (p1 := set_accept (accept p ++ [ch p]) p).
  change (rest p) with (rest p1) in Hr. change (ch p) with (ch p1) in Hc.
  change (pos p) with (pos p1) in Hp. clearbody p1.
  destruct (rest p1) as [|c r] eqn:E.
  - rewrite (bind_runs _ _ _ _ _ (next_nil _ E)). apply IH; [done| |simpl; lia].
    unfold rest in *. simpl. rewrite drop_ge; [done|].
    apply (f_equal length) in E. rewrite length_drop in E. simpl in E. lia.
  - rewrite (bind_runs _ _ _ _ _ (next_cons _ _ _ E)). apply andb_true_iff in Hr as [Hc1 Hr].
    apply IH; [done| |simpl; lia].
    unfold rest in *. simpl. apply drop_cons_lookup in E as [_ E].
    replace (Z.to_nat (pos p1 + 1 + 1)) with (S (Z.to_nat (pos p1 + 1))) by lia. by rewrite E.
Qed.

(** [Address] does not return on a bare word: whatever the number of
    iterations, the loop of [atom] is still running, because [next] leaves the last
    byte in [ch] at the end of the input and [atom] tests [ch]. *)
Theorem Address_bare_word_diverges input fuel :
  input ≠ [] → forallb isAtext input = true →
  (Address_fuel fuel input zero_RFC5322).1 = OutOfFuel.
Proof.
  intros Hne Hat. destruct (reading_first input zero_RFC5322 reading_zero Hne) as (c & Hc & Hn & Hrc & Hl).
  destruct input as [|c' r]; [done|]. injection Hc as ->. apply andb_true_iff in Hat as [Hc Hr].
  change (prs zero_RFC5322) with zero_Parser in *.
  set (p := set_pos_ch 0 c (set_buf (c :: r) zero_Parser)) in *.
  pose proof (words_diverge fuel fuel p Hc Hr ltac:(simpl; lia)) as Hw.
  assert (is_wsp c = false) as Hws by (apply orb_false_iff; split; apply bool_decide_eq_false; by intros ->).
  assert ((phrase_atom fuel p).1 = OutOfFuel) as Hat.
  { destruct fuel as [|f]; [done|]. unfold phrase_atom. cbn [skipSpace].
    rewrite (bind_runs (cur ≫= _) _ _ 0 p).
    - rewrite (bind_runs cur _ p c p eq_refl), Hc. exact Hw.
    - rewrite (bind_runs cur _ p c p eq_refl), Hws. done. }
  unfold Address_fuel, mailbox, nameAddr, displayName, word, curr, lift, deferred, try_,
    mbind, M_bind, modify, gets, cur.
  cbn -[phrase_atom next set_buf displayName_loop].
  rewrite Hn. fold p. cbn -[phrase_atom displayName_loop].
  rewrite (bool_decide_false (c = DQUOTE)) by (by intros ->). rewrite Hc.
  cbn -[phrase_atom displayName_loop].
  destruct (phrase_atom fuel p) as [o p']. simpl in Hat. by rewrite Hat.
Qed.
Lemma Address_bare_word_diverges_witness : (Address_fuel 1000 "foo" zero_RFC5322).1 = OutOfFuel.
Proof. apply (Address_bare_word_diverges "foo" 1000); done. Defined.

(** ** Reading a display name and an address *)
(** At a space: the white space is skipped and the next byte looked at. *)
Lemma skip_one s cs k d r fuel : (-1 ≤ pos s)%Z → drop k (rest s) = d :: r → is_wsp d = false →
  2 ≤ fuel → skipSpace fuel 0 (jump cs k " " s) = (Ok 1, jump cs (S k) d s).
Proof.
  intros Hp H Hd Hf. destruct fuel as [|[|fuel]]; [lia..|]. cbn [skipSpace].
  rewrite (bind_runs cur _ (jump _ _ _ _) " "%char _ eq_refl).
  change (negb (is_wsp " ")) with false. cbv iota.
  rewrite (bind_runs _ _ _ _ _ (next_jump _ _ _ _ _ _ Hp H)).
  by rewrite (bind_runs cur _ (jump _ _ _ _) d _ eq_refl), Hd.
Qed.
Lemma isAtext_wsp c : isAtext c = true → is_wsp c = false.
Proof. intros H. apply orb_false_iff. split; apply bool_decide_eq_false; by intros ->. Qed.

Lemma words_end s cs k r fuel n : (-1 ≤ pos s)%Z → drop k (rest s) = "<"%char :: r →
  2 ≤ fuel → words_loop fuel (S n) (jump cs k " " s) = (Ok tt, jump cs (S k) "<" s).
Proof.
  intros Hp H Hf. cbn [words_loop]. rewrite (bind_runs cur _ (jump _ _ _ _) " "%char _ eq_refl).
  change (isAtext " ") with false. cbv iota.
  by rewrite (bind_runs _ _ _ _ _ (skip_one _ cs _ _ _ _ Hp H eq_refl Hf)).
Qed.

Lemma words_jump s r : (-1 ≤ pos s)%Z → ∀ len_t t, length t ≤ len_t → ∀ c fuel n cs k,
  is_phrase (c :: t) = true → drop k (rest s) = t ++ " "%char :: "<"%char :: r →
  2 ≤ fuel → length t + 2 ≤ n →
  words_loop fuel n (jump cs k c s) = (Ok tt, jump (cs ++ c :: t) (k + length t + 2) "<" s).
Proof.
  intros Hp. induction len_t as [|L IH]; intros t Ht c fuel n cs k Hph H Hf Hn.
  all: destruct n as [|n]; [lia|]; cbn [words_loop].
  all: cbn [is_phrase] in Hph; apply andb_true_iff in Hph as [Hc Hph].
  all: rewrite (bind_runs cur _ (jump _ _ _ _) c _ eq_refl), Hc,
    (bind_runs _ _ _ _ _ (WriteByte_jump _ _ _ _ _)).
  all: destruct t as [|d t].
  1, 3: rewrite (bind_runs _ _ _ _ _ (next_jump _ _ _ _ _ _ Hp H)); destruct n as [|n]; [simpl in *; lia|];
    rewrite (words_end s _ _ r fuel n Hp (drop_step _ _ _ _ H) Hf);
    by replace (S (S k)) with (k + length (A := ascii) [] + 2) by (simpl; lia).
  { simpl in Ht. lia. }
  rewrite (bind_runs _ _ _ _ _ (next_jump _ _ _ _ _ _ Hp H)). apply drop_step in H.
  simpl in Ht, Hn. case_bool_decide as Hd.
  - subst d. destruct t as [|x t]; [done|]. pose proof Hph as Hx. cbn [is_phrase] in Hx.
    apply andb_true_iff in Hx as [Hx _]. simpl in Ht, Hn. destruct n as [|n]; [lia|].
    pose proof (IH t ltac:(lia) x fuel (S n) ((cs ++ [c]) ++ [" "%char]) (S (S k)) Hph
      ltac:(by apply drop_step in H) Hf ltac:(lia)) as Hrec.
    cbn [words_loop] in Hrec |- *. rewrite (bind_runs cur _ (jump _ _ _ _) " "%char _ eq_refl).
    change (isAtext " ") with false. cbv iota.
    rewrite (bind_runs _ _ _ _ _ (skip_one _ _ _ _ _ _ Hp H (isAtext_wsp _ Hx) Hf)).
    rewrite (bind_runs cur _ (jump _ _ _ _) x _ eq_refl), Hx. cbn [negb].
    rewrite (bind_runs cur _ (jump _ _ _ _) x _ eq_refl), Hx in Hrec.
    change (0 <? 1) with true. cbv iota.
    rewrite (bind_runs (WriteByte " "%char) _ _ _ _ (WriteByte_jump _ _ _ _ _)).
    rewrite Hrec. rewrite <- !app_assoc. simpl.
    by replace (S (S (k + length t + 2))) with (k + S (S (length t)) + 2) by lia.
  - rewrite (IH t ltac:(lia) d fuel n (cs ++ [c]) (S k) Hph H Hf ltac:(lia)).
    rewrite <- app_assoc. simpl. by replace (S (k + length t + 2)) with (k + S (length t) + 2) by lia.
Qed.

Lemma lift_ok {A} (m : P A) L p D a p' :
  m p = (Ok a, p') → lift m (mkRFC5322 L p D) = (Ok a, mkRFC5322 L p' D).
Proof. unfold lift. simpl. by intros ->. Qed.

Lemma curr_jump L cs k c p D :
  curr (mkRFC5322 L (jump cs k c p) D) = (Ok c, mkRFC5322 L (jump cs k c p) D).
Proof. done. Qed.

(** The display name and the opening bracket. *)
Lemma displayName_jump L D s c t r fuel : (-1 ≤ pos s)%Z → accept s = [] →
  is_phrase (c :: t) = true → drop 1 (rest s) = t ++ " "%char :: "<"%char :: r → length t + 4 ≤ fuel →
  ∃ k, displayName fuel (mkRFC5322 L (jump [] 1 c s) D) =
    (Ok tt, set_DisplayName (c :: t) (mkRFC5322 L (jump [] k "<" s) D)) ∧ drop k (rest s) = r.
Proof.
  intros Hp Ha Hph H Hf. exists (1 + length t + 2). split.
  2: { replace (1 + length t + 2) with (1 + length (t ++ [" "; "<"]%char)) by (rewrite length_app; simpl; lia).
       apply drop_more. by rewrite <- app_assoc. }
  pose proof Hph as Hc. cbn [is_phrase] in Hc. apply andb_true_iff in Hc as [Hc _].
  pose proof (words_jump s r Hp (length t) t ltac:(lia) c fuel fuel [] 1 Hph H ltac:(lia) ltac:(lia)) as Hw.
  assert (∀ f cs k d, 0 < f → is_wsp d = false → skipSpace f 0 (jump cs k d s) = (Ok 0, jump cs k d s)) as Hskip.
  { intros f cs k d Hf0 Hd. destruct f; [lia|]. cbn [skipSpace].
    by rewrite (bind_runs cur _ (jump _ _ _ _) d _ eq_refl), Hd. }
  unfold displayName. erewrite deferred_ok.
  2: { erewrite (bind_runs (word fuel)).
    2: { unfold word. rewrite (bind_runs _ _ _ _ _ (curr_jump _ _ _ _ _ _)).
         rewrite bool_decide_false by (by intros ->). rewrite Hc. cbn [orb]. apply lift_ok.
         unfold phrase_atom. rewrite (bind_runs _ _ _ _ _ (Hskip fuel [] 1 c ltac:(lia) (isAtext_wsp _ Hc))).
         rewrite (bind_runs cur _ (jump _ _ _ _) c _ eq_refl), Hc. exact Hw. }
    destruct fuel as [|f]; [lia|]. cbn [displayName_loop].
    rewrite (bind_runs (try_ _) _ _ (inr errNotAWord) (mkRFC5322 L (jump ([] ++ c :: t) (1 + length t + 2) "<" s) D))
      by done.
    reflexivity. }
  unfold take_DisplayName. cbn [prs accept jump set_accept app].
  rewrite Ha. cbn [app]. unfold jump, set_prs, set_accept. cbn [set_pos_ch accept]. rewrite Ha. done.
Qed.

Lemma skipSpace_none fuel q cs k d : 0 < fuel → is_wsp d = false → skipSpace fuel 0 (jump cs k d q) = (Ok 0, jump cs k d q).
Proof.
  intros Hf Hd. destruct fuel; [lia|]. cbn [skipSpace]. by rewrite (bind_runs cur _ (jump _ _ _ _) d _ eq_refl), Hd.
Qed.
(** A name and an address in angle brackets, once the name and the mailbox were read. *)
Lemma nameAddr_jump fuel c t g p0 k p1 k1 e : 0 < fuel → (-1 ≤ pos p1)%Z → is_wsp e = false → drop k1 (rest p1) = [">"%char] →
  displayName fuel (mkRFC5322 (mkAddressList [] g) (jump [] 1 c p0) zero_SingleAddress) =
    (Ok tt, set_DisplayName (c :: t) (mkRFC5322 (mkAddressList [] g) (jump [] k "<" p0) zero_SingleAddress)) →
  Rfc5321.mailbox fuel (jump [] k "<" p0) = (Ok tt, jump [] k1 e p1) →
  ∃ s', nameAddr fuel (mkRFC5322 (mkAddressList [] g) (jump [] 1 c p0) zero_SingleAddress) =
    (Ok tt, mkRFC5322 (mkAddressList
       [mkSingleAddress (c :: t) false (LocalPart p1) (LocalPartQuotes p1) (Domain p1) (p_IP p1) false] g) s' zero_SingleAddress).
Proof.
  intros Hf Hp2 Hwe Hk1 Hdn Hm.
  eexists.
  unfold nameAddr. rewrite (bind_runs (try_ _) _ _ (inl tt)
    (mkRFC5322 (mkAddressList [] (g)) (jump [] k "<" p0)
       (mkSingleAddress (c :: t) false [] false [] None false))).
  2: { unfold try_. by rewrite Hdn. }
  rewrite (bind_runs _ _ _ _ _ (curr_jump _ _ _ _ _ _)). rewrite bool_decide_true by done.
  erewrite (bind_runs (angleAddr fuel)).
  2: { unfold angleAddr. erewrite (bind_runs (lift (skipSpace fuel 0))).
       2: { apply lift_ok. by apply skipSpace_none. }
       rewrite (bind_runs _ _ _ _ _ (curr_jump _ _ _ _ _ _)). rewrite bool_decide_true by done.
       cbn [negb]. erewrite (bind_runs (lift (Rfc5321.mailbox fuel))).
       2: { apply lift_ok. exact Hm. }
       erewrite (bind_runs (lift (skipSpace fuel 0))).
       2: { apply lift_ok. by apply skipSpace_none. }
       reflexivity. }
  erewrite (bind_runs (lift next)).
  2: { apply lift_ok. apply (next_jump _ _ _ _ ">"%char []); done. }
  rewrite (bind_runs _ _ _ _ _ (curr_jump _ _ _ _ _ _)). rewrite bool_decide_true by done.
  cbn [negb]. unfold addAddress, modify. reflexivity.
Qed.

(** [Address] reads back a mailbox with a display name: for every phrase of
    atoms with single spaces, every local part (dot-string or quoted) and every
    domain, the list that is returned holds exactly that display name, local part
    and domain. *)
Theorem Address_reads_name_addr name l labels s :
  pos (prs s) ≠ (-1)%Z → is_phrase name = true → local_ok l → domain_ok labels →
  let input := name ++ " <" ++ local_text l ++ "@" ++ Join labels "." ++ ">" in
  (Address input s).1 =
    Ok (mkAddressList [mkSingleAddress name false (local_value l) (local_quoted l)
                         (Join labels ".") None false] (Group (lst s))).
Proof.
  intros Hpos Hph Hl Hd input. destruct name as [|c t]; [done|].
  set (p0 := set_buf input (prs s)).
  assert (pos p0 = (-1)%Z ∧ accept p0 = [] ∧ rest p0 = input ∧ LocalPart p0 = [] ∧
          LocalPartQuotes p0 = false ∧ p_IP p0 = None) as (Hp & Ha & Hr & HL & HQ & HI).
  { unfold p0, set_buf, Reset. apply Z.eqb_neq in Hpos. by rewrite Hpos. }
  assert (-1 ≤ pos p0)%Z as Hp1 by (by rewrite Hp).
  set (r := local_text l ++ "@"%char :: Join labels "." ++ [">"%char]).
  assert (rest p0 = c :: t ++ " "%char :: "<"%char :: r) as Hrest by done.
  set (fuel := fuel_for input).
  assert (length t + length (local_text l) + length (Join labels ".") + 6 ≤ fuel) as Hf.
  { unfold fuel, fuel_for, input. repeat first [rewrite length_app | progress cbn [length app bs String.list_ascii_of_string]]. lia. }
  destruct (displayName_jump (mkAddressList [] (Group (lst s))) zero_SingleAddress p0 c t r fuel Hp1 Ha Hph
    ltac:(by rewrite Hrest) ltac:(lia)) as (k & Hdn & Hdk).
  destruct (mailbox_jump l labels [] fuel p0 k "<"%char Hp1 Ha Hl Hd Hdk ltac:(lia))
    as (p1 & k1 & e & Hm & He & (HL1 & HQ1 & HD1 & Ha1 & _ & _ & HI1 & _) & Hps & Hk1).
  assert (-1 ≤ pos p1)%Z as Hp2 by lia.
  assert (is_wsp e = false) as Hwe.
  { apply orb_false_iff. split; apply bool_decide_eq_false; by intros ->. }
  unfold Address, Address_fuel. fold fuel.
  rewrite (bind_runs (lift (modify _)) _ s tt (mkRFC5322 (lst s) p0 (addr s)) eq_refl).
  rewrite (bind_runs (lift next) _ _ c (mkRFC5322 (lst s) (jump [] 1 c p0) (addr s))).
  2: { apply lift_ok. pose proof (next_jump p0 [] 0 (ch p0) c _ Hp1 Hrest) as Hn.
       by rewrite <- jump_0 in Hn. }
  rewrite (bind_runs (modify _) _ (mkRFC5322 _ _ _) tt _ eq_refl), (bind_runs (modify _) _ (set_List _ _) tt _ eq_refl).
  unfold set_List, set_addr. cbn [lst prs addr Group].
  set (A := mkSingleAddress (c :: t) false (LocalPart p1) (LocalPartQuotes p1) (Domain p1) (p_IP p1) false).
  assert (∃ s', nameAddr fuel (mkRFC5322 (mkAddressList [] (Group (lst s))) (jump [] 1 c p0) zero_SingleAddress)
    = (Ok tt, mkRFC5322 (mkAddressList [A] (Group (lst s))) s' zero_SingleAddress)) as [s' Hmb].
  2: { unfold mailbox, try_, gets, mbind, M_bind. rewrite Hmb. simpl. unfold A.
       by rewrite HL1, HQ1, HD1, HI1, HL, HQ, HI; destruct (local_value l). }
  by eapply nameAddr_jump; [lia|..].
Qed.
Lemma Address_reads_name_addr_witness :
  pos (prs zero_RFC5322) ≠ (-1)%Z ∧
  (Address ("Gogh Fir" ++ " <" ++ local_text (DotString [bs "gf"]) ++ "@" ++ Join [bs "example"; bs "com"] "." ++ ">")
     zero_RFC5322).1 =
    Ok (mkAddressList [mkSingleAddress "Gogh Fir" false "gf" false "example.com" None false] []).
Proof.
  split; [done|].
  apply (Address_reads_name_addr "Gogh Fir" (DotString [bs "gf"]) [bs "example"; bs "com"] zero_RFC5322).
  - done.
  - done.
  - split; [done|]. by repeat constructor.
  - split; [done|]. by repeat constructor.
Defined.

(** A quoted display name with a space marks the local part as quoted. *)
Example quoted_name_quotes_local_part :
  (Address (DQUOTE :: "A B" ++ DQUOTE :: " <a@b.c>") zero_RFC5322).1 =
    Ok (mkAddressList [mkSingleAddress "A B" true "a" true "b.c" None false] []).
Proof. vm_compute. done. Qed.
