(* ===== verification/Shared.v ===== *)
(** * Data that crosses package boundaries

    The envelope keeps values of any type under string keys, among them the
    tenant's outbound credentials; the types live here so that the envelope and
    the tenant components can both name them. *)
From S2P Require Import Prelude GoStd.

(** backends/tenant.go *)
Record TenantSES := mkTenantSES {
  ses_Region : bytes; ses_AccessKeyID : bytes; ses_SecretAccessKey : bytes
}.
Record TenantOCI := mkTenantOCI {
  oci_Host : bytes; oci_Region : bytes; oci_Port : Z; oci_Username : bytes; oci_Password : bytes
}.
Record TenantSendConfig := mkTenantSendConfig {
  tsc_TenantID : bytes; tsc_Provider : bytes; tsc_SES : option TenantSES; tsc_OCIEmail : option TenantOCI
}.

#[export] Instance TenantSES_eq_dec : EqDecision TenantSES.
Proof. solve_decision. Defined.
#[export] Instance TenantOCI_eq_dec : EqDecision TenantOCI.
Proof. solve_decision. Defined.
#[export] Instance TenantSendConfig_eq_dec : EqDecision TenantSendConfig.
Proof. solve_decision. Defined.

(** backends/p_compressor.go: the deferred compressor of a message. Its [Data] is
    a pointer to the data buffer of the envelope that carries it, or nil. *)
Record DataCompressor := mkDataCompressor { ExtraHeaders : bytes; points_to_data : bool }.
#[export] Instance DataCompressor_eq_dec : EqDecision DataCompressor.
Proof. solve_decision. Defined.

(** What the program stores in [Envelope.Values]. *)
Inductive any : Type :=
| any_string (v : bytes)
| any_tenant_send (cfg : option TenantSendConfig)
| any_compressor (c : DataCompressor).
#[export] Instance any_eq_dec : EqDecision any.
Proof. solve_decision. Defined.

(** A type assertion [v.(string)]. *)
Definition as_string (v : option any) : option bytes :=
  match v with Some (any_string s) => Some s | _ => None end.

(** ** Configuration values

    A value of a JSON object as [interface{}] holds it: JSON numbers are floats
    (mantissa and binary exponent), the defaults of the program are ints; arrays,
    objects and null are kept by their JSON text. *)
Inductive cfgval : Type :=
| CString (v : bytes)
| CInt (v : Z)
| CFloat (mantissa exponent : Z)
| CBool (v : bool)
| COther (json : bytes).
#[export] Instance cfgval_eq_dec : EqDecision cfgval.
Proof. solve_decision. Defined.

(** backends/backend.go *)
Definition BackendConfig : Type := gmap bytes cfgval.
