(* ===== verification/Envelope.v ===== *)
(** * Addresses, envelopes and MIME header words: package [mail]
    (mail/envelope.go)

    The address printer and constructor, the envelope with its transaction
    operations, the header parser, the decoder of encoded words in headers, and
    the pool of envelopes. The digest, the MIME header reader and the decoder of
    one encoded word are parameters (classes [Digest], [MIMEReader] and
    [WordDecoder]). *)
From S2P Require Import Prelude GoStd Rfc5321 Rfc5322 Shared.

(** ** Addresses *)
Record Address := mkAddress {
  User : bytes;
  Host : bytes;
  a_ADL : list bytes;
  a_PathParams : list (list bytes);
  a_NullPath : bool;
  Quoted : bool;
  a_IP : option IP;
  a_DisplayName : bytes;
  a_DisplayNameQuoted : bool
}.
Definition zero_Address : Address := mkAddress [] [] [] [] false false None [] false.
#[export] Instance Address_eq_dec : EqDecision Address.
Proof. solve_decision. Defined.

Definition IsEmpty (a : Address) : bool := bool_decide (User a = []) && bool_decide (Host a = []).

Fixpoint escape_user (l : bytes) : bytes :=
  match l with
  | [] => []
  | c :: l' =>
      if bool_decide (c = "\"%char) || bool_decide (c = DQUOTE)
      then "\"%char :: c :: escape_user l'
      else c :: escape_user l'
  end.

Definition Address_String (a : Address) : bytes :=
  if IsEmpty a then []
  else if bool_decide (User a = "postmaster") && bool_decide (Host a = []) then "postmaster"
  else
    let local := if Quoted a then [DQUOTE] ++ escape_user (User a) ++ [DQUOTE] else User a in
    if bool_decide (Host a ≠ []) then
      match a_IP a with
      | Some _ => local ++ "@[" ++ Host a ++ "]"
      | None => local ++ "@" ++ Host a
      end
    else local.

Definition IsPostmaster (a : Address) : bool := bool_decide (User a = "postmaster").

Inductive mail_error : Type :=
| err_parse (e : parse_error)
| err_no_address
| err_headers_already_parsed
| err_header_not_found
| err_EOF
| err_header (m : bytes).

(** A fresh parser reads the text; the first address of the list counts. *)
Definition NewAddress (str : bytes) : outcome mail_error Address :=
  match Rfc5322.Address str zero_RFC5322 with
  | (Ok l, _) =>
      match Rfc5322.List l with
      | [] => Err err_no_address
      | a :: _ =>
          Ok (mkAddress (sa_LocalPart a) (sa_Domain a) [] [] (sa_NullPath a) (sa_LocalPartQuoted a)
                (sa_IP a) (DisplayName a) (DisplayNameQuoted a))
      end
  | (Err e, _) => Err (err_parse e)
  | (Panic, _) => Panic
  | (OutOfFuel, _) => OutOfFuel
  end.

(** ** Envelopes *)
Definition header : Type := gmap bytes (list bytes).

Record Envelope := mkEnvelope {
  RemoteIP : bytes;
  e_Helo : bytes;
  e_MailFrom : Address;
  e_RcptTo : list Address;
  Data : bytes;
  Subject : bytes;
  TLS : bool;
  Header : option header;
  Values : gmap bytes any;
  Hashes : list bytes;
  DeliveryHeader : bytes;
  QueuedId : bytes;
  ESMTP : bool
}.

(** [md5.Sum]. *)
Class Digest := md5_sum : bytes → bytes.

(** [fmt.Sprintf("%x", b)] of bytes. *)
Definition hex_byte (c : ascii) : bytes := [hex_digit (code c / 16); hex_digit (code c mod 16)].
Definition hex_bytes (b : bytes) : bytes := concat (map hex_byte b).

Section Ids.
Context {D : Digest}.

(** [now] is the Unix time in seconds. *)
Definition queuedID (now clientID : Z) : bytes := hex_bytes (md5_sum (Itoa now ++ Itoa clientID)).

Definition NewEnvelope (remoteAddr : bytes) (now clientID : Z) : Envelope :=
  mkEnvelope remoteAddr [] zero_Address [] [] [] false None ∅ [] [] (queuedID now clientID) false.

Definition Reseed (remoteIP : bytes) (now clientID : Z) (e : Envelope) : Envelope :=
  mkEnvelope remoteIP [] (e_MailFrom e) (e_RcptTo e) (Data e) (Subject e) false (Header e) (Values e)
    (Hashes e) (DeliveryHeader e) (queuedID now clientID) false.
End Ids.

(** [ResetTransaction], once the lock that the backend holds while it processes
    the envelope is free. *)
Definition ResetTransaction (e : Envelope) : Envelope :=
  mkEnvelope (RemoteIP e) (e_Helo e) zero_Address [] [] [] (TLS e) None ∅ [] [] (QueuedId e) (ESMTP e).

Definition set_MailFrom (a : Address) (e : Envelope) : Envelope :=
  mkEnvelope (RemoteIP e) (e_Helo e) a (e_RcptTo e) (Data e) (Subject e) (TLS e) (Header e) (Values e)
    (Hashes e) (DeliveryHeader e) (QueuedId e) (ESMTP e).
Definition set_RcptTo (l : list Address) (e : Envelope) : Envelope :=
  mkEnvelope (RemoteIP e) (e_Helo e) (e_MailFrom e) l (Data e) (Subject e) (TLS e) (Header e) (Values e)
    (Hashes e) (DeliveryHeader e) (QueuedId e) (ESMTP e).
Definition set_Data (d : bytes) (e : Envelope) : Envelope :=
  mkEnvelope (RemoteIP e) (e_Helo e) (e_MailFrom e) (e_RcptTo e) d (Subject e) (TLS e) (Header e)
    (Values e) (Hashes e) (DeliveryHeader e) (QueuedId e) (ESMTP e).
Definition set_Helo (h : bytes) (e : Envelope) : Envelope :=
  mkEnvelope (RemoteIP e) h (e_MailFrom e) (e_RcptTo e) (Data e) (Subject e) (TLS e) (Header e)
    (Values e) (Hashes e) (DeliveryHeader e) (QueuedId e) (ESMTP e).
Definition set_RemoteIP (h : bytes) (e : Envelope) : Envelope :=
  mkEnvelope h (e_Helo e) (e_MailFrom e) (e_RcptTo e) (Data e) (Subject e) (TLS e) (Header e)
    (Values e) (Hashes e) (DeliveryHeader e) (QueuedId e) (ESMTP e).
Definition set_TLS (b : bool) (e : Envelope) : Envelope :=
  mkEnvelope (RemoteIP e) (e_Helo e) (e_MailFrom e) (e_RcptTo e) (Data e) (Subject e) b (Header e)
    (Values e) (Hashes e) (DeliveryHeader e) (QueuedId e) (ESMTP e).
Definition set_ESMTP (b : bool) (e : Envelope) : Envelope :=
  mkEnvelope (RemoteIP e) (e_Helo e) (e_MailFrom e) (e_RcptTo e) (Data e) (Subject e) (TLS e) (Header e)
    (Values e) (Hashes e) (DeliveryHeader e) (QueuedId e) b.
Definition set_Header (h : option header) (subj : bytes) (e : Envelope) : Envelope :=
  mkEnvelope (RemoteIP e) (e_Helo e) (e_MailFrom e) (e_RcptTo e) (Data e) subj (TLS e) h (Values e)
    (Hashes e) (DeliveryHeader e) (QueuedId e) (ESMTP e).
Definition set_Values (v : gmap bytes any) (e : Envelope) : Envelope :=
  mkEnvelope (RemoteIP e) (e_Helo e) (e_MailFrom e) (e_RcptTo e) (Data e) (Subject e) (TLS e) (Header e)
    v (Hashes e) (DeliveryHeader e) (QueuedId e) (ESMTP e).
Definition set_Hashes (l : list bytes) (e : Envelope) : Envelope :=
  mkEnvelope (RemoteIP e) (e_Helo e) (e_MailFrom e) (e_RcptTo e) (Data e) (Subject e) (TLS e) (Header e)
    (Values e) l (DeliveryHeader e) (QueuedId e) (ESMTP e).
Definition set_DeliveryHeader (h : bytes) (e : Envelope) : Envelope :=
  mkEnvelope (RemoteIP e) (e_Helo e) (e_MailFrom e) (e_RcptTo e) (Data e) (Subject e) (TLS e) (Header e)
    (Values e) (Hashes e) h (QueuedId e) (ESMTP e).

Definition PushRcpt (a : Address) (e : Envelope) : Envelope := set_RcptTo (e_RcptTo e ++ [a]) e.

(** [PopRcpt] of an envelope without recipients indexes at -1. *)
Definition PopRcpt {E} (e : Envelope) : outcome E (Address * Envelope) :=
  match rev (e_RcptTo e) with
  | [] => Panic
  | a :: l => Ok (a, set_RcptTo (rev l) e)
  end.

Definition Envelope_Len (e : Envelope) : nat := length (DeliveryHeader e) + length (Data e).
Definition Envelope_String (e : Envelope) : bytes := DeliveryHeader e ++ Data e.
(** What a reader of [NewReader] reads until the end. *)
Definition NewReader (e : Envelope) : bytes := DeliveryHeader e ++ Data e.

(** ** Encoded words in headers *)

(** [mime.WordDecoder.Decode]: [None] is an error. *)
Class WordDecoder := word_decode : bytes → option bytes.

(** [str[from:to]]; out of range it panics. *)
Definition slice (s : bytes) (from to : Z) : option bytes :=
  if (0 <=? from)%Z && (from <=? to)%Z && (to <=? Z.of_nat (length s))%Z
  then Some (take (Z.to_nat (to - from)) (drop (Z.to_nat from) s))
  else None.

Inductive word_state : Type :=
| statePlainText | stateStartEncodedWord | stateEncoding | stateCharset | statePayload
| statePayloadEnd.

(** The variables of the loop. *)
Record decoder := mkDecoder {
  dstate : word_state;
  out : option bytes;
  wordStart : Z;
  wordLen : Z;
  ptextStart : Z;
  ptextLen : Z
}.
Definition init_decoder : decoder := mkDecoder statePlainText None 0 0 (-1) 0.

Definition makeAppend (out : option bytes) (v : bytes) : option bytes := Some (default [] out ++ v).

(** The abort of a word: what was read of it is plain text. *)
Definition plain_again (d : decoder) : decoder :=
  mkDecoder statePlainText (out d) (wordStart d) 0 (ptextStart d) (ptextLen d + wordLen d).
Definition in_word (st : word_state) (d : decoder) : decoder :=
  mkDecoder st (out d) (wordStart d) (wordLen d + 1) (ptextStart d) (ptextLen d).

Definition is_charset_char (c : ascii) : bool :=
  between "a" "z" c || between "A" "Z" c || between "0" "9" c || bool_decide (c = "-"%char).
Definition is_encoding_char (c : ascii) : bool :=
  bool_decide (c ∈ ["Q"; "q"; "b"; "B"]%char).

(** [for ; i+2 < len(str); i++]. *)
Fixpoint ahead (s : bytes) (i : Z) : Z :=
  match s with
  | c :: ((d :: e :: _) as s') =>
      if negb (bool_decide (c = " "%char)) && negb (bool_decide (c = TAB)) then (-1)%Z
      else if bool_decide (d = "="%char) && bool_decide (e = "?"%char) then i
      else ahead s' (i + 1)
  | _ => (-1)%Z
  end.
Definition hasEncodedWordAhead (str : bytes) (i : Z) : Z := ahead (drop (Z.to_nat i) str) i.

Section Words.
Context {W : WordDecoder}.

(** [None] is a slice out of range; the flag is [err != nil]. *)
Definition decodeWordAppend (d : decoder) (str : bytes) : option (option bytes * bool) :=
  o ← (if (0 <? ptextLen d)%Z
       then p ← slice str (ptextStart d) (ptextStart d + ptextLen d); Some (makeAppend (out d) p)
       else Some (out d));
  w ← slice str (wordStart d) (wordLen d + wordStart d);
  Some (match word_decode w with
        | Some v => (makeAppend o v, false)
        | None => (match o with Some _ => makeAppend o w | None => None end, true)
        end).

(** One iteration at index [i], which shows [c]: the next decoder and the index the
    loop goes on from, before its [i++]. *)
Definition decode_step (str : bytes) (i : Z) (c : ascii) (d : decoder) : option (decoder * Z) :=
  match dstate d with
  | statePlainText =>
      let p := if (ptextStart d =? -1)%Z then i else ptextStart d in
      Some (if bool_decide (c = "="%char)
            then (mkDecoder stateStartEncodedWord (out d) i 1 p (ptextLen d), i)
            else (mkDecoder statePlainText (out d) (wordStart d) (wordLen d) p (ptextLen d + 1), i))
  | stateStartEncodedWord =>
      Some (if bool_decide (c = "?"%char) then (in_word stateCharset d, i)
            else (mkDecoder statePlainText (out d) (wordStart d) 0 (ptextStart d) (ptextLen d + 1), i))
  | stateCharset =>
      Some (if bool_decide (c = "?"%char) then (in_word stateEncoding d, i)
            else if is_charset_char c then (in_word stateCharset d, i)
            else (plain_again d, i))
  | stateEncoding =>
      Some (if bool_decide (c = "?"%char) then (in_word statePayload d, i)
            else if is_encoding_char c then (in_word stateEncoding d, i)
            else (plain_again d, i))
  | statePayload =>
      Some (if bool_decide (c = "?"%char) then (in_word statePayloadEnd d, i)
            else (in_word statePayload d, i))
  | statePayloadEnd =>
      if bool_decide (c = "="%char) then
        let d := in_word statePayloadEnd d in
        '(o, failed) ← decodeWordAppend d str;
        if failed && bool_decide (o = None) then
          Some (mkDecoder statePlainText o 0 0 (ptextStart d) (ptextLen d + wordLen d), i)
        else
          let skip := hasEncodedWordAhead str (i + 1) in
          let '(o, i) := if negb (skip =? -1)%Z then (o, skip) else (makeAppend o [], i) in
          Some (mkDecoder statePlainText o 0 0 (-1) 0, i)
      else Some (plain_again d, i)
  end.

Fixpoint decode_loop (fuel : nat) (str : bytes) (i : Z) (d : decoder) : outcome unit decoder :=
  match fuel with
  | 0 => OutOfFuel
  | S f =>
      match str !! Z.to_nat i with
      | None => Ok d
      | Some c =>
          match decode_step str i c d with
          | None => Panic
          | Some (d', i') => decode_loop f str (i' + 1) d'
          end
      end
  end.

Definition decode_end (str : bytes) (d : decoder) : outcome unit bytes :=
  match out d with
  | None => Ok str
  | Some o =>
      if (0 <? ptextLen d)%Z then
        match slice str (ptextStart d) (ptextStart d + ptextLen d) with
        | Some p => Ok (o ++ p)
        | None => Panic
        end
      else Ok o
  end.

Definition MimeHeaderDecode (str : bytes) : outcome unit bytes :=
  match decode_loop (length str + 1) str 0 init_decoder with
  | Ok d => decode_end str d
  | Err e => Err e
  | Panic => Panic
  | OutOfFuel => OutOfFuel
  end.
End Words.

(** ** Headers *)

(** [textproto.Reader.ReadMIMEHeader]: the header, nil or not, and the error. *)
Class MIMEReader := read_mime_header : bytes → option header * option mail_error.

Definition maxHeaderChunk : nat := 1 + 4096.

Section Headers.
Context {W : WordDecoder} {MR : MIMEReader}.

(** The error beside the envelope: a header that was read stays on errors. *)
Definition ParseHeaders (e : Envelope) : outcome unit (option mail_error * Envelope) :=
  match Header e with
  | Some _ => Ok (Some err_headers_already_parsed, e)
  | None =>
      let buf := if maxHeaderChunk <? length (Data e) then take maxHeaderChunk (Data e) else Data e in
      let '(headerEnd, headerDelimLen) :=
        match Index buf [CR; LF; CR; LF] with
        | Some i => (Some i, 4)
        | None => (Index buf [LF; LF], 2)
        end in
      match headerEnd with
      | None => Ok (Some err_header_not_found, e)
      | Some i =>
          let '(h, err) := read_mime_header (take (i + headerDelimLen) buf) in
          let parsed := match err with None | Some err_EOF => true | _ => false end in
          match (if parsed then default ∅ h !! bs "Subject" else None) with
          | Some (s :: _) =>
              match MimeHeaderDecode s with
              | Ok v => Ok (err, set_Header h v e)
              | Err u => Err u
              | Panic => Panic
              | OutOfFuel => OutOfFuel
              end
          | Some [] => Panic
          | None => Ok (err, set_Header h (Subject e) e)
          end
      end
  end.
End Headers.

(** ** The pool of envelopes

    A buffered channel of envelopes and a semaphore of the same size. *)
Module EnvPool.
Record Pool := mkPool { size : nat; ready : list Envelope; sem : nat }.
Definition NewPool (poolSize : nat) : Pool := mkPool poolSize [] 0.

(** [None] is a call that blocks on the semaphore. *)
Definition Borrow `{Digest} (remoteAddr : bytes) (now clientID : Z) (p : Pool) : option (Envelope * Pool) :=
  if size p <=? sem p then None
  else match ready p with
       | e :: l => Some (Reseed remoteAddr now clientID e, mkPool (size p) l (S (sem p)))
       | [] => Some (NewEnvelope remoteAddr now clientID, mkPool (size p) [] (S (sem p)))
       end.

(** A full channel discards the envelope; [None] blocks on the semaphore. *)
Definition Return (e : Envelope) (p : Pool) : option Pool :=
  let l := if length (ready p) <? size p then ready p ++ [e] else ready p in
  match sem p with
  | 0 => None
  | S n => Some (mkPool (size p) l n)
  end.
End EnvPool.

(** ** Notions used by the statements *)

Definition address_ok (a : Address) (labels : list bytes) : Prop :=
  domain_ok labels ∧ Host a = Join labels "." ∧ a_IP a = None ∧
  if Quoted a then Printable (User a) ∧ forallb isAtext (User a) = false
  else ∃ atoms, local_ok (DotString atoms) ∧ User a = Join atoms ".".

Definition decoder_inv (n i : Z) (d : decoder) : Prop :=
  (0 ≤ i ≤ n)%Z ∧
  ((ptextStart d = -1 ∧ ptextLen d = 0 ∧ dstate d = statePlainText) ∨
   (0 ≤ ptextStart d ∧ 0 ≤ ptextLen d ∧ ptextStart d + ptextLen d + wordLen d ≤ i))%Z ∧
  (match dstate d with
   | statePlainText => wordLen d = 0
   | _ => 1 ≤ wordLen d ∧ 0 ≤ wordStart d ∧ wordStart d + wordLen d = i
   end)%Z.

(** * Proofs *)

(** ** Printing and reading addresses *)
Lemma escape_user_eq l : escape_user l = concat (map escape l).
Proof.
  induction l as [|c l IH]; [done|]. simpl. unfold escape at 1. rewrite IH.
  by destruct (bool_decide (c = "\"%char) || bool_decide (c = DQUOTE)).
Qed.
Lemma quote_eq l : [DQUOTE] ++ escape_user l ++ [DQUOTE] = quote l.
Proof. by rewrite escape_user_eq. Qed.

(** An address that the parsers produce for the domain [labels]: quoted and with
    any printable user, or not quoted and a dot-string. *)

Lemma address_ok_local a labels :
  address_ok a labels →
  ∃ l, local_ok l ∧ local_value l = User a ∧ local_quoted l = Quoted a ∧
       Address_String a = local_text l ++ "@" ++ Join labels "." ∧ User a ≠ [].
Proof.
  intros (Hd & Hh & Hip & Hu). destruct (domain_text_head labels [] Hd) as (_ & _ & _ & Hne & _).
  unfold Address_String, IsEmpty. rewrite Hh, Hip, (bool_decide_false _ Hne), !andb_false_r.
  rewrite (bool_decide_true _ Hne). destruct (Quoted a) eqn:Q.
  - destruct Hu as [Hu Hn]. exists (QuotedString (User a)). rewrite quote_eq. simpl. rewrite Hn.
    split_and!; [done..|]. intros E. by rewrite E in Hn.
  - destruct Hu as (atoms & Hl & Hu). exists (DotString atoms). cbn [local_value local_quoted local_text]. rewrite <- Hu.
    split_and!; [done..|]. destruct Hl as [Ha Hat]. destruct atoms as [|x atoms]; [done|].
    apply Forall_cons_1 in Hat as [Hx _]. rewrite Hu. destruct x; [done|]. by destruct atoms.
Qed.

(** Printing is the inverse of reading: for every address that holds a printable
    user (quoted if it is not an atom string, else a dot-string) and a domain of
    labels, [MailFrom] accepts the printed form in angle brackets and holds the
    same user, quoting flag and host. *)
Theorem Address_String_parses a labels s :
  address_ok a labels → pos s ≠ (-1)%Z →
  ∃ s', MailFrom ("<" ++ Address_String a ++ ">") s = (Ok tt, s') ∧
        LocalPart s' = User a ∧ LocalPartQuotes s' = Quoted a ∧ Domain s' = Host a ∧ p_IP s' = None.
Proof.
  intros Ha Hpos. destruct (address_ok_local a labels Ha) as (l & Hl & Hv & Hq & -> & Hne).
  destruct Ha as (Hd & Hh & _).
  destruct (MailFrom_path l labels s Hpos Hl Hd) as (s' & Hm & HL & HQ & HD & _ & _ & _ & HI & _).
  exists s'. rewrite <- !app_assoc. rewrite Hv in HL.
  split_and!; [exact Hm| |by rewrite HQ|by rewrite HD, Hh|done].
  rewrite HL. by destruct (User a).
Qed.
Lemma Address_String_parses_witness :
  let a := mkAddress "Gogh Fir" "example.com" [] [] false true None [] false in
  address_ok a [bs "example"; bs "com"] ∧ pos zero_Parser ≠ (-1)%Z ∧
  ∃ s', MailFrom ("<" ++ Address_String a ++ ">") zero_Parser = (Ok tt, s') ∧
        LocalPart s' = User a ∧ LocalPartQuotes s' = Quoted a ∧ Domain s' = Host a ∧ p_IP s' = None.
Proof.
  intros a. assert (address_ok a [bs "example"; bs "com"]) as Ha.
  { split; [split; [done|by repeat constructor]|]. split_and!; [done..|]. split; [|done].
    by repeat constructor. }
  split; [exact Ha|]. split; [done|].
  apply (Address_String_parses a [bs "example"; bs "com"] zero_Parser Ha). done.
Defined.

(** ** The decoder of encoded words *)

(** The invariant of the loop at index [i] of a text of length [n]: the slices that
    the variables describe are in range. *)

Lemma slice_ok s a b : (0 ≤ a ≤ b)%Z → (b ≤ Z.of_nat (length s))%Z → ∃ r, slice s a b = Some r.
Proof.
  intros. unfold slice. rewrite !(proj2 (Z.leb_le _ _)) by lia. by eexists.
Qed.

Lemma ahead_bounds s : ∀ i, (0 ≤ i)%Z →
  (ahead s i = -1 ∨ i ≤ ahead s i ∧ ahead s i + 2 < i + Z.of_nat (length s))%Z.
Proof.
  induction s as [|c s IH]; intros i Hi; [by left|].
  destruct s as [|d [|e s]]; [by left..|].
  change (ahead (c :: d :: e :: s) i) with
    (if negb (bool_decide (c = " "%char)) && negb (bool_decide (c = TAB)) then (-1)%Z
     else if bool_decide (d = "="%char) && bool_decide (e = "?"%char) then i
     else ahead (d :: e :: s) (i + 1)).
  destruct (_ && _); [by left|]. destruct (_ && _); [right; simpl; lia|].
  destruct (IH (i + 1)%Z ltac:(lia)) as [->|?]; [by left|right; simpl in *; lia].
Qed.

Lemma skip_bounds str i :
  (0 ≤ i)%Z → (i ≤ Z.of_nat (length str))%Z →
  let j := hasEncodedWordAhead str i in
  (j = -1 ∨ i ≤ j ∧ j + 2 < Z.of_nat (length str))%Z.
Proof.
  intros Hi Hn j. unfold j, hasEncodedWordAhead.
  destruct (ahead_bounds (drop (Z.to_nat i) str) i Hi) as [|H]; [by left|right].
  rewrite length_drop in H. lia.
Qed.

Ltac decoder_next :=
  do 2 eexists; split; [reflexivity|]; simpl; split; [lia|]; split; [lia|];
  split; [first [left; split_and!; [lia|lia|done] | right; lia] | lia].

Lemma decode_step_inv `{WordDecoder} str i c d :
  let n := Z.of_nat (length str) in
  decoder_inv n i d → (i < n)%Z →
  ∃ d' i', decode_step str i c d = Some (d', i') ∧ (i ≤ i')%Z ∧ decoder_inv n (i' + 1) d'.
Proof.
  intros n (Hi & Hp & Hw) Hlt. unfold decode_step, decoder_inv in *.
  destruct d as [st o ws wl ps pl]. simpl in *.
  destruct st; simpl in *.
  1: destruct (ps =? -1)%Z eqn:E; [apply Z.eqb_eq in E|apply Z.eqb_neq in E].
  3-7: destruct Hp as [(_ & _ & [=])|Hp].
  all: destruct (bool_decide _); try by decoder_next.
  1: destruct (is_encoding_char c); decoder_next.
  1: destruct (is_charset_char c); decoder_next.
  unfold decodeWordAppend. simpl.
  destruct (slice_ok str ps (ps + pl)) as [p Hsp]; [lia..|].
  destruct (slice_ok str ws (wl + 1 + ws)) as [w Hsw]; [lia..|].
  rewrite Hsp, Hsw. clear Hsp Hsw.
  assert (∀ o f, ∃ d' i',
    (if f && bool_decide (o = None) then Some (mkDecoder statePlainText o 0 0 ps (pl + (wl + 1)), i)
     else let '(o, i) := if negb (hasEncodedWordAhead str (i + 1) =? -1)%Z
                         then (o, hasEncodedWordAhead str (i + 1)) else (makeAppend o [], i) in
          Some (mkDecoder statePlainText o 0 0 (-1) 0, i)) = Some (d', i') ∧ (i ≤ i')%Z ∧
    decoder_inv n (i' + 1) d') as Hend.
  { intros o' f. unfold decoder_inv.
    destruct (skip_bounds str (i + 1) ltac:(lia) ltac:(lia)) as [->|Hs]; simpl.
    - destruct (f && _); decoder_next.
    - replace (hasEncodedWordAhead str (i + 1) =? -1)%Z with false by (symmetry; apply Z.eqb_neq; lia).
      simpl. destruct (f && _); decoder_next. }
  destruct (0 <? pl)%Z; simpl; destruct (word_decode w); apply Hend.
Qed.

Lemma decoder_inv_init n : (0 ≤ n)%Z → decoder_inv n 0 init_decoder.
Proof. intros. split; [lia|]. split; [by left|done]. Qed.

Lemma decode_loop_inv `{WordDecoder} str : ∀ fuel i d,
  let n := Z.of_nat (length str) in
  decoder_inv n i d → (n - i < Z.of_nat fuel)%Z →
  ∃ d', decode_loop fuel str i d = Ok d' ∧ decoder_inv n n d'.
Proof.
  induction fuel as [|f IH]; intros i d n Hinv Hf; [destruct Hinv; lia|]. simpl.
  destruct (str !! Z.to_nat i) as [c|] eqn:E.
  - apply lookup_lt_Some in E. destruct Hinv as [Hi Hrest].
    destruct (decode_step_inv str i c d (conj Hi Hrest) ltac:(lia)) as (d' & i' & -> & Hle & Hinv').
    apply IH; [done|lia].
  - apply lookup_ge_None in E. exists d. split; [done|].
    assert (i = n) as <- by (destruct Hinv; lia). done.
Qed.

Lemma MimeHeaderDecode_returns `{WordDecoder} str : ∃ r, MimeHeaderDecode str = Ok r.
Proof.
  unfold MimeHeaderDecode.
  destruct (decode_loop_inv str (length str + 1) 0 init_decoder) as (d & -> & Hi & Hp & Hw).
  { apply decoder_inv_init. lia. }
  { lia. }
  unfold decode_end. destruct (out d) as [o|]; [|by eexists].
  destruct (0 <? ptextLen d)%Z eqn:E; [|by eexists]. apply Z.ltb_lt in E.
  destruct (slice_ok str (ptextStart d) (ptextStart d + ptextLen d)) as [p ->]; [| |by eexists].
  - destruct Hp as [|]; lia.
  - destruct Hp as [|]; [lia|]. destruct (dstate d); lia.
Qed.
(** [MimeHeaderDecode] returns for every text: none of its slices is out of
    range, whatever the decoder of a word answers. *)
Theorem MimeHeaderDecode_total `{WordDecoder} str : ∃ r, MimeHeaderDecode str = Ok r.
Proof. apply MimeHeaderDecode_returns. Qed.

(** While no word has begun, nothing is decoded. *)
Lemma decode_loop_plain `{WordDecoder} str :
  (∀ i, str !! i = Some "="%char → str !! S i ≠ Some "?"%char) → ∀ fuel i d,
  out d = None →
  match dstate d with
  | statePlainText => True
  | stateStartEncodedWord => (1 ≤ i)%Z ∧ str !! Z.to_nat (i - 1) = Some "="%char
  | _ => False
  end → (0 ≤ i)%Z →
  match decode_loop fuel str i d with Ok d' => out d' = None | _ => True end.
Proof.
  intros Hno. induction fuel as [|f IH]; intros i d Ho Hst Hi; [done|]. simpl.
  destruct (str !! Z.to_nat i) as [c|] eqn:E; [|done].
  unfold decode_step. destruct (dstate d); try done; simpl.
  - case_bool_decide as Hc; apply IH; simpl; try done; try lia.
    subst c. split; [lia|]. by replace (Z.to_nat (i + 1 - 1)) with (Z.to_nat i) by lia.
  - destruct Hst as [Hi1 He]. case_bool_decide as Hc.
    + subst c. exfalso. apply (Hno _ He). rewrite <- E. f_equal. lia.
    + apply IH; simpl; try done; lia.
Qed.

(** A text without [=?] is returned as it is. *)
Theorem MimeHeaderDecode_plain `{WordDecoder} str :
  (∀ i, str !! i = Some "="%char → str !! S i ≠ Some "?"%char) → MimeHeaderDecode str = Ok str.
Proof.
  intros Hno. unfold MimeHeaderDecode.
  pose proof (decode_loop_plain str Hno (length str + 1) 0 init_decoder eq_refl I ltac:(lia)) as Hp.
  destruct (decode_loop_inv str (length str + 1) 0 init_decoder) as (d & E & _).
  { apply decoder_inv_init. lia. }
  { lia. }
  rewrite E in *. unfold decode_end. by rewrite Hp.
Qed.
Lemma MimeHeaderDecode_plain_witness :
  MimeHeaderDecode (W := λ w, Some w) "a = b" = Ok (bs "a = b").
Proof.
  apply (MimeHeaderDecode_plain (H := λ w, Some w) "a = b").
  intros i. do 5 (destruct i as [|i]; [by simpl|]). by simpl.
Defined.

(** An equals sign that begins no word costs a byte of the text before the next
    encoded word, and an unfinished word at the end is lost. *)
Example MimeHeaderDecode_loses_text :
  MimeHeaderDecode (W := λ _, Some (bs "Z")) "a=b =?u?Q?x?=" = Ok (bs "a=bZ") ∧
  MimeHeaderDecode (W := λ _, Some (bs "Z")) "=?u?Q?x?= a=?u" = Ok (bs "Z a").
Proof. by vm_compute. Qed.

(** ** Envelopes *)

(** An envelope that is reset and used for the next connection is a new
    envelope: no sender, recipient, header, data or value of the last transaction,
    and no TLS or ESMTP flag of the last connection, is left in it. The pool hands
    out only such envelopes when only reset envelopes were returned to it; the server
    does not see to that at the end of a session. *)
Theorem Borrow_is_new `{Digest} remoteAddr now clientID p e p' :
  Forall (λ e, ∃ e0, e = ResetTransaction e0) (EnvPool.ready p) →
  EnvPool.Borrow remoteAddr now clientID p = Some (e, p') →
  e = NewEnvelope remoteAddr now clientID ∧ EnvPool.sem p' = S (EnvPool.sem p) ∧
  EnvPool.sem p < EnvPool.size p ∧
  Forall (λ e, ∃ e0, e = ResetTransaction e0) (EnvPool.ready p').
Proof.
  intros Hall. unfold EnvPool.Borrow. destruct (EnvPool.size p <=? EnvPool.sem p) eqn:E; [done|].
  apply Nat.leb_gt in E. destruct (EnvPool.ready p) as [|e0 l]; intros [= <- <-].
  - by split_and!.
  - apply Forall_cons_1 in Hall as [[e1 ->] Hall]. by split_and!.
Qed.
Lemma Borrow_is_new_witness :
  let p := EnvPool.mkPool 2 [ResetTransaction (NewEnvelope (D := λ b, b) "1.2.3.4" 5 6)] 0 in
  let e := Reseed (D := λ b, b) "5.6.7.8" 9 1 (ResetTransaction (NewEnvelope (D := λ b, b) "1.2.3.4" 5 6)) in
  e = NewEnvelope (D := λ b, b) "5.6.7.8" 9 1 ∧ 1 = S 0 ∧ 0 < 2 ∧
  Forall (λ e, ∃ e0, e = ResetTransaction e0) [].
Proof.
  intros p e. apply (Borrow_is_new (H := λ b, b) "5.6.7.8" 9 1 p e (EnvPool.mkPool 2 [] 1)).
  - constructor; [by eexists|constructor].
  - done.
Defined.
