(* ===== verification/Config.v ===== *)
(** * Configuration: package [guerrilla], config.go and event.go

    The configuration records, their defaults and validation, and the comparison
    of two configurations that publishes the change events. The host name of the
    machine, the modification times of files and the loading of a key pair are
    parameters (class [Machine]). *)
From S2P Require Import Prelude GoStd Shared.

Record ServerTLSConfig := mkServerTLSConfig {
  Protocols : list bytes;
  Ciphers : list bytes;
  Curves : list bytes;
  PrivateKeyFile : bytes;
  PublicKeyFile : bytes;
  RootCAs : bytes;
  ClientAuthType : bytes;
  _privateKeyFileMtime : Z;
  _publicKeyFileMtime : Z;
  PreferServerCipherSuites : bool;
  StartTLSOn : bool;
  AlwaysOn : bool
}.
Record ServerConfig := mkServerConfig {
  sc_TLS : ServerTLSConfig;
  sc_LogFile : bytes;
  Hostname : bytes;
  ListenInterface : bytes;
  MaxSize : Z;
  Timeout : Z;
  MaxClients : Z;
  IsEnabled : bool;
  XClientOn : bool
}.
Record AuthConfig := mkAuthConfig {
  Enabled : bool;
  auth_Type : bytes;
  auth_URL : bytes;
  auth_Timeout : bytes;
  auth_Headers : gmap bytes bytes
}.
Record TenantRegistryConfig := mkTenantRegistryConfig {
  reg_URL : bytes;
  PollInterval : bytes;
  reg_Timeout : bytes;
  reg_Headers : gmap bytes bytes
}.
Record AppConfig := mkAppConfig {
  Servers : list ServerConfig;
  AllowedHosts : list bytes;
  PidFile : bytes;
  LogFile : bytes;
  LogLevel : bytes;
  app_BackendConfig : BackendConfig;
  Auth : AuthConfig;
  TenantRegistry : TenantRegistryConfig
}.
#[export] Instance ServerTLSConfig_eq_dec : EqDecision ServerTLSConfig.
Proof. solve_decision. Defined.
#[export] Instance ServerConfig_eq_dec : EqDecision ServerConfig.
Proof. solve_decision. Defined.
#[export] Instance AuthConfig_eq_dec : EqDecision AuthConfig.
Proof. solve_decision. Defined.
#[export] Instance TenantRegistryConfig_eq_dec : EqDecision TenantRegistryConfig.
Proof. solve_decision. Defined.
#[export] Instance AppConfig_eq_dec : EqDecision AppConfig.
Proof. solve_decision. Defined.

Definition zero_ServerTLSConfig : ServerTLSConfig :=
  mkServerTLSConfig [] [] [] [] [] [] [] 0 0 false false false.
Definition zero_ServerConfig : ServerConfig :=
  mkServerConfig zero_ServerTLSConfig [] [] [] 0 0 0 false false.

Definition defaultMaxClients : Z := 100.
Definition defaultTimeout : Z := 30.
Definition defaultInterface : bytes := "127.0.0.1:2525".
Definition defaultMaxSize : Z := 10 * 2 ^ 20.

Inductive config_error : Type :=
| err_hostname
| err_no_interface (i : nat)
| err_validate (errs : list bytes)
| err_stat (iface : bytes)
| err_json.

(** What the program asks the machine: [os.Hostname], [os.Stat(f).ModTime],
    the clock in seconds, and [tls.LoadX509KeyPair], whose answer is the error. *)
Class Machine := {
  os_Hostname : option bytes;
  stat_mtime : bytes → option Z;
  now_unix : Z;
  LoadX509KeyPair : bytes → bytes → option bytes
}.

Section Config.
Context {Mc : Machine}.

(** ** Validation *)
Definition Validate (sc : ServerConfig) : option config_error :=
  let t := sc_TLS sc in
  let errs :=
    if StartTLSOn t || AlwaysOn t then
      (if bool_decide (PublicKeyFile t = []) then [bs "PublicKeyFile is empty"] else [])
      ++ (if bool_decide (PrivateKeyFile t = []) then [bs "PrivateKeyFile is empty"] else [])
      ++ match LoadX509KeyPair (PublicKeyFile t) (PrivateKeyFile t) with
         | Some err => ["cannot use TLS config for [" ++ ListenInterface sc ++ "], " ++ err]
         | None => []
         end
    else [] in
  match errs with [] => None | _ => Some (err_validate errs) end.

(** ** Defaults *)
Definition default_bytes (v d : bytes) : bytes := match v with [] => d | _ => v end.
Definition default_Z (v d : Z) : Z := if (v =? 0)%Z then d else v.

(** One server: the defaults up to the check of the interface, then the log file. *)
Definition server_defaults (h logFile : bytes) (i : nat) (sc : ServerConfig)
    : ServerConfig * option config_error :=
  let sc := mkServerConfig (sc_TLS sc) (sc_LogFile sc) (default_bytes (Hostname sc) h)
              (ListenInterface sc) (default_Z (MaxSize sc) defaultMaxSize)
              (default_Z (Timeout sc) defaultTimeout) (default_Z (MaxClients sc) defaultMaxClients)
              (IsEnabled sc) (XClientOn sc) in
  if bool_decide (ListenInterface sc = []) then (sc, Some (err_no_interface i))
  else
    let sc := mkServerConfig (sc_TLS sc) (default_bytes (sc_LogFile sc) logFile) (Hostname sc)
                (ListenInterface sc) (MaxSize sc) (Timeout sc) (MaxClients sc) (IsEnabled sc)
                (XClientOn sc) in
    (sc, Validate sc).

Fixpoint servers_defaults (h logFile : bytes) (i : nat) (l : list ServerConfig)
    : list ServerConfig * option config_error :=
  match l with
  | [] => ([], None)
  | sc :: l' =>
      match server_defaults h logFile i sc with
      | (sc', Some e) => (sc' :: l', Some e)
      | (sc', None) =>
          let '(r, e) := servers_defaults h logFile (S i) l' in (sc' :: r, e)
      end
  end.

Definition set_Servers (v : list ServerConfig) (c : AppConfig) : AppConfig :=
  mkAppConfig v (AllowedHosts c) (PidFile c) (LogFile c) (LogLevel c) (app_BackendConfig c) (Auth c)
    (TenantRegistry c).
Definition set_AllowedHosts (v : list bytes) (c : AppConfig) : AppConfig :=
  mkAppConfig (Servers c) v (PidFile c) (LogFile c) (LogLevel c) (app_BackendConfig c) (Auth c)
    (TenantRegistry c).
Definition set_BackendConfig (v : BackendConfig) (c : AppConfig) : AppConfig :=
  mkAppConfig (Servers c) (AllowedHosts c) (PidFile c) (LogFile c) (LogLevel c) v (Auth c)
    (TenantRegistry c).

Definition log_defaults (c : AppConfig) : AppConfig :=
  mkAppConfig (Servers c) (AllowedHosts c) (PidFile c) (default_bytes (LogFile c) "stderr")
    (default_bytes (LogLevel c) "debug") (app_BackendConfig c) (Auth c) (TenantRegistry c).
Definition auth_defaults (c : AppConfig) : AppConfig :=
  let a := Auth c in
  mkAppConfig (Servers c) (AllowedHosts c) (PidFile c) (LogFile c) (LogLevel c) (app_BackendConfig c)
    (mkAuthConfig (Enabled a) (default_bytes (auth_Type a) "http")
       (default_bytes (auth_URL a) "http://127.0.0.1:8080/auth") (default_bytes (auth_Timeout a) "2s")
       (auth_Headers a))
    (TenantRegistry c).

Definition setDefaults : M AppConfig config_error unit :=
  modify log_defaults;;
  c ← get;
  (match AllowedHosts c with
   | [] => match os_Hostname with
           | None => fail err_hostname
           | Some h => modify (set_AllowedHosts [h])
           end
   | _ => mret tt
   end);;
  match os_Hostname with
  | None => fail err_hostname
  | Some h =>
      c ← get;
      (match Servers c with
       | [] =>
           modify (set_Servers
             [mkServerConfig zero_ServerTLSConfig (LogFile c) h defaultInterface defaultMaxSize
                defaultTimeout defaultMaxClients true false])
       | l =>
           let '(l', e) := servers_defaults h (LogFile c) 0 l in
           modify (set_Servers l');;
           match e with Some e => fail e | None => mret tt end
       end);;
      modify auth_defaults
  end.

Definition add_default (k : bytes) (v : cfgval) (b : BackendConfig) : BackendConfig :=
  match b !! k with Some _ => b | None => <[k := v]> b end.

Definition default_process : bytes := "HeadersParser|Header|Debugger".

Definition setBackendDefaults : M AppConfig config_error unit :=
  c ← get;
  if bool_decide (app_BackendConfig c = ∅) then
    match os_Hostname with
    | None => fail err_hostname
    | Some h =>
        modify (set_BackendConfig
          (<[bs "log_received_mails" := CBool true]>
          (<[bs "save_workers_size" := CInt 1]>
          (<[bs "save_process" := CString default_process]>
          (<[bs "primary_mail_host" := CString h]> ∅)))))
    end
  else
    modify (λ c, set_BackendConfig
      (add_default "save_process" (CString default_process) (app_BackendConfig c)) c);;
    c ← get;
    (match app_BackendConfig c !! bs "primary_mail_host" with
     | Some _ => mret tt
     | None =>
         match os_Hostname with
         | None => fail err_hostname
         | Some h => modify (λ c, set_BackendConfig
                       (<[bs "primary_mail_host" := CString h]> (app_BackendConfig c)) c)
         end
     end);;
    modify (λ c, set_BackendConfig
      (add_default "save_workers_size" (CInt 1) (app_BackendConfig c)) c);;
    modify (λ c, set_BackendConfig
      (add_default "log_received_mails" (CBool false) (app_BackendConfig c)) c).

Definition set_mtimes (p q : Z) (sc : ServerConfig) : ServerConfig :=
  let t := sc_TLS sc in
  mkServerConfig
    (mkServerTLSConfig (Protocols t) (Ciphers t) (Curves t) (PrivateKeyFile t) (PublicKeyFile t)
       (RootCAs t) (ClientAuthType t) p q (PreferServerCipherSuites t) (StartTLSOn t) (AlwaysOn t))
    (sc_LogFile sc) (Hostname sc) (ListenInterface sc) (MaxSize sc) (Timeout sc) (MaxClients sc)
    (IsEnabled sc) (XClientOn sc).

Definition loadTlsKeyTimestamps (sc : ServerConfig) : outcome config_error ServerConfig :=
  let t := sc_TLS sc in
  if bool_decide (PrivateKeyFile t = []) then Ok (set_mtimes now_unix (_publicKeyFileMtime t) sc)
  else if bool_decide (PublicKeyFile t = []) then
    Ok (set_mtimes (_privateKeyFileMtime t) now_unix sc)
  else
    match stat_mtime (PrivateKeyFile t) with
    | None => Err (err_stat (ListenInterface sc))
    | Some p =>
        match stat_mtime (PublicKeyFile t) with
        | None => Err (err_stat (ListenInterface sc))
        | Some q => Ok (set_mtimes p q sc)
        end
    end.

Fixpoint load_timestamps (l : list ServerConfig) : list ServerConfig * option config_error :=
  match l with
  | [] => ([], None)
  | sc :: l' =>
      match loadTlsKeyTimestamps sc with
      | Ok sc' => let '(r, e) := load_timestamps l' in (sc' :: r, e)
      | Err e => (sc :: l', Some e)
      | _ => (sc :: l', Some err_json)
      end
  end.

(** [Load] after [json.Unmarshal], whose result is the argument. *)
Definition Load (parsed : option AppConfig) : outcome config_error AppConfig :=
  match parsed with
  | None => Err err_json
  | Some c =>
      let m :=
        setDefaults;;
        setBackendDefaults;;
        c ← get;
        (match List.find (λ sc, if Validate sc is Some _ then true else false) (Servers c) with
         | Some sc => match Validate sc with Some e => fail e | None => mret tt end
         | None => mret tt
         end);;
        (let '(l, e) := load_timestamps (Servers c) in
         modify (set_Servers l);;
         match e with Some e => fail e | None => mret tt end);;
        get in
      fst (m c)
  end.
End Config.

(** ** Events (event.go) *)
Inductive Event : Type :=
| EventConfigNewConfig | EventConfigAllowedHosts | EventConfigPidFile | EventConfigLogFile
| EventConfigLogReopen | EventConfigLogLevel | EventConfigBackendConfig | EventConfigServerNew
| EventConfigServerRemove | EventConfigServerConfig | EventConfigServerStart | EventConfigServerStop
| EventConfigServerLogFile | EventConfigServerLogReopen | EventConfigServerTimeout
| EventConfigServerMaxClients | EventConfigServerTLSConfig.
#[export] Instance Event_eq_dec : EqDecision Event.
Proof. solve_decision. Defined.

Definition all_events : list Event :=
  [EventConfigNewConfig; EventConfigAllowedHosts; EventConfigPidFile; EventConfigLogFile;
   EventConfigLogReopen; EventConfigLogLevel; EventConfigBackendConfig; EventConfigServerNew;
   EventConfigServerRemove; EventConfigServerConfig; EventConfigServerStart; EventConfigServerStop;
   EventConfigServerLogFile; EventConfigServerLogReopen; EventConfigServerTimeout;
   EventConfigServerMaxClients; EventConfigServerTLSConfig].
Definition eventList : list bytes :=
  [bs "config_change:new_config"; bs "config_change:allowed_hosts"; bs "config_change:pid_file";
   bs "config_change:log_file"; bs "config_change:reopen_log_file"; bs "config_change:log_level";
   bs "config_change:backend_config"; bs "server_change:new_server"; bs "server_change:remove_server";
   bs "server_change:update_config"; bs "server_change:start_server"; bs "server_change:stop_server";
   bs "server_change:new_log_file"; bs "server_change:reopen_log_file"; bs "server_change:timeout";
   bs "server_change:max_clients"; bs "server_change:tls_config"].
(** [eventList[e]]: the value of an event is its position. *)
Definition event_index (e : Event) : nat :=
  default 0 (fst <$> list_find (λ e', e' = e) all_events).
Definition Event_String (e : Event) : bytes := default [] (eventList !! event_index e).

(** What is published: the topic and its argument. *)
Inductive published : Type :=
| PubApp (e : Event) (c : AppConfig)
| PubServer (e : Event) (sc : ServerConfig).

(** ** Comparison *)

(** The field values that [structtomap] can hold; a slice is compared by its JSON
    text, which is as good as the slice. *)
Inductive field : Type :=
| FInt (v : Z) | FString (v : bytes) | FBool (v : bool) | FSlice (v : list bytes).
#[export] Instance field_eq_dec : EqDecision field.
Proof. solve_decision. Defined.

(** [structtomap] of the two structs; the nested TLS struct is passed over. *)
Definition server_map (sc : ServerConfig) : list (bytes * field) :=
  [(bs "LogFile", FString (sc_LogFile sc)); (bs "Hostname", FString (Hostname sc));
   (bs "ListenInterface", FString (ListenInterface sc)); (bs "MaxSize", FInt (MaxSize sc));
   (bs "Timeout", FInt (Timeout sc)); (bs "MaxClients", FInt (MaxClients sc));
   (bs "IsEnabled", FBool (IsEnabled sc)); (bs "XClientOn", FBool (XClientOn sc))].
Definition tls_map (t : ServerTLSConfig) : list (bytes * field) :=
  [(bs "Protocols", FSlice (Protocols t)); (bs "Ciphers", FSlice (Ciphers t));
   (bs "Curves", FSlice (Curves t)); (bs "PrivateKeyFile", FString (PrivateKeyFile t));
   (bs "PublicKeyFile", FString (PublicKeyFile t)); (bs "RootCAs", FString (RootCAs t));
   (bs "ClientAuthType", FString (ClientAuthType t));
   (bs "_privateKeyFileMtime", FInt (_privateKeyFileMtime t));
   (bs "_publicKeyFileMtime", FInt (_publicKeyFileMtime t));
   (bs "PreferServerCipherSuites", FBool (PreferServerCipherSuites t));
   (bs "StartTLSOn", FBool (StartTLSOn t)); (bs "AlwaysOn", FBool (AlwaysOn t))].

(** The keys whose values differ, with the new value. *)
Fixpoint diff_maps (a b : list (bytes * field)) : gmap bytes field :=
  match a, b with
  | (k, v) :: a', (_, w) :: b' =>
      if bool_decide (v = w) then diff_maps a' b' else <[k := w]> (diff_maps a' b')
  | _, _ => ∅
  end.
Definition getChanges_server (a b : ServerConfig) : gmap bytes field :=
  diff_maps (server_map a) (server_map b).
Definition getChanges_tls (a b : ServerTLSConfig) : gmap bytes field :=
  let ret := diff_maps (tls_map a) (tls_map b) in
  let ret := if (_privateKeyFileMtime a =? _privateKeyFileMtime b)%Z then ret
             else <[bs "PrivateKeyFile" := FString (PrivateKeyFile b)]> ret in
  if (_publicKeyFileMtime a =? _publicKeyFileMtime b)%Z then ret
  else <[bs "PublicKeyFile" := FString (PublicKeyFile b)]> ret.

Definition changed (k : bytes) (m : gmap bytes field) : bool := bool_decide (is_Some (m !! k)).

Definition server_emitChangeEvents (old sc : ServerConfig) : list published :=
  let changes := getChanges_server old sc in
  let tlsChanges := getChanges_tls (sc_TLS old) (sc_TLS sc) in
  (if bool_decide (changes ≠ ∅) || bool_decide (tlsChanges ≠ ∅)
   then [PubServer EventConfigServerConfig sc] else []) ++
  if changed "IsEnabled" changes then
    [PubServer (if IsEnabled sc then EventConfigServerStart else EventConfigServerStop) sc]
  else
    [PubServer (if changed "LogFile" changes then EventConfigServerLogFile
                else EventConfigServerLogReopen) sc] ++
    (if changed "Timeout" changes then [PubServer EventConfigServerTimeout sc] else []) ++
    (if changed "MaxClients" changes then [PubServer EventConfigServerMaxClients sc] else []) ++
    (if bool_decide (tlsChanges ≠ ∅) then [PubServer EventConfigServerTLSConfig sc] else []).

(** The last server of an interface wins. *)
Definition getServers (c : AppConfig) : gmap bytes ServerConfig :=
  foldl (λ m sc, <[ListenInterface sc := sc]> m) ∅ (Servers c).

(** The iteration over the two maps: [newOrder] and [oldOrder] are the orders in
    which the run-time visits their keys. *)
Fixpoint emit_servers (newServers : gmap bytes ServerConfig) (order : list bytes)
    (oldServers : gmap bytes ServerConfig) : list published * gmap bytes ServerConfig :=
  match order with
  | [] => ([], oldServers)
  | iface :: order' =>
      match newServers !! iface with
      | None => emit_servers newServers order' oldServers
      | Some newServer =>
          let '(evs, old') :=
            match oldServers !! iface with
            | Some oldServer =>
                (server_emitChangeEvents oldServer newServer, delete iface oldServers)
            | None => ([PubServer EventConfigServerNew newServer], oldServers)
            end in
          let '(evs', old'') := emit_servers newServers order' old' in
          (evs ++ evs', old'')
      end
  end.

Definition EmitChangeEvents (newOrder oldOrder : list bytes) (old c : AppConfig) : list published :=
  (if bool_decide (app_BackendConfig c = app_BackendConfig old) then []
   else [PubApp EventConfigBackendConfig c]) ++
  (if bool_decide (old = c) then [] else [PubApp EventConfigNewConfig c]) ++
  (if bool_decide (AllowedHosts old = AllowedHosts c) then [] else [PubApp EventConfigAllowedHosts c]) ++
  (if bool_decide (PidFile old = PidFile c) then [] else [PubApp EventConfigPidFile c]) ++
  (if bool_decide (LogFile old = LogFile c) then [] else [PubApp EventConfigLogFile c]) ++
  (if bool_decide (LogLevel old = LogLevel c) then [] else [PubApp EventConfigLogLevel c]) ++
  let '(evs, gone) := emit_servers (getServers c) newOrder (getServers old) in
  evs ++ omap (λ iface, PubServer EventConfigServerRemove <$> gone !! iface) oldOrder.

Definition EmitLogReopenEvents (order : list bytes) (c : AppConfig) : list published :=
  PubApp EventConfigLogReopen c ::
  omap (λ iface, PubServer EventConfigServerLogReopen <$> getServers c !! iface) order.

(** ** Notions used by the statements *)

(** What [setDefaults] establishes of a server. *)
Definition server_ready (sc : ServerConfig) : Prop :=
  Hostname sc ≠ [] ∧ ListenInterface sc ≠ [] ∧ sc_LogFile sc ≠ [] ∧
  (MaxSize sc ≠ 0 ∧ Timeout sc ≠ 0 ∧ MaxClients sc ≠ 0)%Z.

Definition config_ready (c : AppConfig) : Prop :=
  LogFile c ≠ [] ∧ LogLevel c ≠ [] ∧ AllowedHosts c ≠ [] ∧ Servers c ≠ [] ∧
  Forall server_ready (Servers c) ∧
  auth_Type (Auth c) ≠ [] ∧ auth_URL (Auth c) ≠ [] ∧ auth_Timeout (Auth c) ≠ [].

(** The keys that the gateway and its processors need. *)
Definition backend_ready (b : BackendConfig) : Prop :=
  ∀ k, k ∈ [bs "save_process"; bs "primary_mail_host"; bs "save_workers_size"; bs "log_received_mails"] →
       is_Some (b !! k).

(** A machine with a name, for concrete runs. *)
Definition test_machine : Machine :=
  {| os_Hostname := Some (bs "host"); stat_mtime := λ _, None; now_unix := 0;
     LoadX509KeyPair := λ _ _, Some (bs "no key") |}.

Definition empty_AppConfig : AppConfig :=
  mkAppConfig [] [] [] [] [] ∅ (mkAuthConfig false [] [] [] ∅) (mkTenantRegistryConfig [] [] [] ∅).

(** [order] visits every key of [m] once. *)
Definition visits {A} (order : list bytes) (m : gmap bytes A) : Prop :=
  NoDup order ∧ ∀ k, k ∈ order ↔ is_Some (m !! k).

Definition ServerNew (sc : ServerConfig) : published := PubServer EventConfigServerNew sc.

Definition ServerRemove (sc : ServerConfig) : published := PubServer EventConfigServerRemove sc.

(** * Proofs *)

Lemma default_bytes_ne v d : d ≠ [] → default_bytes v d ≠ [].
Proof. by destruct v. Qed.
Lemma default_Z_ne v d : (d ≠ 0)%Z → (default_Z v d ≠ 0)%Z.
Proof. unfold default_Z. destruct (v =? 0)%Z eqn:E; [done|]. by apply Z.eqb_neq in E. Qed.
Lemma default_bytes_keeps v d : v ≠ [] → default_bytes v d = v.
Proof. by destruct v. Qed.
Lemma default_Z_keeps v d : (v ≠ 0)%Z → default_Z v d = v.
Proof. unfold default_Z. intros H. apply Z.eqb_neq in H. by rewrite H. Qed.

Section Defaults.
Context {Mc : Machine}.

Lemma server_defaults_ready h lf i sc sc' :
  h ≠ [] → lf ≠ [] → server_defaults h lf i sc = (sc', None) →
  server_ready sc' ∧ Validate sc' = None.
Proof.
  intros Hh Hl. unfold server_defaults. cbn [ListenInterface].
  case_bool_decide as Hi; [done|]. intros [= <- Hv]. split; [|done].
  unfold server_ready. simpl. split_and!; auto using default_bytes_ne; by apply default_Z_ne.
Qed.
Lemma server_defaults_id h lf i sc :
  server_ready sc → Validate sc = None → server_defaults h lf i sc = (sc, None).
Proof.
  intros (?&?&?&?&?&?) Hv. unfold server_defaults. cbn [ListenInterface].
  rewrite bool_decide_false by done. simpl.
  rewrite !default_bytes_keeps, !default_Z_keeps by done. by destruct sc; simpl in *; rewrite Hv.
Qed.
Lemma servers_defaults_ready h lf : h ≠ [] → lf ≠ [] → ∀ l i l',
  servers_defaults h lf i l = (l', None) →
  Forall (λ sc, server_ready sc ∧ Validate sc = None) l' ∧ length l' = length l.
Proof.
  intros Hh Hl. induction l as [|sc l IH]; simpl; intros i l'; [by intros [= <-]|].
  destruct (server_defaults h lf i sc) as [sc' [e|]] eqn:E; [done|].
  destruct (servers_defaults h lf (S i) l) as [r e] eqn:Er. intros [= <- ->].
  destruct (IH _ _ Er) as [Hr Hlen]. apply server_defaults_ready in E; [|done..].
  split; [by constructor|simpl; by rewrite Hlen].
Qed.
Lemma servers_defaults_id h lf : ∀ l i,
  Forall (λ sc, server_ready sc ∧ Validate sc = None) l → servers_defaults h lf i l = (l, None).
Proof.
  induction l as [|sc l IH]; intros i; simpl; [done|]. intros [[? ?] Hl]%Forall_cons_1.
  rewrite server_defaults_id by done. by rewrite IH.
Qed.
End Defaults.

(** [setDefaults] completes a configuration: when it succeeds, every setting
    the daemon needs has a value, every server has passed validation, and running
    it again changes nothing. *)
Theorem setDefaults_completes `{Machine} c c' h :
  os_Hostname = Some h → h ≠ [] → setDefaults c = (Ok tt, c') →
  config_ready c' ∧ Forall (λ sc, Validate sc = None) (Servers c') ∧ setDefaults c' = (Ok tt, c').
Proof.
  intros Hh Hne. unfold setDefaults, mbind, M_bind, modify, get, fail, mret, M_ret. rewrite Hh.
  set (c0 := log_defaults c).
  assert (LogFile c0 ≠ [] ∧ LogLevel c0 ≠ []) as [HL HV] by (split; by apply default_bytes_ne).
  intros Hrun.
  assert (∃ c1, AllowedHosts c1 ≠ [] ∧ LogFile c1 = LogFile c0 ∧ LogLevel c1 = LogLevel c0 ∧
    (match Servers c1 with
     | [] => λ s, (Ok tt, auth_defaults (set_Servers
               [mkServerConfig zero_ServerTLSConfig (LogFile c1) h defaultInterface defaultMaxSize
                  defaultTimeout defaultMaxClients true false] s))
     | l => λ s, match servers_defaults h (LogFile c1) 0 l with
                 | (l', Some e) => (Err e, set_Servers l' s)
                 | (l', None) => (Ok tt, auth_defaults (set_Servers l' s))
                 end
     end : M AppConfig config_error unit) c1 = (Ok tt, c')) as (c1 & HA1 & HL1 & HV1 & Hrun1).
  { destruct (AllowedHosts c0) eqn:EA.
    - exists (set_AllowedHosts [h] c0). split_and!; [done..|]. revert Hrun. cbn [Servers LogFile set_AllowedHosts].
      destruct (Servers c0); [done|]. by destruct (servers_defaults h (LogFile c0) 0 _) as [? []].
    - exists c0. split_and!; [by rewrite EA|done..|]. revert Hrun.
      destruct (Servers c0); [done|]. by destruct (servers_defaults h (LogFile c0) 0 _) as [? []]. }
  clear Hrun. rewrite <- HL1 in HL. rewrite <- HV1 in HV. clearbody c0. clear c0 HL1 HV1.
  assert (∃ l, l ≠ [] ∧ Forall (λ sc, server_ready sc ∧ Validate sc = None) l ∧
               c' = auth_defaults (set_Servers l c1)) as (l & Hl & Hall & ->).
  { revert Hrun1. destruct (Servers c1) as [|sc l] eqn:ES.
    - intros [= <-]. eexists. split_and!; [|constructor; [|constructor]|done]; [done|].
      by split; [split_and!|].
    - destruct (servers_defaults h (LogFile c1) 0 (sc :: l)) as [l' [e|]] eqn:E; [done|].
      intros [= <-]. apply servers_defaults_ready in E as [Hl Hn]; [|done..].
      exists l'. split_and!; [|done..]. intros ->. done. }
  split_and!.
  - unfold config_ready. simpl. split_and!; auto using default_bytes_ne.
    eapply list.Forall_impl; [exact Hall|by intros ? []].
  - simpl. eapply list.Forall_impl; [exact Hall|by intros ? []].
  - assert (log_defaults (auth_defaults (set_Servers l c1)) = auth_defaults (set_Servers l c1)) as ->.
    { unfold log_defaults. simpl.
      by rewrite (default_bytes_keeps (LogFile c1)), (default_bytes_keeps (LogLevel c1)). }
    assert (auth_defaults (auth_defaults (set_Servers l c1)) = auth_defaults (set_Servers l c1)) as Hauth.
    { unfold auth_defaults. simpl. by rewrite !(default_bytes_keeps (default_bytes _ _)) by by apply default_bytes_ne. }
    change (AllowedHosts (auth_defaults (set_Servers l c1))) with (AllowedHosts c1).
    destruct (AllowedHosts c1); [done|].
    change (Servers (auth_defaults (set_Servers l c1))) with l. destruct l as [|sc l]; [done|].
    rewrite servers_defaults_id by done. by rewrite <- Hauth at 2.
Qed.
Lemma setDefaults_completes_witness :
  let c' := snd (setDefaults (Mc := test_machine) empty_AppConfig) in
  config_ready c' ∧ Forall (λ sc, Validate (Mc := test_machine) sc = None) (Servers c') ∧
  setDefaults (Mc := test_machine) c' = (Ok tt, c').
Proof.
  intros c'. apply (setDefaults_completes (H := test_machine) empty_AppConfig c' "host"); done.
Defined.

(** ** Loading *)
Lemma Event_String_inj e e' : Event_String e = Event_String e' → e = e'.
Proof.
  assert (Hd : ∀ e, find (λ e', bool_decide (Event_String e' = Event_String e)) all_events = Some e) by (intros []; by vm_compute).
  intros E. pose proof (Hd e) as He. rewrite E, Hd in He. by injection He as <-.
Qed.
Section Load.
Context {Mc : Machine}.
Lemma load_timestamps_valid l : Forall (λ sc, Validate sc = None) l → Forall (λ sc, Validate sc = None) (load_timestamps l).1.
Proof.
  assert (Hone : ∀ sc sc', loadTlsKeyTimestamps sc = Ok sc' → Validate sc = None → Validate sc' = None).
  { intros sc sc'. unfold loadTlsKeyTimestamps. repeat case_match; intros [= <-]; done. }
  induction 1 as [|sc l Hsc Hl IH]; [done|]. cbn. destruct (loadTlsKeyTimestamps sc) eqn:E; [|cbn; by constructor..].
  destruct (load_timestamps l). cbn in *. constructor; [by eapply Hone|done].
Qed.
(** What loads has valid servers, at least one. *)
Lemma Load_valid p c : Load p = Ok c → Forall (λ sc, Validate sc = None) (Servers c).
Proof.
  destruct p as [c0|]; [|done]. cbn. unfold mbind at 1, M_bind at 1. destruct (setDefaults c0) as [[[]| | |] c1]; try done.
  unfold mbind at 1, M_bind at 1. destruct (setBackendDefaults c1) as [[[]| | |] c2]; try done.
  unfold get, modify, fail, mbind, M_bind. destruct (find _ (Servers c2)) as [sc|] eqn:Ef.
  { apply find_some in Ef as [_ Hsc]. by destruct (Validate sc). }
  cbn. assert (Hv : Forall (λ sc, Validate sc = None) (Servers c2)).
  { apply list.Forall_forall. intros sc Hin%list_elem_of_In. pose proof (find_none _ _ Ef sc Hin) as Hn. cbn in Hn. by destruct (Validate sc). }
  pose proof (load_timestamps_valid _ Hv) as Hl. destruct (load_timestamps (Servers c2)) as [l [e|]]; [done|]. by intros [= <-].
Qed.
Lemma setBackendDefaults_servers c : Servers (setBackendDefaults c).2 = Servers c.
Proof. unfold setBackendDefaults, get, modify, fail, mbind, M_bind, mret, M_ret.
  destruct (bool_decide _); [by destruct os_Hostname|]. cbn. destruct (_ !! _); [done|]. by destruct os_Hostname. Qed.
End Load.

(** ** The events of a change *)

(** The events of one server are about it, and neither new nor remove. *)
Lemma server_event_kind old sc e :
  e ∈ server_emitChangeEvents old sc →
  ∃ ev, e = PubServer ev sc ∧ ev ≠ EventConfigServerNew ∧ ev ≠ EventConfigServerRemove.
Proof.
  assert (∀ l, Forall (λ e, ∃ ev, e = PubServer ev sc ∧ ev ≠ EventConfigServerNew ∧
                                  ev ≠ EventConfigServerRemove) l → e ∈ l →
    ∃ ev, e = PubServer ev sc ∧ ev ≠ EventConfigServerNew ∧ ev ≠ EventConfigServerRemove) as Hall.
  { intros l Hl. rewrite list.Forall_forall in Hl. apply Hl. }
  apply Hall. unfold server_emitChangeEvents.
  repeat match goal with |- context [if ?b then _ else _] => destruct b end;
    repeat (constructor; [by eexists|]); constructor.
Qed.
Lemma server_events_not_new old sc sc' :
  (ServerNew sc' ∉ server_emitChangeEvents old sc) ∧ (ServerRemove sc' ∉ server_emitChangeEvents old sc).
Proof. split; intros (ev & [=] & ? & ?)%server_event_kind; congruence. Qed.

Lemma decide_in_cons (k' k : bytes) order :
  k' ≠ k → bool_decide (k' ∈ k :: order) = bool_decide (k' ∈ order).
Proof.
  intros Hne. apply bool_decide_ext. split; [|by right]. by intros [?|?]%elem_of_cons.
Qed.

Lemma emit_servers_spec new : ∀ order old evs gone,
  NoDup order → emit_servers new order old = (evs, gone) →
  (∀ k, gone !! k = if bool_decide (k ∈ order) then match new !! k with Some _ => None | None => old !! k end
                    else old !! k) ∧
  (∀ sc, ServerNew sc ∈ evs ↔ ∃ k, k ∈ order ∧ new !! k = Some sc ∧ old !! k = None) ∧
  (∀ sc, ServerRemove sc ∉ evs) ∧
  (∀ k o n, k ∈ order → old !! k = Some o → new !! k = Some n →
     ∀ e, e ∈ server_emitChangeEvents o n → e ∈ evs).
Proof.
  induction order as [|k order IH]; intros old evs gone Hnd; simpl.
  { intros [= <- <-]. split_and!; [by intros| |by intros ? ?%elem_of_nil|by intros ? ? ? ?%elem_of_nil].
    intros sc. split; [by intros ?%elem_of_nil|by intros (? & ?%elem_of_nil & _)]. }
  apply list.NoDup_cons in Hnd as [Hk Hnd].
  destruct (new !! k) as [sn|] eqn:Ek.
  2: { intros E. destruct (IH _ _ _ Hnd E) as (H1 & H2 & H3 & H4). split_and!.
       - intros k'. rewrite H1. destruct (decide (k' = k)) as [->|Hne].
         + rewrite bool_decide_false by done. by rewrite bool_decide_true, Ek by by left.
         + by rewrite (decide_in_cons k' k order Hne).
       - intros sc. rewrite H2. split; intros (k' & Hin & Hn' & Ho'); exists k'.
         + split_and!; [by right|done..].
         + apply elem_of_cons in Hin as [->|Hin]; [congruence|done].
       - done.
       - intros k' o n [->|Hin]%elem_of_cons ? ?; [by simplify_eq|by eapply H4]. }
  destruct (old !! k) as [so|] eqn:Eo.
  - destruct (emit_servers new order (delete k old)) as [evs' gone'] eqn:E. intros [= <- <-].
    destruct (IH _ _ _ Hnd E) as (H1 & H2 & H3 & H4). split_and!.
    + intros k'. rewrite H1. destruct (decide (k' = k)) as [->|Hne].
      * rewrite bool_decide_false by done. rewrite bool_decide_true, Ek by by left. by simplify_map_eq.
      * rewrite lookup_delete_ne by done.
        by rewrite (decide_in_cons k' k order Hne).
    + intros sc. rewrite elem_of_app, H2. split.
      * intros [Hin|(k' & Hin & Hn & Hold)]; [by apply server_events_not_new in Hin|].
        exists k'. rewrite elem_of_cons. split_and!; [by right|done|].
        destruct (decide (k' = k)) as [->|]; [done|]. by rewrite lookup_delete_ne in Hold.
      * intros (k' & [->|Hin]%elem_of_cons & Hn & Hold); [by simplify_eq|]. right. exists k'.
        split_and!; [done..|]. by rewrite lookup_delete_ne by (intros ->; done).
    + intros sc. rewrite elem_of_app. intros [Hin|Hin]; [by apply server_events_not_new in Hin|by eapply H3].
    + intros k' o n [->|Hin]%elem_of_cons Ho Hn e He; apply elem_of_app; [left; by simplify_eq|right].
      eapply H4; [done| |done|done]. by rewrite lookup_delete_ne by (intros ->; done).
  - destruct (emit_servers new order old) as [evs' gone'] eqn:E. intros [= <- <-].
    destruct (IH _ _ _ Hnd E) as (H1 & H2 & H3 & H4). split_and!.
    + intros k'. rewrite H1. destruct (decide (k' = k)) as [->|Hne].
      * rewrite bool_decide_false by done. by rewrite bool_decide_true, Ek by by left.
      * by rewrite (decide_in_cons k' k order Hne).
    + intros sc. rewrite elem_of_cons, H2. split.
      * intros [Hs|(k' & Hin & ?)]; [|exists k'; split; [by right|done]].
        injection Hs as ->. exists k. split_and!; [by left|done..].
      * intros (k' & [->|Hin]%elem_of_cons & Hn & Hold); [left; by simplify_eq|right; by exists k'].
    + intros sc. rewrite elem_of_cons. intros [?|Hin]; [done|by eapply H3].
    + intros k' o n [->|Hin]%elem_of_cons Ho Hn e He; [by simplify_eq|].
      right. by eapply H4.
Qed.

(** *** The structure of a change *)
Lemma emit_servers_events new order : ∀ old, NoDup order →
  fst (emit_servers new order old) = concat (map (λ k,
    match new !! k with
    | None => []
    | Some n => match old !! k with Some o => server_emitChangeEvents o n | None => [ServerNew n] end
    end) order).
Proof.
  induction order as [|k order IH]; intros old Hnd; [done|]. apply list.NoDup_cons in Hnd as [Hk Hnd]. cbn [emit_servers map concat].
  destruct (new !! k) as [n|] eqn:Hn; [|by apply IH].
  destruct (old !! k) as [o|] eqn:Ho.
  - destruct (emit_servers new order (delete k old)) as [evs gone] eqn:E. cbn. f_equal.
    change evs with (fst (evs, gone)). rewrite <- E, IH by done. f_equal. apply map_ext_in. intros k' Hin%list_elem_of_In.
    rewrite lookup_delete_ne by (intros <-; done). done.
  - destruct (emit_servers new order old) as [evs gone] eqn:E. cbn. f_equal.
    change evs with (fst (evs, gone)). by rewrite <- E, IH.
Qed.
Lemma getServers_find c k : NoDup (map ListenInterface (Servers c)) →
  getServers c !! k = find (λ sc, bool_decide (ListenInterface sc = k)) (Servers c).
Proof.
  unfold getServers. intros Hnd.
  assert (G : ∀ m : gmap bytes ServerConfig, foldl (λ m sc, <[ListenInterface sc := sc]> m) m (Servers c) !! k =
    match find (λ sc, bool_decide (ListenInterface sc = k)) (Servers c) with Some x => Some x | None => m !! k end).
  { induction (Servers c) as [|sc l IH]; intros m; [done|]. cbn in Hnd |- *. apply list.NoDup_cons in Hnd as [Hx Hnd].
    rewrite IH by done. destruct (find _ l) as [x|] eqn:Hf.
    - case_bool_decide as Hk; [|done]. exfalso. apply find_some in Hf as [Hin Hx'%bool_decide_eq_true].
      apply Hx. rewrite Hk, <- Hx'. apply list_elem_of_In, in_map, Hin.
    - case_bool_decide as Hk; [by rewrite Hk, lookup_insert_eq|by rewrite lookup_insert_ne]. }
  rewrite G. rewrite lookup_empty. by destruct (find _ _).
Qed.
Lemma diff_maps_empty a : ∀ b, length a = length b → diff_maps a b = ∅ → map snd a = map snd b.
Proof.
  induction a as [|[k v] a IH]; intros [|[k' w] b]; cbn; try done. intros [= Hl] Hd.
  case_bool_decide as Hv; [|by apply insert_non_empty in Hd]. rewrite Hv. f_equal. by apply IH.
Qed.
Lemma diff_maps_skip k v w k' a b : k' ≠ k → diff_maps ((k, v) :: a) ((k, w) :: b) !! k' = diff_maps a b !! k'.
Proof. intros Hk. cbn. case_bool_decide; [done|]. by rewrite lookup_insert_ne. Qed.
Lemma no_changes o n : getChanges_server o n = ∅ → getChanges_tls (sc_TLS o) (sc_TLS n) = ∅ → o = n.
Proof.
  intros Hs%diff_maps_empty Ht; [|done]. unfold getChanges_tls in Ht.
  destruct (_ =? _)%Z in Ht; [|by apply insert_non_empty in Ht].
  destruct (_ =? _)%Z in Ht; [|by apply insert_non_empty in Ht]. apply diff_maps_empty in Ht; [|done].
  destruct o as [t1], n as [t2], t1, t2. cbn in *. congruence.
Qed.
Lemma changed_IsEnabled o n :
  changed "IsEnabled" (getChanges_server o n) = negb (bool_decide (IsEnabled o = IsEnabled n)).
Proof.
  unfold changed, getChanges_server, server_map. rewrite !diff_maps_skip by (vm_compute; done). 
  destruct (IsEnabled o), (IsEnabled n), (XClientOn o), (XClientOn n); vm_compute; reflexivity.
Qed.

(** The events of a configuration change are exact for servers: whatever the
    orders in which the maps are visited, a new-server event is published for a
    server exactly when its interface is in the new configuration only, a
    remove-server event exactly when it is in the old one only, and for every
    interface in both all the events of the changed settings are published. *)
Theorem EmitChangeEvents_servers newOrder oldOrder old c :
  visits newOrder (getServers c) → visits oldOrder (getServers old) →
  let evs := EmitChangeEvents newOrder oldOrder old c in
  (∀ sc, ServerNew sc ∈ evs ↔ ∃ k, getServers c !! k = Some sc ∧ getServers old !! k = None) ∧
  (∀ sc, ServerRemove sc ∈ evs ↔ ∃ k, getServers old !! k = Some sc ∧ getServers c !! k = None) ∧
  (∀ k o n, getServers old !! k = Some o → getServers c !! k = Some n →
     ∀ e, e ∈ server_emitChangeEvents o n → e ∈ evs).
Proof.
  intros [Hnd Hn] [_ Ho] evs. unfold evs, EmitChangeEvents.
  destruct (emit_servers (getServers c) newOrder (getServers old)) as [sevs gone] eqn:E.
  destruct (emit_servers_spec _ _ _ _ _ Hnd E) as (H1 & H2 & H3 & H4).
  set (pre := λ e : published, match e with PubApp _ _ => True | _ => False end).
  set (rem := omap (λ iface, PubServer EventConfigServerRemove <$> gone !! iface) oldOrder).
  assert (∀ e, ¬ pre e → e ∈ EmitChangeEvents newOrder oldOrder old c ↔ e ∈ sevs ∨ e ∈ rem) as Hsplit.
  { intros e He. unfold EmitChangeEvents. rewrite E. fold rem. rewrite !elem_of_app.
    assert (∀ (b : bool) y, e ∉ (if b then [] else [PubApp y c])) as Hno.
    { intros [] y Hin; [by apply elem_of_nil in Hin|]. apply list_elem_of_singleton in Hin as ->. by apply He. }
    split; [|intros [?|?]; do 6 right; [by left|by right]].
    intros Hin. repeat (destruct Hin as [Hin|Hin]; [by destruct (Hno _ _ Hin)|]). exact Hin. }
  unfold EmitChangeEvents in Hsplit. rewrite E in Hsplit. fold rem in Hsplit |- *.
  assert (∀ e, e ∈ rem ↔ ∃ k sc, e = ServerRemove sc ∧ k ∈ oldOrder ∧ gone !! k = Some sc) as Hrem.
  { intros e. unfold rem. rewrite list_elem_of_omap. split.
    - intros (k & Hk & Hg). destruct (gone !! k) as [sc|] eqn:Eg; [|done]. simplify_eq/=. by exists k, sc.
    - intros (k & sc & -> & Hk & Hg). exists k. split; [done|]. by rewrite Hg. }
  split_and!.
  - intros sc. rewrite Hsplit by auto. rewrite Hrem, H2. split.
    + intros [(k & _ & ?)|(k & sc' & [=] & _)]. by exists k.
    + intros (k & Hk & Hko). left. exists k. split_and!; [by apply Hn; rewrite Hk|done..].
  - intros sc. rewrite Hsplit by auto. rewrite Hrem. split.
    + intros [Hin|(k & sc' & [= <-] & Hko & Hg)]; [by apply H3 in Hin|]. exists k.
      rewrite H1 in Hg. case_bool_decide as Hin.
      * apply Hn in Hin as [? Hin]. by rewrite Hin in Hg.
      * split; [done|]. apply eq_None_not_Some. intros Hs. by apply Hin, Hn.
    + intros (k & Hko & Hk). right. exists k, sc. split_and!; [done|by apply Ho; rewrite Hko|].
      rewrite H1, Hk. by destruct (bool_decide (k ∈ newOrder)).
  - intros k o n Hko Hk e He. apply Hsplit.
    + apply server_event_kind in He as (ev & -> & _). by intros [].
    + left. eapply H4; [|done..]. apply Hn. by rewrite Hk.
Qed.

Lemma EmitChangeEvents_servers_witness :
  let sc := mkServerConfig zero_ServerTLSConfig [] "h" "127.0.0.1:25" 0 0 0 true false in
  let c := set_Servers [sc] empty_AppConfig in
  let evs := EmitChangeEvents [bs "127.0.0.1:25"] [] empty_AppConfig c in
  (∀ s, ServerNew s ∈ evs ↔ ∃ k, getServers c !! k = Some s ∧ getServers empty_AppConfig !! k = None) ∧
  (∀ s, ServerRemove s ∈ evs ↔ ∃ k, getServers empty_AppConfig !! k = Some s ∧ getServers c !! k = None) ∧
  (∀ k o n, getServers empty_AppConfig !! k = Some o → getServers c !! k = Some n →
     ∀ e, e ∈ server_emitChangeEvents o n → e ∈ evs).
Proof.
  intros sc c evs. apply (EmitChangeEvents_servers [bs "127.0.0.1:25"] [] empty_AppConfig c).
  - split; [apply list.NoDup_singleton|]. intros k. rewrite list_elem_of_singleton.
    change (getServers c) with ({[bs "127.0.0.1:25" := sc]} : gmap bytes ServerConfig).
    rewrite lookup_singleton_is_Some. naive_solver.
  - split; [apply list.NoDup_nil; exact I|]. intros k. split; [by intros ?%elem_of_nil|].
    change (getServers empty_AppConfig) with (∅ : gmap bytes ServerConfig). rewrite lookup_empty.
    by intros [? ?].
Defined.
