(* ===== verification/Tenant.v ===== *)
(** * Tenants: backends/tenant.go, backends/tenant_registry.go, tenant_registry.go,
    backends/tenant_send.go

    Validation of the tenant records that the authenticator and the registry
    return, the cached registry, and the cache of outbound clients. The JSON
    decoder, the parser of durations, the HTTP exchange and the SHA-256 digest are
    parameters. *)
From S2P Require Import Prelude GoStd Shared Envelope Config.
From Stdlib Require Import DecimalString DecimalZ DecimalPos.

Record TenantPOP3 := mkTenantPOP3 {
  tp_Host : bytes; tp_Port : Z; tp_TLS : bool; tp_User : bytes; tp_Password : bytes
}.
Record TenantIMAP := mkTenantIMAP {
  ti_Host : bytes; ti_Port : Z; ti_TLS : bool; ti_User : bytes; ti_Password : bytes
}.
Record Tenant := mkTenant {
  TenantID : bytes;
  Provider : bytes;
  SES : option TenantSES;
  OCIEmail : option TenantOCI;
  POP3Accounts : list TenantPOP3;
  IMAPAccounts : list TenantIMAP
}.
Record AliasPOP3Account := mkAliasPOP3Account {
  pop_Host : bytes; pop_Port : Z; pop_TLS : bool; pop_User : bytes; pop_Password : bytes;
  pop_TenantID : bytes
}.
Record AliasIMAPAccount := mkAliasIMAPAccount {
  imap_Host : bytes; imap_Port : Z; imap_TLS : bool; imap_User : bytes; imap_Password : bytes;
  imap_TenantID : bytes
}.
Record TaggedPOP3Account := mkTaggedPOP3 { tagp_TenantID : bytes; tagp_Account : AliasPOP3Account }.
Record TaggedIMAPAccount := mkTaggedIMAP { tagi_TenantID : bytes; tagi_Account : AliasIMAPAccount }.

(** What [json.Unmarshal] finds in a tenant object. *)
Record tenantJSON := mkTenantJSON {
  j_TenantID : bytes;
  j_Provider : bytes;
  j_SES : option TenantSES;
  j_OCIEmail : option TenantOCI;
  j_POP3Accounts : list TenantPOP3;
  j_IMAPAccounts : list TenantIMAP;
  j_OK : bool
}.
Class TenantDecoder := {
  decode_tenant : bytes → option tenantJSON;
  decode_tenants : bytes → option (list tenantJSON)
}.

Inductive tenant_error : Type :=
| te_nil
| te_id_required
| te_ses_block
| te_ses_region
| te_oci_block
| te_oci_username
| te_oci_password
| te_provider
| te_json
| te_index (i : nat) (e : tenant_error)
| te_status (code : Z)
| te_http
| te_url_required
| te_duration
| te_ses_missing (id : bytes)
| te_oci_missing (id : bytes)
| te_not_ses
| te_not_oci
| te_no_host
| te_session
| te_send (m : bytes).

Definition defaultOCIEmailPort : Z := 587.
Definition defaultOCIEmailMaxBytes : Z := 2 * 1024 * 1024.

(** ** Validation *)
Section Validation.
Context {U : Unicode}.

Definition validate_ses (s : TenantSES) : outcome tenant_error TenantSES :=
  let r := TrimSpace (ses_Region s) in
  match r with
  | [] => Err te_ses_region
  | _ => Ok (mkTenantSES r (ses_AccessKeyID s) (ses_SecretAccessKey s))
  end.
Definition validate_oci (o : TenantOCI) : outcome tenant_error TenantOCI :=
  let u := TrimSpace (oci_Username o) in
  if bool_decide (u = []) then Err te_oci_username
  else if bool_decide (oci_Password o = []) then Err te_oci_password
  else Ok (mkTenantOCI (oci_Host o) (oci_Region o)
             (if (oci_Port o <=? 0)%Z then defaultOCIEmailPort else oci_Port o) u (oci_Password o)).

Definition validateTenantSendConfig (cfg : option TenantSendConfig)
    : outcome tenant_error TenantSendConfig :=
  match cfg with
  | None => Err te_nil
  | Some cfg =>
      let id := TrimSpace (tsc_TenantID cfg) in
      let provider := ToLower (TrimSpace (tsc_Provider cfg)) in
      if bool_decide (id = []) then Err te_id_required
      else if bool_decide (provider = bs "ses") then
        match tsc_SES cfg with
        | None => Err te_ses_block
        | Some s =>
            match validate_ses s with
            | Ok s => Ok (mkTenantSendConfig id provider (Some s) (tsc_OCIEmail cfg))
            | Err e => Err e
            | Panic => Panic
            | OutOfFuel => OutOfFuel
            end
        end
      else if bool_decide (provider = bs "oci") then
        match tsc_OCIEmail cfg with
        | None => Err te_oci_block
        | Some o =>
            match validate_oci o with
            | Ok o => Ok (mkTenantSendConfig id provider (tsc_SES cfg) (Some o))
            | Err e => Err e
            | Panic => Panic
            | OutOfFuel => OutOfFuel
            end
        end
      else Err te_provider
  end.

Definition send_of (raw : tenantJSON) : TenantSendConfig :=
  mkTenantSendConfig (j_TenantID raw) (j_Provider raw) (j_SES raw) (j_OCIEmail raw).

(** [None] inside [Ok] is a nil config: the body names no tenant. *)
Definition ParseTenantSendConfigFromAuth `{TenantDecoder} (body : bytes)
    : outcome tenant_error (option TenantSendConfig) :=
  match decode_tenant body with
  | None => Err te_json
  | Some raw =>
      if bool_decide (TrimSpace (j_TenantID raw) = []) then Ok None
      else match validateTenantSendConfig (Some (send_of raw)) with
           | Ok c => Ok (Some c)
           | Err e => Err e
           | Panic => Panic
           | OutOfFuel => OutOfFuel
           end
  end.

Definition pop3_defaults (p : TenantPOP3) : TenantPOP3 :=
  mkTenantPOP3 (tp_Host p) (if (tp_Port p <=? 0)%Z then 995 else tp_Port p)%Z true (tp_User p)
    (tp_Password p).
Definition imap_defaults (p : TenantIMAP) : TenantIMAP :=
  mkTenantIMAP (ti_Host p) (if (ti_Port p <=? 0)%Z then 993 else ti_Port p)%Z true (ti_User p)
    (ti_Password p).

Definition parseTenantRecord (raw : tenantJSON) : outcome tenant_error Tenant :=
  match validateTenantSendConfig (Some (send_of raw)) with
  | Ok send =>
      Ok (mkTenant (tsc_TenantID send) (tsc_Provider send) (tsc_SES send) (tsc_OCIEmail send)
            (map pop3_defaults (j_POP3Accounts raw)) (map imap_defaults (j_IMAPAccounts raw)))
  | Err e => Err e
  | Panic => Panic
  | OutOfFuel => OutOfFuel
  end.

Fixpoint parse_records (i : nat) (l : list tenantJSON) : outcome tenant_error (list Tenant) :=
  match l with
  | [] => Ok []
  | t :: l' =>
      match parseTenantRecord t with
      | Ok tenant =>
          match parse_records (S i) l' with
          | Ok r => Ok (tenant :: r)
          | Err e => Err e
          | Panic => Panic
          | OutOfFuel => OutOfFuel
          end
      | Err e => Err (te_index i e)
      | Panic => Panic
      | OutOfFuel => OutOfFuel
      end
  end.
Definition ParseTenantsList `{TenantDecoder} (body : bytes) : outcome tenant_error (list Tenant) :=
  match decode_tenants body with
  | None => Err te_json
  | Some l => parse_records 0 l
  end.
End Validation.

Definition TenantSendFromTenant (t : option Tenant) : option TenantSendConfig :=
  (λ t, mkTenantSendConfig (TenantID t) (Provider t) (SES t) (OCIEmail t)) <$> t.

(** ** The tenant of an envelope *)
Definition envelopeTenantSendKey : bytes := "tenant_send".

Definition SetEnvelopeTenantSend (e : Envelope) (cfg : option TenantSendConfig) : Envelope :=
  match cfg with
  | None => e
  | Some _ => set_Values (<[envelopeTenantSendKey := any_tenant_send cfg]> (Values e)) e
  end.
Definition GetEnvelopeTenantSend (e : Envelope) : option TenantSendConfig :=
  match Values e !! envelopeTenantSendKey with
  | Some (any_tenant_send cfg) => cfg
  | _ => None
  end.

(** ** The registry *)
Definition second : Z := 1000000000.
Definition minute : Z := 60 * second.

(** [time.ParseDuration], in nanoseconds. *)
Class Durations := parse_duration : bytes → option Z.

Record RegistryConfig := mkRegistryConfig {
  rc_URL : bytes; rc_PollInterval : Z; rc_Timeout : Z; rc_Headers : gmap bytes bytes
}.
Record registry := mkRegistry {
  r_cfg : RegistryConfig;
  tenants : gmap bytes Tenant;
  pop3List : list TaggedPOP3Account;
  imapList : list TaggedIMAPAccount
}.

Definition NewHTTPTenantRegistry (cfg : RegistryConfig) : outcome tenant_error registry :=
  if bool_decide (TrimSpace (rc_URL cfg) = []) then Err te_url_required
  else
    let timeout := (if (rc_Timeout cfg <=? 0)%Z then 10 * second else rc_Timeout cfg)%Z in
    let poll := (if (rc_PollInterval cfg <=? 0)%Z then 5 * minute else rc_PollInterval cfg)%Z in
    Ok (mkRegistry (mkRegistryConfig (rc_URL cfg) poll timeout (rc_Headers cfg)) ∅ [] []).

(** [NewTenantRegistryFromConfig]: no URL is no registry and no error. *)
Definition NewTenantRegistryFromConfig `{Durations} (c : TenantRegistryConfig)
    : outcome tenant_error (option registry) :=
  if bool_decide (TrimSpace (reg_URL c) = []) then Ok None
  else
    match (if bool_decide (TrimSpace (reg_Timeout c) = []) then Some (10 * second)%Z
           else parse_duration (reg_Timeout c)) with
    | None => Err te_duration
    | Some timeout =>
        match (if bool_decide (TrimSpace (PollInterval c) = []) then Some (5 * minute)%Z
               else parse_duration (PollInterval c)) with
        | None => Err te_duration
        | Some poll =>
            match NewHTTPTenantRegistry (mkRegistryConfig (reg_URL c) poll timeout (reg_Headers c)) with
            | Ok r => Ok (Some r)
            | Err e => Err e
            | Panic => Panic
            | OutOfFuel => OutOfFuel
            end
        end
    end.

Definition pop3_account (id : bytes) (p : TenantPOP3) : TaggedPOP3Account :=
  mkTaggedPOP3 id (mkAliasPOP3Account (TrimSpace (tp_Host p))
    (if (tp_Port p <=? 0)%Z then 995 else tp_Port p)%Z (tp_TLS p) (TrimSpace (tp_User p))
    (tp_Password p) id).
Definition imap_account (id : bytes) (p : TenantIMAP) : TaggedIMAPAccount :=
  mkTaggedIMAP id (mkAliasIMAPAccount (TrimSpace (ti_Host p))
    (if (ti_Port p <=? 0)%Z then 993 else ti_Port p)%Z (ti_TLS p) (TrimSpace (ti_User p))
    (ti_Password p) id).

Definition applyTenants (ts : list Tenant) (r : registry) : registry :=
  mkRegistry (r_cfg r)
    (foldl (λ m t, <[TenantID t := t]> m) ∅ ts)
    (concat (map (λ t, map (pop3_account (TenantID t)) (POP3Accounts t)) ts))
    (concat (map (λ t, map (imap_account (TenantID t)) (IMAPAccounts t)) ts)).

(** The answer of the HTTP exchange: status and body, or an error. *)
Definition http_answer : Type := option (Z * bytes).

Definition Refresh `{Unicode} `{TenantDecoder} (answer : http_answer) (r : registry)
    : option tenant_error * registry :=
  match answer with
  | None => (Some te_http, r)
  | Some (status, body) =>
      if (status <? 200)%Z || (300 <=? status)%Z then (Some (te_status status), r)
      else match ParseTenantsList body with
           | Ok ts => (None, applyTenants ts r)
           | Err e => (Some e, r)
           | _ => (Some te_json, r)
           end
  end.

Definition Get (tenantID : bytes) (r : registry) : option Tenant := tenants r !! TrimSpace tenantID.
Definition All (r : registry) : list Tenant := snd <$> map_to_list (tenants r).
Definition reg_POP3Accounts (r : registry) : list TaggedPOP3Account := pop3List r.
Definition reg_IMAPAccounts (r : registry) : list TaggedIMAPAccount := imapList r.
Definition reg_PollInterval (r : registry) : Z := rc_PollInterval (r_cfg r).

(** The poller: one refresh at the start and one at every tick until [done]. *)
Fixpoint poll_ticks `{Unicode} `{TenantDecoder} (answers : list http_answer) (r : registry) : registry :=
  match answers with
  | [] => r
  | a :: answers' => poll_ticks answers' (snd (Refresh a r))
  end.
Definition StartTenantRegistryPoller `{Unicode} `{TenantDecoder} (first : http_answer)
    (ticks : list http_answer) (r : registry) : registry :=
  poll_ticks ticks (snd (Refresh first r)).

(** ** Outbound clients *)
Record ociemailConfig := mkOciemailConfig {
  oc_Host : bytes; oc_Region : bytes; oc_Port : Z; oc_Username : bytes; oc_Password : bytes;
  oc_Timeout : bytes; oc_FailHard : bool; oc_SourceTmpl : bytes; oc_ToTmpl : bytes;
  oc_IncludeDeliveryHeader : bool; oc_MaxBytes : Z
}.

Definition ociEmailHostPrefix : bytes := "smtp.email.".
Definition ociEmailHostSuffix : bytes := ".oci.oraclecloud.com".

Definition resolveOCIEmailHost (cfg : ociemailConfig) : outcome tenant_error bytes :=
  match TrimSpace (oc_Host cfg) with
  | [] =>
      match TrimSpace (oc_Region cfg) with
      | [] => Err te_no_host
      | region => Ok (ociEmailHostPrefix ++ region ++ ociEmailHostSuffix)
      end
  | h => Ok h
  end.

Definition tenantOCIConfig (cfg : TenantSendConfig) : outcome tenant_error ociemailConfig :=
  match tsc_OCIEmail cfg with
  | None => Err (te_oci_missing (tsc_TenantID cfg))
  | Some oci =>
      Ok (mkOciemailConfig (TrimSpace (oci_Host oci)) (TrimSpace (oci_Region oci))
            (if (oci_Port oci <=? 0)%Z then defaultOCIEmailPort else oci_Port oci)
            (TrimSpace (oci_Username oci)) (oci_Password oci) [] false [] [] false 0)
  end.

(** The text that is hashed to the key of the client cache. *)
Definition cache_preimage (cfg : TenantSendConfig) : bytes :=
  tsc_TenantID cfg ++ ":" ++ tsc_Provider cfg ++ ":" ++
  (if bool_decide (tsc_Provider cfg = bs "ses") then
     match tsc_SES cfg with
     | Some s => ses_Region s ++ ":" ++ ses_AccessKeyID s ++ ":" ++ ses_SecretAccessKey s
     | None => []
     end
   else if bool_decide (tsc_Provider cfg = bs "oci") then
     match tsc_OCIEmail cfg with
     | Some o => oci_Host o ++ ":" ++ oci_Region o ++ ":" ++ oci_Username o ++ ":" ++ oci_Password o
                 ++ ":" ++ Itoa (oci_Port o)
     | None => []
     end
   else []).

(** [sha256.Sum256]. *)
Class SHA256 := sha256_sum : bytes → bytes.
Definition tenantCacheKey `{SHA256} (cfg : option TenantSendConfig) : bytes :=
  match cfg with
  | None => []
  | Some cfg => hex_bytes (sha256_sum (cache_preimage cfg))
  end.

(** A client is what it was built from. *)
Record sesClient := mkSesClient {
  cl_Region : bytes; cl_credentials : option (bytes * bytes); cl_timeout : Z
}.
Record senderCache := mkSenderCache { c_ses : gmap bytes sesClient; c_oci : gmap bytes ociemailConfig }.

(** [session.NewSession] may fail. *)
Definition tenantSESClient `{SHA256} (session_ok : bool) (cfg : TenantSendConfig) (timeout : Z)
    (c : senderCache) : outcome tenant_error sesClient * senderCache :=
  let key := tenantCacheKey (Some cfg) in
  match c_ses c !! key with
  | Some cl => (Ok cl, c)
  | None =>
      match tsc_SES cfg with
      | None => (Err (te_ses_missing (tsc_TenantID cfg)), c)
      | Some s =>
          if bool_decide (TrimSpace (ses_Region s) = []) then (Err (te_ses_missing (tsc_TenantID cfg)), c)
          else
            let creds := if bool_decide (ses_AccessKeyID s ≠ []) || bool_decide (ses_SecretAccessKey s ≠ [])
                         then Some (TrimSpace (ses_AccessKeyID s), TrimSpace (ses_SecretAccessKey s))
                         else None in
            if session_ok then
              let cl := mkSesClient (TrimSpace (ses_Region s)) creds timeout in
              (Ok cl, mkSenderCache (<[key := cl]> (c_ses c)) (c_oci c))
            else (Err te_session, c)
      end
  end.

Definition tenantOCIClient `{SHA256} (cfg : TenantSendConfig) (c : senderCache)
    : outcome tenant_error ociemailConfig * senderCache :=
  let key := tenantCacheKey (Some cfg) in
  match c_oci c !! key with
  | Some cl => (Ok cl, c)
  | None =>
      match tenantOCIConfig cfg with
      | Ok o => (Ok o, mkSenderCache (c_ses c) (<[key := o]> (c_oci c)))
      | Err e => (Err e, c)
      | Panic => (Panic, c)
      | OutOfFuel => (OutOfFuel, c)
      end
  end.

(** ** Sending for a tenant *)

(** What reaches the network: the client, the envelope addresses and the data. *)
Inductive wire : Type :=
| WireSES (client : sesClient) (source : bytes) (dests : list bytes) (raw : bytes)
| WireOCI (client cfg : ociemailConfig) (host from : bytes) (to : list bytes) (raw : bytes).

(** The answer of the remote side to a send: nil or an error text. *)
Class Remote := remote_send : wire → option bytes.

Definition send_on `{Remote} (w : wire) (c : senderCache)
    : outcome tenant_error unit * list wire * senderCache :=
  match remote_send w with
  | None => (Ok tt, [w], c)
  | Some m => (Err (te_send m), [w], c)
  end.

Definition ses_timeout `{Durations} (globalTimeout : option bytes) : Z :=
  match globalTimeout with
  | Some t =>
      if bool_decide (TrimSpace t = []) then (10 * second)%Z
      else match parse_duration (TrimSpace t) with
           | Some d => if (0 <? d)%Z then d else (10 * second)%Z
           | None => (10 * second)%Z
           end
  | None => (10 * second)%Z
  end.

Definition SendViaTenantSES `{Durations} `{SHA256} `{Remote} (session_ok : bool)
    (tenant : option TenantSendConfig) (globalTimeout : option bytes) (source : bytes)
    (dests : list bytes) (raw : bytes) (c : senderCache)
    : outcome tenant_error unit * list wire * senderCache :=
  match tenant with
  | None => (Err te_nil, [], c)
  | Some tenant =>
      if bool_decide (tsc_Provider tenant ≠ bs "ses") then (Err te_not_ses, [], c)
      else
        match tenantSESClient session_ok tenant (ses_timeout globalTimeout) c with
        | (Ok client, c') => send_on (WireSES client source dests raw) c'
        | (Err e, c') => (Err e, [], c')
        | (Panic, c') => (Panic, [], c')
        | (OutOfFuel, c') => (OutOfFuel, [], c')
        end
  end.

Definition SendViaTenantOCI `{SHA256} `{Remote} (tenant : option TenantSendConfig) (source : bytes)
    (dests : list bytes) (raw : bytes) (c : senderCache)
    : outcome tenant_error unit * list wire * senderCache :=
  match tenant with
  | None => (Err te_nil, [], c)
  | Some tenant =>
      if bool_decide (tsc_Provider tenant ≠ bs "oci") then (Err te_not_oci, [], c)
      else
        match tenantOCIConfig tenant with
        | Ok ociCfg =>
            match resolveOCIEmailHost ociCfg with
            | Ok host =>
                match tenantOCIClient tenant c with
                | (Ok client, c') => send_on (WireOCI client ociCfg host source dests raw) c'
                | (Err e, c') => (Err e, [], c')
                | (Panic, c') => (Panic, [], c')
                | (OutOfFuel, c') => (OutOfFuel, [], c')
                end
            | Err e => (Err e, [], c)
            | Panic => (Panic, [], c)
            | OutOfFuel => (OutOfFuel, [], c)
            end
        | Err e => (Err e, [], c)
        | Panic => (Panic, [], c)
        | OutOfFuel => (OutOfFuel, [], c)
        end
  end.

(** ** Notions used by the statements *)

(** A configuration as validation leaves it. To send by OCI, a host or a region is needed as well, which validation
    does not ask for: resolveOCIEmailHost looks at it when a message is sent (Outbound.v). *)
Definition sendable (c : TenantSendConfig) : Prop :=
  TrimSpace (tsc_TenantID c) = tsc_TenantID c ∧ tsc_TenantID c ≠ [] ∧
  ((tsc_Provider c = bs "ses" ∧
    ∃ s, tsc_SES c = Some s ∧ ses_Region s ≠ [] ∧ TrimSpace (ses_Region s) = ses_Region s) ∨
   (tsc_Provider c = bs "oci" ∧
    ∃ o, tsc_OCIEmail c = Some o ∧ oci_Username o ≠ [] ∧ TrimSpace (oci_Username o) = oci_Username o ∧
         oci_Password o ≠ [] ∧ (0 < oci_Port o)%Z)).

Definition tenant_ok (t : Tenant) : Prop :=
  TrimSpace (TenantID t) = TenantID t ∧ TenantID t ≠ [] ∧
  Forall (λ p, (0 < tp_Port p)%Z ∧ tp_TLS p = true) (POP3Accounts t) ∧
  Forall (λ p, (0 < ti_Port p)%Z ∧ ti_TLS p = true) (IMAPAccounts t).

(** No field that is written before another one into the text of the cache key
    has a colon; the provider is one of the two. *)
Definition no_colon (s : bytes) : Prop := ":"%char ∉ s.
Definition key_ok (c : TenantSendConfig) : Prop :=
  no_colon (tsc_TenantID c) ∧
  ((tsc_Provider c = bs "ses" ∧
    ∃ s, tsc_SES c = Some s ∧ no_colon (ses_Region s) ∧ no_colon (ses_AccessKeyID s)) ∨
   (tsc_Provider c = bs "oci" ∧
    ∃ o, tsc_OCIEmail c = Some o ∧ no_colon (oci_Host o) ∧ no_colon (oci_Region o) ∧
         no_colon (oci_Username o))).


(** A send of the program, and the state of the cache after a sequence of them. *)
Inductive tenant_send : Type :=
| SendSES (session_ok : bool) (cfg : TenantSendConfig) (globalTimeout : option bytes) (source : bytes)
    (dests : list bytes) (raw : bytes)
| SendOCI (cfg : TenantSendConfig) (source : bytes) (dests : list bytes) (raw : bytes).
Definition send_cfg (k : tenant_send) : TenantSendConfig :=
  match k with SendSES _ c _ _ _ _ | SendOCI c _ _ _ => c end.
Definition run_send `{Durations} `{SHA256} `{Remote} (k : tenant_send) (c : senderCache)
    : outcome tenant_error unit * list wire * senderCache :=
  match k with
  | SendSES ok cfg t s d r => SendViaTenantSES ok (Some cfg) t s d r c
  | SendOCI cfg s d r => SendViaTenantOCI (Some cfg) s d r c
  end.
Definition run_sends `{Durations} `{SHA256} `{Remote} (l : list tenant_send) : senderCache :=
  foldl (λ c k, snd (run_send k c)) (mkSenderCache ∅ ∅) l.

(** The credentials on the wire are those of the configuration. *)
Definition ses_credentials (s : TenantSES) : option (bytes * bytes) :=
  if bool_decide (ses_AccessKeyID s ≠ []) || bool_decide (ses_SecretAccessKey s ≠ [])
  then Some (TrimSpace (ses_AccessKeyID s), TrimSpace (ses_SecretAccessKey s)) else None.
Definition wire_of (cfg : TenantSendConfig) (w : wire) : Prop :=
  match w with
  | WireSES cl _ _ _ => ∃ s, tsc_SES cfg = Some s ∧ cl_Region cl = TrimSpace (ses_Region s) ∧
                            cl_credentials cl = ses_credentials s
  | WireOCI cl oc _ _ _ _ => tenantOCIConfig cfg = Ok oc ∧ cl = oc
  end.

Definition wire_provider (w : wire) : bytes := match w with WireSES _ _ _ _ => bs "ses" | WireOCI _ _ _ _ _ _ => bs "oci" end.
(** The client was made for a configuration that has the key of this one; the dialogue with Oracle's server has the
    settings of this one itself. *)
Definition wire_keyed `{SHA256} (l : list TenantSendConfig) (cfg : TenantSendConfig) (w : wire) : Prop :=
  match w with
  | WireSES cl _ _ _ => ∃ cfg', cfg' ∈ l ∧ tsc_Provider cfg' = bs "ses" ∧
      tenantCacheKey (Some cfg') = tenantCacheKey (Some cfg) ∧
      ∃ s, tsc_SES cfg' = Some s ∧ cl_Region cl = TrimSpace (ses_Region s) ∧ cl_credentials cl = ses_credentials s
  | WireOCI cl oc _ _ _ _ => tenantOCIConfig cfg = Ok oc ∧ ∃ cfg', cfg' ∈ l ∧ tsc_Provider cfg' = bs "oci" ∧
      tenantCacheKey (Some cfg') = tenantCacheKey (Some cfg) ∧ tenantOCIConfig cfg' = Ok cl
  end.

(** The digest has no collision among the texts of these configurations. *)
Definition collision_free `{SHA256} (l : list TenantSendConfig) : Prop :=
  ∀ a b, a ∈ l → b ∈ l → sha256_sum (cache_preimage a) = sha256_sum (cache_preimage b) →
         cache_preimage a = cache_preimage b.

(** Every entry was built from one of the configurations, under its key. *)
Definition cache_ok `{SHA256} (l : list TenantSendConfig) (c : senderCache) : Prop :=
  (∀ k cl, c_ses c !! k = Some cl → ∃ cfg, cfg ∈ l ∧ tsc_Provider cfg = bs "ses" ∧
     k = tenantCacheKey (Some cfg) ∧ ∃ s, tsc_SES cfg = Some s ∧
     cl_Region cl = TrimSpace (ses_Region s) ∧ cl_credentials cl = ses_credentials s) ∧
  (∀ k cl, c_oci c !! k = Some cl → ∃ cfg, cfg ∈ l ∧ tsc_Provider cfg = bs "oci" ∧
     k = tenantCacheKey (Some cfg) ∧ tenantOCIConfig cfg = Ok cl).

(** * Proofs *)

(** ** Validation *)
Section ValidationProofs.
Context {U : Unicode}.

Lemma validateTenantSendConfig_sendable c c' :
  validateTenantSendConfig (Some c) = Ok c' → sendable c'.
Proof.
  unfold validateTenantSendConfig. intros H.
  repeat case_bool_decide; try done.
  - destruct (tsc_SES c) as [s|]; [|done]. unfold validate_ses in H.
    destruct (TrimSpace (ses_Region s)) as [|x r] eqn:Hr; [done|]. injection H as <-.
    split; [apply TrimSpace_idem|]. split; [done|]. left. split; [done|]. eexists. split; [done|].
    split; [done|]. cbn [ses_Region]. rewrite <- Hr. apply TrimSpace_idem.
  - destruct (tsc_OCIEmail c) as [o|]; [|done]. unfold validate_oci in H.
    repeat case_bool_decide; try done. injection H as <-.
    split; [apply TrimSpace_idem|]. split; [done|]. right. split; [done|]. eexists. split; [done|].
    cbn. rewrite TrimSpace_idem. repeat split; try done. destruct (Z.leb_spec (oci_Port o) 0); [done|lia].
Qed.

Lemma TrimSpace_ses : TrimSpace (bs "ses") = bs "ses".
Proof. reflexivity. Qed.
Lemma TrimSpace_oci : TrimSpace (bs "oci") = bs "oci".
Proof. reflexivity. Qed.

Lemma sendable_valid c : sendable c → validateTenantSendConfig (Some c) = Ok c.
Proof.
  destruct c as [id p s o]. intros (Ht & Hn & [[Hp (x & Hs & Hx & Hx')]|[Hp (x & Ho & Hx & Hx' & Hpw & Hport)]]);
    cbn [tsc_TenantID tsc_Provider] in Ht, Hn, Hp; subst p; unfold validateTenantSendConfig; cbn [tsc_TenantID tsc_Provider tsc_SES tsc_OCIEmail];
    rewrite Ht, (bool_decide_false _ Hn).
  - rewrite TrimSpace_ses. change (ToLower (bs "ses")) with (bs "ses").
    rewrite bool_decide_true by done. cbn in Hs. subst s. unfold validate_ses. rewrite Hx'.
    destruct x as [r a k]. cbn in *. by destruct r.
  - rewrite TrimSpace_oci. change (ToLower (bs "oci")) with (bs "oci").
    rewrite bool_decide_false by done. rewrite bool_decide_true by done.
    cbn in Ho. subst o. unfold validate_oci. rewrite Hx', !bool_decide_false by done.
    destruct x as [h r port u pw]. cbn in *. destruct (Z.leb_spec port 0); [lia|done].
Qed.

(** C34. A tenant configuration that is accepted is complete — a trimmed, non-empty
    tenant id, the provider ses with a region or oci with a user name, a password and a
    positive port — and validating it again changes nothing; a configuration that is
    already of this form is accepted as it is. *)
Theorem validateTenantSendConfig_normal c c' :
  validateTenantSendConfig (Some c) = Ok c' →
  sendable c' ∧ validateTenantSendConfig (Some c') = Ok c' ∧
  (sendable c → c' = c).
Proof.
  intros H. pose proof (validateTenantSendConfig_sendable _ _ H) as Hs.
  split; [done|]. split; [by apply sendable_valid|]. intros Hc. apply sendable_valid in Hc. congruence.
Qed.

Lemma pop3_list_ok l : Forall (λ p, (0 < tp_Port p)%Z ∧ tp_TLS p = true) (map pop3_defaults l).
Proof. induction l; constructor; [|done]. cbn. split; [|done]. case_match; lia. Qed.
Lemma imap_list_ok l : Forall (λ p, (0 < ti_Port p)%Z ∧ ti_TLS p = true) (map imap_defaults l).
Proof. induction l; constructor; [|done]. cbn. split; [|done]. case_match; lia. Qed.

Lemma parseTenantRecord_ok raw t : parseTenantRecord raw = Ok t → tenant_ok t.
Proof.
  unfold parseTenantRecord. intros H.
  destruct (validateTenantSendConfig _) as [c| | |] eqn:E; try done. injection H as <-.
  apply validateTenantSendConfig_sendable in E as (Ht & Hn & _).
  repeat split; [done|done|apply pop3_list_ok|apply imap_list_ok].
Qed.
Lemma parse_records_ok l : ∀ i ts, parse_records i l = Ok ts → Forall tenant_ok ts ∧ length ts = length l.
Proof.
  induction l as [|raw l IH]; intros i ts H; simpl in H; [by injection H as <-|].
  destruct (parseTenantRecord raw) as [t| | |] eqn:E; try done.
  destruct (parse_records (S i) l) as [r| | |] eqn:E'; try done. injection H as <-.
  apply parseTenantRecord_ok in E. apply IH in E' as [? E']. split; [by constructor|cbn; congruence].
Qed.
Lemma parse_records_no_panic l : ∀ i, match parse_records i l with Ok _ | Err _ => True | _ => False end.
Proof.
  assert (∀ c, match validateTenantSendConfig c with Ok _ | Err _ => True | _ => False end) as V.
  { intros [c|]; [|done]. unfold validateTenantSendConfig, validate_ses, validate_oci.
    repeat case_match; simplify_eq; done. }
  induction l as [|raw l IH]; intros i; simpl; [done|]. unfold parseTenantRecord.
  specialize (V (Some (send_of raw))). destruct (validateTenantSendConfig _); try done.
  specialize (IH (S i)). by destruct (parse_records (S i) l).
Qed.
End ValidationProofs.

Lemma validateTenantSendConfig_normal_witness :
  let c := mkTenantSendConfig (bs " acme ") (bs " OCI ") None
             (Some (mkTenantOCI [] (bs "eu-1") 0 (bs " u") (bs "p"))) in
  let c' := mkTenantSendConfig (bs "acme") (bs "oci") None
             (Some (mkTenantOCI [] (bs "eu-1") 587 (bs "u") (bs "p"))) in
  @validateTenantSendConfig ascii_only (Some c) = Ok c' ∧ sendable c'.
Proof.
  intros c c'. split; [vm_compute; reflexivity|].
  refine (proj1 (@validateTenantSendConfig_normal ascii_only c c' _)). vm_compute. reflexivity.
Defined.

(** ** The registry *)
Lemma applyTenants_lookup ts id : ∀ m : gmap bytes Tenant,
  foldl (λ m t, <[TenantID t := t]> m) m ts !! id =
  match list.last (filter (λ t, TenantID t = id) ts) with Some t => Some t | None => m !! id end.
Proof.
  induction ts as [|t ts IH] using rev_ind; intros m; [done|].
  rewrite foldl_app. cbn. rewrite list.filter_app.
  destruct (decide (TenantID t = id)) as [<-|Hne].
  - rewrite lookup_insert_eq. rewrite list.filter_cons_True by done. cbn. by rewrite list.last_snoc.
  - rewrite lookup_insert_ne by done. rewrite list.filter_cons_False by done. cbn. rewrite app_nil_r. apply IH.
Qed.

(** C35. A refresh of the registry is all or nothing. If it fails, for any reason, the
    registry is the one before. If it succeeds, the server answered 2xx with a list of
    valid tenants, and afterwards the registry holds exactly that list: looking an id up
    (with spaces around it or not) gives the last tenant of the list with this id, every
    listed tenant can be found, and the mail accounts are those of the tenants in order,
    each tagged with its tenant and with a positive port. *)
Theorem Refresh_atomic `{Unicode} `{TenantDecoder} answer r :
  match Refresh answer r with
  | (Some _, r') => r' = r
  | (None, r') =>
      ∃ status body ts, answer = Some (status, body) ∧ (200 ≤ status < 300)%Z ∧
        ParseTenantsList body = Ok ts ∧ r_cfg r' = r_cfg r ∧
        (∀ id, Get id r' = list.last (filter (λ t, TenantID t = TrimSpace id) ts)) ∧
        (∀ t, t ∈ ts → ∃ t', Get (TenantID t) r' = Some t' ∧ TenantID t' = TenantID t) ∧
        reg_POP3Accounts r' = (ts ≫= λ t, pop3_account (TenantID t) <$> POP3Accounts t) ∧
        reg_IMAPAccounts r' = (ts ≫= λ t, imap_account (TenantID t) <$> IMAPAccounts t) ∧
        Forall (λ a, (0 < pop_Port (tagp_Account a))%Z ∧ tagp_TenantID a ≠ []) (reg_POP3Accounts r')
  end.
Proof.
  unfold Refresh. destruct answer as [[status body]|]; [|done].
  destruct (_ || _) eqn:Hs; [done|]. apply orb_false_iff in Hs as [?%Z.ltb_ge ?%Z.leb_gt].
  destruct (ParseTenantsList body) as [ts| | |] eqn:E; try done.
  exists status, body, ts. split; [done|]. split; [lia|]. split; [done|]. split; [done|].
  assert (Forall tenant_ok ts) as Hok.
  { unfold ParseTenantsList in E. destruct (decode_tenants body); [|done].
    by apply parse_records_ok in E as [? _]. }
  assert (∀ id, Get id (applyTenants ts r) = list.last (filter (λ t, TenantID t = TrimSpace id) ts)) as Hg.
  { intros id. unfold Get. cbn. rewrite applyTenants_lookup, lookup_empty. by destruct (list.last _). }
  split; [exact Hg|]. split; [|split; [|split]].
  - intros t Ht. rewrite Hg. rewrite list.Forall_forall in Hok.
    destruct (Hok t Ht) as [Htrim _]. rewrite Htrim.
    destruct (list.last (filter (λ t0, TenantID t0 = TenantID t) ts)) as [t'|] eqn:El.
    + exists t'. split; [done|]. apply list.last_Some in El as [l El].
      assert (t' ∈ filter (λ t0, TenantID t0 = TenantID t) ts) as Hin by (rewrite El; set_solver).
      by apply list_elem_of_filter in Hin as [? _].
    + apply list.last_None in El.
      assert (t ∈ filter (λ t0, TenantID t0 = TenantID t) ts) as Hin by (apply list_elem_of_filter; done).
      rewrite El in Hin. by apply not_elem_of_nil in Hin.
  - cbn. clear. induction ts as [|t ts IH]; [done|]. cbn. by rewrite IH.
  - cbn. clear. induction ts as [|t ts IH]; [done|]. cbn. by rewrite IH.
  - cbn. clear -Hok. induction Hok as [|t ts Ht Hts IH]; [constructor|]. cbn. apply Forall_app. split; [|done].
    destruct Ht as (_ & Hid & Hp & _). induction Hp as [|p l Hp Hl IHl]; constructor; [|done].
    cbn. split; [|done]. destruct (Z.leb_spec (tp_Port p) 0); lia.
Qed.

Lemma Itoa_inj a b : Itoa a = Itoa b → a = b.
Proof.
  assert (∀ z, Z.to_int z ≠ Decimal.Pos Decimal.Nil ∧ Z.to_int z ≠ Decimal.Neg Decimal.Nil) as N.
  { intros [|p|p]; cbn; split; try done; intros E; injection E as E;
      by apply DecimalPos.Unsigned.to_uint_nonnil in E. }
  unfold Itoa. intros E. apply DecimalZ.to_int_inj.
  assert (NilZero.string_of_int (Z.to_int a) = NilZero.string_of_int (Z.to_int b)) as E'.
  { apply (f_equal String.string_of_list_ascii) in E. unfold bs in E.
    by rewrite !String.string_of_list_ascii_of_string in E. }
  apply (f_equal NilZero.int_of_string) in E'. destruct (N a), (N b).
  rewrite !NilZero.isi in E' by done. by injection E'.
Qed.

(** ** The cache of clients *)
Lemma Itoa_no_colon z : no_colon (Itoa z).
Proof.
  assert (∀ u, ":"%char ∉ bs (NilEmpty.string_of_uint u)) as Hu.
  { intros u. induction u; simpl; [apply not_elem_of_nil|rewrite not_elem_of_cons; by split..]. }
  assert (∀ u, ":"%char ∉ bs (NilZero.string_of_uint u)) as Hz.
  { intros u. unfold NilZero.string_of_uint. destruct u; try apply Hu.
    cbn. rewrite not_elem_of_cons. split; [done|apply not_elem_of_nil]. }
  unfold no_colon, Itoa. destruct (Z.to_int z) as [u|u]; cbn; [apply Hz|].
  rewrite not_elem_of_cons. by split.
Qed.
Lemma app_colon_inj a a' r r' :
  no_colon a → no_colon a' → a ++ ":" ++ r = a' ++ ":" ++ r' → a = a' ∧ r = r'.
Proof.
  unfold no_colon. revert a'. induction a as [|c a IH]; intros [|c' a'] Ha Ha' E; cbn in E.
  - by injection E as ->.
  - injection E as <- _. rewrite not_elem_of_cons in Ha'. destruct Ha'; congruence.
  - injection E as -> _. rewrite not_elem_of_cons in Ha. destruct Ha; congruence.
  - rewrite not_elem_of_cons in Ha, Ha'. injection E as -> E. destruct Ha, Ha'.
    destruct (IH a') as [-> ->]; done.
Qed.
Lemma app_colon_inj_r a a' r r' :
  no_colon r → no_colon r' → a ++ ":" ++ r = a' ++ ":" ++ r' → a = a' ∧ r = r'.
Proof.
  intros Hr Hr' E. apply (f_equal reverse) in E. rewrite !reverse_app in E.
  change (reverse (bs ":")) with (bs ":") in E. rewrite <- !app_assoc in E.
  apply app_colon_inj in E as [E1 E2]; [|by unfold no_colon; rewrite elem_of_reverse..].
  apply (inj reverse) in E1, E2. done.
Qed.

Lemma hex_digit_inj n m : (0 ≤ n < 16)%Z → (0 ≤ m < 16)%Z → hex_digit n = hex_digit m → n = m.
Proof.
  intros Hn Hm.
  assert (n ∈ seqZ 0 16) as En by (apply elem_of_seqZ; lia).
  assert (m ∈ seqZ 0 16) as Em by (apply elem_of_seqZ; lia). clear Hn Hm.
  assert (forallb (λ n, forallb (λ m, (n =? m)%Z || negb (bool_decide (hex_digit n = hex_digit m)))
            (seqZ 0 16)) (seqZ 0 16) = true) as T by (vm_compute; reflexivity).
  rewrite forallb_forall in T. specialize (T n (proj1 (list_elem_of_In _ _) En)).
  rewrite forallb_forall in T. specialize (T m (proj1 (list_elem_of_In _ _) Em)).
  intros E. rewrite (bool_decide_true _ E) in T. cbn in T. rewrite orb_false_r in T. by apply Z.eqb_eq in T.
Qed.
Lemma hex_bytes_inj a : ∀ b, hex_bytes a = hex_bytes b → a = b.
Proof.
  assert (∀ c, 0 ≤ code c < 256)%Z as Hc.
  { intros c. unfold code. pose proof (N_ascii_bounded c). lia. }
  induction a as [|c a IH]; intros [|d b] E; try done.
  unfold hex_bytes, hex_byte in E. cbn in E. injection E as E1 E2 E3.
  apply hex_digit_inj in E1, E2;
    try (split; [apply Z.div_pos|apply Z.div_lt_upper_bound]; pose proof (Hc c); pose proof (Hc d); lia);
    try (apply Z.mod_pos_bound; lia).
  assert (c = d) as ->.
  { apply code_inj. rewrite (Z.div_mod (code c) 16), (Z.div_mod (code d) 16) by lia. congruence. }
  f_equal. by apply IH.
Qed.

Lemma ses_preimage c s : tsc_Provider c = bs "ses" → tsc_SES c = Some s →
  cache_preimage c = tsc_TenantID c ++ ":" ++ bs "ses" ++ ":" ++
                     ses_Region s ++ ":" ++ ses_AccessKeyID s ++ ":" ++ ses_SecretAccessKey s.
Proof. intros Hp Hs. unfold cache_preimage. by rewrite Hp, Hs, bool_decide_true. Qed.
Lemma oci_preimage c o : tsc_Provider c = bs "oci" → tsc_OCIEmail c = Some o →
  cache_preimage c = tsc_TenantID c ++ ":" ++ bs "oci" ++ ":" ++
    oci_Host o ++ ":" ++ oci_Region o ++ ":" ++ oci_Username o ++ ":" ++ oci_Password o ++ ":" ++ Itoa (oci_Port o).
Proof.
  intros Hp Ho. unfold cache_preimage. rewrite Hp, Ho, bool_decide_false by done.
  by rewrite bool_decide_true by done.
Qed.
Lemma no_colon_ses : no_colon (bs "ses").
Proof. by apply (bool_decide_eq_false (_ ∈ _)). Qed.
Lemma no_colon_oci : no_colon (bs "oci").
Proof. by apply (bool_decide_eq_false (_ ∈ _)). Qed.

Lemma ses_preimage_inj a b s :
  key_ok a → key_ok b → tsc_Provider a = bs "ses" → tsc_Provider b = bs "ses" →
  tsc_SES a = Some s → cache_preimage a = cache_preimage b → tsc_SES b = Some s.
Proof.
  intros [Ha Ka] [Hb Kb] Pa Pb Sa E.
  destruct Ka as [(_ & sa & Sa' & Ra & Aa)|[Pa' _]]; [|by rewrite Pa in Pa'].
  destruct Kb as [(_ & sb & Sb & Rb & Ab)|[Pb' _]]; [|by rewrite Pb in Pb'].
  rewrite Sa in Sa'. injection Sa' as <-.
  rewrite (ses_preimage a s), (ses_preimage b sb) in E by done.
  apply app_colon_inj in E as [_ E]; [|done..].
  apply app_colon_inj in E as [_ E]; [|apply no_colon_ses..].
  apply app_colon_inj in E as [E1 E]; [|done..].
  apply app_colon_inj in E as [E2 E3]; [|done..].
  rewrite Sb. destruct s, sb. cbn in *. by subst.
Qed.
Lemma oci_preimage_inj a b o :
  key_ok a → key_ok b → tsc_Provider a = bs "oci" → tsc_Provider b = bs "oci" →
  tsc_OCIEmail a = Some o → cache_preimage a = cache_preimage b → tsc_OCIEmail b = Some o.
Proof.
  intros [Ha Ka] [Hb Kb] Pa Pb Sa E.
  destruct Ka as [[Pa' _]|(_ & oa & Oa & Ra & Aa & Ua)]; [by rewrite Pa in Pa'|].
  destruct Kb as [[Pb' _]|(_ & ob & Ob & Rb & Ab & Ub)]; [by rewrite Pb in Pb'|].
  rewrite Sa in Oa. injection Oa as <-.
  rewrite (oci_preimage a o), (oci_preimage b ob) in E by done.
  apply app_colon_inj in E as [_ E]; [|done..].
  apply app_colon_inj in E as [_ E]; [|apply no_colon_oci..].
  apply app_colon_inj in E as [E1 E]; [|done..].
  apply app_colon_inj in E as [E2 E]; [|done..].
  apply app_colon_inj in E as [E3 E]; [|done..].
  apply app_colon_inj_r in E as [E4 E5]; [|apply Itoa_no_colon..].
  apply Itoa_inj in E5. rewrite Ob. destruct o, ob. cbn in *. by subst.
Qed.

Section CacheProofs.
Context {Du : Durations} {Sh : SHA256} {Re : Remote}.

Lemma cache_ok_mono l l' c : (∀ x, x ∈ l → x ∈ l') → cache_ok l c → cache_ok l' c.
Proof.
  intros Hl [Hs Ho]. split.
  - intros k cl Hk. destruct (Hs k cl Hk) as (cfg & Hin & ?). exists cfg. auto.
  - intros k cl Hk. destruct (Ho k cl Hk) as (cfg & Hin & ?). exists cfg. auto.
Qed.
Lemma key_eq l a b : collision_free l → a ∈ l → b ∈ l →
  tenantCacheKey (Some a) = tenantCacheKey (Some b) → cache_preimage a = cache_preimage b.
Proof. intros Hf Ha Hb E%hex_bytes_inj. by apply Hf. Qed.

Lemma send_on_cache w c : snd (send_on w c) = c.
Proof. unfold send_on. by destruct (remote_send w). Qed.
Lemma send_on_wire w w' c r ws c' : send_on w c = (r, ws, c') → w' ∈ ws → w' = w.
Proof. unfold send_on. destruct (remote_send w); intros [= <- <- <-] H%list_elem_of_singleton; done. Qed.

(** A client of the cache was made for a configuration with the key that it is found under. *)
Lemma tenantSESClient_keyed l ok cfg t c :
  cfg ∈ l → tsc_Provider cfg = bs "ses" → cache_ok l c →
  cache_ok l (snd (tenantSESClient ok cfg t c)) ∧
  ∀ cl, fst (tenantSESClient ok cfg t c) = Ok cl →
    ∃ cfg', cfg' ∈ l ∧ tsc_Provider cfg' = bs "ses" ∧ tenantCacheKey (Some cfg') = tenantCacheKey (Some cfg) ∧
      ∃ s, tsc_SES cfg' = Some s ∧ cl_Region cl = TrimSpace (ses_Region s) ∧ cl_credentials cl = ses_credentials s.
Proof.
  intros Hin Hp [Hs Ho]. unfold tenantSESClient.
  destruct (c_ses c !! tenantCacheKey (Some cfg)) as [cl0|] eqn:E.
  - split; [by split|]. cbn. intros cl [= <-].
    destruct (Hs _ _ E) as (cfg' & Hin' & Hp' & Hkey & Hc). by exists cfg'.
  - destruct (tsc_SES cfg) as [s|] eqn:Es; [|by split].
    case_bool_decide; [by split|]. destruct ok; [|by split].
    cbn. split; [|intros cl [= <-]; exists cfg; split_and!; try done; by exists s]. split; [|done].
    intros k cl Hk'. cbn in Hk'. apply lookup_insert_Some in Hk' as [[<- <-]|[_ Hk']]; [|by apply Hs].
    exists cfg. repeat split; [done..|]. by exists s.
Qed.
Lemma tenantOCIClient_keyed l cfg c oc :
  cfg ∈ l → tsc_Provider cfg = bs "oci" → cache_ok l c → tenantOCIConfig cfg = Ok oc →
  cache_ok l (snd (tenantOCIClient cfg c)) ∧ ∀ cl, fst (tenantOCIClient cfg c) = Ok cl →
    ∃ cfg', cfg' ∈ l ∧ tsc_Provider cfg' = bs "oci" ∧ tenantCacheKey (Some cfg') = tenantCacheKey (Some cfg) ∧
      tenantOCIConfig cfg' = Ok cl.
Proof.
  intros Hin Hp [Hs Ho] Hoc. unfold tenantOCIClient.
  destruct (c_oci c !! tenantCacheKey (Some cfg)) as [cl0|] eqn:E.
  - split; [by split|]. cbn. intros cl [= <-].
    destruct (Ho _ _ E) as (cfg' & Hin' & Hp' & Hkey & Hc). by exists cfg'.
  - rewrite Hoc. cbn. split; [|intros cl [= <-]; by exists cfg]. split; [done|].
    intros k cl Hk'. cbn in Hk'. apply lookup_insert_Some in Hk' as [[<- <-]|[_ Hk']]; [|by apply Ho].
    by exists cfg.
Qed.

(** Whatever is sent: the cache stays in order, and a client is one that was made for the key of the
    configuration. *)
Lemma run_send_keyed l k c : send_cfg k ∈ l → cache_ok l c →
  cache_ok l (snd (run_send k c)) ∧ ∀ w, w ∈ (run_send k c).1.2 → wire_keyed l (send_cfg k) w.
Proof.
  intros Hin Hc. destruct k as [ok cfg t s d r|cfg s d r]; cbn in Hin |- *.
  - unfold SendViaTenantSES. case_bool_decide as Hp; [split; [done|]; by intros w ?%not_elem_of_nil|].
    destruct (tenantSESClient_keyed l ok cfg (ses_timeout t) c Hin Hp Hc) as [Hc' Hcl].
    destruct (tenantSESClient ok cfg (ses_timeout t) c) as [[cl|e| |] c'] eqn:E; cbn in *;
      try (split; [done|]; by intros w ?%not_elem_of_nil).
    rewrite send_on_cache. split; [done|]. intros w Hw.
    destruct (send_on _ c') as [[? ?] ?] eqn:Ew. eapply send_on_wire in Ew as ->; [|exact Hw]. by apply Hcl.
  - unfold SendViaTenantOCI. case_bool_decide as Hp; [split; [done|]; by intros w ?%not_elem_of_nil|].
    destruct (tenantOCIConfig cfg) as [oc|e| |] eqn:Eoc; try (split; [done|]; by intros w ?%not_elem_of_nil).
    destruct (resolveOCIEmailHost oc) as [h|e| |]; try (split; [done|]; by intros w ?%not_elem_of_nil).
    destruct (tenantOCIClient_keyed l cfg c oc Hin Hp Hc Eoc) as [Hc' Hcl].
    destruct (tenantOCIClient cfg c) as [[cl|e| |] c'] eqn:E; cbn in *;
      try (split; [done|]; by intros w ?%not_elem_of_nil).
    rewrite send_on_cache. split; [done|]. intros w Hw.
    destruct (send_on _ c') as [[? ?] ?] eqn:Ew. eapply send_on_wire in Ew as ->; [|exact Hw].
    cbn. split; [done|]. by apply Hcl.
Qed.
(** With keys that tell configurations apart it has the credentials of this one. *)
Lemma wire_keyed_of l cfg w : collision_free l → Forall key_ok l → cfg ∈ l → tsc_Provider cfg = wire_provider w →
  wire_keyed l cfg w → wire_of cfg w.
Proof.
  intros Hf Hk Hin Hp. rewrite list.Forall_forall in Hk. destruct w as [cl s d r|cl oc h f d r]; cbn.
  - intros (cfg' & Hin' & Hp' & Hkey & s' & Hs' & Hc). apply (key_eq l) in Hkey; [|done..].
    exists s'. split; [|done]. eapply (ses_preimage_inj cfg' cfg); auto.
  - intros [Hoc (cfg' & Hin' & Hp' & Hkey & Hc)]. split; [done|]. apply (key_eq l) in Hkey; [|done..].
    unfold tenantOCIConfig in Hoc, Hc. destruct (tsc_OCIEmail cfg') as [o|] eqn:Eo; [|done].
    assert (tsc_OCIEmail cfg = Some o) as Eo' by (eapply (oci_preimage_inj cfg' cfg o); auto).
    rewrite Eo', Hc in Hoc. by injection Hoc.
Qed.
Lemma run_send_provider k c w : w ∈ (run_send k c).1.2 → tsc_Provider (send_cfg k) = wire_provider w.
Proof.
  destruct k as [ok cfg t s d r|cfg s d r]; cbn.
  - unfold SendViaTenantSES. case_bool_decide as Hp; [by intros ?%not_elem_of_nil|].
    destruct (tenantSESClient ok cfg (ses_timeout t) c) as [[cl|e| |] c']; cbn; try (by intros ?%not_elem_of_nil).
    intros Hw. destruct (send_on _ c') as [[? ?] ?] eqn:Ew. by eapply send_on_wire in Ew as ->; [|exact Hw].
  - unfold SendViaTenantOCI. case_bool_decide as Hp; [by intros ?%not_elem_of_nil|].
    destruct (tenantOCIConfig cfg) as [oc|e| |]; try (by intros ?%not_elem_of_nil).
    destruct (resolveOCIEmailHost oc) as [h|e| |]; try (by intros ?%not_elem_of_nil).
    destruct (tenantOCIClient cfg c) as [[cl|e| |] c']; cbn; try (by intros ?%not_elem_of_nil).
    intros Hw. destruct (send_on _ c') as [[? ?] ?] eqn:Ew. by eapply send_on_wire in Ew as ->; [|exact Hw].
Qed.
Lemma run_sends_ok l ks : (∀ k, k ∈ ks → send_cfg k ∈ l) → cache_ok l (run_sends ks).
Proof.
  induction ks as [|k ks IH] using rev_ind; intros Hin; [by split|].
  unfold run_sends. rewrite foldl_app. cbn. apply run_send_keyed; [apply Hin; set_solver|].
  apply IH. intros k' ?. apply Hin. set_solver.
Qed.

(** No tenant's mail goes out with the credentials of another one. After any
    sequence of sends, whatever their results, a send for a tenant that reaches the
    network uses a client of the region and keys (host, user and password for OCI) of
    this tenant's configuration, although clients are cached under a digest: provided no
    two of the configurations collide under SHA-256 and no tenant id, region, key id,
    host or user name contains a colon, which is what separates the fields of the text
    that is hashed. *)
Theorem tenant_sends_with_own_credentials ks k w :
  collision_free (map send_cfg (ks ++ [k])) → Forall key_ok (map send_cfg (ks ++ [k])) →
  w ∈ (run_send k (run_sends ks)).1.2 → wire_of (send_cfg k) w.
Proof.
  intros Hf Hk Hw.
  assert (∀ k', k' ∈ ks ++ [k] → send_cfg k' ∈ map send_cfg (ks ++ [k])) as Hin
    by (intros k' ?; by apply list_elem_of_In, in_map, list_elem_of_In).
  apply (wire_keyed_of (map send_cfg (ks ++ [k]))); [done..|apply Hin; set_solver|by eapply run_send_provider|].
  eapply run_send_keyed; [apply Hin; set_solver| |exact Hw]. apply run_sends_ok. intros k' ?. apply Hin. set_solver.
Qed.
End CacheProofs.

Lemma tenant_sends_with_own_credentials_witness :
  let du : Durations := λ _, None in
  let sh : SHA256 := id in
  let re : Remote := λ _, None in
  let a := mkTenantSendConfig (bs "a") (bs "ses") (Some (mkTenantSES (bs "eu-1") (bs "K1") (bs "S1"))) None in
  let b := mkTenantSendConfig (bs "b") (bs "ses") (Some (mkTenantSES (bs "eu-1") (bs "K2") (bs "S2"))) None in
  let ka := SendSES true a None [] [] [] in
  let kb := SendSES true b None (bs "s@b.org") [bs "x@y.org"] (bs "hi") in
  (run_send kb (run_sends [ka])).1.2
    = [WireSES (mkSesClient (bs "eu-1") (Some (bs "K2", bs "S2")) (10 * second)) (bs "s@b.org") [bs "x@y.org"] (bs "hi")]
  ∧ wire_of b (WireSES (mkSesClient (bs "eu-1") (Some (bs "K2", bs "S2")) (10 * second)) (bs "s@b.org") [bs "x@y.org"] (bs "hi")).
Proof.
  intros du sh re a b ka kb.
  assert ((run_send kb (run_sends [ka])).1.2
    = [WireSES (mkSesClient (bs "eu-1") (Some (bs "K2", bs "S2")) (10 * second)) (bs "s@b.org") [bs "x@y.org"] (bs "hi")]) as E
    by (vm_compute; reflexivity).
  split; [exact E|]. apply (tenant_sends_with_own_credentials [ka] kb).
  - intros x y _ _ H. exact H.
  - assert (∀ x, x ∈ [a; b] → key_ok x) as Hk; [|by apply list.Forall_forall].
    intros x Hx. rewrite !elem_of_cons in Hx. destruct Hx as [->|[->|Hx%not_elem_of_nil]]; [| |done];
      (split; [by apply (bool_decide_eq_false (_ ∈ _))|left; split; [done|]]);
      (eexists; split; [reflexivity|split; by apply (bool_decide_eq_false (_ ∈ _))]).
  - rewrite E. by apply list_elem_of_singleton.
Defined.

(** With a colon in a field two configurations have one key: the key id [k:l] with the
    secret [m], and the key id [k] with the secret [l:m]. *)
Example tenant_keys_collide : ∃ a b : TenantSendConfig,
  tsc_SES a ≠ tsc_SES b ∧ cache_preimage a = cache_preimage b.
Proof.
  exists (mkTenantSendConfig (bs "a") (bs "ses") (Some (mkTenantSES (bs "r") (bs "k:l") (bs "m"))) None).
  exists (mkTenantSendConfig (bs "a") (bs "ses") (Some (mkTenantSES (bs "r") (bs "k") (bs "l:m"))) None).
  by split.
Qed.
