(* ===== verification/Reader.v ===== *)
(** * Reading from a client: models.go, and bufio and net/textproto under it

    A connection is a script of what its reads return. The limited reader of
    models.go stands between the connection and the buffered reader that the
    session reads command lines and message data from. *)
From S2P Require Import Prelude GoStd.

(** ** Connections *)
Inductive read_err : Type :=
| EOF
| Timeout
| LineLimitExceeded
| ErrBufferFull
| ErrNoProgress
| ErrUnexpectedEOF
| ErrNet (m : bytes).
#[export] Instance read_err_eq_dec : EqDecision read_err.
Proof. solve_decision. Defined.

(** [Error()] of the errors that reach a client in a reply. *)
Definition err_text (e : read_err) : bytes :=
  match e with
  | EOF => "EOF"
  | Timeout => "i/o timeout"
  | LineLimitExceeded => "maximum line length exceeded"
  | ErrBufferFull => "bufio: buffer full"
  | ErrNoProgress => "multiple Read calls return no data or error"
  | ErrUnexpectedEOF => "unexpected EOF"
  | ErrNet m => m
  end.

(** One network read: data (possibly more than was asked for, the rest is
    returned by the next read) or an error. A script that is used up is EOF. *)
Inductive net_event : Type :=
| Chunk (b : bytes)
| NetErr (e : read_err).
Definition stream : Type := list net_event.

Definition conn_read (n : nat) (s : stream) : bytes * option read_err * stream :=
  match s with
  | [] => ([], Some EOF, [])
  | Chunk b :: s' =>
      if length b <=? n then (b, None, s') else (take n b, None, Chunk (drop n b) :: s')
  | NetErr e :: s' => ([], Some e, s')
  end.

(** ** models.go *)
Definition CommandLineMaxLength : Z := 1024.

Record adjustableLimitedReader := mkALR { alr_R : stream; alr_N : Z }.

(** [io.LimitedReader.Read] for a buffer of [n] bytes. *)
Definition limited_Read (n : nat) (a : adjustableLimitedReader)
    : bytes * option read_err * adjustableLimitedReader :=
  if (alr_N a <=? 0)%Z then ([], Some EOF, a)
  else
    let '(b, e, s) := conn_read (Nat.min n (Z.to_nat (alr_N a))) (alr_R a) in
    (b, e, mkALR s (alr_N a - Z.of_nat (length b))).

Definition alr_Read (n : nat) (a : adjustableLimitedReader)
    : bytes * option read_err * adjustableLimitedReader :=
  let '(b, e, a') := limited_Read n a in
  if bool_decide (e = Some EOF) && (alr_N a' <=? 0)%Z then (b, Some LineLimitExceeded, a')
  else (b, e, a').

Definition newAdjustableLimitedReader (s : stream) (n : Z) : adjustableLimitedReader := mkALR s n.

(** The buffered reader: its unread bytes, its pending error, the reader under it. *)
Record smtpBufferedReader := mkReader {
  buf : bytes;
  b_err : option read_err;
  alr : adjustableLimitedReader
}.
Definition bufio_size : nat := Z.to_nat 4096.
#[global] Opaque bufio_size.
Definition maxConsecutiveEmptyReads : nat := 100.
#[global] Opaque maxConsecutiveEmptyReads.

Definition newSMTPBufferedReader (s : stream) : smtpBufferedReader :=
  mkReader [] None (newAdjustableLimitedReader s CommandLineMaxLength).
Definition setLimit (n : Z) (r : smtpBufferedReader) : smtpBufferedReader :=
  mkReader (buf r) (b_err r) (mkALR (alr_R (alr r)) n).
(** Unread bytes and a pending error are dropped. *)
Definition reader_Reset (s : stream) (r : smtpBufferedReader) : smtpBufferedReader :=
  mkReader [] None (newAdjustableLimitedReader s CommandLineMaxLength).

(** ** bufio *)

(** The loop of [fill] over the reads that return nothing. *)
Fixpoint fill_loop (tries : nat) (r : smtpBufferedReader) : smtpBufferedReader :=
  match tries with
  | 0 => mkReader (buf r) (Some ErrNoProgress) (alr r)
  | S tries' =>
      let '(b, e, a) := alr_Read (bufio_size - length (buf r)) (alr r) in
      let r' := mkReader (buf r ++ b) (b_err r) a in
      match e with
      | Some _ => mkReader (buf r') e a
      | None => match b with [] => fill_loop tries' r' | _ => r' end
      end
  end.
Definition fill (r : smtpBufferedReader) : smtpBufferedReader := fill_loop maxConsecutiveEmptyReads r.

(** The position of a byte. *)
Fixpoint IndexByte (s : bytes) (c : ascii) : option nat :=
  match s with
  | [] => None
  | d :: s' => if bool_decide (d = c) then Some 0 else S <$> IndexByte s' c
  end.

(** [ReadSlice]; every round adds to the buffer or sets the pending error, so a
    round more than the size of the buffer is enough. *)
Fixpoint ReadSlice_loop (fuel : nat) (delim : ascii) (r : smtpBufferedReader)
    : outcome unit (bytes * option read_err * smtpBufferedReader) :=
  match fuel with
  | 0 => OutOfFuel
  | S f =>
      match IndexByte (buf r) delim with
      | Some i => Ok (take (S i) (buf r), None, mkReader (drop (S i) (buf r)) (b_err r) (alr r))
      | None =>
          match b_err r with
          | Some e => Ok (buf r, Some e, mkReader [] None (alr r))
          | None =>
              if bufio_size <=? length (buf r) then Ok (buf r, Some ErrBufferFull, mkReader [] None (alr r))
              else ReadSlice_loop f delim (fill r)
          end
      end
  end.
Definition ReadSlice (delim : ascii) (r : smtpBufferedReader)
    : outcome unit (bytes * option read_err * smtpBufferedReader) :=
  ReadSlice_loop (S (S bufio_size)) delim r.
#[global] Arguments ReadSlice : simpl never.

(** [ReadByte]: one [fill] gives a byte or an error. *)
Definition ReadByte (r : smtpBufferedReader) : (ascii + read_err) * smtpBufferedReader :=
  let r' := match buf r, b_err r with [], None => fill r | _, _ => r end in
  match buf r' with
  | c :: b => (inl c, mkReader b (b_err r') (alr r'))
  | [] => match b_err r' with
          | Some e => (inr e, mkReader [] None (alr r'))
          | None => (inr ErrNoProgress, r')
          end
  end.
Definition UnreadByte (c : ascii) (r : smtpBufferedReader) : smtpBufferedReader :=
  mkReader (c :: buf r) (b_err r) (alr r).

(** ** net/textproto: the reader of a dot-encoded block *)
Inductive dot_state : Type := stateBeginLine | stateDot | stateDotCR | stateCR | stateData | stateEOF.
#[export] Instance dot_state_eq_dec : EqDecision dot_state.
Proof. solve_decision. Defined.

(** What one byte does: the next state, the byte that is emitted, and whether the
    byte is unread. *)
Definition dot_step (st : dot_state) (c : ascii) : dot_state * option ascii * bool :=
  match st with
  | stateBeginLine =>
      if bool_decide (c = "."%char) then (stateDot, None, false)
      else if bool_decide (c = CR) then (stateCR, None, false)
      else (stateData, Some c, false)
  | stateDot =>
      if bool_decide (c = CR) then (stateDotCR, None, false)
      else if bool_decide (c = LF) then (stateEOF, None, false)
      else (stateData, Some c, false)
  | stateDotCR =>
      if bool_decide (c = LF) then (stateEOF, None, false) else (stateData, Some CR, true)
  | stateCR =>
      if bool_decide (c = LF) then (stateBeginLine, Some c, false) else (stateData, Some CR, true)
  | stateData =>
      if bool_decide (c = CR) then (stateCR, None, false)
      else if bool_decide (c = LF) then (stateBeginLine, Some c, false)
      else (stateData, Some c, false)
  | stateEOF => (stateEOF, None, false)
  end.

(** [Data.ReadFrom(smtpReader.DotReader())]: the data read and the error, nil at
    the end of the block. *)
Fixpoint dot_loop (fuel : nat) (st : dot_state) (r : smtpBufferedReader)
    : outcome unit (bytes * option read_err * smtpBufferedReader) :=
  match fuel with
  | 0 => OutOfFuel
  | S f =>
      match st with
      | stateEOF => Ok ([], None, r)
      | _ =>
          match ReadByte r with
          | (inr e, r') => Ok ([], Some (if bool_decide (e = EOF) then ErrUnexpectedEOF else e), r')
          | (inl c, r') =>
              let '(st', out, unread) := dot_step st c in
              match dot_loop f st' (if unread then UnreadByte c r' else r') with
              | Ok (d, e, r'') => Ok (match out with Some x => x :: d | None => d end, e, r'')
              | o => o
              end
          end
      end
  end.

(** The bytes that the connection can still deliver. *)
Definition stream_size (s : stream) : nat :=
  sum_list (map (λ ev, match ev with Chunk b => length b | NetErr _ => 0 end) s).
Definition reader_size (r : smtpBufferedReader) : nat := length (buf r) + stream_size (alr_R (alr r)).

Definition ReadDot (r : smtpBufferedReader) : outcome unit (bytes * option read_err * smtpBufferedReader) :=
  dot_loop (2 * reader_size r + 2) stateBeginLine r.
#[global] Arguments ReadDot : simpl never.

(** ** Notions used by the statements *)

(** The connection delivers data without an error, then closes. *)
Definition quiet (s : stream) : Prop :=
  Forall (λ ev, match ev with Chunk b => b ≠ [] | NetErr _ => False end) s.
Definition stream_text (s : stream) : bytes :=
  concat (map (λ ev, match ev with Chunk b => b | NetErr _ => [] end) s).
Definition available (r : smtpBufferedReader) : bytes := buf r ++ stream_text (alr_R (alr r)).

(** The next bytes are [p], however they are cut into reads, and the limit lets [k]
    of them through. *)
Record good (r : smtpBufferedReader) (p : bytes) (k : nat) : Prop := mkGood {
  good_err : b_err r = None;
  good_quiet : quiet (alr_R (alr r));
  good_text : available r = p;
  good_room : length (buf r) ≤ bufio_size;
  good_N : (0 ≤ alr_N (alr r))%Z;
  good_credit : (Z.of_nat k ≤ Z.of_nat (length (buf r)) + alr_N (alr r))%Z
}.

(** Dot-stuffing a message, given as its lines. *)
Definition stuff_line (l : bytes) : bytes :=
  match l with "."%char :: _ => "." ++ l | _ => l end ++ [CR; LF].
Definition encode_message (lines : list bytes) : bytes := concat (map stuff_line lines) ++ "." ++ [CR; LF].
Definition message_text (lines : list bytes) : bytes := concat (map (λ l, l ++ [LF]) lines).

(** ** Notions used by the statements *)

Definition push (l : bytes) (o : outcome unit (bytes * option read_err * smtpBufferedReader)) :=
  match o with Ok (d, e, r) => Ok (l ++ d, e, r) | o => o end.

(** * Proofs *)

(** ** What a read takes from the connection *)
Lemma conn_read_size n s b e s' : conn_read n s = (b, e, s') → length b + stream_size s' = stream_size s.
Proof.
  unfold conn_read. destruct s as [|[c|x] s]; [by intros [= <- <- <-]| |by intros [= <- <- <-]].
  destruct (length c <=? n) eqn:E; intros [= <- <- <-]; cbn; [done|].
  apply Nat.leb_gt in E. rewrite length_take, length_drop. lia.
Qed.
Lemma alr_Read_size n a b e a' : alr_Read n a = (b, e, a') → length b + stream_size (alr_R a') = stream_size (alr_R a).
Proof.
  unfold alr_Read, limited_Read. destruct (_ <=? 0)%Z.
  - repeat case_match; simplify_eq; intros [= <- <- <-]; done.
  - destruct (conn_read _ _) as [[b0 e0] s0] eqn:E. apply conn_read_size in E.
    case_match; intros [= <- <- <-]; done.
Qed.
Lemma fill_loop_size t r : reader_size (fill_loop t r) = reader_size r.
Proof.
  revert r. induction t as [|t IH]; intros r; simpl; [done|].
  destruct (alr_Read _ _) as [[b e] a] eqn:E. apply alr_Read_size in E.
  unfold reader_size in *. destruct e; [|destruct b; [rewrite IH|]]; cbn; rewrite ?length_app; cbn in *; lia.
Qed.
Lemma fill_size r : reader_size (fill r) = reader_size r.
Proof. apply fill_loop_size. Qed.
(** A [fill] of a reader without a pending error adds data or sets one. *)
Lemma fill_loop_progress t r : b_err r = None → b_err (fill_loop t r) = None →
  length (buf r) < length (buf (fill_loop t r)).
Proof.
  revert r. induction t as [|t IH]; intros r Hr; simpl; [done|].
  destruct (alr_Read _ _) as [[b e] a] eqn:E. destruct e; [done|].
  destruct b as [|x b]; cbn.
  - rewrite app_nil_r. intros H. by apply IH in H.
  - intros _. rewrite length_app. cbn. lia.
Qed.
Lemma alr_Read_length n a b e a' : alr_Read n a = (b, e, a') → length b ≤ n.
Proof.
  unfold alr_Read, limited_Read, conn_read. intros H.
  repeat case_match; simplify_eq; cbn in *; rewrite ?length_take;
    repeat match goal with H : (_ <=? _) = true |- _ => apply Nat.leb_le in H end; lia.
Qed.
Lemma fill_loop_room t r : length (buf r) ≤ bufio_size → length (buf (fill_loop t r)) ≤ bufio_size.
Proof.
  revert r. induction t as [|t IH]; intros r Hr; cbn [fill_loop]; [done|].
  destruct (alr_Read _ _) as [[b e] a] eqn:E. apply alr_Read_length in E.
  assert (length (buf r ++ b) ≤ bufio_size) by (rewrite length_app; lia).
  destruct e; [done|]. destruct b; [by apply IH|done].
Qed.

Lemma IndexByte_Some s c i : IndexByte s c = Some i →
  ∃ a b, s = a ++ (c :: b) ∧ (c ∉ a) ∧ i = length a.
Proof.
  revert i. induction s as [|d s IH]; intros i H; [done|]. simpl in H. case_bool_decide as E.
  - injection H as <-. exists [], s. subst. split; [done|]. split; [apply not_elem_of_nil|done].
  - destruct (IndexByte s c) as [j|]; [|done]. injection H as <-.
    destruct (IH j eq_refl) as (a & b & -> & Ha & ->). exists (d :: a), b.
    split; [done|]. rewrite not_elem_of_cons. split; [|done]. split; [congruence|done].
Qed.
Lemma IndexByte_app a c b : c ∉ a → IndexByte (a ++ c :: b) c = Some (length a).
Proof.
  induction a as [|d a IH]; intros H; cbn [IndexByte app].
  - by rewrite bool_decide_true.
  - rewrite not_elem_of_cons in H. destruct H. rewrite bool_decide_false by congruence. by rewrite IH.
Qed.
Lemma IndexByte_None s c : c ∉ s → IndexByte s c = None.
Proof.
  induction s as [|d s IH]; [done|]. rewrite not_elem_of_cons. intros [? ?]. cbn.
  rewrite bool_decide_false by congruence. by rewrite IH.
Qed.

(** [ReadSlice] returns, takes from the reader what it returns, and without an error
    what it returns ends with the delimiter. *)
Lemma ReadSlice_loop_returns delim : ∀ fuel r,
  (b_err r = None → bufio_size < fuel + length (buf r)) → 1 ≤ fuel →
  ∃ l e r', ReadSlice_loop fuel delim r = Ok (l, e, r') ∧ length l + reader_size r' = reader_size r ∧
            (e = None → ∃ t, l = t ++ [delim]).
Proof.
  induction fuel as [|f IH]; intros r Hf H2; [lia|]. cbn [ReadSlice_loop].
  destruct (IndexByte (buf r) delim) as [i|] eqn:Ei.
  - apply IndexByte_Some in Ei as (a & b & Hb & Ha & ->).
    eexists _, _, _. split; [done|]. unfold reader_size. cbn [buf alr]. rewrite Hb.
    replace (S (length a)) with (length (a ++ [delim])) by (rewrite length_app; cbn; lia).
    replace (a ++ delim :: b) with ((a ++ [delim]) ++ b) by (by rewrite <- app_assoc).
    rewrite take_app_length, drop_app_length. split; [rewrite !length_app; lia|]. by exists a.
  - destruct (b_err r) as [e|] eqn:Er.
    + eexists _, _, _. split; [done|]. split; [done|]. done.
    + specialize (Hf eq_refl). destruct (_ <=? _) eqn:El.
      * eexists _, _, _. split; [done|]. split; [done|]. done.
      * apply Nat.leb_gt in El. destruct (IH (fill r)) as (l & e & r' & HR & Hs & He).
        -- intros Hn. apply fill_loop_progress in Hn; [|done]. unfold fill. lia.
        -- lia.
        -- exists l, e, r'. by rewrite fill_size in Hs.
Qed.
Lemma ReadSlice_returns delim r :
  ∃ l e r', ReadSlice delim r = Ok (l, e, r') ∧ length l + reader_size r' = reader_size r ∧
            (e = None → ∃ t, l = t ++ [delim]).
Proof. apply ReadSlice_loop_returns; lia. Qed.

Lemma ReadByte_size r c r' : ReadByte r = (inl c, r') → S (reader_size r') = reader_size r.
Proof.
  unfold ReadByte.
  assert (reader_size (match buf r, b_err r with [], None => fill r | _, _ => r end) = reader_size r) as <-.
  { destruct (buf r), (b_err r); try done. apply fill_size. }
  destruct (match buf r, b_err r with [], None => fill r | _, _ => r end) as [[|d b] [e|] a]; try done;
    intros [= <- <-]; done.
Qed.
Lemma ReadByte_err_size r e r' : ReadByte r = (inr e, r') → reader_size r' = reader_size r.
Proof.
  unfold ReadByte.
  assert (reader_size (match buf r, b_err r with [], None => fill r | _, _ => r end) = reader_size r) as <-.
  { destruct (buf r), (b_err r); try done. apply fill_size. }
  destruct (match buf r, b_err r with [], None => fill r | _, _ => r end) as [[|d b] [x|] a]; try done;
    intros [= <- <-]; done.
Qed.

Lemma dot_loop_returns : ∀ fuel st r,
  2 * reader_size r + (if decide (st = stateData) then 0 else 1) < fuel →
  ∃ d e r', dot_loop fuel st r = Ok (d, e, r') ∧ reader_size r' ≤ reader_size r.
Proof.
  induction fuel as [|f IH]; intros st r Hf; [lia|]. cbn [dot_loop].
  destruct (decide (st = stateEOF)) as [->|Hst]; [by eexists _, _, _|].
  assert (∀ A (x y : A), match st with stateEOF => x | _ => y end = y) as Hm by (intros; by destruct st).
  rewrite Hm. destruct (ReadByte r) as [[c|e] r'] eqn:E.
  - apply ReadByte_size in E. destruct (dot_step st c) as [[st' out] un] eqn:Ed.
    destruct (IH st' (if un then UnreadByte c r' else r')) as (d & e & r'' & HR & Hs).
    + destruct un.
      * assert (st' = stateData ∧ st ≠ stateData) as [-> Hnd]
          by (destruct st; cbn in Ed; repeat case_bool_decide; simplify_eq; done).
        rewrite decide_True by done. rewrite decide_False in Hf by done.
        change (reader_size (UnreadByte c r')) with (S (reader_size r')). lia.
      * destruct (decide (st' = stateData)), (decide (st = stateData)); lia.
    + rewrite HR. eexists _, _, _. split; [done|].
      assert (reader_size (if un then UnreadByte c r' else r') ≤ reader_size r); [|lia].
      destruct un; [change (reader_size (UnreadByte c r')) with (S (reader_size r')); lia|lia].
  - apply ReadByte_err_size in E. eexists _, _, _. split; [done|]. lia.
Qed.

(** ** A connection that delivers its data *)
Lemma alr_Read_good n a : quiet (alr_R a) → stream_text (alr_R a) ≠ [] → (0 < alr_N a)%Z → 0 < n →
  ∃ b a', alr_Read n a = (b, None, a') ∧ b ≠ [] ∧ length b ≤ n ∧
    stream_text (alr_R a) = b ++ stream_text (alr_R a') ∧ quiet (alr_R a') ∧
    (0 ≤ alr_N a')%Z ∧ alr_N a' = (alr_N a - Z.of_nat (length b))%Z.
Proof.
  intros Hq Ht HN Hn. destruct a as [s N]. cbn in *. unfold alr_Read, limited_Read. cbn.
  destruct (Z.leb_spec N 0); [lia|]. destruct Hq as [|[b|e] s Hb Hs]; [done| |done]. cbn.
  destruct (length b <=? Nat.min n (Z.to_nat N)) eqn:E; cbn.
  - apply Nat.leb_le in E. exists b, (mkALR s (N - Z.of_nat (length b))). cbn.
    repeat split; try done; lia.
  - apply Nat.leb_gt in E. set (m := Nat.min n (Z.to_nat N)) in *.
    assert (length (take m b) = m) as Hm by (rewrite length_take; lia).
    eexists _, _. split; [done|]. cbn. rewrite Hm.
    split; [intros H0; by rewrite H0 in Hm; cbn in Hm; lia|]. split; [lia|].
    split; [by rewrite app_assoc, take_drop|]. split; [|lia].
    constructor; [|done]. intros H0. apply (f_equal length) in H0. rewrite length_drop in H0. cbn in H0. lia.
Qed.
Lemma fill_good r p k : good r p k → length (buf r) < bufio_size → length (buf r) < length p →
  length (buf r) < k → good (fill r) p k ∧ length (buf r) < length (buf (fill r)).
Proof.
  intros [He Hq Ht Hr HN Hc] Hb Hp Hk. unfold fill.
  assert (∃ t, maxConsecutiveEmptyReads = S t) as [t ->] by (exists 99; vm_compute; reflexivity). cbn [fill_loop].
  unfold available in Ht.
  destruct (alr_Read_good (bufio_size - length (buf r)) (alr r)) as (b & a & HR & Hne & Hl & Htx & Hq' & HN' & HN'').
  - done.
  - intros H0. rewrite H0, app_nil_r in Ht. subst p. lia.
  - lia.
  - lia.
  - rewrite HR. destruct b as [|x b]; [done|]. cbn [buf]. split.
    + constructor; cbn [b_err alr buf]; try done.
      * unfold available. cbn [alr buf]. by rewrite <- app_assoc, <- Htx.
      * rewrite length_app. lia.
      * rewrite length_app. lia.
    + rewrite length_app. cbn. lia.
Qed.
Lemma good_take r c b p k : good r p k → buf r = c ++ b → length c ≤ k →
  ∃ q, p = c ++ q ∧ good (mkReader b (b_err r) (alr r)) q (k - length c).
Proof.
  intros [He Hq Ht Hr HN Hc] Hb Hk. unfold available in Ht. rewrite Hb in Ht, Hr, Hc.
  rewrite length_app in Hr, Hc. exists (b ++ stream_text (alr_R (alr r))). split; [by rewrite app_assoc|].
  constructor; cbn; try done; lia.
Qed.
Lemma ReadByte_good r c p k : good r (c :: p) (S k) → ∃ r', ReadByte r = (inl c, r') ∧ good r' p k.
Proof.
  intros Hg.
  assert (∃ b, good (match buf r, b_err r with [], None => fill r | _, _ => r end) (c :: p) (S k) ∧
    buf (match buf r, b_err r with [], None => fill r | _, _ => r end) = c :: b) as (b & Hg' & Hb).
  { destruct (buf r) as [|d b] eqn:Eb.
    - rewrite (good_err _ _ _ Hg). destruct (fill_good _ _ _ Hg) as [Hg' Hl].
      + rewrite Eb. apply Nat.ltb_lt. vm_compute. reflexivity.
      + rewrite Eb. cbn. lia.
      + rewrite Eb. cbn. lia.
      + destruct (buf (fill r)) as [|d b] eqn:Ef; [cbn in Hl; lia|].
        pose proof (good_text _ _ _ Hg') as Ht. unfold available in Ht. rewrite Ef in Ht.
        injection Ht as -> _. by exists b.
    - pose proof (good_text _ _ _ Hg) as Ht. unfold available in Ht. rewrite Eb in Ht.
      injection Ht as -> _. by exists b. }
  unfold ReadByte. rewrite Hb. eexists. split; [done|].
  destruct (good_take _ [c] b _ _ Hg' Hb) as (q & Hq & Hgq); [cbn; lia|].
  injection Hq as ->. cbn in Hgq. by rewrite Nat.sub_0_r in Hgq.
Qed.

Lemma ReadSlice_loop_good delim l p k : delim ∉ l → S (length l) ≤ bufio_size → ∀ fuel r,
  good r (l ++ delim :: p) (S (length l) + k) → S (length l) < fuel + length (buf r) → 1 ≤ fuel →
  ∃ r', ReadSlice_loop fuel delim r = Ok (l ++ [delim], None, r') ∧ good r' p k.
Proof.
  intros Hd Hl. induction fuel as [|f IH]; intros r Hg Hf H1; [lia|]. cbn [ReadSlice_loop].
  pose proof (good_text _ _ _ Hg) as Ht. unfold available in Ht.
  destruct (le_lt_dec (S (length l)) (length (buf r))) as [Hb|Hb].
  - assert (∃ b, buf r = (l ++ [delim]) ++ b) as [b Eb].
    { exists (drop (S (length l)) (buf r)). apply (f_equal (take (S (length l)))) in Ht.
      rewrite take_app_le in Ht by lia.
      replace (l ++ delim :: p) with ((l ++ [delim]) ++ p) in Ht by (by rewrite <- app_assoc).
      rewrite take_app_length' in Ht by (rewrite length_app; cbn; lia).
      rewrite <- Ht at 1. by rewrite take_drop. }
    rewrite Eb. replace ((l ++ [delim]) ++ b) with (l ++ delim :: b) by (by rewrite <- app_assoc).
    rewrite IndexByte_app by done.
    replace (l ++ delim :: b) with ((l ++ [delim]) ++ b) by (by rewrite <- app_assoc).
    replace (S (length l)) with (length (l ++ [delim])) by (rewrite length_app; cbn; lia).
    rewrite take_app_length, drop_app_length. eexists. split; [done|].
    destruct (good_take _ _ _ _ _ Hg Eb) as (q & Hq & Hgq); [rewrite length_app; cbn; lia|].
    replace (l ++ delim :: p) with ((l ++ [delim]) ++ p) in Hq by (by rewrite <- app_assoc).
    apply app_inv_head in Hq as ->. rewrite length_app in Hgq. cbn [length] in Hgq.
    replace (S (length l) + k - (length l + 1)) with k in Hgq by lia. done.
  - assert (∃ t, l = buf r ++ t) as [t Et].
    { exists (drop (length (buf r)) l). apply (f_equal (take (length (buf r)))) in Ht.
      rewrite take_app_length in Ht. rewrite take_app_le in Ht by lia. rewrite Ht at 1. by rewrite take_drop. }
    rewrite IndexByte_None by (rewrite Et in Hd; rewrite elem_of_app in Hd; naive_solver).
    rewrite (good_err _ _ _ Hg). destruct (Nat.leb_spec bufio_size (length (buf r))); [lia|].
    destruct (fill_good _ _ _ Hg) as [Hg' Hl']; [lia|rewrite length_app; cbn; lia|lia|].
    apply IH; [done|lia|lia].
Qed.
(** However a line is cut into reads, [ReadSlice] returns it, and leaves what follows. *)
Lemma ReadSlice_good delim l p k r : delim ∉ l → S (length l) ≤ bufio_size →
  good r (l ++ delim :: p) (S (length l) + k) →
  ∃ r', ReadSlice delim r = Ok (l ++ [delim], None, r') ∧ good r' p k.
Proof. intros. eapply ReadSlice_loop_good; [done..|lia|lia]. Qed.
Lemma setLimit_good r p j k n : good r p j → (Z.of_nat k ≤ n)%Z → good (setLimit n r) p k.
Proof. intros [? ? ? ? ? ?] ?. constructor; cbn; try done; lia. Qed.
Lemma stream_text_size s : length (stream_text s) = stream_size s.
Proof.
  induction s as [|ev s IH]; [done|]. unfold stream_text, stream_size in *. cbn. rewrite length_app, IH.
  by destruct ev.
Qed.
Lemma good_size r p k : good r p k → reader_size r = length p.
Proof.
  intros Hg. rewrite <- (good_text _ _ _ Hg). unfold available, reader_size.
  by rewrite length_app, stream_text_size.
Qed.

(** ** Message data *)
Lemma dot_loop_byte f st r c p k st' x : good r (c :: p) (S k) → st ≠ stateEOF →
  dot_step st c = (st', x, false) →
  ∃ r', good r' p k ∧ dot_loop (S f) st r =
    match dot_loop f st' r' with
    | Ok (d, e, r'') => Ok (match x with Some x => x :: d | None => d end, e, r'')
    | o => o
    end.
Proof.
  intros Hg Hst Hs. destruct (ReadByte_good _ _ _ _ Hg) as (r' & HR & Hg'). exists r'. split; [done|].
  cbn [dot_loop]. rewrite HR, Hs. by destruct st.
Qed.

Lemma push_app l l' o : push (l ++ l') o = push l (push l' o).
Proof. destruct o as [[[? ?] ?]| | |]; cbn; by rewrite <- ?app_assoc. Qed.
Lemma push_nil o : push [] o = o.
Proof. by destruct o as [[[? ?] ?]| | |]. Qed.

(** The rest of a line, from inside it. *)
Lemma dot_loop_data : ∀ l f r p k, Forall (λ c, c ≠ CR ∧ c ≠ LF) l →
  good r (l ++ CR :: LF :: p) (length l + 2 + k) →
  ∃ r', good r' p k ∧ dot_loop (length l + 2 + f) stateData r = push (l ++ [LF]) (dot_loop f stateBeginLine r').
Proof.
  induction l as [|c l IH]; intros f r p k Hl Hg.
  - cbn in Hg. destruct (dot_loop_byte (1 + f) stateData r CR _ _ stateCR None Hg) as (r1 & Hg1 & E1); [done|done|].
    destruct (dot_loop_byte f stateCR r1 LF _ _ stateBeginLine (Some LF) Hg1) as (r2 & Hg2 & E2); [done|done|].
    exists r2. split; [done|]. cbn [length plus] in *. rewrite E1, E2.
    by destruct (dot_loop f stateBeginLine r2) as [[[? ?] ?]| | |].
  - apply list.Forall_cons in Hl as [[Hc Hc'] Hl]. cbn in Hg.
    destruct (dot_loop_byte (length l + 2 + f) stateData r c _ _ stateData (Some c) Hg) as (r1 & Hg1 & E1).
    { done. }
    { cbn. by rewrite !bool_decide_false. }
    destruct (IH f r1 p k Hl Hg1) as (r2 & Hg2 & E2). exists r2. split; [done|].
    cbn [length plus] in *. rewrite E1, E2. by destruct (dot_loop f stateBeginLine r2) as [[[? ?] ?]| | |].
Qed.
Lemma dot_loop_line l f r p k : Forall (λ c, c ≠ CR ∧ c ≠ LF) l →
  good r (stuff_line l ++ p) (length (stuff_line l) + k) →
  ∃ r', good r' p k ∧
    dot_loop (length (stuff_line l) + f) stateBeginLine r = push (l ++ [LF]) (dot_loop f stateBeginLine r').
Proof.
  intros Hl Hg. destruct l as [|c l].
  - cbn in Hg. destruct (dot_loop_byte (1 + f) stateBeginLine r CR _ _ stateCR None Hg) as (r1 & Hg1 & E1); [done|done|].
    destruct (dot_loop_byte f stateCR r1 LF _ _ stateBeginLine (Some LF) Hg1) as (r2 & Hg2 & E2); [done|done|].
    exists r2. split; [done|]. cbn [stuff_line length plus app] in *. rewrite E1, E2.
    by destruct (dot_loop f stateBeginLine r2) as [[[? ?] ?]| | |].
  - apply list.Forall_cons in Hl as [[Hc Hc'] Hl]. destruct (decide (c = "."%char)) as [->|Hd].
    + assert (stuff_line ("."%char :: l) = "."%char :: "."%char :: l ++ [CR; LF]) as Es by done.
      rewrite Es in Hg |- *. cbn [length app plus] in Hg |- *. rewrite <- app_assoc in Hg. rewrite length_app in Hg |- *.
      cbn [length app] in *.
      destruct (dot_loop_byte (S (length l + 2 + f)) stateBeginLine r "."%char _ _ stateDot None Hg) as (r1 & Hg1 & E1); [done|done|].
      destruct (dot_loop_byte (length l + 2 + f) stateDot r1 "."%char _ _ stateData (Some "."%char) Hg1)
        as (r2 & Hg2 & E2); [done|done|].
      destruct (dot_loop_data l f r2 p k Hl Hg2) as (r3 & Hg3 & E3). exists r3. split; [done|].
      rewrite E1, E2, E3. by destruct (dot_loop f stateBeginLine r3) as [[[? ?] ?]| | |].
    + assert (stuff_line (c :: l) = c :: l ++ [CR; LF]) as Es.
      { unfold stuff_line. repeat case_match; try done; simplify_eq. }
      rewrite Es in Hg |- *. cbn [length app plus] in Hg |- *. rewrite <- app_assoc in Hg. rewrite length_app in Hg |- *.
      cbn [length app] in *.
      destruct (dot_loop_byte (length l + 2 + f) stateBeginLine r c _ _ stateData (Some c) Hg) as (r1 & Hg1 & E1).
      { done. }
      { cbn. by rewrite !bool_decide_false. }
      destruct (dot_loop_data l f r1 p k Hl Hg1) as (r2 & Hg2 & E2). exists r2. split; [done|].
      rewrite E1, E2. by destruct (dot_loop f stateBeginLine r2) as [[[? ?] ?]| | |].
Qed.
Lemma dot_loop_lines lines : ∀ f r p k, Forall (Forall (λ c, c ≠ CR ∧ c ≠ LF)) lines →
  good r (concat (map stuff_line lines) ++ p) (length (concat (map stuff_line lines)) + k) →
  ∃ r', good r' p k ∧
    dot_loop (length (concat (map stuff_line lines)) + f) stateBeginLine r =
    push (message_text lines) (dot_loop f stateBeginLine r').
Proof.
  induction lines as [|l lines IH]; intros f r p k Hl Hg.
  - exists r. split; [done|]. by rewrite push_nil.
  - apply list.Forall_cons in Hl as [Hl Hls]. cbn [map concat] in *. rewrite <- app_assoc in Hg.
    rewrite length_app in Hg |- *. rewrite <- Nat.add_assoc in Hg |- *.
    destruct (dot_loop_line l (length (concat (map stuff_line lines)) + f) r _ _ Hl Hg) as (r1 & Hg1 & E1).
    destruct (IH f r1 p k Hls Hg1) as (r2 & Hg2 & E2). exists r2. split; [done|].
    rewrite E1, E2. unfold message_text. cbn [map concat]. symmetry. apply push_app.
Qed.

(** C29. However the network cuts a dot-stuffed message into reads, the data phase
    returns exactly the message, line by line with the line ends of Unix, and leaves
    exactly what the client sent after the final dot: the next command. The message may
    have any bytes but CR and LF inside its lines, lines that begin with dots
    included. *)
Theorem ReadDot_message lines r p k :
  Forall (Forall (λ c, c ≠ CR ∧ c ≠ LF)) lines →
  good r (encode_message lines ++ p) (length (encode_message lines) + k) →
  ∃ r', ReadDot r = Ok (message_text lines, None, r') ∧ good r' p k.
Proof.
  intros Hl Hg. unfold ReadDot.
  assert (length (encode_message lines) ≤ reader_size r) as Hsz.
  { rewrite (good_size _ _ _ Hg), length_app. lia. }
  unfold encode_message in *. set (body := concat (map stuff_line lines)) in *.
  rewrite length_app in Hsz, Hg. rewrite <- app_assoc in Hg. cbn [length app] in Hsz, Hg.
  assert (∃ f, 2 * reader_size r + 2 = length body + S (S (S (S f)))) as [f ->].
  { exists (2 * reader_size r - length body - 2). cbn in Hsz. lia. }
  rewrite <- Nat.add_assoc in Hg.
  destruct (dot_loop_lines lines (S (S (S (S f)))) r _ _ Hl Hg) as (r1 & Hg1 & E1).
  fold body in E1. rewrite E1. cbn in Hg1.
  destruct (dot_loop_byte (S (S (S f))) stateBeginLine r1 "."%char _ _ stateDot None Hg1) as (r2 & Hg2 & E2); [done|done|].
  destruct (dot_loop_byte (S (S f)) stateDot r2 CR _ _ stateDotCR None Hg2) as (r3 & Hg3 & E3); [done|done|].
  destruct (dot_loop_byte (S f) stateDotCR r3 LF _ _ stateEOF None Hg3) as (r4 & Hg4 & E4); [done|done|].
  exists r4. split; [|done]. rewrite E2, E3, E4. cbn. by rewrite app_nil_r.
Qed.

Lemma ReadDot_message_witness :
  let r := setLimit 2048 (newSMTPBufferedReader [Chunk (bs "..a" ++ [CR]); Chunk (LF :: bs ".." ++ [CR; LF] ++ bs ".");
                                                  Chunk ([CR; LF] ++ bs "NOOP" ++ [CR; LF])]) in
  (∃ r', ReadDot r = Ok (bs ".a" ++ [LF] ++ bs "." ++ [LF], None, r') ∧ good r' (bs "NOOP" ++ [CR; LF]) 6).
Proof.
  intros r. apply (ReadDot_message [bs ".a"; bs "."] r (bs "NOOP" ++ [CR; LF]) 6).
  - repeat constructor; try done; intros E; discriminate E.
  - constructor; try done; try (cbn; lia); cbn; unfold quiet; rewrite ?list.Forall_cons; done.
Defined.

(** The end of a block is also recognised between bare line feeds: what follows is
    read as commands. *)
Example ReadDot_bare_line_feeds :
  let r := setLimit 2048 (newSMTPBufferedReader [Chunk (bs "a" ++ [LF] ++ bs "." ++ [LF] ++ bs "MAIL FROM:<b@c>" ++ [CR; LF])]) in
  ∃ r', ReadDot r = Ok (bs "a" ++ [LF], None, r') ∧ available r' = bs "MAIL FROM:<b@c>" ++ [CR; LF].
Proof. eexists. split; vm_compute; reflexivity. Qed.

(** However the network cuts the input into reads, reading up to a delimiter
    returns the text up to it, and leaves exactly what follows; the line may be as long
    as the limit that was set and the buffer allow. *)
Theorem ReadSlice_line delim l p k n r :
  (delim ∉ l) → S (length l) ≤ bufio_size → (Z.of_nat (S (length l) + k) ≤ n)%Z →
  good r (l ++ (delim :: p)) 0 →
  ∃ r', ReadSlice delim (setLimit n r) = Ok (l ++ [delim], None, r') ∧ good r' p k.
Proof. intros Hd Hl Hn Hg. apply ReadSlice_good; [done..|]. by apply (setLimit_good _ _ 0). Qed.

Lemma ReadSlice_line_witness :
  let r := newSMTPBufferedReader [Chunk (bs "NO"); Chunk (bs "OP"); Chunk ([CR; LF] ++ bs "QU")] in
  ∃ r', ReadSlice LF (setLimit 1024 r) = Ok (bs "NOOP" ++ [CR; LF], None, r') ∧ good r' (bs "QU") 1000.
Proof.
  intros r. apply (ReadSlice_line LF (bs "NOOP" ++ [CR]) (bs "QU") 1000 1024 r).
  - by apply (bool_decide_eq_false (_ ∈ _)).
  - apply Nat.leb_le. vm_compute. reflexivity.
  - cbn. lia.
  - constructor; try done; try (cbn; lia); cbn; unfold quiet; rewrite ?list.Forall_cons; done.
Defined.
