(* ===== verification/Auth.v ===== *)
(** * SMTP authentication: auth.go

    The decoding of AUTH PLAIN and LOGIN responses, and the authenticator that asks
    an HTTP server. The session talks to any authenticator through the class
    [Authenticator]; the HTTP exchange and the JSON decoder are parameters. *)
From S2P Require Import Prelude GoStd Shared Envelope Config Tenant.

Record AuthResult := mkAuthResult { OK : bool; ar_Tenant : option TenantSendConfig }.

Inductive auth_error : Type :=
| ae_url_required
| ae_timeout
| ae_http
| ae_json
| ae_tenant (e : tenant_error).

(** [AuthenticatePlain] of the interface: an answer or an error. The number is the
    moment of the call, so that an authenticator may answer differently over time. *)
Class Authenticator :=
  AuthenticatePlain : nat → bytes → bytes → bytes → Envelope → AuthResult + auth_error.

(** ** The HTTP authenticator *)
Record HTTPAuthenticatorConfig := mkHTTPAuthenticatorConfig {
  ha_URL : bytes; ha_Timeout : Z; ha_Headers : gmap bytes bytes
}.
Record httpAuthRequest := mkHttpAuthRequest {
  Identity : bytes; Username : bytes; Password : bytes; q_RemoteIP : bytes; q_Helo : bytes; q_TLS : bool
}.
(** The POST and its answer: status and body, or an error. *)
Class AuthServer := auth_exchange : nat → HTTPAuthenticatorConfig → httpAuthRequest → option (Z * bytes).
(** [json.Unmarshal] into [httpAuthResponse]: the field [ok]. *)
Class AuthDecoder := decode_ok : bytes → option bool.

Definition NewHTTPAuthenticatorFromConfig `{Durations} (c : AuthConfig)
    : outcome auth_error HTTPAuthenticatorConfig :=
  if bool_decide (TrimSpace (auth_URL c) = []) then Err ae_url_required
  else if bool_decide (TrimSpace (auth_Timeout c) = []) then
    Ok (mkHTTPAuthenticatorConfig (auth_URL c) (2 * second) (auth_Headers c))
  else match parse_duration (auth_Timeout c) with
       | Some t => Ok (mkHTTPAuthenticatorConfig (auth_URL c) t (auth_Headers c))
       | None => Err ae_timeout
       end.

Section Http.
Context {U : Unicode} {TD : TenantDecoder} {AS : AuthServer} {AD : AuthDecoder}.

Definition http_AuthenticatePlain (h : HTTPAuthenticatorConfig) (now : nat)
    (identity username password : bytes) (e : Envelope) : AuthResult + auth_error :=
  match auth_exchange now h (mkHttpAuthRequest identity username password (RemoteIP e) (e_Helo e) (TLS e)) with
  | None => inr ae_http
  | Some (status, body) =>
      if (status <? 200)%Z || (300 <=? status)%Z then inl (mkAuthResult false None)
      else match decode_ok body with
           | None => inr ae_json
           | Some false => inl (mkAuthResult false None)
           | Some true =>
               match ParseTenantSendConfigFromAuth body with
               | Ok t => inl (mkAuthResult true t)
               | Err te => inr (ae_tenant te)
               | _ => inr ae_json
               end
           end
  end.
Definition http_authenticator (h : HTTPAuthenticatorConfig) : Authenticator := http_AuthenticatePlain h.
End Http.

(** ** Responses of the client *)

(** With padding or without. *)
Definition decodeBase64Lenient (in_ : bytes) : option bytes :=
  let trimmed := TrimSpace in_ in
  match b64_std_decode trimmed with
  | Some b => Some b
  | None => b64_raw_decode trimmed
  end.

(** [None] is the error; otherwise identity, user name and password. *)
Definition parseAuthPlainIR (b64 : bytes) : option (bytes * bytes * bytes) :=
  match decodeBase64Lenient b64 with
  | None => None
  | Some decoded =>
      let parts := split_byte NUL decoded in
      if length parts <? 3 then None
      else
        match drop (length parts - 3) parts with
        | [ident; username; password] =>
            match username with
            | [] => None
            | _ => Some (ident, username, password)
            end
        | _ => None
        end
  end.

(** ** Notions used by the statements *)

(** What a client sends: base 64 of its credentials, with or without the padding. *)
Definition b64_char (n : Z) : ascii :=
  ascii_of_N (Z.to_N (if (n <? 26)%Z then 65 + n
                      else if (n <? 52)%Z then 71 + n
                      else if (n <? 62)%Z then n - 4
                      else if (n =? 62)%Z then 43 else 47)%Z).
Fixpoint sextets (s : bytes) : list Z :=
  match s with
  | [] => []
  | [a] => [code a / 4; (code a mod 4) * 16]
  | [a; b] => [code a / 4; (code a mod 4) * 16 + code b / 16; (code b mod 16) * 4]
  | a :: b :: c :: s' =>
      code a / 4 :: (code a mod 4) * 16 + code b / 16 :: (code b mod 16) * 4 + code c / 64 ::
      code c mod 64 :: sextets s'
  end%Z.
Definition b64_raw_encode (s : bytes) : bytes := map b64_char (sextets s).
Definition b64_padding (s : bytes) : bytes :=
  match length s mod 3 with 1 => "==" | 2 => "=" | _ => [] end.
Definition b64_encode (s : bytes) : bytes := b64_raw_encode s ++ b64_padding s.

(** ** Notions used by the statements *)

(** The 64 characters of the alphabet. *)
Definition b64_good (n : Z) : bool :=
  bool_decide (b64_value (b64_char n) = Some n) && is_ascii (b64_char n) && negb (is_space (b64_char n)) &&
  negb (bool_decide (b64_char n = LF)) && negb (bool_decide (b64_char n = CR)) && negb (bool_decide (b64_char n = "="%char)).

Definition b64_text (s : bytes) : Prop := Forall (λ c, is_ascii c = true ∧ is_space c = false ∧ c ≠ LF ∧ c ≠ CR) s.

(** * Proofs *)

Lemma code_bound c : (0 ≤ code c < 256)%Z.
Proof. unfold code. pose proof (N_ascii_bounded c). lia. Qed.
Lemma byte_of_code c z : (z mod 256 = code c)%Z → byte_of z = c.
Proof. unfold byte_of, code. intros ->. rewrite N2Z.id. apply ascii_N_embedding. Qed.

Lemma three_step (P : bytes → Prop) :
  P [] → (∀ a, P [a]) → (∀ a b, P [a; b]) → (∀ a b c s, P s → P (a :: b :: c :: s)) → ∀ s, P s.
Proof.
  intros H0 H1 H2 H3 s.
  assert (∀ n s, length s ≤ n → P s) as H; [|by apply (H (length s))].
  intros n. induction n as [|n IH]; intros [|a [|b [|c t]]] Hl; cbn in Hl; try lia; auto.
  apply H3, IH. lia.
Qed.

Lemma sextets_bound s : Forall (λ n, (0 ≤ n < 64)%Z) (sextets s).
Proof.
  pose proof code_bound as Hc.
  induction s as [|a|a b|a b c s IH] using three_step; cbn [sextets];
    [constructor|pose proof (Hc a)|pose proof (Hc a); pose proof (Hc b)|
     pose proof (Hc a); pose proof (Hc b); pose proof (Hc c)];
    repeat (apply list.Forall_cons; split); try done; Z.to_euclidean_division_equations; lia.
Qed.
Lemma b64_groups_sextets s : b64_groups (sextets s) = Some s.
Proof.
  pose proof code_bound as Hc.
  induction s as [|a|a b|a b c s IH] using three_step; [done| | |].
  - cbn. do 2 f_equal. apply byte_of_code. pose proof (Hc a). Z.to_euclidean_division_equations. lia.
  - cbn. pose proof (Hc a). pose proof (Hc b).
    do 2 f_equal; [|f_equal]; apply byte_of_code; Z.to_euclidean_division_equations; lia.
  - cbn [sextets b64_groups]. rewrite IH. cbn. pose proof (Hc a). pose proof (Hc b). pose proof (Hc c).
    do 2 f_equal; [|f_equal; [|f_equal]]; apply byte_of_code; Z.to_euclidean_division_equations; lia.
Qed.

Lemma b64_char_good n : (0 ≤ n < 64)%Z → b64_good n = true.
Proof.
  intros H. assert (n ∈ seqZ 0 64) as E by (apply elem_of_seqZ; lia). clear H.
  assert (forallb b64_good (seqZ 0 64) = true) as T by (vm_compute; reflexivity).
  rewrite forallb_forall in T. by apply T, list_elem_of_In.
Qed.
Lemma mapM_b64 l : Forall (λ n, (0 ≤ n < 64)%Z) l → mapM b64_value (map b64_char l) = Some l.
Proof.
  induction 1 as [|n l Hn Hl IH]; [done|].
  change (mapM b64_value (map b64_char (n :: l)))
    with (y ← b64_value (b64_char n); k ← mapM b64_value (map b64_char l); mret (y :: k)).
  rewrite IH. apply b64_char_good in Hn. unfold b64_good in Hn. bool_hyps.
  by match goal with H : b64_value _ = _ |- _ => rewrite H end.
Qed.
Lemma raw_text s : b64_text (b64_raw_encode s).
Proof.
  unfold b64_text, b64_raw_encode. pose proof (sextets_bound s) as H.
  induction H as [|n l Hn Hl IH]; [constructor|]. constructor; [|done].
  apply b64_char_good in Hn. unfold b64_good in Hn. bool_hyps. done.
Qed.
Lemma padding_text s : b64_text (b64_padding s).
Proof.
  unfold b64_text, b64_padding. destruct (length s mod 3) as [|[|[|]]]; cbn; repeat constructor; try done; discriminate.
Qed.
Lemma strip_text s : b64_text s → b64_strip s = s.
Proof.
  induction 1 as [|c s (_ & _ & H1 & H2) Hs IH]; [done|]. unfold b64_strip in *. cbn.
  rewrite !bool_decide_false by done. cbn. by rewrite IH.
Qed.
Lemma rev_reverse (s : bytes) : rev s = reverse s.
Proof. apply rev_alt. Qed.
Lemma TrimSpace_text s : b64_text s → TrimSpace s = s.
Proof.
  intros H. unfold TrimSpace. cbv zeta.
  assert (space_at s = 0) as E.
  { destruct H as [|c s (Ha & Hb & _) Hs]; [done|]. cbn [space_at]. by rewrite Hb, Ha. }
  rewrite trim_left_id by done. apply trim_right_id.
  unfold space_at_end. rewrite rev_reverse. destruct (reverse s) as [|c r] eqn:Er; [done|].
  assert (c ∈ s) as Hc. { rewrite <- elem_of_reverse, Er. by left. }
  unfold b64_text in H. rewrite list.Forall_forall in H. destruct (H c Hc) as (Ha & Hb & _). by rewrite Hb, Ha.
Qed.

Lemma raw_length s : length (sextets s) mod 4 = match length s mod 3 with 1 => 2 | 2 => 3 | _ => 0 end.
Proof.
  induction s as [|a|a b|a b c s IH] using three_step; [done..|]. cbn [sextets length].
  replace (S (S (S (S (length (sextets s)))))) with (length (sextets s) + 1 * 4) by lia.
  replace (S (S (S (length s)))) with (length s + 1 * 3) by lia.
  rewrite !Nat.Div0.mod_add. done.
Qed.
Lemma b64_raw_ok s : b64_raw_decode (b64_raw_encode s) = Some s.
Proof.
  unfold b64_raw_decode. rewrite strip_text by apply raw_text. unfold b64_raw_encode.
  rewrite mapM_b64 by apply sextets_bound. apply b64_groups_sextets.
Qed.
Lemma HasSuffix_eq_raw s : HasSuffix (b64_raw_encode s) "=" = false.
Proof.
  unfold HasSuffix. change (rev "=") with ["="%char]. rewrite rev_reverse.
  destruct (reverse (b64_raw_encode s)) as [|c r] eqn:E; [done|].
  assert (c ∈ b64_raw_encode s) as Hc. { rewrite <- elem_of_reverse, E. by left. }
  unfold b64_raw_encode in Hc. apply list_elem_of_fmap in Hc as (n & -> & Hn).
  pose proof (sextets_bound s) as Hb. rewrite list.Forall_forall in Hb. specialize (Hb n Hn).
  apply b64_char_good in Hb. unfold b64_good in Hb. bool_hyps. cbn.
  rewrite bool_decide_false by congruence. done.
Qed.
Lemma HasPrefix_two s a b : HasPrefix s [a; b] = true → HasPrefix s [a] = true.
Proof. destruct s as [|c s]; [done|]. cbn. intros [-> _]%andb_true_iff. by destruct s. Qed.
Lemma HasSuffix_app s p : HasSuffix (s ++ p) p = true.
Proof.
  unfold HasSuffix. rewrite rev_app_distr. generalize (rev p), (rev s). intros a b.
  induction a as [|c a IH]; [by destruct b|]. cbn. by rewrite bool_decide_true.
Qed.
Lemma b64_std_ok s : b64_std_decode (b64_encode s) = Some s.
Proof.
  assert (b64_text (b64_encode s)) as Ht by (apply Forall_app_2; [apply raw_text|apply padding_text]).
  unfold b64_std_decode. rewrite strip_text by done. cbv zeta.
  assert (length (b64_encode s) mod 4 = 0) as ->.
  { unfold b64_encode, b64_raw_encode. rewrite length_app, length_map.
    rewrite Nat.Div0.add_mod, raw_length. unfold b64_padding.
    destruct (length s mod 3) as [|[|[|]]] ; done. }
  cbn [Nat.eqb negb].
  assert ((if HasSuffix (b64_encode s) "==" then take (length (b64_encode s) - 2) (b64_encode s)
           else if HasSuffix (b64_encode s) "=" then take (length (b64_encode s) - 1) (b64_encode s)
           else b64_encode s) = b64_raw_encode s) as ->.
  { pose proof (HasSuffix_eq_raw s) as Hr. unfold b64_encode, b64_padding.
    destruct (length s mod 3) as [|[|[|]]].
    - rewrite app_nil_r, Hr. destruct (HasSuffix _ "==") eqn:E; [|done].
      unfold HasSuffix in E, Hr. change (rev "==") with ["="; "="]%char in E. apply HasPrefix_two in E.
      change (rev "=") with ["="]%char in Hr. by rewrite E in Hr.
    - rewrite HasSuffix_app. rewrite length_app. cbn [length].
      rewrite Nat.add_sub. by rewrite take_app_length.
    - destruct (HasSuffix (b64_raw_encode s ++ "=") "==") eqn:E.
      + exfalso. unfold HasSuffix in E, Hr. rewrite rev_app_distr in E. 
        change (rev "==") with ["="; "="]%char in E. change (rev "=") with ["="]%char in E, Hr.
        change (HasPrefix (["="%char] ++ rev (b64_raw_encode s)) ["="; "="]%char)
          with (bool_decide ("="%char = "="%char) && HasPrefix (rev (b64_raw_encode s)) ["="%char]) in E.
        rewrite Hr, andb_false_r in E. done.
      + rewrite HasSuffix_app, length_app. cbn [length]. rewrite Nat.add_sub. by rewrite take_app_length.
    - rewrite app_nil_r, Hr. destruct (HasSuffix _ "==") eqn:E; [|done].
      unfold HasSuffix in E, Hr. change (rev "==") with ["="; "="]%char in E. apply HasPrefix_two in E.
      change (rev "=") with ["="]%char in Hr. by rewrite E in Hr. }
  unfold b64_raw_encode. rewrite mapM_b64 by apply sextets_bound. apply b64_groups_sextets.
Qed.
Lemma decodeBase64_encoded s : decodeBase64Lenient (b64_encode s) = Some s.
Proof.
  unfold decodeBase64Lenient. rewrite TrimSpace_text; [by rewrite b64_std_ok|].
  apply Forall_app_2; [apply raw_text|apply padding_text].
Qed.
Lemma decodeBase64_raw s : decodeBase64Lenient (b64_raw_encode s) = Some s.
Proof.
  unfold decodeBase64Lenient. rewrite TrimSpace_text by apply raw_text.
  destruct (decide (length s mod 3 = 0)) as [E|E].
  - pose proof (b64_std_ok s) as H. unfold b64_encode, b64_padding in H. rewrite E, app_nil_r in H. by rewrite H.
  - assert (b64_std_decode (b64_raw_encode s) = None) as ->; [|apply b64_raw_ok].
    unfold b64_std_decode. rewrite strip_text by apply raw_text. cbv zeta.
    unfold b64_raw_encode. rewrite length_map, raw_length.
    pose proof (Nat.mod_upper_bound (length s) 3).
    destruct (length s mod 3) as [|[|[|]]]; [done|done|done|lia].
Qed.

(** C30. What a client encodes, the server decodes: the base 64 text of
    [authzid NUL authcid NUL passwd], with or without its padding, gives back exactly
    the identity, the user name and the password, whatever bytes other than NUL they
    have; and the text of a LOGIN response gives back its bytes. *)
Theorem credentials_round_trip ident username password s :
  (NUL ∉ ident) → (NUL ∉ username) → (NUL ∉ password) → username ≠ [] →
  let plain := ident ++ (NUL :: username ++ (NUL :: password)) in
  parseAuthPlainIR (b64_encode plain) = Some (ident, username, password) ∧
  parseAuthPlainIR (b64_raw_encode plain) = Some (ident, username, password) ∧
  decodeBase64Lenient (b64_encode s) = Some s ∧ decodeBase64Lenient (b64_raw_encode s) = Some s.
Proof.
  intros Hi Hu Hp Hne plain.
  assert (split_byte NUL plain = [ident; username; password]) as E.
  { unfold plain. by rewrite !split_byte_app, split_byte_none. }
  unfold parseAuthPlainIR. rewrite !decodeBase64_encoded, !decodeBase64_raw. rewrite E. cbn.
  by destruct username.
Qed.
Lemma credentials_round_trip_witness :
  parseAuthPlainIR (bs "AHVzZXIAcGFzcw==") = Some ([], bs "user", bs "pass").
Proof.
  apply (credentials_round_trip [] (bs "user") (bs "pass") []);
    [by apply (bool_decide_eq_false (_ ∈ _))..|done].
Defined.

