(* ===== verification/AuthMock.v ===== *)
(** * The test service: cmd/authmock

    An HTTP server for tests that answers the authenticator of auth.go and the registry of tenants from one file of
    users and tenants. It is the only side of these two exchanges that the program has besides its own, so that here
    they are put together. The JSON of the bodies and the canonical names of headers are parameters. *)
From S2P Require Import Prelude GoStd Shared Envelope Config Tenant Auth.

(** mockSES, mockOCIEmail, mockPOP3 and mockIMAP have the fields and the JSON names of the types of tenant.go. *)
Record mockTenant := mkMockTenant {
  mt_TenantID : bytes; mt_Provider : bytes; mt_SES : option TenantSES; mt_OCIEmail : option TenantOCI;
  mt_POP3Accounts : list TenantPOP3; mt_IMAPAccounts : list TenantIMAP
}.
Record mockUser := mkMockUser { mu_Username : bytes; mu_Password : bytes; mu_TenantID : bytes }.
Record mockConfig := mkMockConfig {
  Listen : bytes; RequiredHeaders : gmap bytes bytes; Users : list mockUser; mc_Tenants : list mockTenant
}.
Record authResponse := mkAuthResponse {
  ar_OK : bool; ar_Error : bytes; ar_TenantID : bytes; ar_Provider : bytes; ar_SES : option TenantSES; ar_OCIEmail : option TenantOCI
}.
Definition failed_response (m : bytes) : authResponse := mkAuthResponse false m [] [] None None.

Inductive mock_error : Type :=
| me_read (m : bytes)
| me_parse (m : bytes)
| me_no_tenants
| me_no_tenant_id (i : nat)
| me_duplicate_tenant (id : bytes)
| me_region (i : nat) (id : bytes)
| me_username (i : nat) (id : bytes)
| me_provider (i : nat) (id : bytes)
| me_user_name (i : nat)
| me_user_password (i : nat)
| me_user_tenant (i : nat)
| me_user_unknown_tenant (i : nat) (id : bytes).

(** A request as a handler sees it; the header is what Header.Get finds. *)
Record http_request := mkRequest { rq_Method : bytes; rq_Header : bytes → bytes; rq_Body : bytes }.
(** encoding/json, and what os.ReadFile gives. *)
Class MockJSON := {
  read_mock : bytes → bytes + bytes;
  decode_mock : bytes → mockConfig + bytes;
  decode_login : bytes → option (bytes * bytes);
  encode_auth : authResponse → bytes;
  encode_tenants : list mockTenant → bytes;
  encode_error : bytes → bytes
}.

Section Mock.
Context {U : Unicode} {J : MockJSON}.

(** ** The configuration *)
Fixpoint validate_tenants (i : nat) (l : list mockTenant) (seen : gset bytes) : gset bytes + mock_error :=
  match l with
  | [] => inl seen
  | t :: l =>
      let id := TrimSpace (mt_TenantID t) in
      if bool_decide (id = []) then inr (me_no_tenant_id i)
      else if bool_decide (id ∈ seen) then inr (me_duplicate_tenant id)
      else
        let seen := {[ id ]} ∪ seen in
        let provider := ToLower (TrimSpace (mt_Provider t)) in
        if bool_decide (provider = bs "ses") then
          match mt_SES t with
          | Some s => if bool_decide (TrimSpace (ses_Region s) = []) then inr (me_region i id) else validate_tenants (S i) l seen
          | None => inr (me_region i id)
          end
        else if bool_decide (provider = bs "oci") then
          match mt_OCIEmail t with
          | Some o => if bool_decide (TrimSpace (oci_Username o) = []) then inr (me_username i id) else validate_tenants (S i) l seen
          | None => inr (me_username i id)
          end
        else inr (me_provider i id)
  end.
Fixpoint validate_users (i : nat) (l : list mockUser) (seen : gset bytes) : option mock_error :=
  match l with
  | [] => None
  | u :: l =>
      if bool_decide (TrimSpace (mu_Username u) = []) then Some (me_user_name i)
      else if bool_decide (mu_Password u = []) then Some (me_user_password i)
      else if bool_decide (TrimSpace (mu_TenantID u) = []) then Some (me_user_tenant i)
      else if bool_decide (TrimSpace (mu_TenantID u) ∉ seen) then Some (me_user_unknown_tenant i (mu_TenantID u))
      else validate_users (S i) l seen
  end.
Definition validate (c : mockConfig) : option mock_error :=
  match mc_Tenants c with
  | [] => Some me_no_tenants
  | l => match validate_tenants 0 l ∅ with inr e => Some e | inl seen => validate_users 0 (Users c) seen end
  end.
Definition loadMockConfig (path : bytes) : mockConfig + mock_error :=
  match read_mock path with
  | inr m => inr (me_read m)
  | inl data =>
      match decode_mock data with
      | inr m => inr (me_parse m)
      | inl c =>
          let c := if bool_decide (TrimSpace (Listen c) = [])
                   then mkMockConfig "127.0.0.1:8080" (RequiredHeaders c) (Users c) (mc_Tenants c) else c in
          match validate c with Some e => inr e | None => inl c end
      end
  end.

Definition findUser (c : mockConfig) (username password : bytes) : option mockUser :=
  let username := TrimSpace username in
  head (filter (λ u, mu_Username u = username ∧ mu_Password u = password) (Users c)).
Definition findTenant (c : mockConfig) (tenantID : bytes) : option mockTenant :=
  let tenantID := TrimSpace tenantID in
  head (filter (λ t, mt_TenantID t = tenantID) (mc_Tenants c)).
Definition mock_authResponse (t : mockTenant) : authResponse :=
  mkAuthResponse true [] (mt_TenantID t) (mt_Provider t) (mt_SES t) (mt_OCIEmail t).

(** The first header, in an order of the map, that is not as required. *)
Fixpoint checkRequiredHeaders (order : list (bytes * bytes)) (r : http_request) : option bytes :=
  match order with
  | [] => None
  | (name, want) :: order =>
      if bool_decide (TrimSpace (rq_Header r name) ≠ want) then Some (bs "missing or invalid header " ++ name)
      else checkRequiredHeaders order r
  end.

(** ** The handlers: status and body *)
Definition handleAuth (cfg : mockConfig) (order : list (bytes * bytes)) (r : http_request) : Z * bytes :=
  if bool_decide (rq_Method r ≠ bs "POST") then (405%Z, encode_auth (failed_response "method not allowed"))
  else match checkRequiredHeaders order r with
  | Some m => (401%Z, encode_auth (failed_response m))
  | None =>
      match decode_login (rq_Body r) with
      | None => (400%Z, encode_auth (failed_response "invalid json"))
      | Some (username, password) =>
          match findUser cfg username password with
          | None => (200%Z, encode_auth (failed_response "invalid credentials"))
          | Some user =>
              match findTenant cfg (mu_TenantID user) with
              | None => (500%Z, encode_auth (failed_response "tenant not found"))
              | Some tenant => (200%Z, encode_auth (mock_authResponse tenant))
              end
          end
      end
  end.
Definition handleTenants (cfg : mockConfig) (order : list (bytes * bytes)) (r : http_request) : Z * bytes :=
  if bool_decide (rq_Method r ≠ bs "GET") then (405%Z, encode_error "method not allowed")
  else match checkRequiredHeaders order r with
  | Some m => (401%Z, encode_error m)
  | None => (200%Z, encode_tenants (mc_Tenants cfg))
  end.
End Mock.

(** ** Notions used by the statements *)

(** The names and ids of the file are as they are looked up, and the tenants of OCI have a password. *)
Definition tidy (c : mockConfig) : Prop :=
  Forall (λ t, TrimSpace (mt_TenantID t) = mt_TenantID t) (mc_Tenants c) ∧
  Forall (λ t, ∀ o, mt_OCIEmail t = Some o → oci_Password o ≠ []) (mc_Tenants c).
(** The name, spaces around it aside, and the password are those of a user. *)
Definition credentials_of (user pw : bytes) (u : mockUser) : Prop := mu_Username u = TrimSpace user ∧ mu_Password u = pw.
(** The request carries the headers that are required. *)
Definition authorized (c : mockConfig) (r : http_request) : Prop :=
  map_Forall (λ name want, TrimSpace (rq_Header r name) = want) (RequiredHeaders c).
Definition json_of (t : mockTenant) (ok : bool) : tenantJSON :=
  mkTenantJSON (mt_TenantID t) (mt_Provider t) (mt_SES t) (mt_OCIEmail t) (mt_POP3Accounts t) (mt_IMAPAccounts t) ok.
Definition auth_json (t : mockTenant) : tenantJSON :=
  mkTenantJSON (mt_TenantID t) (mt_Provider t) (mt_SES t) (mt_OCIEmail t) [] [] true.
(** The bodies that are exchanged for a file and a login are decoded to what was encoded, as encoding/json promises
    for text that is UTF-8. *)
Record faithful `{MockJSON} `{TenantDecoder} `{AuthDecoder} (encode_login : httpAuthRequest → bytes) (c : mockConfig)
    (q : httpAuthRequest) : Prop := mkFaithful {
  f_login : decode_login (encode_login q) = Some (Username q, Password q);
  f_refused : decode_ok (encode_auth (failed_response "invalid credentials")) = Some false;
  f_ok : Forall (λ t, decode_ok (encode_auth (mock_authResponse t)) = Some true) (mc_Tenants c);
  f_auth : Forall (λ t, decode_tenant (encode_auth (mock_authResponse t)) = Some (auth_json t)) (mc_Tenants c);
  f_tenants : decode_tenants (encode_tenants (mc_Tenants c)) = Some (map (λ t, json_of t false) (mc_Tenants c))
}.
(** The exchange of the authenticator with the service: a POST of the encoded request with its headers. *)
Definition mock_server `{MockJSON} (c : mockConfig) (order : list (bytes * bytes)) (encode_login : httpAuthRequest → bytes)
    (header : gmap bytes bytes → bytes → bytes) : AuthServer := λ _ h q,
  Some (handleAuth c order (mkRequest "POST" (header (ha_Headers h)) (encode_login q))).
(** A tenant as validate leaves it, with the password that the program asks for. *)
Definition tenant_good `{Unicode} (t : mockTenant) : Prop :=
  TrimSpace (mt_TenantID t) ≠ [] ∧
  ((ToLower (TrimSpace (mt_Provider t)) = bs "ses" ∧ ∃ s, mt_SES t = Some s ∧ TrimSpace (ses_Region s) ≠ []) ∨
   (ToLower (TrimSpace (mt_Provider t)) = bs "oci" ∧ ∃ o, mt_OCIEmail t = Some o ∧ TrimSpace (oci_Username o) ≠ [])).
(** The record of the registry for a tenant of the file, and what the authenticator makes of the same tenant. *)
Definition recorded `{Unicode} (t : mockTenant) (t' : Tenant) : Prop :=
  parseTenantRecord (json_of t false) = Ok t' ∧ TenantID t' = TrimSpace (mt_TenantID t) ∧
  validateTenantSendConfig (Some (send_of (auth_json t))) = Ok (mkTenantSendConfig (TenantID t') (Provider t') (SES t') (OCIEmail t')).

(** A file with one user and one tenant, and a way to write the bodies that goes with it. *)
Definition mock_of (id : bytes) (password : bytes) : mockConfig :=
  mkMockConfig "127.0.0.1:8080" {[ bs "X-Auth-Token" := bs "local-dev" ]} [mkMockUser "relay@example.com" "secret" "example"]
    [mkMockTenant id "OCI" None (Some (mkTenantOCI [] "us-phoenix-1" 0 "ocid1" password)) [] []].
Definition test_mock : mockConfig := mock_of "example" "pw".
Definition test_mock_json (c : mockConfig) : MockJSON := {|
  read_mock b := inl b;
  decode_mock _ := inl c;
  decode_login b := match split_byte LF b with [u; p] => Some (u, p) | _ => None end;
  encode_auth r := if ar_OK r then "+"%char :: ar_TenantID r else bs "-";
  encode_tenants _ := bs "*";
  encode_error m := m
|}.
Definition test_login (q : httpAuthRequest) : bytes := Username q ++ LF :: Password q.
Definition test_mock_tenants (c : mockConfig) : TenantDecoder := {|
  decode_tenant b := match b with
                     | "+"%char :: id => auth_json <$> head (filter (λ t, mt_TenantID t = id) (mc_Tenants c))
                     | _ => None
                     end;
  decode_tenants _ := Some (map (λ t, json_of t false) (mc_Tenants c))
|}.
Definition test_mock_ok : AuthDecoder := λ b, match b with "+"%char :: _ => Some true | "-"%char :: _ => Some false | _ => None end.
Definition test_header (m : gmap bytes bytes) (name : bytes) : bytes := default [] (m !! name).
Definition test_get : http_request := mkRequest "GET" (test_header {[ bs "X-Auth-Token" := bs "local-dev" ]}) [].
Definition test_http_auth : HTTPAuthenticatorConfig := mkHTTPAuthenticatorConfig "http://mock" 0 {[ bs "X-Auth-Token" := bs "local-dev" ]}.
Definition mock_mail : Envelope := mkEnvelope "10.0.0.1" "a.org" zero_Address [] [] [] true None ∅ [] [] "q1" true.
Definition test_asked (c : mockConfig) (user pw : bytes) (e : Envelope) : AuthResult + auth_error :=
  @http_AuthenticatePlain ascii_only (test_mock_tenants c)
    (@mock_server (test_mock_json c) c [(bs "X-Auth-Token", bs "local-dev")] test_login test_header) test_mock_ok test_http_auth 0 [] user pw e.
Definition test_refreshed (c : mockConfig) : option tenant_error * registry :=
  @Refresh ascii_only (test_mock_tenants c)
    (Some (@handleTenants (test_mock_json c) c [(bs "X-Auth-Token", bs "local-dev")] test_get)) (mkRegistry (mkRegistryConfig [] 0 0 ∅) ∅ [] []).

(** * Proofs *)
Section Proofs.
Context {U : Unicode} {J : MockJSON}.

(** ** Files that load *)
Lemma validate_tenants_ok l : ∀ i seen seen', validate_tenants i l seen = inl seen' →
  Forall tenant_good l ∧ NoDup (map (λ t, TrimSpace (mt_TenantID t)) l) ∧
  seen' = list_to_set (map (λ t, TrimSpace (mt_TenantID t)) l) ∪ seen ∧
  Forall (λ t, TrimSpace (mt_TenantID t) ∉ seen) l.
Proof.
  induction l as [|t l IH]; intros i seen seen' H; cbn [validate_tenants] in H.
  { injection H as <-. split_and!; [done|constructor|set_solver|done]. }
  case_bool_decide as Hid; [done|]. case_bool_decide as Hseen; [done|].
  assert (Hrest : tenant_good t → validate_tenants (S i) l ({[TrimSpace (mt_TenantID t)]} ∪ seen) = inl seen' →
    Forall tenant_good (t :: l) ∧ NoDup (map (λ t, TrimSpace (mt_TenantID t)) (t :: l)) ∧
    seen' = list_to_set (map (λ t, TrimSpace (mt_TenantID t)) (t :: l)) ∪ seen ∧
    Forall (λ t, TrimSpace (mt_TenantID t) ∉ seen) (t :: l)).
  { intros Hg (H1 & H2 & H3 & H4)%IH. rewrite list.Forall_forall in H4. cbn. split_and!.
    - by constructor.
    - constructor; [|done]. intros (t2 & Ht2 & Hin)%list_elem_of_fmap. apply H4 in Hin. set_solver.
    - set_solver.
    - constructor; [done|]. apply list.Forall_forall. intros t2 Hin%H4. set_solver. }
  case_bool_decide as Hp.
  { destruct (mt_SES t) as [s|] eqn:Es; [|done]. case_bool_decide as Hr; [done|]. apply Hrest; [|done].
    split; [done|]. left. eauto. }
  case_bool_decide as Hp2; [|done]. destruct (mt_OCIEmail t) as [o|] eqn:Eo; [|done].
  case_bool_decide as Hr; [done|]. apply Hrest; [|done]. split; [done|]. right. eauto.
Qed.
Lemma validate_users_ok l seen : ∀ i, validate_users i l seen = None → Forall (λ u, TrimSpace (mu_TenantID u) ∈ seen) l.
Proof.
  induction l as [|u l IH]; intros i H; [done|]. cbn in H.
  repeat (case_bool_decide; [done|]). constructor; [done|by eapply IH].
Qed.
Lemma validate_ok c : validate c = None → Forall tenant_good (mc_Tenants c) ∧
  NoDup (map (λ t, TrimSpace (mt_TenantID t)) (mc_Tenants c)) ∧
  Forall (λ u, ∃ t, t ∈ mc_Tenants c ∧ TrimSpace (mt_TenantID t) = TrimSpace (mu_TenantID u)) (Users c).
Proof.
  unfold validate. intros H. destruct (mc_Tenants c) as [|t l] eqn:El; [done|]. rewrite <- El in *. clear t l El.
  destruct (validate_tenants _ _ _) as [seen|] eqn:E; [|done]. apply validate_tenants_ok in E as (H1 & H2 & -> & _).
  apply validate_users_ok in H. split; [done|]. split; [done|]. eapply list.Forall_impl; [exact H|].
  intros u Hu. rewrite union_empty_r_L, elem_of_list_to_set in Hu. apply list_elem_of_fmap in Hu as (t & Ht & Hin). eauto.
Qed.

(** ** What the program makes of a tenant *)
Lemma good_recorded t : tenant_good t → (∀ o, mt_OCIEmail t = Some o → oci_Password o ≠ []) → ∃ t', recorded t t'.
Proof.
  intros [Hid Hp] Ho. unfold recorded, parseTenantRecord, validateTenantSendConfig, send_of. cbn.
  rewrite bool_decide_eq_false_2 by done. destruct Hp as [[-> (s & -> & Hs)]|[-> (o & Eo & Hu)]].
  - rewrite bool_decide_eq_true_2 by done. unfold validate_ses. destruct (TrimSpace (ses_Region s)) eqn:E; [done|].
    eexists. split; [done|]. by split.
  - rewrite bool_decide_eq_false_2, bool_decide_eq_true_2 by done. rewrite Eo. unfold validate_oci.
    rewrite !bool_decide_eq_false_2 by eauto. eexists. split; [done|]. by split.
Qed.
Lemma all_recorded l : Forall tenant_good l → Forall (λ t, ∀ o, mt_OCIEmail t = Some o → oci_Password o ≠ []) l →
  ∃ ts, Forall2 recorded l ts.
Proof.
  induction 1 as [|t l Ht Hl IH]; intros Ho; [by exists []|]. apply list.Forall_cons in Ho as [Ho1 Ho2].
  destruct (good_recorded t Ht Ho1) as [t' ?]. destruct (IH Ho2) as [ts ?]. exists (t' :: ts). by constructor.
Qed.
Lemma recorded_parse l ts : Forall2 recorded l ts → ∀ i, parse_records i (map (λ t, json_of t false) l) = Ok ts.
Proof. induction 1 as [|t t' l ts (Ht & _) _ IH]; intros i; [done|]. cbn. by rewrite Ht, IH. Qed.
Lemma recorded_elsewhere x l ts : Forall2 recorded l ts → x ∉ map (λ t, TrimSpace (mt_TenantID t)) l →
  filter (λ t, TenantID t = x) ts = [].
Proof.
  induction 1 as [|t t' l ts (_ & Ht & _) _ IH]; intros Hx; [done|]. cbn in Hx. apply not_elem_of_cons in Hx as [Hx1 Hx2].
  rewrite filter_cons, decide_False by congruence. by apply IH.
Qed.
Lemma recorded_last l ts t : Forall2 recorded l ts → NoDup (map (λ t, TrimSpace (mt_TenantID t)) l) → t ∈ l →
  ∃ t', recorded t t' ∧ list.last (filter (λ t', TenantID t' = TrimSpace (mt_TenantID t)) ts) = Some t'.
Proof.
  induction 1 as [|y y' l ts Hy Hl IH]; intros Hn Ht; [by apply elem_of_nil in Ht|].
  cbn in Hn. apply list.NoDup_cons in Hn as [Hn1 Hn2]. rewrite filter_cons. pose proof Hy as (_ & Hid & _).
  apply elem_of_cons in Ht as [->|Ht].
  - rewrite decide_True by done. rewrite (recorded_elsewhere _ _ _ Hl Hn1). by exists y'.
  - rewrite decide_False; [by apply IH|]. rewrite Hid. intros E. apply Hn1, list_elem_of_fmap. by exists t.
Qed.

Lemma headers_checked c order r : order ≡ₚ map_to_list (RequiredHeaders c) → authorized c r → checkRequiredHeaders order r = None.
Proof.
  intros Ho Ha. assert (Forall (λ p, TrimSpace (rq_Header r p.1) = p.2) order) as Hf.
  { apply list.Forall_forall. intros [name want] Hin. rewrite Ho in Hin. apply elem_of_map_to_list in Hin. by apply (Ha name want). }
  clear Ho. induction Hf as [|[name want] order Hw _ IH]; [done|]. cbn in *. by rewrite bool_decide_eq_false_2 by auto.
Qed.
Lemma findTenant_tidy c id t : tidy c → t ∈ mc_Tenants c → TrimSpace (mt_TenantID t) = TrimSpace id →
  ∃ t2, findTenant c id = Some t2 ∧ t2 ∈ mc_Tenants c ∧ TrimSpace (mt_TenantID t2) = TrimSpace id.
Proof.
  intros [Ht _] Hin E. rewrite list.Forall_forall in Ht. unfold findTenant.
  assert (Hm : t ∈ filter (λ t, mt_TenantID t = TrimSpace id) (mc_Tenants c)).
  { apply list.list_elem_of_filter. split; [by rewrite <- (Ht t Hin)|done]. }
  destruct (filter _ _) as [|t2 l] eqn:El; [by apply elem_of_nil in Hm|]. exists t2. split; [done|].
  assert (t2 ∈ filter (λ t, mt_TenantID t = TrimSpace id) (mc_Tenants c)) as [E2 Hin2]%list.list_elem_of_filter by (rewrite El; left).
  split; [done|]. by rewrite (Ht t2 Hin2).
Qed.
Lemma findUser_some c user pw u : findUser c user pw = Some u → u ∈ Users c ∧ credentials_of user pw u.
Proof.
  unfold findUser. intros H%head_Some_elem_of%list.list_elem_of_filter. by destruct H.
Qed.
Lemma findUser_none c user pw u : findUser c user pw = None → u ∈ Users c → ¬ credentials_of user pw u.
Proof.
  unfold findUser. intros H Hu Hc. destruct (filter _ _) as [|x l] eqn:E; [|done].
  assert (u ∈ filter (λ u, mu_Username u = TrimSpace user ∧ mu_Password u = pw) (Users c)) as Hin by (by apply list.list_elem_of_filter).
  rewrite E in Hin. by apply elem_of_nil in Hin.
Qed.
End Proofs.

Section Together.
Context {U : Unicode} {J : MockJSON} {TD : TenantDecoder} {AD : AuthDecoder}.
Context (encode_login : httpAuthRequest → bytes) (header : gmap bytes bytes → bytes → bytes).

(** C31. The authenticator and the registry of tenants agree, over the one service that answers both. Its file must
    load, and be [tidy]: ids are written without spaces around them, and each tenant of OCI has a password; that a file which
    loads can fail both is shown by [untidy_id_is_not_found] and [password_is_not_validated]. The requests carry the headers that
    the file requires, and JSON is decoded to what was encoded. Then a refresh of the registry succeeds; and the
    authenticator accepts exactly the users of the file with their passwords, each with the credentials that the
    registry has for its tenant, which it always has. *)
Theorem mock_is_consistent c orderA orderT rT h reg now ident user pw e :
  validate c = None → tidy c →
  orderA ≡ₚ map_to_list (RequiredHeaders c) → orderT ≡ₚ map_to_list (RequiredHeaders c) →
  faithful encode_login c (mkHttpAuthRequest ident user pw (RemoteIP e) (e_Helo e) (TLS e)) →
  rq_Method rT = bs "GET" → authorized c rT → (∀ m b, authorized c (mkRequest m (header (ha_Headers h)) b)) →
  let '(err, reg') := Refresh (Some (handleTenants c orderT rT)) reg in
  let answer := @http_AuthenticatePlain U TD (mock_server c orderA encode_login header) AD h now ident user pw e in
  err = None ∧
  ((∃ u, u ∈ Users c ∧ credentials_of user pw u) →
     ∃ u t, u ∈ Users c ∧ credentials_of user pw u ∧ Get (mu_TenantID u) reg' = Some t ∧
       answer = inl (mkAuthResult true (TenantSendFromTenant (Some t)))) ∧
  ((¬ ∃ u, u ∈ Users c ∧ credentials_of user pw u) → answer = inl (mkAuthResult false None)).
Proof.
  intros Hv Ht HoA HoT [Hlogin Href Hok Hauth Htens] Hget HaT HaA.
  destruct (validate_ok c Hv) as (Hgood & Hnd & Husers). destruct (all_recorded _ Hgood (proj2 Ht)) as [ts Hts].
  unfold handleTenants. rewrite Hget, bool_decide_eq_false_2 by auto. rewrite (headers_checked c orderT rT HoT HaT).
  unfold Refresh. cbn [Z.ltb Z.leb Z.compare Pos.compare Pos.compare_cont orb]. unfold ParseTenantsList. rewrite Htens.
  rewrite (recorded_parse _ _ Hts). split; [done|].
  assert (Hreg : ∀ id t, t ∈ mc_Tenants c → TrimSpace (mt_TenantID t) = TrimSpace id →
    ∃ t', recorded t t' ∧ Get id (applyTenants ts reg) = Some t').
  { intros id t Hin E. destruct (recorded_last _ _ t Hts Hnd Hin) as (t' & Hr & Hl). exists t'. split; [done|].
    unfold Get. cbn. rewrite applyTenants_lookup, <- E, Hl. done. }
  unfold http_AuthenticatePlain, auth_exchange, mock_server, handleAuth. cbn [rq_Method rq_Body].
  rewrite bool_decide_eq_false_2 by auto. rewrite (headers_checked c orderA _ HoA (HaA _ _)). rewrite Hlogin. cbn [Username Password].
  destruct (findUser c user pw) as [u|] eqn:Eu.
  - apply findUser_some in Eu as [Hu Hcr]. split; [intros _|by intros []; eauto].
    rewrite list.Forall_forall in Husers. destruct (Husers u Hu) as (t & Hin & E).
    destruct (findTenant_tidy c (mu_TenantID u) t Ht Hin E) as (t2 & -> & Hin2 & E2).
    destruct (Hreg _ _ Hin2 E2) as (t' & (_ & _ & Hval) & Hg). exists u, t'. split_and!; [done..|].
    rewrite list.Forall_forall in Hok, Hauth. change ((200 <? 200)%Z || (300 <=? 200)%Z) with false. cbv iota beta. rewrite (Hok t2 Hin2).
    unfold ParseTenantSendConfigFromAuth. rewrite (Hauth t2 Hin2). cbn [j_TenantID auth_json].
    rewrite list.Forall_forall in Hgood. rewrite bool_decide_eq_false_2 by apply (Hgood t2 Hin2). by rewrite Hval.
  - split; [|intros _; by rewrite Href]. intros (u & Hu & Hcr). by destruct (findUser_none c user pw u Eu Hu).
Qed.
End Together.

(** A file that loads is one that validates, with an address to listen on. *)
Lemma loadMockConfig_ok `{Unicode} `{MockJSON} path c : loadMockConfig path = inl c → validate c = None ∧ TrimSpace (Listen c) ≠ [].
Proof.
  unfold loadMockConfig. destruct (read_mock path) as [data|]; [|done]. destruct (decode_mock data) as [c0|]; [|done].
  case_bool_decide as Hl; (destruct (validate _) eqn:Ev; [done|]); intros [= <-]; (split; [done|]); [by vm_compute|done].
Qed.

(** ** Concrete files *)
Lemma mock_is_consistent_witness :
  ∃ t, Get "example" (test_refreshed test_mock).2 = Some t ∧
    test_asked test_mock "relay@example.com" "secret" mock_mail = inl (mkAuthResult true (TenantSendFromTenant (Some t))).
Proof.
  assert (Hh : ∀ m b, authorized test_mock (mkRequest m (test_header (ha_Headers test_http_auth)) b)).
  { intros m b name want H. cbn in H. change (({[ bs "X-Auth-Token" := bs "local-dev" ]} : gmap bytes bytes) !! name = Some want) in H.
    apply lookup_singleton_Some in H as [<- <-]. vm_compute. reflexivity. }
  assert (Ho : [(bs "X-Auth-Token", bs "local-dev")] ≡ₚ map_to_list (RequiredHeaders test_mock)) by (vm_compute; reflexivity).
  pose proof (@mock_is_consistent ascii_only (test_mock_json test_mock) (test_mock_tenants test_mock) test_mock_ok test_login test_header
    test_mock [(bs "X-Auth-Token", bs "local-dev")] [(bs "X-Auth-Token", bs "local-dev")] test_get test_http_auth (mkRegistry (mkRegistryConfig [] 0 0 ∅) ∅ [] []) 0 [] "relay@example.com" "secret" mock_mail
    ltac:(vm_compute; reflexivity)) as H.
  specialize (H ltac:(split; repeat constructor; intros o [= <-]; discriminate) Ho Ho).
  specialize (H ltac:(constructor; repeat constructor; vm_compute; reflexivity) eq_refl (Hh _ _) (λ m b, Hh m b)).
  fold (test_refreshed test_mock) in H. fold (test_asked test_mock "relay@example.com" "secret" mock_mail) in H.
  destruct (test_refreshed test_mock) as [err reg']. cbv zeta in H. destruct H as (_ & H & _).
  destruct H as (u & t & Hu & _ & Hg & Ha).
  { exists (mkMockUser "relay@example.com" "secret" "example"). split; [left|split; vm_compute; reflexivity]. }
  apply list_elem_of_singleton in Hu. subst u. exists t. split; [exact Hg|exact Ha].
Defined.
(** An id with a space around it loads, but is never found: the login fails with status 500. *)
Example untidy_id_is_not_found :
  @validate ascii_only (mock_of " example" "pw") = None ∧
  test_asked (mock_of " example" "pw") "relay@example.com" "secret" mock_mail = inl (mkAuthResult false None) ∧
  (test_refreshed (mock_of " example" "pw")).1 = None.
Proof. repeat split; vm_compute; reflexivity. Qed.
(** A tenant of OCI without a password loads here, but the program refuses it: no user of it can log in, and the whole
    refresh of the registry fails. *)
Example password_is_not_validated :
  @validate ascii_only (mock_of "example" []) = None ∧
  test_asked (mock_of "example" []) "relay@example.com" "secret" mock_mail = inr (ae_tenant te_oci_password) ∧
  (test_refreshed (mock_of "example" [])).1 = Some (te_index 0 te_oci_password).
Proof. repeat split; vm_compute; reflexivity. Qed.
