(* ===== verification/Backend.v ===== *)
(** * What a session knows of a backend: backends/backend.go, validate.go, processor.go

    Results and their SMTP codes, the errors of recipient validation, and the
    interface through which the server talks to its backend. The gateway
    (Gateway.v) is the implementation. *)
From S2P Require Import Prelude GoStd Shared Envelope.

(** A result is a text; [BackendResultOK] is the one that is compared by identity. *)
Inductive Result : Type :=
| BackendResultOK
| MkResult (text : bytes).
#[export] Instance Result_eq_dec : EqDecision Result.
Proof. solve_decision. Defined.

Definition result_String (r : Result) : bytes :=
  match r with BackendResultOK => "200 OK" | MkResult t => t end.

Definition Code (r : Result) : Z :=
  let trimmed := TrimSpace (result_String r) in
  if length trimmed <? 3 then 554
  else match Atoi (take 3 trimmed) with Some c => c | None => 554 end.

(** [NewResult]: the texts of its arguments, joined. *)
Definition NewResult (items : list bytes) : Result := MkResult (concat items).

(** The errors of validate.go. *)
Inductive RcptError : Type :=
| NoSuchUser
| StorageNotAvailable
| StorageTooBusy
| StorageTimeout
| QuotaExceeded
| UserSuspended
| StorageError
| OtherRcptError (m : bytes).
#[export] Instance RcptError_eq_dec : EqDecision RcptError.
Proof. solve_decision. Defined.
Definition RcptError_text (e : RcptError) : bytes :=
  match e with
  | NoSuchUser => "no such user"
  | StorageNotAvailable => "storage not available"
  | StorageTooBusy => "storage too busy"
  | StorageTimeout => "storage timeout"
  | QuotaExceeded => "quota exceeded"
  | UserSuspended => "user suspended"
  | StorageError => "storage error"
  | OtherRcptError m => m
  end.

(** The backend at a moment: validation of the last recipient of an envelope, and
    processing, which may panic. Both are given the envelope itself, and may change it. *)
Class Backend := {
  ValidateRcpt : nat → Envelope → option RcptError * Envelope;
  Process : nat → Envelope → outcome unit Result * Envelope
}.

(** What the server relies on: processing leaves the session's data alone, and its
    panics are caught; validation leaves the transaction alone. *)
Class BackendLaws `{Backend} := {
  process_returns t e : ∃ r, fst (Process t e) = Ok r;
  process_session t e : let e' := snd (Process t e) in
    RemoteIP e' = RemoteIP e ∧ e_Helo e' = e_Helo e ∧ TLS e' = TLS e ∧ ESMTP e' = ESMTP e;
  validate_transaction t e : let e' := snd (ValidateRcpt t e) in
    e_MailFrom e' = e_MailFrom e ∧ e_RcptTo e' = e_RcptTo e ∧ Data e' = Data e ∧ Values e' = Values e ∧ TLS e' = TLS e
}.

(** The code of a reply of the gateway that reports a failure. *)
Lemma Code_554 t : Code (MkResult ("554" ++ t)) = 554%Z.
Proof.
  unfold Code. cbn [result_String]. destruct (TrimSpace_solid "5" [("5")%char] "4" t eq_refl eq_refl) as [t' E].
  cbn in E. cbn [bs String.list_ascii_of_string app]. rewrite E. reflexivity.
Qed.
