(* ===== verification/Client.v ===== *)
(** * The client of a session: client.go

    The data a session keeps, the buffered replies, the SMTP transaction and the
    reading of paths. Methods are computations on the state of a session: the
    client, the trace of what the outside world has seen, and the clock that
    numbers the calls to it. *)
From S2P Require Import Prelude GoStd Response Rfc5321 Shared Envelope Config Tenant Reader Auth Backend.

Inductive ClientState : Type := ClientGreeting | ClientCmd | ClientData | ClientStartTLS | ClientShutdown.
#[export] Instance ClientState_eq_dec : EqDecision ClientState.
Proof. solve_decision. Defined.

(** [alive] is [KilledAt.IsZero()]. The bytes buffered for the connection and the
    sticky error of its writer are [bufout] and [w_err]. *)
Record client := mkClient {
  c_env : Envelope;
  ID : Z;
  alive : bool;
  Authed : bool;
  AuthUser : bytes;
  AuthTenant : option TenantSendConfig;
  errors : Z;
  state : ClientState;
  messagesSent : Z;
  bufErr : bool;
  bufin : smtpBufferedReader;
  bufout : bytes;
  w_err : bool;
  parser : Parser
}.

(** What the peer, the authenticator and the backend see of a session, with the time
    of each event. *)
Inductive event : Type :=
| Sent (b : bytes)
| Secured
| AuthAsked (t : nat) (ident username password : bytes) (answer : AuthResult + auth_error)
| Accepted (t : nat) (rcpt : Address) (authed : bool)
| Delivered (t : nat) (e : Envelope) (authed : bool).

Record session := mkSession {
  c : client;
  trace : list event;
  now : nat;
  advertiseTLS : bool
}.

(** Why [handleClient] returned before the client was killed. *)
Inductive exit : Type := ConnectionClosed | TimedOut | BufferError | WriteError.

Abbreviation Ses := (M session exit).

(** ** The outside world of a session

    All that a session asks of its connection, at a given time. *)
Class World := {
  (** the stream after a TLS handshake, or a failed handshake *)
  handshake : option stream;
  (** whether a write to the connection succeeds *)
  write_ok : nat → bool;
  (** whether setting the deadline of the connection succeeds *)
  deadline_ok : nat → bool
}.

(** ** Field updates *)
Definition upd (f : client → client) : Ses unit :=
  modify (λ s, mkSession (f (c s)) (trace s) (now s) (advertiseTLS s)).
Definition set_env (e : Envelope) (x : client) : client :=
  mkClient e (ID x) (alive x) (Authed x) (AuthUser x) (AuthTenant x) (errors x) (state x) (messagesSent x)
    (bufErr x) (bufin x) (bufout x) (w_err x) (parser x).
Definition set_state (v : ClientState) (x : client) : client :=
  mkClient (c_env x) (ID x) (alive x) (Authed x) (AuthUser x) (AuthTenant x) (errors x) v (messagesSent x)
    (bufErr x) (bufin x) (bufout x) (w_err x) (parser x).
Definition set_auth (a : bool) (u : bytes) (t : option TenantSendConfig) (x : client) : client :=
  mkClient (c_env x) (ID x) (alive x) a u t (errors x) (state x) (messagesSent x)
    (bufErr x) (bufin x) (bufout x) (w_err x) (parser x).
Definition set_errors (v : Z) (x : client) : client :=
  mkClient (c_env x) (ID x) (alive x) (Authed x) (AuthUser x) (AuthTenant x) v (state x) (messagesSent x)
    (bufErr x) (bufin x) (bufout x) (w_err x) (parser x).
Definition set_sent (v : Z) (x : client) : client :=
  mkClient (c_env x) (ID x) (alive x) (Authed x) (AuthUser x) (AuthTenant x) (errors x) (state x) v
    (bufErr x) (bufin x) (bufout x) (w_err x) (parser x).
Definition set_bufin (r : smtpBufferedReader) (x : client) : client :=
  mkClient (c_env x) (ID x) (alive x) (Authed x) (AuthUser x) (AuthTenant x) (errors x) (state x)
    (messagesSent x) (bufErr x) r (bufout x) (w_err x) (parser x).
Definition set_out (be : bool) (b : bytes) (e : bool) (x : client) : client :=
  mkClient (c_env x) (ID x) (alive x) (Authed x) (AuthUser x) (AuthTenant x) (errors x) (state x)
    (messagesSent x) be (bufin x) b e (parser x).
Definition set_parser (p : Parser) (x : client) : client :=
  mkClient (c_env x) (ID x) (alive x) (Authed x) (AuthUser x) (AuthTenant x) (errors x) (state x)
    (messagesSent x) (bufErr x) (bufin x) (bufout x) (w_err x) p.
Definition killed (x : client) : client :=
  mkClient (c_env x) (ID x) false (Authed x) (AuthUser x) (AuthTenant x) (errors x) (state x)
    (messagesSent x) (bufErr x) (bufin x) (bufout x) (w_err x) (parser x).

Definition upd_env (f : Envelope → Envelope) : Ses unit := upd (λ x, set_env (f (c_env x)) x).
Definition emit (ev : event) : Ses unit :=
  modify (λ s, mkSession (c s) (trace s ++ [ev]) (now s) (advertiseTLS s)).
Definition set_advertiseTLS (b : bool) : Ses unit := modify (λ s, mkSession (c s) (trace s) (now s) b).
(** The time of a call to the outside, which advances the clock. *)
Definition clock : Ses nat := λ s, (Ok (now s), mkSession (c s) (trace s) (S (now s)) (advertiseTLS s)).
Definition cl {A} (f : client → A) : Ses A := gets (λ s, f (c s)).

Section Client.
Context {W : World}.

(** ** bufio.Writer over the connection *)

(** [Flush]: nothing to do without data; an error stays. *)
Definition w_Flush : Ses bool :=
  x ← cl id;
  if w_err x then mret false
  else match bufout x with
       | [] => mret true
       | b => t ← clock;
              if write_ok t then
                emit (Sent b);; upd (λ x, set_out (bufErr x) [] false x);; mret true
              else upd (λ x, set_out (bufErr x) (bufout x) true x);; mret false
       end.

Definition w_size : nat := Z.to_nat 4096.

(** [WriteString]: the buffer is flushed whenever it is full. *)
Fixpoint w_WriteString_loop (fuel : nat) (s : bytes) : Ses bool :=
  match fuel with
  | 0 => out_of_fuel
  | S f =>
      x ← cl id;
      let avail := w_size - length (bufout x) in
      if (avail <? length s) && negb (w_err x) then
        upd (set_out (bufErr x) (bufout x ++ take avail s) (w_err x));;
        ok ← w_Flush;
        w_WriteString_loop f (drop avail s)
      else if w_err x then mret false
      else upd (set_out (bufErr x) (bufout x ++ s) (w_err x));; mret true
  end.
Definition w_WriteString (s : bytes) : Ses bool := w_WriteString_loop (length s + 2) s.

(** ** Replies *)

(** The texts of a reply; a write that fails ends it. *)
Fixpoint write_items (r : list bytes) : Ses bool :=
  match r with
  | [] => mret true
  | out :: r' =>
      ok ← w_WriteString out;
      if (ok : bool) then write_items r' else mret false
  end.
(** [sendResponse]: what was not flushed before is dropped. *)
Definition sendResponse (r : list bytes) : Ses unit :=
  upd (set_out false [] false);;
  ok ← write_items r;
  ok' ← (if (ok : bool) then w_WriteString [CR; LF] else mret false);
  upd (λ x, set_out (negb ok') (bufout x) (w_err x) x).

Definition resetTransaction : Ses unit := upd_env ResetTransaction.

Definition isInTransaction (x : client) : bool :=
  negb (bool_decide (User (e_MailFrom (c_env x)) = []) && negb (a_NullPath (e_MailFrom (c_env x)))).

Definition kill : Ses unit := upd killed.
Definition isAlive (x : client) : bool := alive x.

(** [setTimeout] on an open connection. *)
Definition setTimeout : Ses bool := t ← clock; mret (deadline_ok t).

(** [upgradeToTLS]: the readers and writers start over on the encrypted
    connection, so that nothing that was sent in the clear is read after it. *)
Definition upgradeToTLS : Ses bool :=
  match handshake with
  | None => mret false
  | Some s =>
      upd (λ x, set_out (bufErr x) [] false x);;
      upd (λ x, set_bufin (reader_Reset s (bufin x)) x);;
      upd_env (set_TLS true);;
      emit Secured;;
      mret true
  end.

(** ** Paths *)
Definition path_address (p : Parser) : Address :=
  mkAddress (LocalPart p) (Domain p) (Rfc5321.ADL p) (Rfc5321.PathParams p) (Rfc5321.NullPath p)
    (LocalPartQuotes p) (p_IP p) [] false.

(** A call of a method of [client.parser]. *)
Definition parse {A} (m : P A) : Ses (A + parse_error) := λ s,
  let put q := mkSession (set_parser q (c s)) (trace s) (now s) (advertiseTLS s) in
  match m (parser (c s)) with
  | (Ok a, q) => (Ok (inl a), put q)
  | (Err e, q) => (Ok (inr e), put q)
  | (Panic, q) => (Panic, put q)
  | (OutOfFuel, q) => (OutOfFuel, put q)
  end.

(** [parsePath]: the address, and the text of the error. *)
Definition parsePath (in_ : bytes) (p : bytes → P unit) : Ses (Address * option bytes) :=
  if LimitPath <? length in_ then mret (zero_Address, Some (text Canned.FailPathTooLong))
  else
    err ← parse (p in_);
    q ← cl parser;
    match (err : unit + parse_error) with
    | inr _ => mret (zero_Address, Some (text Canned.FailInvalidAddress))
    | inl _ =>
        if Rfc5321.NullPath q then mret (zero_Address, None)
        else if LimitLocalPart <? length (LocalPart q) then
          mret (zero_Address, Some (text Canned.FailLocalPartTooLong))
        else if LimitDomain <? length (Domain q) then
          mret (zero_Address, Some (text Canned.FailDomainTooLong))
        else mret (path_address q, None)
    end.
End Client.

(** [NewClient] and [init]: the state at the start of a session, with an envelope
    from the pool; the parser of a client that is used again is the old one. *)
Definition NewClient (conn : stream) (clientID : Z) (e : Envelope) : client :=
  mkClient e clientID true false [] None 0 ClientGreeting 0 false (newSMTPBufferedReader conn) [] false
    zero_Parser.
Definition client_init (conn : stream) (clientID : Z) (e : Envelope) (x : client) : client :=
  mkClient e clientID true false [] None 0 ClientGreeting (messagesSent x) (bufErr x)
    (reader_Reset conn (bufin x)) [] false (parser x).
