(* ===== verification/Server.v ===== *)
(** * The SMTP session: server.go

    The allowed hosts, the commands, and [handleClient] as a loop over the state of
    the client. Everything that may change under a session (hosts and authenticator on a
    configuration reload, the shutdown flag) is a function of the time of the call. *)
From S2P Require Import Prelude GoStd Response Rfc5321 Shared Envelope Config Tenant Reader Auth Backend Client.

Definition CommandVerbMaxLength : nat := 16.
Definition MaxUnrecognizedCommands : Z := 5.

(** ** path/filepath.Match, on ASCII *)

(** One element of a class, and what follows it; [None] is a bad pattern. *)
Definition getEsc (p : bytes) : option (ascii * bytes) :=
  match p with
  | [] => None
  | c :: p' =>
      if bool_decide (c = "-"%char) || bool_decide (c = "]"%char) then None
      else if bool_decide (c = "\"%char) then
        match p' with
        | d :: (_ :: _) as p'' => Some (d, drop 1 p'')
        | _ => None
        end
      else match p' with [] => None | _ => Some (c, p') end
  end.
(** The ranges of a class up to its bracket: whether the byte is in one of them. *)
Fixpoint class_ranges (fuel nrange : nat) (c : ascii) (m : bool) (p : bytes) : option (bool * bytes) :=
  match fuel with
  | 0 => None
  | S f =>
      match p with
      | "]"%char :: p' =>
          if 0 <? nrange then Some (m, p') else None
      | _ =>
          '(lo, p1) ← getEsc p;
          match p1 with
          | "-"%char :: p2 =>
              '(hi, p3) ← getEsc p2; class_ranges f (S nrange) c (m || between lo hi c) p3
          | _ => class_ranges f (S nrange) c (m || between lo lo c) p1
          end
      end
  end.
Definition class_match (c : ascii) (p : bytes) : option (bool * bytes) :=
  match p with
  | "^"%char :: p' => '(m, r) ← class_ranges (length p) 0 c false p'; Some (negb m, r)
  | _ => class_ranges (length p) 0 c false p
  end.
Fixpoint glob (fuel : nat) (p s : bytes) : bool :=
  match fuel with
  | 0 => false
  | S f =>
      match p with
      | [] => match s with [] => true | _ => false end
      | "*"%char :: p' =>
          glob f p' s ||
          match s with c :: s' => negb (bool_decide (c = "/"%char)) && glob f p s' | [] => false end
      | "?"%char :: p' =>
          match s with c :: s' => negb (bool_decide (c = "/"%char)) && glob f p' s' | [] => false end
      | "["%char :: p' =>
          match s with
          | c :: s' => match class_match c p' with Some (m, r) => m && glob f r s' | None => false end
          | [] => false
          end
      | "\"%char :: p' =>
          match p', s with x :: p'', c :: s' => bool_decide (c = x) && glob f p'' s' | _, _ => false end
      | x :: p' => match s with c :: s' => bool_decide (c = x) && glob f p' s' | [] => false end
      end
  end.
(** [matched && err == nil]. *)
Definition Match (pattern name : bytes) : bool := glob (S (length pattern + length name)) pattern name.

(** ** Allowed hosts *)
Record allowedHosts := mkAllowedHosts { table : gset bytes; wildcards : list bytes }.

Section Hosts.
Context {U : Unicode}.

Definition add_host (h : bytes) (a : allowedHosts) : allowedHosts :=
  if Contains h "*" then mkAllowedHosts (table a) (wildcards a ++ [ToLower h])
  else if (5 <? length h) && bool_decide (head h = Some "["%char) && bool_decide (list.last h = Some "]"%char) then
    match ParseIP (take (length h - 2) (drop 1 h)) with
    | Some ip => mkAllowedHosts ({[ "[" ++ ip_string ip ++ "]" ]} ∪ table a) (wildcards a)
    | None => a
    end
  else mkAllowedHosts ({[ ToLower h ]} ∪ table a) (wildcards a).
Definition setAllowedHosts (l : list bytes) : allowedHosts :=
  foldl (λ a h, add_host h a) (mkAllowedHosts ∅ []) l.

Definition allowsHost (hosts : allowedHosts) (host : bytes) : bool :=
  ((size (table hosts) =? 1) && bool_decide (bs "." ∈ table hosts))
  || bool_decide (ToLower host ∈ table hosts)
  || existsb (λ w, Match w (ToLower host)) (wildcards hosts).
Definition allowsIp (hosts : allowedHosts) (ip : IP) : bool := allowsHost hosts ("[" ++ ip_string ip ++ "]").

(** Whether RCPT accepts an address without authentication. *)
Definition allowed_address (hosts : allowedHosts) (a : Address) : bool :=
  match a_IP a with Some ip => allowsIp hosts ip | None => allowsHost hosts (Host a) end.
End Hosts.

(** ** The server of a session

    [sc] is the configuration that [handleClient] loads when it starts; the
    functions of time are what the stores hold at that time. *)
Class Server := {
  sc : ServerConfig;
  config_at : nat → ServerConfig;
  hosts_at : nat → allowedHosts;
  authenticator_at : nat → option Authenticator;
  tls_config_at : nat → bool;
  shutting_down_at : nat → bool;
  quote_at : nat → bytes;
  version : bytes;
  active_clients : Z;
  start_time : bytes
}.

Definition match_cmd (c input : bytes) : bool := bool_decide (Index input c = Some 0).

Section Session.
Context {U : Unicode} {W : World} {B : Backend} {S : Server}.

(** [input[n:]] *)
Definition slice_from (n : nat) (input : bytes) : Ses bytes :=
  if n <=? length input then mret (drop n input) else panic.

(** ** Reading and flushing *)
Definition readCommand : Ses (bytes * option read_err) :=
  x ← cl id;
  match ReadSlice LF (bufin x) with
  | Ok (l, e, r) =>
      upd (set_bufin r);;
      match e with
      | Some e => mret (l, Some e)
      | None => if HasSuffix l [CR; LF] then mret (take (length l - 2) l, None)
                else mret (take (length l - 1) l, None)
      end
  | Err _ | Panic => panic
  | OutOfFuel => out_of_fuel
  end.

Definition flushResponse : Ses bool :=
  ok ← setTimeout;
  if (ok : bool) then w_Flush else mret false.

Definition isShuttingDown : Ses bool := t ← clock; mret (shutting_down_at t).
Definition authenticator : Ses (option Authenticator) := t ← clock; mret (authenticator_at t).

(** [defaultHost]; the warning about a host that is not allowed is only logged. *)
Definition defaultHost (a : Address) : Ses Address :=
  if bool_decide (Host a = []) && IsPostmaster a then
    t ← clock;
    mret (mkAddress (User a) (Hostname (config_at t)) (a_ADL a) (a_PathParams a) (a_NullPath a) (Quoted a)
            (a_IP a) (a_DisplayName a) (a_DisplayNameQuoted a))
  else mret a.

(** ** AUTH *)

(** A prompt and the line that answers it; [None] when the client was killed. *)
Definition prompt (q : bytes) : Ses (option bytes) :=
  sendResponse [q];;
  ok ← flushResponse;
  if (ok : bool) then
    '(resp, err) ← readCommand;
    match err with
    | Some _ => kill;; mret None
    | None => mret (Some (TrimSpace resp))
    end
  else kill;; mret None.

Definition field_or_empty (fields : list bytes) (i : nat) : bytes := default [] (fields !! i).

(** The [switch mech]: a [break] inside it leaves the switch only, with the
    credentials that were set so far. *)
Definition auth_plain (fields : list bytes) : Ses (bytes * bytes * bytes) :=
  let ir := field_or_empty fields 2 in
  resp ← (if bool_decide (ir = []) || bool_decide (ir = bs "=") then
            r ← prompt "334 ";
            match r with
            | None => mret None
            | Some ir => if bool_decide (ir = bs "*") then
                           sendResponse [bs "501 5.5.4 Authentication cancelled"];; mret None
                         else mret (Some ir)
            end
          else mret (Some ir));
  match (resp : option bytes) with
  | None => mret ([], [], [])
  | Some ir =>
      match parseAuthPlainIR ir with
      | Some cred => mret cred
      | None => sendResponse [bs "501 5.5.4 Invalid AUTH PLAIN response"];; mret ([], [], [])
      end
  end.
Definition auth_login (fields : list bytes) : Ses (bytes * bytes * bytes) :=
  let userB64 := field_or_empty fields 2 in
  resp ← (if bool_decide (userB64 = []) then
            r ← prompt "334 VXNlcm5hbWU6";
            match r with
            | None => mret None
            | Some u => if bool_decide (u = bs "*") then
                          sendResponse [bs "501 5.5.4 Authentication cancelled"];; mret None
                        else mret (Some u)
            end
          else mret (Some userB64));
  match (resp : option bytes) with
  | None => mret ([], [], [])
  | Some userB64 =>
      match decodeBase64Lenient userB64 with
      | None => sendResponse [bs "501 5.5.4 Invalid AUTH LOGIN username"];; mret ([], [], [])
      | Some username =>
          r ← prompt "334 UGFzc3dvcmQ6";
          match (r : option bytes) with
          | None => mret ([], username, [])
          | Some passB64 =>
              if bool_decide (passB64 = bs "*") then
                sendResponse [bs "501 5.5.4 Authentication cancelled"];; mret ([], username, [])
              else match decodeBase64Lenient passB64 with
                   | None => sendResponse [bs "501 5.5.4 Invalid AUTH LOGIN password"];; mret ([], username, [])
                   | Some password => mret ([], username, password)
                   end
          end
      end
  end.
Definition auth_credentials (fields : list bytes) : Ses (bytes * bytes * bytes) :=
  let mech := ToUpper (field_or_empty fields 1) in
  if bool_decide (mech = bs "PLAIN") then auth_plain fields
  else if bool_decide (mech = bs "LOGIN") then auth_login fields
  else sendResponse [bs "504 5.5.4 Unrecognized authentication type"];; mret ([], [], []).

Definition ask (ident username password : bytes) : Ses unit :=
  a ← authenticator;
  match (a : option Authenticator) with
  | None => panic
  | Some auth =>
      e ← cl c_env;
      t ← clock;
      let answer := @AuthenticatePlain auth t ident username password e in
      emit (AuthAsked t ident username password answer);;
      match answer with
      | inr _ => sendResponse [bs "454 4.7.0 Temporary authentication failure"]
      | inl r =>
          if OK r then
            upd (set_auth true username (ar_Tenant r));;
            sendResponse [bs "235 2.7.0 Authentication successful"]
          else sendResponse [bs "535 5.7.8 Authentication credentials invalid"]
      end
  end.

Definition do_AUTH (input : bytes) : Ses unit :=
  a ← authenticator;
  x ← cl id;
  match (a : option Authenticator) with
  | None => sendResponse [text Canned.FailUnrecognizedCmd]
  | Some _ =>
      if Authed x then sendResponse [bs "503 5.5.1 Already authenticated"]
      else if negb (ESMTP (c_env x)) then sendResponse [bs "503 5.5.1 AUTH not available"]
      else if isInTransaction x then sendResponse [bs "503 5.5.1 Bad sequence of commands"]
      else
        let fields := Fields input in
        if length fields <? 2 then sendResponse [bs "501 5.5.4 Syntax: AUTH PLAIN [initial-response]"]
        else
          '(ident, username, password) ← auth_credentials fields;
          ask ident username password
  end.

(** ** The other commands *)
Definition greeting : Ses bytes :=
  x ← cl id;
  mret (bs "220 " ++ Hostname sc ++ bs " SMTP Guerrilla(" ++ version ++ bs ") #" ++ Itoa (ID x) ++ bs " (" ++
        Itoa active_clients ++ bs ") " ++ start_time).

Definition do_HELO (input : bytes) : Ses unit :=
  arg ← slice_from 4 input;
  r ← parse (Helo arg);
  match (r : bytes + parse_error) with
  | inl h =>
      upd_env (set_Helo h);;
      resetTransaction;;
      sendResponse [bs "250 " ++ Hostname sc ++ bs " Hello"]
  | inr _ => sendResponse [text Canned.FailSyntaxError]
  end.

Definition ehlo_lines (advertise auth : bool) (tls : bool) : list bytes :=
  [bs "250-" ++ Hostname sc ++ bs " Hello"; bs "250-SIZE " ++ Itoa (MaxSize sc); bs "250-PIPELINING"] ++
  (if advertise then [bs "250-STARTTLS"] else []) ++
  [bs "250-ENHANCEDSTATUSCODES"] ++
  (if auth && negb (StartTLSOn (sc_TLS sc) && negb tls) then [bs "250-AUTH PLAIN LOGIN"] else []) ++
  [bs "250 HELP"].

Definition do_EHLO (input : bytes) : Ses unit :=
  arg ← slice_from 4 input;
  r ← parse (Ehlo arg);
  match (r : bytes * option IP + parse_error) with
  | inl (h, _) =>
      upd_env (set_Helo h);;
      upd_env (set_ESMTP true);;
      resetTransaction;;
      s ← get;
      a ← authenticator;
      sendResponse [Join (ehlo_lines (advertiseTLS s) (if (a : option Authenticator) is Some _ then true else false)
                            (TLS (c_env (c s)))) [CR; LF]]
  | inr _ =>
      sendResponse [text Canned.FailSyntaxError];;
      sendResponse [text Canned.FailSyntaxError]
  end.

Definition do_HELP : Ses unit :=
  t ← clock; sendResponse [bs "214-OK" ++ [CR; LF]; quote_at t].

(** One token of XCLIENT. *)
Definition xclient_token (tok : bytes) (e : Envelope) : Envelope :=
  match split_byte "=" tok with
  | [name; value] =>
      if bool_decide (value = bs "[UNAVAILABLE]") then e
      else
        let e1 := if bool_decide (name = bs "ADDR") then set_RemoteIP value e else e in
        if bool_decide (name = bs "HELO") then set_Helo value e1 else e1
  | _ => e
  end.
Definition do_XCLIENT (input : bytes) : Ses unit :=
  arg ← slice_from 8 input;
  upd_env (λ e, foldl (λ e tok, xclient_token tok e) e (split_byte " " arg));;
  sendResponse [text Canned.SuccessMailCmd].

Definition do_MAIL (input : bytes) : Ses unit :=
  x ← cl id;
  if isInTransaction x then sendResponse [text Canned.FailNestedMailCmd]
  else
    arg ← slice_from 10 input;
    '(a, err) ← parsePath arg Rfc5321.MailFrom;
    upd_env (set_MailFrom a);;
    match err with
    | Some m => sendResponse [m]
    | None =>
        x ← cl id;
        (if Rfc5321.NullPath (parser x) then upd_env (set_MailFrom zero_Address) else mret tt);;
        sendResponse [text Canned.SuccessMailCmd]
    end.

Definition do_RCPT (input : bytes) : Ses unit :=
  x ← cl id;
  if LimitRecipients <? length (e_RcptTo (c_env x)) then sendResponse [text Canned.ErrorTooManyRecipients]
  else
    arg ← slice_from 8 input;
    '(to, err) ← parsePath arg Rfc5321.RcptTo;
    match err with
    | Some m => sendResponse [m]
    | None =>
        to ← defaultHost to;
        t ← clock;
        x ← cl id;
        if negb (allowed_address (hosts_at t) to) && negb (Authed x) then
          a ← authenticator;
          match (a : option Authenticator) with
          | Some _ => sendResponse [bs "530 5.7.0 Authentication required"]
          | None => sendResponse [text Canned.ErrorRelayDenied; bs " "; Host to]
          end
        else
          upd_env (PushRcpt to);;
          e ← cl c_env;
          t' ← clock;
          let '(err, e') := ValidateRcpt t' e in
          upd_env (λ _, e');;
          match err with
          | Some err =>
              s ← get;
              match @PopRcpt unit (c_env (c s)) with
              | Ok (_, e') => upd (set_env e');; sendResponse [text Canned.FailRcptCmd; bs " "; RcptError_text err]
              | _ => panic
              end
          | None =>
              emit (Accepted t to (Authed x));;
              sendResponse [text Canned.SuccessRcptCmd]
          end
    end.

Definition do_DATA : Ses unit :=
  x ← cl id;
  match e_RcptTo (c_env x) with
  | [] => sendResponse [text Canned.FailNoRecipientsDataCmd]
  | _ => sendResponse [text Canned.SuccessDataCmd];; upd (set_state ClientData)
  end.

Definition do_unknown : Ses unit :=
  upd (λ x, set_errors (errors x + 1) x);;
  x ← cl id;
  if (MaxUnrecognizedCommands <=? errors x)%Z then
    sendResponse [text Canned.FailMaxUnrecognizedCmd];; kill
  else sendResponse [text Canned.FailUnrecognizedCmd].

(** The [switch] over the verb, in its order. *)
Definition command (input : bytes) : Ses unit :=
  let cmd := ToUpper (take CommandVerbMaxLength input) in
  if match_cmd "HELO" cmd then do_HELO input
  else if match_cmd "EHLO" cmd then do_EHLO input
  else if match_cmd "AUTH" cmd then do_AUTH input
  else if match_cmd "HELP" cmd then do_HELP
  else if XClientOn sc && match_cmd "XCLIENT" cmd then do_XCLIENT input
  else if match_cmd "MAIL FROM:" cmd then do_MAIL input
  else if match_cmd "RCPT TO:" cmd then do_RCPT input
  else if match_cmd "RSET" cmd then resetTransaction;; sendResponse [text Canned.SuccessResetCmd]
  else if match_cmd "VRFY" cmd then sendResponse [text Canned.SuccessVerifyCmd]
  else if match_cmd "NOOP" cmd then sendResponse [text Canned.SuccessNoopCmd]
  else if match_cmd "QUIT" cmd then sendResponse [text Canned.SuccessQuitCmd];; kill
  else if match_cmd "DATA" cmd then do_DATA
  else if StartTLSOn (sc_TLS sc) && match_cmd "STARTTLS" cmd then
    sendResponse [text Canned.SuccessStartTLSCmd];; upd (set_state ClientStartTLS)
  else do_unknown.

(** ** The states of a client *)

(** The result says whether the reply is flushed, or the loop continues at once. *)
Definition state_Cmd : Ses bool :=
  upd (λ x, set_bufin (setLimit CommandLineMaxLength (bufin x)) x);;
  '(input, err) ← readCommand;
  match err with
  | Some EOF => fail ConnectionClosed
  | Some Timeout => fail TimedOut
  | Some LineLimitExceeded => sendResponse [text Canned.FailLineTooLong];; kill;; mret true
  | Some _ => kill;; mret true
  | None =>
      down ← isShuttingDown;
      if (down : bool) then upd (set_state ClientShutdown);; mret false
      else command input;; mret true
  end.

Definition size_error : bytes := bs "maximum DATA size exceeded (" ++ Itoa (MaxSize sc) ++ bs ")".

Definition deliver : Ses unit :=
  x ← cl id;
  (if Authed x then upd_env (λ e, SetEnvelopeTenantSend e (AuthTenant x)) else mret tt);;
  e ← cl c_env;
  t ← clock;
  emit (Delivered t e (Authed x));;
  match Process t e with
  | (Ok res, e') =>
      upd (set_env e');;
      (if (Code res <? 300)%Z then upd (λ x, set_sent (messagesSent x + 1) x) else mret tt);;
      sendResponse [result_String res];;
      upd (set_state ClientCmd);;
      down ← isShuttingDown;
      (if (down : bool) then upd (set_state ClientShutdown) else mret tt);;
      resetTransaction
  | (Err _, _) | (Panic, _) => panic
  | (OutOfFuel, _) => out_of_fuel
  end.

Definition state_Data : Ses bool :=
  upd (λ x, set_bufin (setLimit (MaxSize sc + 1024000) (bufin x)) x);;
  x ← cl id;
  match ReadDot (bufin x) with
  | Ok (d, err, r) =>
      upd (set_bufin r);;
      upd_env (λ e, set_Data (Data e ++ d) e);;
      (if (MaxSize sc <? Z.of_nat (length d))%Z then
         sendResponse [text Canned.FailReadErrorDataCmd; bs " "; size_error];; kill;; resetTransaction
       else match err with
            | Some LineLimitExceeded =>
                sendResponse [text Canned.FailReadLimitExceededDataCmd; bs " "; err_text LineLimitExceeded];;
                kill;; resetTransaction
            | Some e =>
                sendResponse [text Canned.FailReadErrorDataCmd; bs " "; err_text e];; kill;; resetTransaction
            | None => deliver
            end);;
      mret true
  | Err _ | Panic => panic
  | OutOfFuel => out_of_fuel
  end.

Definition state_StartTLS : Ses bool :=
  x ← cl id;
  (if negb (TLS (c_env x)) && StartTLSOn (sc_TLS sc) then
     t ← clock;
     if tls_config_at t then
       ok ← upgradeToTLS;
       if (ok : bool) then
         set_advertiseTLS false;;
         resetTransaction;;
         upd (set_auth false [] None);;
         upd_env (set_ESMTP false)
       else kill
     else mret tt
   else mret tt);;
  upd (set_state ClientCmd);;
  mret true.

(** One round of the loop. *)
Definition turn : Ses unit :=
  x ← cl id;
  flush ← match state x with
          | ClientGreeting => g ← greeting; sendResponse [g];; upd (set_state ClientCmd);; mret true
          | ClientCmd => state_Cmd
          | ClientData => state_Data
          | ClientStartTLS => state_StartTLS
          | ClientShutdown => sendResponse [text Canned.ErrorShutdown];; kill;; mret true
          end;
  if (flush : bool) then
    x ← cl id;
    if bufErr x then fail BufferError
    else match bufout x with
         | [] => mret tt
         | _ => ok ← flushResponse;
                if (ok : bool) then mret tt else fail WriteError
         end
  else mret tt.

Fixpoint turns (fuel : nat) : Ses unit :=
  x ← cl id;
  if isAlive x then
    match fuel with
    | 0 => out_of_fuel
    | Datatypes.S f => turn;; turns f
    end
  else mret tt.

(** What comes before the loop. *)
Definition prologue : Ses unit :=
  set_advertiseTLS true;;
  (if AlwaysOn (sc_TLS sc) then
     t ← clock;
     if tls_config_at t then
       ok ← upgradeToTLS;
       if (ok : bool) then set_advertiseTLS false else kill
     else mret tt
   else mret tt);;
  (if StartTLSOn (sc_TLS sc) then mret tt else set_advertiseTLS false).

Definition handleClient (fuel : nat) : Ses unit := prologue;; turns fuel.
End Session.

(** ** Notions used by the statements *)

(** The entry of the host table that a configured host makes, if any. *)
Definition host_key `{Unicode} (h : bytes) : option bytes :=
  if Contains h "*" then None
  else if (5 <? length h) && bool_decide (head h = Some "["%char) && bool_decide (list.last h = Some "]"%char)
  then (λ ip, bs "[" ++ ip_string ip ++ bs "]") <$> ParseIP (take (length h - 2) (drop 1 h))
  else Some (ToLower h).

(** * Proofs *)
Section HostProofs.
Context {U : Unicode}.

Lemma add_host_table h a k : k ∈ table (add_host h a) ↔ k ∈ table a ∨ host_key h = Some k.
Proof.
  unfold add_host, host_key. destruct (Contains h "*"); cbn; [naive_solver|].
  destruct (_ && _ && _).
  - destruct (ParseIP _) as [ip|]; cbn; [|naive_solver]. rewrite elem_of_union, elem_of_singleton. naive_solver.
  - cbn. rewrite elem_of_union, elem_of_singleton. naive_solver.
Qed.
Lemma add_host_wildcards h a w : w ∈ wildcards (add_host h a) ↔ w ∈ wildcards a ∨ (Contains h "*" = true ∧ w = ToLower h).
Proof.
  unfold add_host. destruct (Contains h "*"); cbn.
  - rewrite elem_of_app, list_elem_of_singleton. naive_solver.
  - destruct (_ && _ && _); [destruct (ParseIP _)|]; cbn; naive_solver.
Qed.
Lemma setAllowedHosts_table l k : k ∈ table (setAllowedHosts l) ↔ ∃ h, h ∈ l ∧ host_key h = Some k.
Proof.
  unfold setAllowedHosts. induction l as [|h l IH] using rev_ind; cbn.
  - rewrite elem_of_empty. set_solver.
  - rewrite foldl_app. cbn. rewrite add_host_table, IH. setoid_rewrite elem_of_app.
    setoid_rewrite list_elem_of_singleton. naive_solver.
Qed.
Lemma setAllowedHosts_wildcards l w :
  w ∈ wildcards (setAllowedHosts l) ↔ ∃ h, h ∈ l ∧ Contains h "*" = true ∧ w = ToLower h.
Proof.
  unfold setAllowedHosts. induction l as [|h l IH] using rev_ind; cbn.
  - setoid_rewrite elem_of_nil. naive_solver.
  - rewrite foldl_app. cbn. rewrite add_host_wildcards, IH. setoid_rewrite elem_of_app.
    setoid_rewrite list_elem_of_singleton. naive_solver.
Qed.
Lemma only_dot (X : gset bytes) d : (size X =? 1) && bool_decide (d ∈ X) = true ↔ X = {[ d ]}.
Proof.
  rewrite andb_true_iff, Nat.eqb_eq, bool_decide_eq_true. split.
  - intros [Hs Hd]. apply size_1_elem_of in Hs as [x Hx]. set_solver.
  - intros ->. rewrite size_singleton. set_solver.
Qed.

(** C28. What the configured list of allowed hosts means. A host is accepted exactly if
    the list has it as a plain name, in any case; or has its address in brackets, in any
    of the spellings of the address (the normal form is what is compared); or has a
    pattern with a star that matches it, in any case; or the list comes to the single
    dot, which accepts every host. *)
Theorem allowsHost_spec l host :
  allowsHost (setAllowedHosts l) host = true ↔
  (∃ h, h ∈ l ∧ host_key h = Some (ToLower host)) ∨
  (∃ h, h ∈ l ∧ Contains h "*" = true ∧ Match (ToLower h) (ToLower host) = true) ∨
  ((∃ h, h ∈ l ∧ host_key h = Some (bs ".")) ∧ ∀ h k, h ∈ l → host_key h = Some k → k = bs ".").
Proof.
  unfold allowsHost. rewrite !orb_true_iff, only_dot, bool_decide_eq_true, existsb_exists.
  rewrite setAllowedHosts_table.
  assert ((∃ w, In w (wildcards (setAllowedHosts l)) ∧ Match w (ToLower host) = true) ↔
    ∃ h, h ∈ l ∧ Contains h "*" = true ∧ Match (ToLower h) (ToLower host) = true) as ->.
  { setoid_rewrite <- list_elem_of_In. setoid_rewrite setAllowedHosts_wildcards. naive_solver. }
  assert (table (setAllowedHosts l) = {[ bs "." ]} ↔
    (∃ h, h ∈ l ∧ host_key h = Some (bs ".")) ∧ ∀ h k, h ∈ l → host_key h = Some k → k = bs ".") as ->.
  { split.
    - intros E. split.
      + apply setAllowedHosts_table. rewrite E. set_solver.
      + intros h k Hh Hk. assert (k ∈ ({[ bs "." ]} : gset bytes)) as Hin;
          [rewrite <- E; apply setAllowedHosts_table; by exists h | by apply elem_of_singleton in Hin].
    - intros [H1 H2]. apply set_eq. intros k. rewrite setAllowedHosts_table, elem_of_singleton. split.
      + intros (h & Hh & Hk). by eapply H2.
      + by intros ->. }
  tauto.
Qed.
End HostProofs.

(** A star does not match a slash and a class is not a host name, but the wild cards of
    host names do what they say. *)
Example Match_examples :
  Match "*.example.org" "mx.example.org" = true ∧ Match "*.example.org" "example.org" = false ∧
  Match "mx?.[a-c]*" "mx1.b" = true ∧ Match "mx[" "mx[" = false.
Proof. repeat split; vm_compute; reflexivity. Qed.
