(* ===== verification/Session.v ===== *)
(** * The safety of a session

    The theorems about [handleClient] of Server.v: an invariant of every state of a
    session, kept by every command and every turn of the loop, from which follow that a
    session ends, that it does not relay, and what is true of every message that reaches
    the backend. *)
From S2P Require Import Prelude GoStd Response Rfc5321 Shared Envelope Config Tenant Reader Auth Backend Client Server.

(** ** Notions used by the statements *)

(** The bytes that the peer can still send, in the clear and, before the handshake,
    encrypted. *)
Definition bytes_left `{World} (x : client) : nat :=
  reader_size (bufin x) +
  (if TLS (c_env x) then 0 else match handshake with Some st => stream_size st | None => 0 end).
#[global] Arguments bytes_left : simpl never.

Definition is_Sent (ev : event) : Prop := match ev with Sent _ => True | _ => False end.

(** [s'] is [s] after input and output that the session state does not depend on: only
    the buffers, the clock, and the trace of what was sent have changed; a client may
    have been killed. *)
Record calm (s s' : session) : Prop := mkCalm {
  calm_env : c_env (c s') = c_env (c s);
  calm_alive : alive (c s') = true → alive (c s) = true;
  calm_auth : Authed (c s') = Authed (c s) ∧ AuthUser (c s') = AuthUser (c s) ∧ AuthTenant (c s') = AuthTenant (c s);
  calm_errors : errors (c s') = errors (c s);
  calm_state : state (c s') = state (c s);
  calm_parser : parser (c s') = parser (c s);
  calm_size : reader_size (bufin (c s')) ≤ reader_size (bufin (c s));
  calm_now : now s ≤ now s';
  calm_trace : ∃ out, trace s' = trace s ++ out ∧ Forall is_Sent out
}.

(** Upper-casing does not make ASCII text out of fewer bytes. *)
Class UnicodeLaws `{Unicode} : Prop :=
  upper_prefix s p : ascii_text p = true → HasPrefix (uni_upper s) p = true → length p ≤ length s.

(** What the theorems on sessions assume of the server. Its authenticator is not taken away while the session runs: a
    reload that leaves the program without authenticator (serve.go calls [SetAuthenticator(nil)]) breaks this, and
    then a client in the middle of its AUTH command can make the session panic (see
    [removed_authenticator_panics] below). And XCLIENT is off, because a bare XCLIENT panics (see [bare_XCLIENT_panics]). *)
Class ServerLaws `{Server} : Prop := {
  authenticator_stays t t' : t ≤ t' → is_Some (authenticator_at t) → is_Some (authenticator_at t');
  xclient_off : XClientOn sc = false
}.

Section Notions.
Context {U : Unicode} {W : World} {B : Backend} {Sv : Server}.

(** A computation that is calm. *)
Definition calmly {A} (m : Ses A) : Prop := ∀ s, wp m (λ _ s', calm s s') (λ _ _, False) s.

(** Neither a TLS handshake nor an answer of the authenticator that accepts. *)
Definition quiet (ev : event) : Prop :=
  match ev with Secured => False | AuthAsked _ _ _ _ (inl r) => OK r = false | _ => True end.
(** The authenticator has accepted the user [u], and has given [tn] as the tenant; since then it has
    accepted nobody, and there was no TLS handshake. *)
Definition auth_since (tr : list event) (u : bytes) (tn : option TenantSendConfig) : Prop :=
  ∃ pre t ident pw r post, tr = pre ++ AuthAsked t ident u pw (inl r) :: post ∧
    OK r = true ∧ ar_Tenant r = tn ∧ Forall quiet post.

(** Each address was allowed by the hosts of the server at a time before [t]. *)
Definition rcpts_allowed (t : nat) (l : list Address) : Prop :=
  Forall (λ a, ∃ t', t' < t ∧ allowed_address (hosts_at t') a = true) l.

(** The parts of an address are printable; a host that is not the client's is the
    server's own name. *)
Definition addr_clean (a : Address) : Prop :=
  Printable (User a) ∧ (Printable (Host a) ∨ ∃ t, Host a = Hostname (config_at t)).

(** What is true of an envelope [e] that is given to the backend at time [t], after
    the events [pre]; [a] says whether the session was authenticated. *)
Record delivery_ok (pre : list event) (t : nat) (e : Envelope) (a : bool) : Prop := mkDeliveryOk {
  d_rcpts : e_RcptTo e ≠ [] ∧ length (e_RcptTo e) ≤ LimitRecipients + 1;
  d_size : (Z.of_nat (length (Data e)) ≤ MaxSize sc)%Z;
  d_clean : addr_clean (e_MailFrom e) ∧ Forall addr_clean (e_RcptTo e);
  d_relay : a = true ∨ rcpts_allowed t (e_RcptTo e);
  d_tenant : if a then ∃ u, auth_since pre u (GetEnvelopeTenantSend e)
             else GetEnvelopeTenantSend e = None
}.

Definition trace_ok (tr : list event) : Prop :=
  ∀ i t e a, tr !! i = Some (Delivered t e a) → delivery_ok (take i tr) t e a.

Record Inv (s : session) : Prop := mkInv {
  i_parser : reading (parser (c s));
  i_rcpt : Authed (c s) = true ∨ rcpts_allowed (now s) (e_RcptTo (c_env (c s)));
  i_limit : length (e_RcptTo (c_env (c s))) ≤ LimitRecipients + 1;
  i_clean : addr_clean (e_MailFrom (c_env (c s))) ∧ Forall addr_clean (e_RcptTo (c_env (c s)));
  i_errors : alive (c s) = true → (errors (c s) < MaxUnrecognizedCommands)%Z;
  i_data : Data (c_env (c s)) = [] ∧ Values (c_env (c s)) = ∅;
  i_state : alive (c s) = true → state (c s) = ClientData → e_RcptTo (c_env (c s)) ≠ [];
  i_auth : Authed (c s) = true → auth_since (trace s) (AuthUser (c s)) (AuthTenant (c s));
  i_trace : trace_ok (trace s)
}.

(** A state [s] of the turn that began in [s0]. *)
Record At (st : ClientState) (s0 s : session) : Prop := mkAt {
  at_inv : Inv s;
  at_bytes : bytes_left (c s) ≤ bytes_left (c s0);
  at_state : state (c s) = st;
  at_alive : alive (c s) = true → alive (c s0) = true
}.

(** The state after a command: a state of the loop in which a reply is flushed. *)
Definition after (s0 s : session) : Prop := ∃ st, At st s0 s ∧ st ≠ ClientGreeting ∧ st ≠ ClientShutdown.

Definition cmd_ok (m : Ses unit) : Prop := ∀ s0 s, At ClientCmd s0 s → wp m (λ _ s', after s0 s') (λ _ _, False) s.

(** ** Paths *)
Definition path_parser (p : bytes → P unit) : Prop :=
  ∀ input q, reading q → wp (p input) (λ _ q', True ∧ reading q') (λ _ q', reading q') q.

(** The part of the invariant that does not look at the envelope. *)
Record Core (s0 s : session) : Prop := mkCore {
  k_parser : reading (parser (c s));
  k_errors : alive (c s) = true → (errors (c s) < MaxUnrecognizedCommands)%Z;
  k_auth : Authed (c s) = true → auth_since (trace s) (AuthUser (c s)) (AuthTenant (c s));
  k_trace : trace_ok (trace s);
  k_bytes : bytes_left (c s) ≤ bytes_left (c s0);
  k_alive : alive (c s) = true → alive (c s0) = true
}.

(** What the data phase knows of the envelope. *)
Record Env_ok (s : session) : Prop := mkEnvOk {
  v_rcpts : e_RcptTo (c_env (c s)) ≠ [] ∧ length (e_RcptTo (c_env (c s))) ≤ LimitRecipients + 1;
  v_size : (Z.of_nat (length (Data (c_env (c s)))) ≤ MaxSize sc)%Z;
  v_clean : addr_clean (e_MailFrom (c_env (c s))) ∧ Forall addr_clean (e_RcptTo (c_env (c s)));
  v_relay : Authed (c s) = true ∨ rcpts_allowed (now s) (e_RcptTo (c_env (c s)));
  v_values : Values (c_env (c s)) = ∅
}.

(** ** One turn of the loop *)
Definition weight (st : ClientState) : nat :=
  match st with ClientGreeting => 3 | ClientData | ClientStartTLS => 2 | ClientShutdown => 1 | ClientCmd => 0 end.

Definition mu (s : session) : nat := 3 * bytes_left (c s) + weight (state (c s)).

(** A turn keeps the invariant, and brings the end of the session nearer. *)
Definition prog (s0 s : session) : Prop := Inv s ∧ (alive (c s) = true → mu s < mu s0).

Definition state_ok {A} (m : Ses A) (st : ClientState) : Prop :=
  ∀ s, Inv s → state (c s) = st → alive (c s) = true → wp m (λ _ s', prog s s') (λ _ s', Inv s') s.

(** The session after a handshake that leaves the stream [st]. *)
Definition secured (st : stream) (s : session) : session :=
  let x := set_bufin (reader_Reset st (bufin (c s))) (set_out (bufErr (c s)) [] false (c s)) in
  mkSession (set_env (set_TLS true (c_env x)) x) (trace s ++ [Secured]) (now s) (advertiseTLS s).

(** A client as it comes from the pool: new, or used before and initialised again, with
    an envelope that was borrowed. *)
Definition fresh_envelope (e : Envelope) : Prop :=
  e_MailFrom e = zero_Address ∧ e_RcptTo e = [] ∧ Data e = [] ∧ Values e = ∅ ∧ TLS e = false.

Definition starts (conn : stream) (s : session) : Prop :=
  ∃ id e x, fresh_envelope e ∧ reading (parser x) ∧ trace s = [] ∧
    (c s = NewClient conn id e ∨ c s = client_init conn id e x).

Definition session_fuel (conn : stream) : nat :=
  3 * (stream_size conn + match handshake with Some st => stream_size st | None => 0 end) + 4.
End Notions.

(** ** A server for concrete sessions *)
Definition test_world : World := {| handshake := None; write_ok := λ _, true; deadline_ok := λ _, true |}.
Definition test_backend : Backend := {| ValidateRcpt := λ _ e, (None, e); Process := λ _ e, (Ok (MkResult "250 OK"), e) |}.
Definition test_config (xclient : bool) : ServerConfig :=
  mkServerConfig zero_ServerTLSConfig [] "mx.test.org" "127.0.0.1:25" 1000 30 10 true xclient.
Definition test_server (auth : option Authenticator) (xclient : bool) : Server := {|
  sc := test_config xclient; config_at := λ _, test_config xclient;
  hosts_at := λ _, @setAllowedHosts ascii_only [bs "Test.org"; bs "*.example.org"];
  authenticator_at := λ _, auth; tls_config_at := λ _, false; shutting_down_at := λ _, false;
  quote_at := λ _, []; version := "1"; active_clients := 1; start_time := "now" |}.
Definition test_envelope : Envelope :=
  mkEnvelope "10.0.0.1" [] zero_Address [] [] [] false None ∅ [] [] "q1" false.
Definition test_session (conn : stream) : session := mkSession (NewClient conn 1 test_envelope) [] 0 false.
Abbreviation run_test auth conn :=
  (@handleClient ascii_only test_world test_backend (test_server auth false)
    (@session_fuel test_world conn) (test_session conn)).
(** An authenticator that knows nobody, and one that does not look at the password. *)
Definition reject_all : Authenticator := λ _ _ _ _ _, inl (mkAuthResult false None).
Definition any_password : Authenticator := λ _ _ user _ _, inl (mkAuthResult (bool_decide (user = bs "joe")) None).
Definition lines_of (l : list string) : stream := map (λ x, Chunk (bs x ++ [CR; LF])) l.

Definition relay_script : stream :=
  lines_of ["EHLO a.org"; "MAIL FROM:<a@b.org>"; "RCPT TO:<x@evil.org>"; "RCPT TO:<c@test.org>"; "DATA"; "hi"; "."; "QUIT"].
Definition test_tenant : TenantSendConfig := mkTenantSendConfig "acme" "ses" (Some (mkTenantSES "eu-1" [] [])) None.
Definition tenant_auth : Authenticator := λ _ _ _ _ _, inl (mkAuthResult true (Some test_tenant)).
Definition tenant_script : stream :=
  lines_of ["EHLO a.org"; "AUTH PLAIN AGpvZQBwdw=="; "MAIL FROM:<a@b.org>"; "RCPT TO:<x@evil.org>"; "DATA"; "hi"; "."; "QUIT"].
Definition tls_server : Server := {|
  sc := mkServerConfig (mkServerTLSConfig [] [] [] [] [] [] [] 0 0 false true false) [] "mx" [] 0 0 0 true false;
  config_at := λ _, test_config false; hosts_at := λ _, mkAllowedHosts ∅ []; authenticator_at := λ _, None;
  tls_config_at := λ _, true; shutting_down_at := λ _, false;
  quote_at := λ _, []; version := []; active_clients := 0; start_time := [] |}.

(** A session over TLS that has kept nothing of what came before: the input is what
    comes through the new connection. *)
Definition started_over (st : stream) (s' : session) : Prop :=
  available (bufin (c s')) = stream_text st ∧ alr_R (alr (bufin (c s'))) = st ∧
  TLS (c_env (c s')) = true ∧ Authed (c s') = false ∧ AuthUser (c s') = [] ∧ AuthTenant (c s') = None ∧
  e_MailFrom (c_env (c s')) = zero_Address ∧ e_RcptTo (c_env (c s')) = [] ∧ Data (c_env (c s')) = [] ∧
  ESMTP (c_env (c s')) = false ∧ state (c s') = ClientCmd ∧ advertiseTLS s' = false.

Create HintDb calm.

(** * Proofs *)
#[export] Instance calm_refl : Reflexive calm.
Proof. intros s. constructor; try done. exists []. by rewrite app_nil_r. Qed.
#[export] Instance calm_trans : Transitive calm.
Proof.
  intros s1 s2 s3 [E1 A1 (P1 & Q1 & R1) X1 S1 Y1 Z1 N1 (o1 & T1 & F1)] [E2 A2 (P2 & Q2 & R2) X2 S2 Y2 Z2 N2 (o2 & T2 & F2)].
  constructor; try congruence; try lia.
  - auto.
  - split_and!; congruence.
  - exists (o1 ++ o2). split; [by rewrite T2, T1, app_assoc|by apply Forall_app_2].
Qed.


Section Calm.
Context {W : World}.

Lemma calmly_ret {A} (a : A) : calmly (mret a).
Proof. intros s. by apply wp_ret. Qed.
Lemma calmly_bind {A B} (m : Ses A) (f : A → Ses B) : calmly m → (∀ a, calmly (f a)) → calmly (m ≫= f).
Proof.
  intros Hm Hf s. apply wp_bind. eapply wp_mono; [apply Hm| |done]. cbn. intros a s1 H1.
  eapply wp_mono; [apply Hf| |done]. cbn. intros _ s2 H2. by etrans.
Qed.
Lemma calmly_gets {A} (f : session → A) : calmly (gets f).
Proof. intros s. by apply wp_gets. Qed.
Lemma calmly_cl {A} (f : client → A) : calmly (cl f).
Proof. apply calmly_gets. Qed.
Lemma calmly_clock : calmly clock.
Proof. intros s. unfold wp, clock. constructor; cbn; try done; [lia|]. exists []. by rewrite app_nil_r. Qed.
Lemma calmly_upd f : (∀ x, c_env (f x) = c_env x ∧ (alive (f x) = true → alive x = true) ∧
    (Authed (f x) = Authed x ∧ AuthUser (f x) = AuthUser x ∧ AuthTenant (f x) = AuthTenant x) ∧
    errors (f x) = errors x ∧ state (f x) = state x ∧ parser (f x) = parser x ∧
    reader_size (bufin (f x)) ≤ reader_size (bufin x)) → calmly (upd f).
Proof.
  intros Hf s. apply wp_modify. destruct (Hf (c s)) as (?&?&?&?&?&?&?).
  constructor; cbn; try done. exists []. by rewrite app_nil_r.
Qed.
Lemma calmly_sent b : calmly (emit (Sent b)).
Proof. intros s. apply wp_modify. constructor; cbn; try done. exists [Sent b]. split; [done|by repeat constructor]. Qed.
Lemma calmly_kill : calmly kill.
Proof. by apply calmly_upd. Qed.
Lemma calmly_out be b e : calmly (upd (set_out be b e)).
Proof. by apply calmly_upd. Qed.

Lemma calmly_w_Flush : calmly w_Flush.
Proof.
  unfold w_Flush. apply calmly_bind; [apply calmly_gets|]. intros x.
  destruct (w_err x); [apply calmly_ret|]. destruct (bufout x) as [|a b]; [apply calmly_ret|].
  apply calmly_bind; [apply calmly_clock|]. intros t. destruct (write_ok t).
  - apply calmly_bind; [apply calmly_sent|]. intros _.
    apply calmly_bind; [by apply calmly_upd|]. intros _. apply calmly_ret.
  - apply calmly_bind; [by apply calmly_upd|]. intros _. apply calmly_ret.
Qed.

(** After a [Flush] the buffer is empty or the writer has its sticky error. *)
Lemma w_Flush_result s : wp w_Flush (λ _ s', calm s s' ∧ (w_err (c s') = true ∨ bufout (c s') = [])) (λ _ _, False) s.
Proof.
  assert (wp w_Flush (λ _ s', w_err (c s') = true ∨ bufout (c s') = []) (λ _ _, True) s) as H2.
  { unfold w_Flush. apply wp_bind, wp_gets. cbn. destruct (w_err (c s)) eqn:E; [apply wp_ret; by left|].
    destruct (bufout (c s)) as [|a b] eqn:Eb; [apply wp_ret; by right|].
    apply wp_bind. unfold wp at 1. cbn. destruct (write_ok (now s)).
    - repeat (apply wp_bind, wp_modify; cbn). apply wp_ret. cbn. by right.
    - apply wp_bind, wp_modify. apply wp_ret. cbn. by left. }
  eapply wp_mono; [apply (wp_conj _ _ _ _ _ _ (calmly_w_Flush s) H2)|done|]. by intros ? ? [].
Qed.

Lemma w_size_pos : 0 < w_size.
Proof. apply Nat.ltb_lt. vm_compute. reflexivity. Qed.
Lemma wp_w_WriteString_loop : ∀ fuel s st,
  (w_err (c st) = true ∧ 1 ≤ fuel) ∨
  length s + (if w_size <=? length (bufout (c st)) then 1 else 0) < fuel →
  wp (w_WriteString_loop fuel s) (λ _ st', calm st st') (λ _ _, False) st.
Proof.
  induction fuel as [|f IH]; intros s st Hf; [lia|]. cbn [w_WriteString_loop].
  apply wp_bind, wp_gets. unfold id. cbv beta zeta. set (avail := w_size - length (bufout (c st))).
  destruct (w_err (c st)) eqn:Ew.
  - rewrite andb_false_r. by apply wp_ret.
  - rewrite andb_true_r. destruct (avail <? length s) eqn:Ea.
    + apply Nat.ltb_lt in Ea. destruct Hf as [[? _]|Hf]; [done|].
      cbv iota. apply wp_bind. eapply wp_mono; [apply calmly_out| |done]. cbn. intros _ s1 H1.
      apply wp_bind. eapply wp_mono; [apply w_Flush_result| |done]. cbn. intros _ s2 [H2 Hb].
      eapply wp_mono; [apply IH| |done].
      * destruct Hb as [Hb|Hb]; [left; split; [done|]|right].
        -- destruct (w_size <=? _) eqn:El; [lia|]. apply Nat.leb_gt in El. unfold avail in Ea. lia.
        -- rewrite Hb. cbn [length]. pose proof w_size_pos. destruct (Nat.leb_spec w_size 0); [lia|].
           rewrite length_drop. destruct (Nat.leb_spec w_size (length (bufout (c st)))); unfold avail; lia.
      * cbn. intros _ s3 H3. etrans; [exact H1|]. by etrans.
    + cbv iota. apply wp_bind. eapply wp_mono; [apply calmly_out| |done]. cbn. intros _ s1 H1. by apply wp_ret.
Qed.
Lemma calmly_w_WriteString b : calmly (w_WriteString b).
Proof. intros s. apply wp_w_WriteString_loop. right. destruct (_ <=? _); lia. Qed.
Lemma calmly_write_items r : calmly (write_items r).
Proof.
  induction r as [|o r IH]; [apply calmly_ret|]. apply calmly_bind; [apply calmly_w_WriteString|].
  intros []; [done|apply calmly_ret].
Qed.
Lemma calmly_sendResponse r : calmly (sendResponse r).
Proof.
  apply calmly_bind; [apply calmly_out|]. intros _. apply calmly_bind; [apply calmly_write_items|].
  intros ok. apply calmly_bind; [destruct ok; [apply calmly_w_WriteString|apply calmly_ret]|].
  intros ok'. by apply calmly_upd.
Qed.
Lemma calmly_flushResponse : calmly flushResponse.
Proof.
  apply calmly_bind; [apply calmly_bind; [apply calmly_clock|intros; apply calmly_ret]|].
  intros []; [apply calmly_w_Flush|apply calmly_ret].
Qed.
Lemma calmly_readCommand : calmly readCommand.
Proof.
  intros s. apply wp_bind, wp_gets. cbn.
  destruct (ReadSlice_returns LF (bufin (c s))) as (l & e & r & HR & Hs & _).
  rewrite HR.
  apply wp_bind. eapply wp_mono; [apply (wp_modify _ (λ _ s', calm s s') (λ _ _, False))| |done].
  - constructor; cbn; try done; [lia|]. exists []. by rewrite app_nil_r.
  - cbn. intros _ s1 H1. destruct e; [by apply wp_ret|]. destruct (HasSuffix _ _); by apply wp_ret.
Qed.
(** A command line that is read without an error takes at least its line feed. *)
Lemma readCommand_consumes s :
  wp readCommand (λ r s', calm s s' ∧ (r.2 = None → reader_size (bufin (c s')) < reader_size (bufin (c s))))
     (λ _ _, False) s.
Proof.
  apply wp_bind, wp_gets. unfold id. cbv beta.
  destruct (ReadSlice_returns LF (bufin (c s))) as (l & e & r & -> & Hs & Hne).
  apply wp_bind, wp_modify.
  assert (calm s (mkSession (set_bufin r (c s)) (trace s) (now s) (advertiseTLS s))) as Hc.
  { constructor; cbn; try done; [lia|]. exists []. by rewrite app_nil_r. }
  destruct e as [e|]; [by apply wp_ret|].
  destruct (Hne eq_refl) as [t ->]. rewrite length_app in Hs. cbn in Hs.
  destruct (HasSuffix _ _); apply wp_ret; split; try done; cbn; lia.
Qed.
End Calm.

#[export] Hint Resolve calmly_ret calmly_gets calmly_cl calmly_clock calmly_kill calmly_sendResponse
  calmly_flushResponse calmly_readCommand : calm.
Ltac calm :=
  repeat first
    [ solve [auto with calm nocore]
    | apply calmly_bind; [|intros ?]
    | match goal with |- calmly (if ?b then _ else _) => destruct b end
    | match goal with |- calmly (match ?x with _ => _ end) => destruct x end ].

Section Auth.
Context {U : Unicode} {W : World} {B : Backend} {Sv : Server}.

Lemma calmly_prompt q : calmly (prompt q).
Proof. unfold prompt. calm. Qed.
Lemma calmly_auth_credentials fields : calmly (auth_credentials fields).
Proof.
  unfold auth_credentials, auth_plain, auth_login.
  pose proof calmly_prompt. calm.
Qed.
End Auth.

(** ** The invariant of a session *)



Section Invariant.
Context {U : Unicode} {W : World} {B : Backend} {Sv : Server}.







Lemma rcpts_allowed_mono t t' l : t ≤ t' → rcpts_allowed t l → rcpts_allowed t' l.
Proof. intros Ht H. eapply list.Forall_impl; [exact H|]. intros a (x & ? & ?). exists x. split; [lia|done]. Qed.
Lemma auth_since_app tr out u tn : Forall quiet out → auth_since tr u tn → auth_since (tr ++ out) u tn.
Proof.
  intros Hout (pre & t & i & pw & r & post & -> & Ho & Ht & Hp).
  exists pre, t, i, pw, r, (post ++ out). split; [by rewrite <- app_assoc|]. split_and!; [done..|].
  by apply Forall_app_2.
Qed.
Lemma trace_ok_app tr out : (∀ t e a, Delivered t e a ∉ out) → trace_ok tr → trace_ok (tr ++ out).
Proof.
  intros Hout Htr i t e a Hi. apply lookup_app_Some in Hi as [Hi|[Hl Hi]].
  - rewrite take_app_le; [by apply Htr|]. apply lookup_lt_Some in Hi. lia.
  - apply list_elem_of_lookup_2 in Hi. by apply Hout in Hi.
Qed.
Lemma trace_ok_deliver tr t e a : trace_ok tr → delivery_ok tr t e a → trace_ok (tr ++ [Delivered t e a]).
Proof.
  intros Htr Hd i t' e' a' Hi. apply lookup_app_Some in Hi as [Hi|[Hl Hi]].
  - rewrite take_app_le; [by apply Htr|]. apply lookup_lt_Some in Hi. lia.
  - destruct (i - length tr) as [|n] eqn:E; [|by destruct n]. injection Hi as <- <- <-.
    assert (i = length tr) as -> by lia. by rewrite take_app_length.
Qed.
Lemma Sent_quiet out : Forall is_Sent out → Forall quiet out.
Proof. intros H. eapply list.Forall_impl; [exact H|]. by intros [] ?. Qed.
Lemma Sent_not_Delivered out t e a : Forall is_Sent out → Delivered t e a ∉ out.
Proof. rewrite list.Forall_forall. intros H Hin. by apply H in Hin. Qed.

Lemma bytes_left_env x e : TLS e = TLS (c_env x) → bytes_left (set_env e x) = bytes_left x.
Proof. unfold bytes_left. cbn. by intros ->. Qed.

Lemma At_calm st s0 s s' : At st s0 s → calm s s' → At st s0 s'.
Proof.
  intros [[Ip Ir Il Ic Ie Id Is Ia It] Hb Hs Hal] [Ee Ea (A1 & A2 & A3) Er Es Ep Ez En (out & Et & Ho)].
  constructor; [constructor|..]; rewrite ?Ep, ?Ee, ?A1, ?A2, ?A3, ?Er, ?Es, ?Et; try done.
  - destruct Ir; [by left|right]. by eapply rcpts_allowed_mono.
  - auto.
  - auto.
  - intros H. apply auth_since_app; [by apply Sent_quiet|auto].
  - apply trace_ok_app; [|done]. intros. by apply Sent_not_Delivered.
  - unfold bytes_left in *. rewrite Ee. lia.
  - auto.
Qed.

(** Rules: a calm call, at the front of a program and at its end. *)
Lemma wp_calm {A C} (m : Ses A) (f : A → Ses C) Q R st s0 s : calmly m → At st s0 s →
  (∀ a s', calm s s' → At st s0 s' → wp (f a) Q R s') → wp (m ≫= f) Q R s.
Proof.
  intros Hm Ha Hf. apply wp_bind. eapply wp_mono; [apply Hm| |done]. cbn. intros a s' Hc.
  apply Hf; [done|]. by eapply At_calm.
Qed.
Lemma wp_calm_end {A} (m : Ses A) R st s0 s : calmly m → At st s0 s →
  wp m (λ _ s', At st s0 s') R s.
Proof. intros Hm Ha. eapply wp_mono; [apply Hm| |done]. cbn. intros _ s' Hc. by eapply At_calm. Qed.

(** ** Updates *)
Lemma At_env st s0 s f : At st s0 s →
  (let e := c_env (c s) in
   e_MailFrom (f e) = e_MailFrom e ∧ e_RcptTo (f e) = e_RcptTo e ∧ Data (f e) = Data e ∧
   Values (f e) = Values e ∧ TLS (f e) = TLS e) →
  wp (upd_env f) (λ _ s', At st s0 s') (λ _ _, False) s.
Proof.
  intros [[Ip Ir Il Ic Ie Id Is Ia It] Hb Hs Hal] (E1 & E2 & E3 & E4 & E5). apply wp_modify.
  constructor; [constructor|..]; cbn; rewrite ?E1, ?E2, ?E3, ?E4; try done.
  by rewrite bytes_left_env.
Qed.
Lemma At_reset st s0 s : At st s0 s → st ≠ ClientData →
  wp resetTransaction (λ _ s', At st s0 s') (λ _ _, False) s.
Proof.
  intros [[Ip Ir Il Ic Ie Id Is Ia It] Hb Hs Hal] Hst. apply wp_modify.
  constructor; [constructor|..]; cbn; try done.
  - right. constructor.
  - lia.
  - split; [split; [|left]|]; constructor.
  - intros _ H. congruence.
Qed.
Lemma At_parser st s0 s q : At st s0 s → reading q → wp (upd (set_parser q)) (λ _ s', At st s0 s') (λ _ _, False) s.
Proof.
  intros [[Ip Ir Il Ic Ie Id Is Ia It] Hb Hs Hal] Hq. apply wp_modify. by constructor; [constructor|..].
Qed.
Lemma At_MailFrom st s0 s a : At st s0 s → addr_clean a →
  wp (upd_env (set_MailFrom a)) (λ _ s', At st s0 s') (λ _ _, False) s.
Proof.
  intros [[Ip Ir Il [Ic1 Ic2] Ie Id Is Ia It] Hb Hs Hal] Ha. apply wp_modify. by constructor; [constructor|..].
Qed.
Lemma At_state_change st st' s0 s : At st s0 s → (st' = ClientData → e_RcptTo (c_env (c s)) ≠ []) →
  wp (upd (set_state st')) (λ _ s', At st' s0 s') (λ _ _, False) s.
Proof.
  intros [[Ip Ir Il Ic Ie Id Is Ia It] Hb Hs Hal] H. apply wp_modify. by constructor; [constructor|..].
Qed.
Lemma At_emit st s0 s ev : At st s0 s → quiet ev → (∀ t e a, ev ≠ Delivered t e a) →
  wp (emit ev) (λ _ s', At st s0 s') (λ _ _, False) s.
Proof.
  intros [[Ip Ir Il Ic Ie Id Is Ia It] Hb Hs Hal] H1 H2. apply wp_modify. constructor; [constructor|..]; cbn; try done.
  - intros H. apply auth_since_app; [by repeat constructor|auto].
  - apply trace_ok_app; [|done]. intros t e a H%list_elem_of_singleton. by apply (H2 t e a).
Qed.
Lemma addr_clean_zero : addr_clean zero_Address.
Proof. split; [|left]; constructor. Qed.
End Invariant.

(** ** The commands *)
Lemma HasPrefix_length s p : HasPrefix s p = true → length p ≤ length s.
Proof.
  revert s. induction p as [|a p IH]; intros [|b s] H; cbn in *; try lia.
  apply andb_true_iff in H as [_ H]. apply IH in H. lia.
Qed.
Lemma Index_0 s p : Index s p = Some 0 → HasPrefix s p = true.
Proof. destruct s as [|a s]; cbn [Index]; [by destruct (HasPrefix [] p)|]. destruct (HasPrefix (a :: s) p); [done|]. by destruct (Index s p). Qed.

Section Commands.
Context {U : Unicode} {UL : UnicodeLaws} {W : World} {B : Backend} {BL : BackendLaws} {Sv : Server} {SL : ServerLaws}.

Lemma match_cmd_length p input : ascii_text p = true →
  match_cmd p (ToUpper (take CommandVerbMaxLength input)) = true → length p ≤ length input.
Proof.
  unfold match_cmd. intros Hp H%bool_decide_eq_true%Index_0.
  transitivity (length (take CommandVerbMaxLength input)); [|rewrite length_take; lia].
  unfold ToUpper in H. destruct (ascii_text (take CommandVerbMaxLength input)).
  - apply HasPrefix_length in H. by rewrite length_map in H.
  - by apply upper_prefix.
Qed.
Lemma wp_slice {A} n input (f : bytes → Ses A) Q R s :
  n ≤ length input → wp (f (drop n input)) Q R s → wp (slice_from n input ≫= f) Q R s.
Proof.
  intros Hn Hf. apply wp_bind. unfold slice_from. destruct (Nat.leb_spec n (length input)); [|lia].
  by apply wp_ret.
Qed.
Lemma wp_cl {A C} (g : client → A) (f : A → Ses C) Q R s : wp (f (g (c s))) Q R s → wp (cl g ≫= f) Q R s.
Proof. intros H. by apply wp_bind, wp_gets. Qed.
Lemma wp_get_bind {C} (f : session → Ses C) Q R s : wp (f s) Q R s → wp (get ≫= f) Q R s.
Proof. intros H. by apply wp_bind. Qed.
(** An update that is followed by more. *)
Lemma wp_then {A} (m : Ses unit) (k : Ses A) (P : session → Prop) Q R s :
  wp m (λ _ s', P s') (λ _ _, False) s → (∀ s', P s' → wp k Q R s') → wp (m;; k) Q R s.
Proof. intros Hm Hk. apply wp_bind. eapply wp_mono; [exact Hm| |done]. cbn. intros _ s' H. by apply Hk. Qed.
Lemma wp_last (m : Ses unit) (P : session → Prop) (R : exit → session → Prop) s :
  wp m (λ _ s', P s') (λ _ _, False) s → wp m (λ _ s', P s') R s.
Proof. intros Hm. eapply wp_mono; [exact Hm|done|done]. Qed.

Lemma after_Cmd s0 s : At ClientCmd s0 s → after s0 s.
Proof. intros. by exists ClientCmd. Qed.

Lemma cmd_reply m : calmly m → cmd_ok m.
Proof.
  intros Hm s0 s H. eapply wp_mono; [by apply (wp_calm_end _ (λ _ _, False) _ _ _ Hm H)| |done].
  cbn. intros _ s'. apply after_Cmd.
Qed.
Lemma wp_reply (m : Ses unit) s0 s : calmly m → At ClientCmd s0 s → wp m (λ _ s', after s0 s') (λ _ _, False) s.
Proof. intros. by apply cmd_reply. Qed.

(** A call of the parser that keeps its invariant. *)
Lemma wp_parse {A C} (m : P A) (V : A → Prop) (f : A + parse_error → Ses C) Q R st s0 s : At st s0 s →
  wp m (λ a q, V a ∧ reading q) (λ _ q, reading q) (parser (c s)) →
  (∀ r s', c_env (c s') = c_env (c s) → At st s0 s' → wp (f r) Q R s') → wp (parse m ≫= f) Q R s.
Proof.
  intros H Hm Hf. apply wp_bind. unfold wp in Hm. unfold wp at 1, parse.
  destruct (m (parser (c s))) as [[a|e| |] q]; try done; apply Hf; try done.
  - destruct Hm as [_ Hq]. apply (At_parser _ _ _ q H Hq).
  - apply (At_parser _ _ _ q H Hm).
Qed.

Lemma HELO_ok input : 4 ≤ length input → cmd_ok (do_HELO input).
Proof.
  intros Hl s0 s H. unfold do_HELO. apply wp_slice; [done|].
  destruct (wp_Helo_Ehlo (drop 4 input) (parser (c s)) (i_parser _ (at_inv _ _ _ H))) as [Hh _].
  eapply wp_parse; [exact H|exact Hh|]. intros [h|e] s1 _ H1; [|apply wp_reply; [auto with calm|done]].
  eapply wp_then; [by apply (At_env _ _ _ _ H1)|]. cbn. intros s2 H2.
  eapply wp_then; [by apply (At_reset _ _ _ H2)|]. cbn. intros s3 H3. apply wp_reply; [auto with calm|done].
Qed.
Lemma EHLO_ok input : 4 ≤ length input → cmd_ok (do_EHLO input).
Proof.
  intros Hl s0 s H. unfold do_EHLO. apply wp_slice; [done|].
  destruct (wp_Helo_Ehlo (drop 4 input) (parser (c s)) (i_parser _ (at_inv _ _ _ H))) as [_ Hh].
  eapply wp_parse; [exact H|exact Hh|]. intros [[h ip]|e] s1 _ H1; [|apply wp_reply; [calm|done]].
  eapply wp_then; [by apply (At_env _ _ _ _ H1)|]. cbv beta. intros s2 H2.
  eapply wp_then; [by apply (At_env _ _ _ _ H2)|]. cbv beta. intros s3 H3.
  eapply wp_then; [by apply (At_reset _ _ _ H3)|]. cbv beta. intros s4 H4. apply wp_get_bind.
  apply wp_reply; [|done]. unfold authenticator. calm.
Qed.

Lemma wp_clock {C} (f : nat → Ses C) Q R st s0 s : At st s0 s →
  (∀ s', now s' = S (now s) → c s' = c s → trace s' = trace s → At st s0 s' → wp (f (now s)) Q R s') →
  wp (clock ≫= f) Q R s.
Proof.
  intros H Hf. apply wp_bind. unfold wp at 1, clock. apply Hf; [done..|]. eapply At_calm; [done|].
  apply (calmly_clock s).
Qed.
Lemma wp_authenticator {C} (f : option Authenticator → Ses C) Q R st s0 s : At st s0 s →
  (∀ s', now s' = S (now s) → c s' = c s → trace s' = trace s → At st s0 s' → wp (f (authenticator_at (now s))) Q R s') →
  wp (authenticator ≫= f) Q R s.
Proof.
  intros H Hf. apply wp_bind. unfold authenticator. eapply wp_clock; [done|]. intros s' Hn Hc Ht H'.
  apply wp_ret. by apply Hf.
Qed.

Lemma ask_ok ident username password s0 s : (∀ t, now s ≤ t → is_Some (authenticator_at t)) → At ClientCmd s0 s →
  wp (ask ident username password) (λ _ s', after s0 s') (λ _ _, False) s.
Proof.
  intros Hau H. unfold ask. eapply wp_authenticator; [done|]. intros s1 _ _ _ H1.
  destruct (Hau (now s) (Nat.le_refl _)) as [auth ->]. apply wp_cl. eapply wp_clock; [done|]. intros s2 _ _ _ H2. cbv zeta.
  set (ans := AuthenticatePlain _ _ _ _ _).
  destruct ans as [r|e].
  - destruct (OK r) eqn:EO.
    + apply wp_bind, wp_modify. apply wp_bind, wp_modify. apply wp_reply; [auto with calm|].
      destruct H2 as [[Ip Ir Il Ic Ie Id Is Ia It] Hb Hs Hal].
      constructor; [constructor|..]; cbn; try done; [by left| |].
      * intros _. exists (trace s2), (now s1), ident, password, r, []. done.
      * apply trace_ok_app; [|done]. by intros ? ? ? ?%list_elem_of_singleton.
    + eapply wp_then; [by apply (At_emit _ _ _ _ H2)|]. cbn. intros s3 H3. apply wp_reply; [auto with calm|done].
  - eapply wp_then; [by apply (At_emit _ _ _ _ H2)|]. cbn. intros s3 H3. apply wp_reply; [auto with calm|done].
Qed.
Lemma AUTH_ok input : cmd_ok (do_AUTH input).
Proof.
  intros s0 s H. unfold do_AUTH. eapply wp_authenticator; [done|]. intros s1 Hn1 _ _ H1. apply wp_cl. unfold id.
  destruct (authenticator_at (now s)) as [a|] eqn:Ea; [|apply wp_reply; [auto with calm|done]].
  destruct (Authed _); [apply wp_reply; [auto with calm|done]|].
  destruct (negb _); [apply wp_reply; [auto with calm|done]|].
  destruct (isInTransaction _); [apply wp_reply; [auto with calm|done]|]. cbv zeta.
  destruct (_ <? 2); [apply wp_reply; [auto with calm|done]|].
  eapply wp_calm; [apply calmly_auth_credentials|done|]. intros [[i u] p] s2 Hc2 H2.
  apply ask_ok; [|done]. intros t Ht. pose proof (calm_now _ _ Hc2). apply (authenticator_stays (now s)); [lia|]. by rewrite Ea.
Qed.

Lemma MailFrom_path_parser : path_parser Rfc5321.MailFrom.
Proof. intros input q H. eapply wp_mono; [by apply wp_MailFrom|..]; by intros ? ? []. Qed.
Lemma RcptTo_path_parser : path_parser Rfc5321.RcptTo.
Proof. intros input q H. eapply wp_mono; [by apply wp_RcptTo|..]; by intros ? ? []. Qed.
Lemma path_address_clean q : reading q → addr_clean (path_address q).
Proof. intros (_ & (_ & H1 & H2 & _) & _). split; [|left]; done. Qed.

Lemma parsePath_env in_ p s0 s : path_parser p → At ClientCmd s0 s →
  wp (parsePath in_ p) (λ r s', At ClientCmd s0 s' ∧ addr_clean r.1 ∧ c_env (c s') = c_env (c s)) (λ _ _, False) s.
Proof.
  intros Hp H. unfold parsePath. pose proof addr_clean_zero.
  destruct (LimitPath <? length in_); [by apply wp_ret|].
  eapply wp_parse; [exact H|by apply Hp, (i_parser _ (at_inv _ _ _ H))|]. intros r s1 Hc1 H1. apply wp_cl.
  destruct r as [[]|e]; [|by apply wp_ret].
  destruct (Rfc5321.NullPath _); [by apply wp_ret|].
  destruct (LimitLocalPart <? _); [by apply wp_ret|].
  destruct (LimitDomain <? _); apply wp_ret; split_and!; try done.
  apply path_address_clean, (i_parser _ (at_inv _ _ _ H1)).
Qed.
Lemma wp_parsePath {C} in_ p (f : Address * option bytes → Ses C) Q R s0 s : path_parser p → At ClientCmd s0 s →
  (∀ a err s', At ClientCmd s0 s' → addr_clean a → wp (f (a, err)) Q R s') → wp (parsePath in_ p ≫= f) Q R s.
Proof.
  intros Hp H Hf. apply wp_bind. eapply wp_mono; [by apply parsePath_env| |done].
  cbv beta. intros [a err] s1 (H1 & Ha & _). by apply Hf.
Qed.

Lemma MAIL_ok input : 10 ≤ length input → cmd_ok (do_MAIL input).
Proof.
  intros Hl s0 s H. unfold do_MAIL. apply wp_cl. unfold id.
  destruct (isInTransaction _); [apply wp_reply; [auto with calm|done]|]. apply wp_slice; [done|].
  eapply wp_parsePath; [apply MailFrom_path_parser|done|]. intros a err s1 H1 Ha.
  eapply wp_then; [by apply (At_MailFrom _ _ _ _ H1)|]. cbv beta. intros s2 H2.
  destruct err as [m|]; [apply wp_reply; [auto with calm|done]|]. apply wp_cl. unfold id.
  destruct (Rfc5321.NullPath _).
  - eapply wp_then; [apply (At_MailFrom _ _ _ _ H2), addr_clean_zero|]. cbv beta. intros s3 H3.
    apply wp_reply; [auto with calm|done].
  - apply wp_bind, wp_ret. apply wp_reply; [auto with calm|done].
Qed.

Lemma wp_defaultHost {C} a (f : Address → Ses C) Q R s0 s : At ClientCmd s0 s → addr_clean a →
  (∀ a' s', At ClientCmd s0 s' → addr_clean a' → c s' = c s → wp (f a') Q R s') → wp (defaultHost a ≫= f) Q R s.
Proof.
  intros H [Hu Hh] Hf. apply wp_bind. unfold defaultHost. destruct (_ && _).
  - eapply wp_clock; [done|]. intros s1 _ Hc _ H1. apply wp_ret. apply Hf; [done| |done].
    split; [done|]. right. by eexists.
  - apply wp_ret. by apply Hf.
Qed.

(** A recipient that was allowed, or whose sender is authenticated, is added. *)
Lemma At_PushRcpt s0 s to : At ClientCmd s0 s → addr_clean to →
  Authed (c s) = true ∨ (∃ t, t < now s ∧ allowed_address (hosts_at t) to = true) →
  length (e_RcptTo (c_env (c s))) ≤ LimitRecipients →
  wp (upd_env (PushRcpt to)) (λ _ s', At ClientCmd s0 s' ∧ (∃ l, e_RcptTo (c_env (c s')) = l ++ [to] ∧ e_RcptTo (c_env (c s)) = l) ∧
     c_env (c s') = PushRcpt to (c_env (c s))) (λ _ _, False) s.
Proof.
  intros [[Ip Ir Il [Ic1 Ic2] Ie Id Is Ia It] Hb Hs Hal] Hto Hok Hlen. apply wp_modify.
  split; [|split; [by exists (e_RcptTo (c_env (c s)))|done]].
  constructor; [constructor|..]; cbn; try done.
  - destruct Ir as [Ir|Ir]; [by left|]. destruct Hok as [Ho|Ho]; [by left|right].
    apply Forall_app_2; [done|]. by constructor; [|constructor].
  - rewrite length_app. cbn [length]. unfold LimitRecipients in *. lia.
  - split; [done|]. apply Forall_app_2; [done|]. by constructor; [|constructor].
  - intros _ _ ?%app_eq_nil. by destruct_and?.
Qed.
Lemma At_PopRcpt s0 s l to e : At ClientCmd s0 s → e_RcptTo (c_env (c s)) = l ++ [to] →
  e = set_RcptTo l (c_env (c s)) → wp (upd (set_env e)) (λ _ s', At ClientCmd s0 s') (λ _ _, False) s.
Proof.
  intros [[Ip Ir Il [Ic1 Ic2] Ie Id Is Ia It] Hb Hs Hal] El ->. apply wp_modify.
  rewrite El in Ir, Il, Ic2. apply Forall_app in Ic2 as [Ic2 _]. rewrite length_app in Il. cbn [length] in Il.
  constructor; [constructor|..]; cbn; try done.
  - destruct Ir as [Ir|Ir]; [by left|right]. by apply Forall_app in Ir as [? _].
  - unfold LimitRecipients in *. lia.
  - by intros _ ?; congruence.
Qed.
Lemma RCPT_ok input : 8 ≤ length input → cmd_ok (do_RCPT input).
Proof.
  intros Hl s0 s H. unfold do_RCPT. apply wp_cl. unfold id.
  destruct (LimitRecipients <? _) eqn:El; [apply wp_reply; [auto with calm|done]|].
  apply wp_slice; [done|].
  apply wp_bind. eapply wp_mono; [apply (parsePath_env _ _ s0 s); [apply RcptTo_path_parser|done]| |done].
  cbv beta. intros [to err] s1 (H1 & Hto & Henv). cbn [fst] in Hto.
  destruct err as [m|]; [apply wp_reply; [auto with calm|done]|].
  eapply wp_defaultHost; [done|done|]. intros to' s2 H2 Hto' Hc2.
  eapply wp_clock; [done|]. intros s3 Hn3 Hc3 _ H3. apply wp_cl. unfold id. rewrite Hc3.
  assert (length (e_RcptTo (c_env (c s3))) ≤ LimitRecipients) as Hlen.
  { apply Nat.ltb_ge in El. by rewrite Hc3, Hc2, Henv. }
  destruct (negb (allowed_address (hosts_at (now s2)) to') && negb (Authed (c s2))) eqn:Ea.
  - eapply wp_authenticator; [done|]. intros s4 _ _ _ H4.
    destruct (authenticator_at _); (apply wp_reply; [auto with calm|done]).
  - apply wp_bind. eapply wp_mono; [apply (At_PushRcpt _ _ to' H3)| |done]; [done| |done|].
    { rewrite Hc3. destruct (Authed (c s2)); [by left|right]. exists (now s2). split; [lia|].
      rewrite andb_true_r in Ea. by apply negb_false_iff in Ea. }
    cbv beta. intros _ s4 (H4 & (l & E4 & E3) & Ee). apply wp_cl.
    eapply wp_clock; [done|]. intros s5 _ Hc5 _ H5.
    pose proof (validate_transaction (now s4) (c_env (c s4))) as Hval. cbv zeta in Hval.
    destruct (ValidateRcpt _ _) as [err ev]. cbn [snd] in Hval.
    set (s5' := mkSession (set_env ev (c s5)) (trace s5) (now s5) (advertiseTLS s5)).
    assert (At ClientCmd s0 s5') as H5' by (apply (At_env _ _ _ (λ _, ev) H5); by rewrite Hc5).
    assert (e_RcptTo (c_env (c s5')) = l ++ [to']) as E5 by (rewrite <- E4; apply Hval).
    apply wp_bind, wp_modify. fold s5'. destruct err as [err|].
    + apply wp_get_bind. unfold PopRcpt. rewrite E5, rev_app_distr. cbn [rev app].
      eapply wp_then; [apply (At_PopRcpt s0 s5' l to'); [done|done|by rewrite rev_involutive]|].
      cbv beta. intros s6 H6. apply wp_reply; [auto with calm|done].
    + eapply wp_then; [by apply (At_emit _ _ _ _ H5')|]. cbv beta. intros s6 H6.
      apply wp_reply; [auto with calm|done].
Qed.
Lemma DATA_ok : cmd_ok do_DATA.
Proof.
  intros s0 s H. unfold do_DATA. apply wp_cl. unfold id.
  destruct (e_RcptTo (c_env (c s))) as [|a l] eqn:E; [apply wp_reply; [auto with calm|done]|].
  eapply wp_calm; [apply calmly_sendResponse|done|]. intros _ s1 Hc H1.
  eapply wp_mono; [apply (At_state_change _ ClientData _ _ H1)| |done].
  - intros _. by rewrite (calm_env _ _ Hc), E.
  - cbv beta. intros _ s2 H2. by exists ClientData.
Qed.
Lemma unknown_ok : cmd_ok do_unknown.
Proof.
  intros s0 s [[Ip Ir Il Ic Ie Id Is Ia It] Hb Hs Hal]. unfold do_unknown. apply wp_bind, wp_modify. apply wp_cl.
  cbn [id c errors set_errors].
  set (s1 := mkSession _ _ _ _).
  destruct (MaxUnrecognizedCommands <=? errors (c s) + 1)%Z eqn:E.
  - apply wp_bind. eapply wp_mono; [apply calmly_sendResponse| |done]. cbv beta. intros _ s2 Hc.
    apply wp_modify. apply after_Cmd.
    assert (At ClientCmd s0 (mkSession (killed (c s1)) (trace s1) (now s1) (advertiseTLS s1))) as H1
      by by constructor; [constructor|..].
    eapply (At_calm _ _ _ (mkSession (killed (c s2)) (trace s2) (now s2) (advertiseTLS s2)) H1).
    destruct Hc. by constructor.
  - apply wp_reply; [auto with calm|]. apply Z.leb_gt in E. constructor; [constructor|..]; try done.
Qed.

Lemma command_ok input : cmd_ok (command input).
Proof.
  unfold command. cbv zeta. rewrite xclient_off. cbn [andb].
  destruct (match_cmd "HELO" _) eqn:E1. { apply HELO_ok. by apply match_cmd_length in E1. } clear E1.
  destruct (match_cmd "EHLO" _) eqn:E1. { apply EHLO_ok. by apply match_cmd_length in E1. } clear E1.
  destruct (match_cmd "AUTH" _); [apply AUTH_ok|].
  destruct (match_cmd "HELP" _). { apply cmd_reply. unfold do_HELP. calm. }
  destruct (match_cmd "MAIL FROM:" _) eqn:E1. { apply MAIL_ok. by apply match_cmd_length in E1. } clear E1.
  destruct (match_cmd "RCPT TO:" _) eqn:E1. { apply RCPT_ok. by apply match_cmd_length in E1. } clear E1.
  destruct (match_cmd "RSET" _).
  { intros s0 s H. eapply wp_then; [by apply (At_reset _ _ _ H)|]. cbv beta. intros s1 H1.
    apply wp_reply; [auto with calm|done]. }
  destruct (match_cmd "VRFY" _); [apply cmd_reply; auto with calm|].
  destruct (match_cmd "NOOP" _); [apply cmd_reply; auto with calm|].
  destruct (match_cmd "QUIT" _); [apply cmd_reply; calm|].
  destruct (match_cmd "DATA" _); [apply DATA_ok|].
  destruct (_ && _); [|apply unknown_ok].
  intros s0 s H. eapply wp_calm; [apply calmly_sendResponse|done|]. intros _ s1 _ H1.
  eapply wp_mono; [by apply (At_state_change _ ClientStartTLS _ _ H1)| |done].
  cbv beta. intros _ s2 H2. by exists ClientStartTLS.
Qed.

(** ** The states *)

Lemma At_Core st s0 s : At st s0 s → Core s0 s.
Proof. by intros [[]]. Qed.
Lemma Core_calm s0 s s' : Core s0 s → calm s s' → Core s0 s'.
Proof.
  intros [Ip Ie Ia It Hb Hal] [Ee Ea (A1 & A2 & A3) Er Es Ep Ez En (out & Et & Ho)].
  constructor; rewrite ?Ep, ?Ee, ?A1, ?A2, ?A3, ?Er, ?Es, ?Et; try done.
  - auto.
  - intros H. apply auth_since_app; [by apply Sent_quiet|auto].
  - apply trace_ok_app; [|done]. intros. by apply Sent_not_Delivered.
  - unfold bytes_left in *. rewrite Ee. lia.
  - auto.
Qed.
Lemma wp_core {A C} (m : Ses A) (f : A → Ses C) Q R s0 s : calmly m → Core s0 s →
  (∀ a s', calm s s' → Core s0 s' → wp (f a) Q R s') → wp (m ≫= f) Q R s.
Proof.
  intros Hm Ha Hf. apply wp_bind. eapply wp_mono; [apply Hm| |done]. cbv beta. intros a s' Hc.
  apply Hf; [done|]. by eapply Core_calm.
Qed.
(** A reset at the end of the data phase. *)
Lemma Core_reset s0 s : Core s0 s → (state (c s) = ClientData → alive (c s) = false) →
  wp resetTransaction (λ _ s', At (state (c s)) s0 s' ∧ alive (c s') = alive (c s)) (λ _ _, False) s.
Proof.
  intros [Ip Ie Ia It Hb Hal] Hst. apply wp_modify. split; [|done].
  constructor; [constructor|..]; cbn; try done.
  - right. constructor.
  - lia.
  - split; [split; [|left]|]; constructor.
  - intros H1 H2. apply Hst in H2. congruence.
Qed.

(** The client is killed with a reply, and its transaction is dropped. *)
Lemma abandon r s0 s : Core s0 s →
  wp (sendResponse r;; kill;; resetTransaction) (λ _ s', Inv s' ∧ alive (c s') = false) (λ _ _, False) s.
Proof.
  intros H. eapply wp_core; [apply calmly_sendResponse|done|]. intros _ s1 _ H1.
  apply wp_bind, wp_modify. set (s2 := mkSession _ _ _ _).
  assert (Core s0 s2) as H2 by (destruct H1; by constructor).
  eapply wp_mono; [by apply (Core_reset s0 s2)| |done]. cbv beta. intros _ s3 [H3 Ha].
  split; [apply H3|done].
Qed.

Lemma Env_ok_delivery s :
  (Authed (c s) = true → auth_since (trace s) (AuthUser (c s)) (AuthTenant (c s))) → Env_ok s →
  delivery_ok (trace s) (now s)
    (if Authed (c s) then SetEnvelopeTenantSend (c_env (c s)) (AuthTenant (c s)) else c_env (c s)) (Authed (c s)).
Proof.
  intros Ha [Hr Hs Hc Hrel Hv].
  assert (GetEnvelopeTenantSend (c_env (c s)) = None) as Hn by (unfold GetEnvelopeTenantSend; by rewrite Hv).
  destruct (Authed (c s)) eqn:EA.
  - specialize (Ha eq_refl). unfold SetEnvelopeTenantSend. destruct (AuthTenant (c s)) as [cfg|] eqn:Et.
    + constructor; try done. exists (AuthUser (c s)). unfold GetEnvelopeTenantSend, set_Values. cbn.
      by rewrite lookup_insert_eq.
    + constructor; try done. exists (AuthUser (c s)). by rewrite Hn.
  - by constructor.
Qed.

Lemma deliver_ok s0 s : Core s0 s → Env_ok s → state (c s) = ClientData →
  wp deliver (λ _ s', ∃ st, At st s0 s' ∧ (st = ClientCmd ∨ st = ClientShutdown)) (λ _ _, False) s.
Proof.
  intros H Hv Hst. unfold deliver. apply wp_cl. unfold id.
  set (e := if Authed (c s) then SetEnvelopeTenantSend (c_env (c s)) (AuthTenant (c s)) else c_env (c s)).
  assert (TLS e = TLS (c_env (c s))) as Htls.
  { unfold e, SetEnvelopeTenantSend. by destruct (Authed (c s)), (AuthTenant (c s)). }
  pose proof (Env_ok_delivery s (k_auth _ _ H) Hv) as Hd. fold e in Hd.
  apply wp_bind.
  assert (∀ P : unit → session → Prop,
    P tt (mkSession (set_env e (c s)) (trace s) (now s) (advertiseTLS s)) →
    wp (if Authed (c s) then upd_env (λ e, SetEnvelopeTenantSend e (AuthTenant (c s))) else mret tt) P (λ _ _, False) s) as Hw.
  { intros P HP. unfold e in HP. destruct (Authed (c s)); [by apply wp_modify|]. apply wp_ret.
    by destruct s as [[] ? ? ?]. }
  apply Hw. clear Hw.
  apply wp_cl. cbn [c set_env c_env]. apply wp_bind. unfold wp at 1, clock. cbn [now c trace advertiseTLS].
  apply wp_bind, wp_modify. cbn [now c trace advertiseTLS].
  destruct (process_returns (now s) e) as [res Hres]. pose proof (process_session (now s) e) as Hps. cbv zeta in Hps.
  destruct (Process (now s) e) as [o e'] eqn:EP. cbn in Hres, Hps. subst o.
  apply wp_bind, wp_modify. cbn [c trace now advertiseTLS]. set (s1 := mkSession _ _ _ _).
  assert (Core s0 s1) as H1.
  { destruct H as [Ip Ie Ia It Hb Hal]. destruct Hps as (_ & _ & Ht & _). constructor; cbn; try done.
    - intros HA. apply auth_since_app; [by repeat constructor|auto].
    - by apply trace_ok_deliver.
    - unfold bytes_left in *. cbn. by rewrite Ht, Htls. }
  apply wp_bind.
  assert (∀ P : unit → session → Prop, (∀ n, let s' := mkSession (set_sent n (c s1)) (trace s1) (now s1) (advertiseTLS s1) in P tt s') →
    wp (if (Code res <? 300)%Z then upd (λ x, set_sent (messagesSent x + 1) x) else mret tt) P (λ _ _, False) s1) as Hw.
  { intros P HP. destruct (Code res <? 300)%Z; [apply wp_modify, HP|]. apply wp_ret. apply (HP (messagesSent (c s1))). }
  apply Hw. clear Hw. intros n s2. assert (Core s0 s2) as H2 by (destruct H1; by constructor).
  eapply wp_core; [apply calmly_sendResponse|done|]. intros _ s3 _ H3.
  apply wp_bind, wp_modify. set (s4 := mkSession _ _ _ _).
  assert (Core s0 s4) as H4 by (destruct H3; by constructor).
  eapply wp_core; [unfold isShuttingDown; calm|done|]. intros down s5 Hc5 H5.
  assert (state (c s5) = ClientCmd) as Hs5 by (by rewrite (calm_state _ _ Hc5)).
  destruct down.
  - apply wp_bind, wp_modify. set (s6 := mkSession _ _ _ _).
    assert (Core s0 s6) as H6 by (destruct H5; by constructor).
    eapply wp_mono; [by apply (Core_reset s0 s6)| |done]. cbv beta. intros _ s7 [H7 _]. exists ClientShutdown. auto.
  - apply wp_bind, wp_ret. eapply wp_mono; [apply (Core_reset s0 s5 H5)| |done]; [by rewrite Hs5|].
    cbv beta. intros _ s7 [H7 _]. rewrite Hs5 in H7. exists ClientCmd. auto.
Qed.



Lemma Inv_calm s s' : Inv s → calm s s' → Inv s'.
Proof. intros H Hc. refine (at_inv _ _ _ (At_calm (state (c s)) s s s' _ Hc)). by constructor. Qed.
Lemma bytes_left_calm s s' : calm s s' → bytes_left (c s') ≤ bytes_left (c s).
Proof. intros Hc. unfold bytes_left. rewrite (calm_env _ _ Hc). pose proof (calm_size _ _ Hc). lia. Qed.
Lemma prog_calm s0 s s' : prog s0 s → calm s s' → prog s0 s'.
Proof.
  intros [H Hm] Hc. split; [by eapply Inv_calm|]. intros Ha%(calm_alive _ _ Hc). specialize (Hm Ha).
  unfold mu in *. rewrite (calm_state _ _ Hc). pose proof (bytes_left_calm _ _ Hc). lia.
Qed.
Lemma Inv_At s : Inv s → At (state (c s)) s s.
Proof. by constructor. Qed.


Lemma Cmd_ok : state_ok state_Cmd ClientCmd.
Proof.
  intros s Hi Hst Hal. unfold state_Cmd. pose proof (Inv_At _ Hi) as H. rewrite Hst in H.
  eapply wp_calm; [by apply calmly_upd|done|]. intros _ s1 Hc1 H1.
  apply wp_bind. eapply wp_mono; [apply readCommand_consumes| |done]. cbv beta. intros [input err] s2 [Hc2 Hn].
  pose proof (At_calm _ _ _ _ H1 Hc2) as H2.
  assert (∀ s', At ClientCmd s s' → wp (kill;; mret true) (λ _ s', prog s s') (λ _ s', Inv s') s') as Hdie.
  { intros s3 H3. apply wp_bind, wp_modify, wp_ret. split; [|done]. destruct H3 as [[] ? ? ?]. by constructor. }
  destruct err as [e|].
  - destruct e; try (apply wp_fail, (at_inv _ _ _ H2)); try (apply Hdie, H2).
    eapply wp_calm; [apply calmly_sendResponse|exact H2|]. intros _ s3 _ H3. by apply Hdie.
  - eapply wp_calm; [unfold isShuttingDown; calm|done|]. intros down s3 Hc3 H3.
    assert (bytes_left (c s3) < bytes_left (c s)) as Hlt.
    { specialize (Hn eq_refl). pose proof (bytes_left_calm _ _ Hc1). pose proof (bytes_left_calm _ _ Hc3).
      cut (bytes_left (c s2) < bytes_left (c s1)); [lia|]. unfold bytes_left. rewrite (calm_env _ _ Hc2). lia. }
    destruct down.
    + apply wp_bind. assert (At ClientCmd s3 s3) as H3' by (destruct H3; by constructor).
      eapply wp_mono; [by apply (At_state_change _ ClientShutdown _ _ H3')| |done].
      cbv beta. intros _ s4 [Hi4 Hb4 Hs4 _]. apply wp_ret. split; [done|]. intros _. unfold mu. rewrite Hs4, Hst. unfold weight. lia.
    + apply wp_bind. eapply wp_mono; [apply (command_ok input s3 s3)| |done].
      { destruct H3. by constructor. }
      cbv beta. intros _ s4 (st & [Hi4 Hb4 Hs4 _] & Hn1 & Hn2). apply wp_ret. split; [done|]. intros _.
      unfold mu. rewrite Hs4, Hst. destruct st; unfold weight; try done; lia.
Qed.

Lemma Data_ok : state_ok state_Data ClientData.
Proof.
  intros s Hi Hst Hal. unfold state_Data. pose proof (Inv_At _ Hi) as H. rewrite Hst in H.
  eapply wp_calm; [by apply calmly_upd|done|]. intros _ s1 Hc1 H1. apply wp_cl. unfold id.
  destruct (dot_loop_returns (2 * reader_size (bufin (c s1)) + 2) stateBeginLine (bufin (c s1))) as (d & err & r & HR & Hr);
    [destruct (decide _); lia|].
  unfold ReadDot. rewrite HR. apply wp_bind, wp_modify, wp_bind, wp_modify. cbn [c trace now advertiseTLS].
  set (s2 := mkSession _ _ _ _).
  assert (Core s s2) as H2.
  { destruct (At_Core _ _ _ H1) as [? ? ? ? Hb ?]. constructor; try done. unfold bytes_left in *. cbn. lia. }
  apply wp_bind.
  eapply (wp_mono _ (λ _ s', prog s s') _ (λ _ _, False)); [|by intros; apply wp_ret|done].
  assert (∀ r, wp (sendResponse r;; kill;; resetTransaction) (λ _ s', prog s s') (λ _ _, False) s2) as Hg.
  { intros rr. eapply wp_mono; [by apply (abandon rr s s2)| |done]. cbv beta. intros _ s3 [H3 Ha3].
    split; [done|]. by rewrite Ha3. }
  destruct (_ <? _)%Z eqn:Esz; [apply Hg|]. apply Z.ltb_ge in Esz.
  destruct err as [e|]; [destruct e; apply Hg|].
  eapply wp_mono; [apply (deliver_ok s s2 H2)| |done].
  - destruct H1 as [[Ip Ir Il Ic Ie [Id1 Id2] Is Ia It] Hb Hs Ha]. constructor; cbn; try done.
    + split; [|done]. rewrite (calm_env _ _ Hc1). by apply (i_state _ Hi).
    + by rewrite Id1.
  - cbn. by rewrite (calm_state _ _ Hc1).
  - cbv beta. intros _ s3 (st & [H3 Hb3 Hs3 _] & Hc3). split; [done|]. intros _. unfold mu. rewrite Hs3, Hst.
    destruct Hc3 as [->| ->]; unfold weight; lia.
Qed.

Lemma wp_upgrade {C} (f : bool → Ses C) Q R s :
  (∀ st, handshake = Some st → wp (f true) Q R (secured st s)) → (handshake = None → wp (f false) Q R s) →
  wp (upgradeToTLS ≫= f) Q R s.
Proof.
  intros H1 H2. apply wp_bind. unfold upgradeToTLS. destruct handshake as [st|].
  - do 4 apply wp_bind, wp_modify. apply wp_ret. by apply H1.
  - apply wp_ret. by apply H2.
Qed.

Lemma bytes_left_secured st x y : TLS (c_env x) = false → handshake = Some st → TLS (c_env y) = true →
  reader_size (bufin y) = stream_size st → bytes_left y ≤ bytes_left x.
Proof.
  intros Htls Hh He Hr. unfold bytes_left. rewrite Htls, Hh, He, Hr. lia.
Qed.

(** A handshake and the reset of the session after it. *)
Lemma At_secured st s : Inv s → TLS (c_env (c s)) = false → handshake = Some st → state (c s) ≠ ClientData →
  ∀ b, let x := c (secured st s) in
  let x' := set_env (set_ESMTP false (ResetTransaction (c_env x))) (set_auth false [] None x) in
  At (state (c s)) s (mkSession x' (trace s ++ [Secured]) (now s) b).
Proof.
  intros [Ip Ir Il Ic Ie Id Is Ia It] Htls Hh Hst b x x'. constructor; [constructor|..]; cbn; try done.
  - right. constructor.
  - lia.
  - split; [split; [|left]|]; constructor.
  - apply trace_ok_app; [|done]. by intros ? ? ? ?%list_elem_of_singleton.
  - by apply (bytes_left_secured st).
Qed.

Lemma StartTLS_ok : state_ok state_StartTLS ClientStartTLS.
Proof.
  intros s Hi Hst Hal. unfold state_StartTLS. apply wp_cl. unfold id.
  assert (∀ s', At ClientStartTLS s s' → wp (upd (set_state ClientCmd);; mret true) (λ _ s', prog s s') (λ _ s', Inv s') s') as Hend.
  { intros s' H. eapply wp_then; [by apply (At_state_change _ ClientCmd _ _ H)|]. cbv beta. intros s2 [Hi2 Hb2 Hs2 _].
    apply wp_ret. split; [done|]. intros _. unfold mu. rewrite Hs2, Hst. unfold weight. lia. }
  pose proof (Inv_At _ Hi) as H. rewrite Hst in H.
  destruct (negb (TLS (c_env (c s))) && StartTLSOn (sc_TLS sc)) eqn:E;
    [|apply wp_bind, wp_ret; by apply Hend].
  apply wp_bind. eapply wp_clock; [done|]. intros s1 Hn Hc1 Ht1 H1.
  destruct (tls_config_at (now s)); [|apply wp_ret; by apply Hend].
  apply andb_true_iff in E as [Etls%negb_true_iff _]. rewrite <- Hc1 in Etls.
  apply wp_upgrade.
  - intros st Hh. do 3 apply wp_bind, wp_modify. apply wp_modify. cbn [c trace now advertiseTLS].
    apply Hend. pose proof (At_secured st s1 (at_inv _ _ _ H1) Etls Hh) as Hs.
    rewrite Hc1, Hst in Hs. specialize (Hs ltac:(done) false). cbv zeta in Hs.
    destruct Hs as [Hi2 Hb2 Hs2 Ha2]. constructor; [exact Hi2| |exact Hs2|].
    + transitivity (bytes_left (c s1)); [exact Hb2|apply H1].
    + by intros Ha%Ha2; apply H1.
  - intros _. apply wp_modify. apply Hend. destruct H1 as [[] ? ? ?]. by constructor.
Qed.

Lemma calmly_greeting : calmly greeting.
Proof. unfold greeting. calm. Qed.
Lemma turn_ok s : Inv s → alive (c s) = true → wp turn (λ _ s', prog s s') (λ _ s', Inv s') s.
Proof.
  intros Hi Hal. unfold turn. apply wp_cl. unfold id. apply wp_bind.
  assert (∀ m : Ses bool, wp m (λ _ s', prog s s') (λ _ s', Inv s') s →
    wp m (λ flush s', wp (if (flush : bool) then
        x ← cl id;
        if bufErr x then fail BufferError
        else match bufout x with
             | [] => mret tt
             | _ => ok ← flushResponse; if (ok : bool) then mret tt else fail WriteError
             end
      else mret tt) (λ _ s', prog s s') (λ _ s', Inv s') s') (λ _ s', Inv s') s) as Hflush.
  { intros m Hm. eapply wp_mono; [exact Hm| |done]. cbv beta. intros flush s1 H1.
    destruct flush; [|by apply wp_ret]. apply wp_cl. unfold id.
    destruct (bufErr _); [apply wp_fail, H1|]. destruct (bufout _) as [|ch l]; [by apply wp_ret|].
    apply wp_bind. eapply wp_mono; [apply calmly_flushResponse| |done]. cbv beta. intros ok s2 Hc2.
    pose proof (prog_calm _ _ _ H1 Hc2) as H2. destruct ok; [by apply wp_ret|apply wp_fail, H2]. }
  apply Hflush. clear Hflush. pose proof (Inv_At _ Hi) as H.
  destruct (state (c s)) eqn:Hst.
  - cbv iota. eapply wp_calm; [apply calmly_greeting|exact H|]. intros g s1 _ H1.
    eapply wp_calm; [apply calmly_sendResponse|done|]. intros _ s2 _ H2.
    eapply wp_then; [by apply (At_state_change _ ClientCmd _ _ H2)|]. cbv beta. intros s3 [Hi3 Hb3 Hs3 _].
    apply wp_ret. split; [done|]. intros _. unfold mu. rewrite Hs3, Hst. unfold weight. lia.
  - by apply Cmd_ok.
  - by apply Data_ok.
  - by apply StartTLS_ok.
  - cbv iota. eapply wp_calm; [apply calmly_sendResponse|done|]. intros _ s1 _ H1.
    apply wp_bind, wp_modify, wp_ret. split; [|done]. destruct H1 as [[] ? ? ?]. by constructor.
Qed.

(** The loop ends: with a client that was killed, or with an exit. *)
Lemma turns_ok : ∀ fuel s, Inv s → (alive (c s) = true → mu s < fuel) →
  wp (turns fuel) (λ _ s', Inv s' ∧ alive (c s') = false) (λ _ s', Inv s') s.
Proof.
  induction fuel as [|f IH]; intros s Hi Hf; cbn [turns]; apply wp_cl; unfold id, isAlive;
    destruct (alive (c s)) eqn:Hal; try (by apply wp_ret).
  - by specialize (Hf eq_refl); lia.
  - specialize (Hf eq_refl). apply wp_bind. eapply wp_mono; [by apply turn_ok| |done]. cbv beta.
    intros _ s1 [Hi1 Hm1]. apply IH; [done|]. intros Ha. specialize (Hm1 Ha). lia.
Qed.


Lemma starts_Inv conn s : starts conn s →
  Inv s ∧ Authed (c s) = false ∧ ESMTP (c_env (c s)) = ESMTP (c_env (c s)) ∧ TLS (c_env (c s)) = false ∧
  state (c s) = ClientGreeting ∧
  bytes_left (c s) = stream_size conn + match handshake with Some st => stream_size st | None => 0 end.
Proof.
  intros (id & e & x & (E1 & E2 & E3 & E4 & E5) & Hx & Ht & Hc).
  assert (trace_ok (trace s)) as It by (rewrite Ht; intros i ? ? ?; by rewrite lookup_nil).
  assert (rcpts_allowed (now s) []) by apply list.Forall_nil_2.
  assert (addr_clean zero_Address ∧ Forall addr_clean []) by (split; [apply addr_clean_zero|apply list.Forall_nil_2]).
  assert (length (A := Address) [] ≤ LimitRecipients + 1) by (cbn; lia). pose proof reading_zero.
  destruct Hc as [Hc|Hc]; (split; [constructor; rewrite ?Hc; cbn; rewrite ?E1, ?E2, ?E3; auto; done|]);
    rewrite Hc; split_and!; try done; unfold bytes_left; cbn; by rewrite E5.
Qed.

Lemma handleClient_inv conn fuel s : starts conn s → session_fuel conn ≤ fuel →
  wp (handleClient fuel) (λ _ s', Inv s' ∧ alive (c s') = false) (λ _ s', Inv s') s.
Proof.
  intros Hs Hf. destruct (starts_Inv _ _ Hs) as (Hi & HA & _ & Htls & Hst & Hb).
  unfold handleClient. apply wp_bind.
  eapply (wp_mono _ (λ _ s', Inv s' ∧ (alive (c s') = true → mu s' < fuel)) _ (λ _ _, False)); [|
    cbv beta; intros _ s1 [Hi1 Hm1]; by apply turns_ok|done].
  unfold prologue. apply wp_bind, wp_modify. set (s1 := mkSession _ _ _ _).
  assert (At ClientGreeting s1 s1) as H1 by (by constructor; [destruct Hi; constructor|..]).
  assert (∀ s', At ClientGreeting s1 s' →
    wp (if StartTLSOn (sc_TLS sc) then mret tt else set_advertiseTLS false)
       (λ _ s', Inv s' ∧ (alive (c s') = true → mu s' < fuel)) (λ _ _, False) s') as Hend.
  { intros s' [Hi' Hb' Hs' _].
    assert (mu s' < fuel) by (unfold mu, session_fuel in *; rewrite Hs'; change (c s1) with (c s) in Hb'; unfold weight; lia).
    destruct (StartTLSOn _); [by apply wp_ret|apply wp_modify]. by destruct Hi'. }
  apply wp_bind. destruct (AlwaysOn (sc_TLS sc)); [|apply wp_ret; by apply Hend].
  eapply wp_clock; [done|]. intros s2 _ Hc2 _ H2.
  destruct (tls_config_at _); [|apply wp_ret; by apply Hend].
  assert (c s2 = c s) as Ec by done.
  apply wp_upgrade.
  - intros st Hh. apply wp_modify, Hend.
    destruct H2 as [[Ip Ir Il Ic Ie Id Is Ia It] Hb2 Hs2 Ha2].
    constructor; [constructor|..]; cbn; rewrite ?Ec in *; try done.
    + by rewrite HA.
    + apply trace_ok_app; [|done]. by intros ? ? ? ?%list_elem_of_singleton.
    + by apply (bytes_left_secured st).
  - intros _. apply wp_modify, Hend. destruct H2 as [[] ? ? ?]. by constructor.
Qed.

(** What the final state of a session says, whether it ended with a client that was
    killed or with an exit. *)
Lemma handleClient_end conn fuel s : starts conn s → session_fuel conn ≤ fuel →
  Inv (snd (handleClient fuel s)) ∧
  match fst (handleClient fuel s) with
  | Ok _ => alive (c (snd (handleClient fuel s))) = false
  | Err _ => True
  | _ => False
  end.
Proof.
  intros Hs Hf. pose proof (handleClient_inv _ _ _ Hs Hf) as H. unfold wp in H.
  destruct (handleClient fuel s) as [[u|e| |] s']; naive_solver.
Qed.

(** C1. The server survives its clients. For any bytes that a peer sends, in any
    division into reads, ended by any errors, with writes and deadlines that fail at
    any time, a TLS handshake that fails or not, and any answers of authenticator and
    backend, [handleClient] returns, without a panic and after at most
    3 n + 4 rounds of its loop for n bytes of input. Either the client was killed by the
    server, or the connection was closed, timed out or failed; and a client that is not
    killed has made fewer than five mistakes. The assumptions: XCLIENT is off, and an authenticator is not taken
    away while the session runs ([ServerLaws]; without them it can panic, as the examples below show);
    [Process] of the backend returns and leaves the session's data alone ([BackendLaws], which the gateway
    keeps, see Gateway.v); and the envelope has no transaction in it when the session starts. *)
Theorem handleClient_returns conn fuel s : starts conn s → session_fuel conn ≤ fuel →
  let s' := snd (handleClient fuel s) in
  (∃ e : exit, fst (handleClient fuel s) = Err e ∧
     (alive (c s') = true → (errors (c s') < MaxUnrecognizedCommands)%Z)) ∨
  (fst (handleClient fuel s) = Ok tt ∧ alive (c s') = false).
Proof.
  intros Hs Hf s'. destruct (handleClient_end _ _ _ Hs Hf) as [Hi Hr]. fold s' in Hi, Hr.
  destruct (fst (handleClient fuel s)) as [[]|e| |]; try done; [by right|left].
  exists e. split; [done|apply Hi].
Qed.

(** C2. The server is not an open relay. Whatever the client sends, a message that
    reaches the backend was either sent by a client that the authenticator had accepted
    before, with no TLS handshake in between, or every one of its recipients was one
    that the allowed hosts of the server accepted, at the time of its RCPT command. This
    holds although hosts and authenticator may be replaced at any time, and although the
    client may have been used before. The session has to start with an envelope that has
    no transaction in it, as a new one: one that comes from the pool may have, and then this
    fails (see [next_session_inherits_mail] in Pool.v). The other assumptions are those of
    [handleClient_returns]. *)
Theorem no_open_relay conn fuel s i t e a : starts conn s → session_fuel conn ≤ fuel →
  trace (snd (handleClient fuel s)) !! i = Some (Delivered t e a) →
  (∃ j tj ident user pw r, j < i ∧
     trace (snd (handleClient fuel s)) !! j = Some (AuthAsked tj ident user pw (inl r)) ∧ OK r = true ∧
     ∀ k, j < k < i → trace (snd (handleClient fuel s)) !! k ≠ Some Secured) ∨
  (∀ rcpt, rcpt ∈ e_RcptTo e → ∃ t', t' < t ∧ allowed_address (hosts_at t') rcpt = true).
Proof.
  intros Hs Hf Hi. destruct (handleClient_end _ _ _ Hs Hf) as [Hinv _].
  destruct (i_trace _ Hinv i t e a Hi) as [_ _ _ Hr Ht]. destruct a.
  - left. destruct Ht as (u & pre & tj & id & pw & r & post & E & Ho & _ & Hp).
    set (tr := trace _) in *. assert (i ≤ length tr) as Hl by (apply lookup_lt_Some in Hi; lia).
    assert (i = length pre + S (length post)) as Ei.
    { apply (f_equal length) in E. rewrite length_take, length_app in E. cbn in E. lia. }
    assert (∀ k, k < i → tr !! k = (pre ++ AuthAsked tj id u pw (inl r) :: post) !! k) as Hk.
    { intros k Hk. rewrite <- E. by rewrite lookup_take_lt. }
    exists (length pre), tj, id, u, pw, r. split; [lia|]. split; [|split; [done|]].
    + rewrite Hk by lia. by apply list_lookup_middle.
    + intros k [Hk1 Hk2]. rewrite Hk by lia. rewrite lookup_app_r by lia.
      replace (k - length pre) with (S (k - length pre - 1)) by lia. cbn.
      intros Hsec%list_elem_of_lookup_2. rewrite list.Forall_forall in Hp. by apply Hp in Hsec.
  - right. destruct Hr as [Hr|Hr]; [done|]. unfold rcpts_allowed in Hr. rewrite list.Forall_forall in Hr. exact Hr.
Qed.

(** C7. Every message that reaches the backend has at least one and at most 101
    recipients (the limit is checked before a recipient is added), and no more data than
    the configured maximum; the local parts of sender and recipients are printable, and
    so are the hosts, except that an address without one gets the server's own name. *)
Theorem deliveries_within_limits conn fuel s t e a : starts conn s → session_fuel conn ≤ fuel →
  Delivered t e a ∈ trace (snd (handleClient fuel s)) →
  0 < length (e_RcptTo e) ≤ LimitRecipients + 1 ∧ (Z.of_nat (length (Data e)) ≤ MaxSize sc)%Z ∧
  (∀ x, x ∈ e_MailFrom e :: e_RcptTo e →
     Printable (User x) ∧ (Printable (Host x) ∨ ∃ t, Host x = Hostname (config_at t))).
Proof.
  intros Hs Hf Hi. destruct (handleClient_end _ _ _ Hs Hf) as [Hinv _].
  apply list_elem_of_lookup in Hi as [i Hi].
  destruct (i_trace _ Hinv i t e a Hi) as [[H0 H1] H2 [H3 H4] _ _].
  split; [|split; [done|]].
  - destruct (e_RcptTo e); [done|cbn in *; lia].
  - intros x Hx. rewrite elem_of_cons in Hx. rewrite list.Forall_forall in H4. destruct Hx as [->|Hx]; [done|by apply H4].
Qed.

(** C17. The tenant whose credentials an outgoing message is sent with is the one that
    the authenticator gave in the last acceptance of this session, which was after the last TLS handshake; a
    message of a session that is not authenticated carries no tenant. This is under the assumptions of
    [handleClient_returns], and of a session that starts with an envelope without values, as a new one: one that
    comes from the pool may still carry the tenant of the session before. *)
Theorem delivery_tenant conn fuel s i t e a : starts conn s → session_fuel conn ≤ fuel →
  trace (snd (handleClient fuel s)) !! i = Some (Delivered t e a) →
  if a then ∃ user, auth_since (take i (trace (snd (handleClient fuel s)))) user (GetEnvelopeTenantSend e)
  else GetEnvelopeTenantSend e = None.
Proof.
  intros Hs Hf Hi. destruct (handleClient_end _ _ _ Hs Hf) as [Hinv _].
  by destruct (i_trace _ Hinv i t e a Hi).
Qed.

(** C6. After a successful STARTTLS handshake the session starts over (RFC 3207):
    whatever the client had sent in the clear after the command is gone, so that
    nothing can be injected into the encrypted session; authentication, sender, recipients
    and the EHLO state are cleared, and STARTTLS is no longer offered. *)
Theorem STARTTLS_starts_over st s :
  handshake = Some st → StartTLSOn (sc_TLS sc) = true → TLS (c_env (c s)) = false →
  tls_config_at (now s) = true →
  ∃ s', state_StartTLS s = (Ok true, s') ∧ started_over st s'.
Proof.
  intros Hh Hst Htls Hcfg.
  assert (wp state_StartTLS (λ r s', r = true ∧ started_over st s') (λ _ _, False) s) as H.
  { unfold state_StartTLS. apply wp_cl. unfold id. rewrite Htls, Hst. cbn [negb andb].
    apply wp_bind, wp_bind. unfold wp at 1, clock. rewrite Hcfg. apply wp_upgrade; [|by rewrite Hh].
    intros st' E. rewrite Hh in E. injection E as <-. do 3 apply wp_bind, wp_modify. apply wp_modify.
    apply wp_bind, wp_modify, wp_ret. cbn. done. }
  unfold wp in H. destruct (state_StartTLS s) as [[b|e| |] s']; try done. destruct H as [-> H]. by exists s'.
Qed.
End Commands.

(** ** Concrete sessions *)
#[local] Existing Instance ascii_only.
#[local] Instance ascii_only_laws : UnicodeLaws.
Proof. intros s p _ H. by apply HasPrefix_length in H. Qed.
#[local] Existing Instances test_world test_backend.
#[local] Instance test_backend_laws : BackendLaws.
Proof. constructor; [intros t e; by eexists|done|done]. Qed.
#[local] Instance test_server_laws auth : @ServerLaws (test_server auth false).
Proof. by constructor. Qed.
Lemma test_starts conn : starts conn (test_session conn).
Proof.
  exists 1%Z, test_envelope, (c (test_session conn)). split; [done|]. split; [apply reading_zero|].
  split; [done|by left].
Qed.

Lemma handleClient_returns_witness :
  let r := run_test (Some reject_all) relay_script in
  fst r = Ok tt ∧ ((∃ e : exit, fst r = Err e ∧
     (alive (c (snd r)) = true → (errors (c (snd r)) < MaxUnrecognizedCommands)%Z)) ∨
  (fst r = Ok tt ∧ alive (c (snd r)) = false)).
Proof.
  split; [vm_compute; reflexivity|].
  apply (@handleClient_returns _ _ _ _ _ (test_server (Some reject_all) false) _ relay_script
    (session_fuel relay_script) (test_session relay_script) (test_starts _)). apply Nat.le_refl.
Defined.

(** The message of a client that is not authenticated, to a host of the server. *)
Lemma no_open_relay_witness :
  let tr := trace (snd (run_test (Some reject_all) relay_script)) in
  ∃ e, tr !! 7 = Some (Delivered 22 e false) ∧ e_RcptTo e ≠ [] ∧
  ((∃ j tj ident user pw r, j < 7 ∧
     tr !! j = Some (AuthAsked tj ident user pw (inl r)) ∧ OK r = true ∧
     ∀ k, j < k < 7 → tr !! k ≠ Some Secured) ∨
  (∀ rcpt, rcpt ∈ e_RcptTo e → ∃ t', t' < 22 ∧
     allowed_address (@hosts_at (test_server (Some reject_all) false) t') rcpt = true)).
Proof.
  intros tr. eexists. split; [vm_compute; reflexivity|]. split; [done|].
  eapply (@no_open_relay _ _ _ _ _ (test_server (Some reject_all) false) _ relay_script
    (session_fuel relay_script) (test_session relay_script) 7 22 _ false (test_starts _)).
  - apply Nat.le_refl.
  - vm_compute. reflexivity.
Defined.
Lemma deliveries_within_limits_witness :
  let tr := trace (snd (run_test (Some reject_all) relay_script)) in
  ∃ t e, Delivered t e false ∈ tr ∧ Data e = bs "hi" ++ [LF] ∧ 0 < length (e_RcptTo e) ≤ LimitRecipients + 1.
Proof.
  intros tr. assert (∃ e, tr !! 7 = Some (Delivered 22 e false) ∧ Data e = bs "hi" ++ [LF]) as (e & He & Hd).
  { eexists. split; vm_compute; reflexivity. }
  apply list_elem_of_lookup_2 in He. unfold tr in *. exists 22, e. split; [exact He|]. split; [exact Hd|].
  apply (@deliveries_within_limits _ _ _ _ _ (test_server (Some reject_all) false) _ relay_script
    (session_fuel relay_script) (test_session relay_script) 22 e false (test_starts _)).
  - apply Nat.le_refl.
  - exact He.
Defined.
Lemma delivery_tenant_witness :
  let tr := trace (snd (run_test (Some tenant_auth) tenant_script)) in
  ∃ i t e, tr !! i = Some (Delivered t e true) ∧ GetEnvelopeTenantSend e = Some test_tenant ∧
           ∃ user, auth_since (take i tr) user (GetEnvelopeTenantSend e).
Proof.
  intros tr. assert (∃ e, tr !! 8 = Some (Delivered 23 e true) ∧ GetEnvelopeTenantSend e = Some test_tenant) as (e & He & Hd).
  { eexists. split; vm_compute; reflexivity. }
  unfold tr in *. exists 8, 23, e. split; [exact He|]. split; [exact Hd|].
  apply (@delivery_tenant _ _ _ _ _ (test_server (Some tenant_auth) false) _ tenant_script
    (session_fuel tenant_script) (test_session tenant_script) 8 23 e true (test_starts _)).
  - apply Nat.le_refl.
  - exact He.
Defined.
Lemma STARTTLS_starts_over_witness :
  let st := [Chunk (bs "EHLO a" ++ [CR; LF])] in
  let w : World := {| handshake := Some st; write_ok := λ _, true; deadline_ok := λ _, true |} in
  let plain := test_session (lines_of ["MAIL FROM:<evil@x.org>"]) in
  ∃ s', @state_StartTLS w (tls_server) plain = (Ok true, s') ∧ available (bufin (c s')) = stream_text st.
Proof.
  intros st w plain.
  destruct (@STARTTLS_starts_over w tls_server st plain) as (s' & H & Ha & _); [done..|]. by exists s'.
Defined.

(** ** What the sessions show *)

(** A break inside the switch over the mechanisms does not leave the command: a client
    that cancels AUTH LOGIN at the password prompt, with the star of RFC 4954, is still
    authenticated with an empty password. *)
Example cancelled_AUTH_is_attempted :
  let r := run_test (Some any_password) (lines_of ["EHLO a.org"; "AUTH LOGIN am9l"; "*"; "QUIT"]) in
  ∃ t answer, trace (snd r) !! 3 = Some (AuthAsked t [] (bs "joe") [] answer) ∧ Authed (c (snd r)) = true ∧
    trace (snd r) !! 4 = Some (Sent (bs "235 2.7.0 Authentication successful" ++ [CR; LF])).
Proof.
  do 2 eexists. split; [vm_compute; reflexivity|]. split; vm_compute; reflexivity.
Qed.

(** With XCLIENT on, the bare command indexes past the end of the line: the session, and
    with it the daemon, panics. *)
Example bare_XCLIENT_panics :
  fst (@handleClient ascii_only test_world test_backend (test_server None true) 20
    (test_session (lines_of ["XCLIENT"]))) = Panic.
Proof. vm_compute. reflexivity. Qed.

(** With XCLIENT on, the address that the client gives may have a bare CR in it: it goes to the delivery header as it is. *)
Example XCLIENT_ADDR_takes_CR :
  RemoteIP (c_env (c (snd (@handleClient ascii_only test_world test_backend (test_server None true) 20
    (test_session [Chunk (bs "XCLIENT ADDR=10.0.0.1" ++ [CR] ++ bs "X-Spam:no" ++ [CR; LF])]))))) =
  bs "10.0.0.1" ++ [CR] ++ bs "X-Spam:no".
Proof. vm_compute. reflexivity. Qed.

(** An authenticator that is taken away between the check of AUTH and the use of it: the session
    panics. Here it is there up to a moment, when the client sends its credentials. *)
Example removed_authenticator_panics :
  let sv := test_server (Some reject_all) false in
  let removed : Server := {|
    sc := @sc sv; config_at := @config_at sv; hosts_at := @hosts_at sv; tls_config_at := @tls_config_at sv;
    shutting_down_at := @shutting_down_at sv; quote_at := @quote_at sv; version := @version sv;
    active_clients := @active_clients sv; start_time := @start_time sv; authenticator_at := λ t, if t <? 10 then Some reject_all else None |} in
  fst (@handleClient ascii_only test_world test_backend removed 20
    (test_session (lines_of ["EHLO a.org"; "AUTH PLAIN"; "AGpvZQBwdw=="]))) = Panic.
Proof. vm_compute. reflexivity. Qed.

(** The null sender does not open a transaction, so a second MAIL is accepted. *)
Example null_sender_is_no_transaction :
  let tr := trace (snd (run_test None (lines_of ["HELO a.org"; "MAIL FROM:<>"; "MAIL FROM:<a@b.org>"; "QUIT"]))) in
  tr !! 2 = Some (Sent (bs "250 2.1.0 OK" ++ [CR; LF])) ∧ tr !! 3 = Some (Sent (bs "250 2.1.0 OK" ++ [CR; LF])).
Proof. split; vm_compute; reflexivity. Qed.

(** A message is accepted without a MAIL command. *)
Example DATA_without_MAIL :
  let tr := trace (snd (run_test None (lines_of ["HELO a.org"; "RCPT TO:<c@test.org>"; "DATA"; "hi"; "."; "QUIT"]))) in
  ∃ t e, tr !! 5 = Some (Delivered t e false) ∧ e_MailFrom e = zero_Address.
Proof. do 2 eexists. split; vm_compute; reflexivity. Qed.
