(* ===== verification/Pool.v ===== *)
(** * The pool of clients: pool.go, and the goroutines of server.Start that use it

    The pool is shared by goroutines that run in any order: those that borrow a client,
    serve it and return it, and those that shut the pool down. A goroutine is its next
    operation on the shared state; every lock, channel operation and access to the
    shared state is one step, so that the interleavings are those of the program. *)
From S2P Require Import Prelude GoStd Rfc5321 Shared Envelope Config Tenant Reader Auth Backend Client Server Session.

(** A client that was lent, with what the pool has done to it: the timeout it set last,
    and whether it killed it because its deadline could not be set. *)
Record lentClient := mkLent { lc_timeout : option Z; lc_killed : bool }.

Record Pool := mkPool {
  poolSize : nat;
  pool : list client;
  sem : nat;
  m : gmap Z lentClient;
  wg : nat;
  isShuttingDownFlg : bool;
  poolGuard : bool;
  ShutdownChan : nat;
  envelopePool : EnvPool.Pool
}.

Definition NewPool (poolSize : nat) : Pool :=
  mkPool poolSize [] 0 ∅ 0 false false 0 (EnvPool.NewPool poolSize).

(** What a goroutine borrows a client for. *)
Record connection := mkConnection { conn : stream; clientID : Z; remoteAddr : bytes; accepted_at : Z }.

(** The next operation of a goroutine. *)
Inductive pc : Type :=
(* Borrow *)
| BLock (r : connection)
| BCheck (r : connection)
| BSelect (r : connection)
| BClient (r : connection)
| BAdd (r : connection) (c : client)
| BUnlock (c : option client)
| Refused
(* the goroutine of a client in server.Start, and Return *)
| Serving (c : client)
| EnvelopeReturn (c : client)
| RRemove (c : client)
| RPut (c : client)
| RSem
| Finished
(* ShutdownState, then ShutdownWait *)
| SLock | SFlag | SSend | SNotify | SUnlock
| WLock | WWait | WDrain | WFlag | WUnlock
| Stopped
(* a negative WaitGroup counter *)
| Panicked
(* the type assertion of server.Start on the nil that a refused Borrow returns *)
| Crashed.

(** What the scheduler and the world choose: which ready branch of a select is taken,
    how a session leaves its client, for which clients a deadline can be set. *)
Inductive choice : Type :=
| Proceed
| TakeShutdown
| Served (c : client)
| Deadlines (ok : Z → bool).

Section Steps.
Context {D : Digest}.

Definition with_guard (b : bool) (p : Pool) : Pool :=
  mkPool (poolSize p) (pool p) (sem p) (m p) (wg p) (isShuttingDownFlg p) b (ShutdownChan p) (envelopePool p).
Definition with_flag (b : bool) (p : Pool) : Pool :=
  mkPool (poolSize p) (pool p) (sem p) (m p) (wg p) b (poolGuard p) (ShutdownChan p) (envelopePool p).
Definition with_chan (n : nat) (p : Pool) : Pool :=
  mkPool (poolSize p) (pool p) (sem p) (m p) (wg p) (isShuttingDownFlg p) (poolGuard p) n (envelopePool p).
Definition with_sem (n : nat) (p : Pool) : Pool :=
  mkPool (poolSize p) (pool p) n (m p) (wg p) (isShuttingDownFlg p) (poolGuard p) (ShutdownChan p) (envelopePool p).
Definition with_pool (l : list client) (p : Pool) : Pool :=
  mkPool (poolSize p) l (sem p) (m p) (wg p) (isShuttingDownFlg p) (poolGuard p) (ShutdownChan p) (envelopePool p).
Definition with_lent (m : gmap Z lentClient) (wg : nat) (p : Pool) : Pool :=
  mkPool (poolSize p) (pool p) (sem p) m wg (isShuttingDownFlg p) (poolGuard p) (ShutdownChan p) (envelopePool p).
Definition with_envelopes (ep : EnvPool.Pool) (p : Pool) : Pool :=
  mkPool (poolSize p) (pool p) (sem p) (m p) (wg p) (isShuttingDownFlg p) (poolGuard p) (ShutdownChan p) ep.

Definition lock (k : pc) (p : Pool) : option (Pool * pc) :=
  if poolGuard p then None else Some (with_guard true p, k).

(** [mapAll] with the callback of [SetTimeout] and [ShutdownState]: the timeout is set,
    or the client is killed. *)
Definition set_timeout (t : Z) (ok : bool) (l : lentClient) : lentClient :=
  if ok then mkLent (Some t) (lc_killed l) else mkLent (lc_timeout l) true.
Definition mapAll (f : Z → lentClient → lentClient) (p : Pool) : Pool :=
  with_lent (map_imap (λ i l, Some (f i l)) (m p)) (wg p) p.
Definition SetTimeout (t : Z) (ok : Z → bool) (p : Pool) : Pool := mapAll (λ i l, set_timeout t (ok i) l) p.

Definition aVeryLowTimeout : Z := 1.

Definition GetActiveClientsCount (p : Pool) : nat := sem p.
Definition IsShuttingDown (p : Pool) : bool := isShuttingDownFlg p.

(** [c.init] or [NewClient], which borrow the envelope. *)
Definition take_client (r : connection) (p : Pool) : option (Pool * client) :=
  '(e, ep) ← EnvPool.Borrow (remoteAddr r) (accepted_at r) (clientID r) (envelopePool p);
  match pool p with
  | x :: l => Some (with_envelopes ep (with_pool l p), client_init (conn r) (clientID r) e x)
  | [] => Some (with_envelopes ep p, NewClient (conn r) (clientID r) e)
  end.

Definition activeClientsAdd (c : client) (p : Pool) : Pool :=
  with_lent (<[ID c := mkLent None false]> (m p)) (S (wg p)) p.
Definition activeClientsRemove (c : client) (p : Pool) : option Pool :=
  match wg p with 0 => None | S n => Some (with_lent (delete (ID c) (m p)) n p) end.

(** One step of a goroutine; [None] is an operation that blocks. *)
Definition advance (ch : choice) (p : Pool) (k : pc) : option (Pool * pc) :=
  match k, ch with
  | BLock r, Proceed => lock (BCheck r) p
  | BCheck r, Proceed =>
      if isShuttingDownFlg p then Some (p, BUnlock None) else Some (p, BSelect r)
  | BSelect r, Proceed =>
      if sem p <? poolSize p then Some (with_sem (S (sem p)) p, BClient r) else None
  | BSelect r, TakeShutdown =>
      match ShutdownChan p with 0 => None | S n => Some (with_chan n p, BUnlock None) end
  | BClient r, Proceed => '(p', c) ← take_client r p; Some (p', BAdd r c)
  | BAdd r c, Proceed => Some (activeClientsAdd c p, BUnlock (Some c))
  | BUnlock r, Proceed =>
      Some (with_guard false p, match r with Some c => Serving c | None => Refused end)
  | Refused, Proceed => Some (p, Crashed)
  | Serving c, Served c' => if bool_decide (ID c' = ID c) then Some (p, EnvelopeReturn c') else None
  | EnvelopeReturn c, Proceed => ep ← EnvPool.Return (c_env c) (envelopePool p); Some (with_envelopes ep p, RRemove c)
  | RRemove c, Proceed =>
      match activeClientsRemove c p with Some p' => Some (p', RPut c) | None => Some (p, Panicked) end
  | RPut c, Proceed =>
      Some (if length (pool p) <? poolSize p then with_pool (pool p ++ [c]) p else p, RSem)
  | RSem, Proceed => match sem p with 0 => None | S n => Some (with_sem n p, Finished) end
  | SLock, Proceed => lock SFlag p
  | SFlag, Proceed => Some (with_flag true p, SSend)
  | SSend, Proceed => match ShutdownChan p with 0 => Some (with_chan 1 p, SNotify) | _ => None end
  | SNotify, Deadlines ok => Some (SetTimeout aVeryLowTimeout ok p, SUnlock)
  | SUnlock, Proceed => Some (with_guard false p, WLock)
  | WLock, Proceed => lock WWait p
  | WWait, Proceed => match wg p with 0 => Some (p, WDrain) | S _ => None end
  | WDrain, Proceed => Some (with_chan (pred (ShutdownChan p)) p, WFlag)
  | WFlag, Proceed => Some (with_flag false p, WUnlock)
  | WUnlock, Proceed => Some (with_guard false p, Stopped)
  | _, _ => None
  end.

(** The pool and its goroutines; a goroutine that has not started yet waits at its
    first operation. *)
Definition config : Type := Pool * list pc.

Definition total (f : pc → nat) (ts : list pc) : nat := sum_list_with f ts.
Definition crashes (k : pc) : nat := match k with Crashed => 1 | _ => 0 end.
Definition crashed (s : config) : bool := negb (total crashes (snd s) =? 0).

(** A panic that nothing recovers ends the program: no goroutine goes on. *)
Inductive step : config → config → Prop :=
| step_at i k ch p p' k' ts :
    crashed (p, ts) = false → ts !! i = Some k → advance ch p k = Some (p', k') → step (p, ts) (p', <[i := k']> ts).

(** Any number of goroutines that borrow, and of goroutines that shut the pool down. *)
Definition may_start (k : pc) : Prop := (∃ r, k = BLock r) ∨ k = SLock.
Definition initial (n : nat) (s : config) : Prop := fst s = NewPool n ∧ Forall may_start (snd s).
Definition reachable (n : nat) (s : config) : Prop := ∃ s0, initial n s0 ∧ rtc step s0 s.
End Steps.

(** ** Notions used by the statements *)

Definition nat_of (b : bool) : nat := if b then 1 else 0.

(** The goroutine holds a place of the semaphore. *)
Definition holds (k : pc) : nat :=
  match k with
  | BClient _ | BAdd _ _ | BUnlock (Some _) | Serving _ | EnvelopeReturn _ | RRemove _ | RPut _ | RSem => 1
  | _ => 0
  end.
(** It holds an envelope; it is counted by the wait group; it holds the guard. *)
Definition has_envelope (k : pc) : nat :=
  match k with BAdd _ _ | BUnlock (Some _) | Serving _ | EnvelopeReturn _ => 1 | _ => 0 end.
Definition counted (k : pc) : nat :=
  match k with BUnlock (Some _) | Serving _ | EnvelopeReturn _ | RRemove _ => 1 | _ => 0 end.
Definition guards (k : pc) : nat :=
  match k with
  | BCheck _ | BSelect _ | BClient _ | BAdd _ _ | BUnlock _ | SFlag | SSend | SNotify | SUnlock
  | WWait | WDrain | WFlag | WUnlock => 1
  | _ => 0
  end.
Definition closes (k : pc) : nat :=
  match k with
  | SLock | SFlag | SSend | SNotify | SUnlock | WLock | WWait | WDrain | WFlag | WUnlock | Stopped => 1
  | _ => 0
  end.
Definition serves (k : pc) : nat := match k with Serving _ => 1 | _ => 0 end.
Definition finished (k : pc) : Prop := k = Finished ∨ k = Stopped.
(** The goroutine has not got its client yet, or was refused one. *)
Definition borrows (k : pc) : nat :=
  match k with BLock _ | BCheck _ | BSelect _ | BUnlock None | Refused => 1 | _ => 0 end.
Definition refused (k : pc) : nat := match k with BUnlock None | Refused | Crashed => 1 | _ => 0 end.
(** Nothing is taken, locked, sent or shutting down. *)
Definition idle (p : Pool) : Prop :=
  sem p = 0 ∧ wg p = 0 ∧ poolGuard p = false ∧ isShuttingDownFlg p = false ∧ ShutdownChan p = 0.

(** What the place of a goroutine says about the flag and the channel of the shutdown, and
    about the wait group. *)
Definition local_ok (p : Pool) (k : pc) : Prop :=
  match k with
  | BSelect _ | BClient _ | BAdd _ _ | BUnlock (Some _) => isShuttingDownFlg p = false
  | SSend | SNotify | SUnlock => isShuttingDownFlg p = true
  | WDrain | WUnlock => wg p = 0
  | WFlag => wg p = 0 ∧ ShutdownChan p = 0
  | Panicked => False
  | _ => True
  end.

(** Goroutines between setting and clearing the flag; between sending and draining. *)
Definition shutting (k : pc) : nat :=
  match k with SSend | SNotify | SUnlock | WLock | WWait | WDrain | WFlag => 1 | _ => 0 end.
Definition sent (k : pc) : nat :=
  match k with SNotify | SUnlock | WLock | WWait | WDrain => 1 | _ => 0 end.

(** What the operations of the pool keep, whatever the interleaving. *)
Record Inv (n : nat) (s : config) : Prop := mkInv {
  v_size : poolSize (fst s) = n ∧ EnvPool.size (envelopePool (fst s)) = n;
  v_sem : sem (fst s) = total holds (snd s);
  v_max : sem (fst s) ≤ n;
  v_env : EnvPool.sem (envelopePool (fst s)) = total has_envelope (snd s);
  v_wg : wg (fst s) = total counted (snd s);
  v_guard : nat_of (poolGuard (fst s)) = total guards (snd s);
  v_pool : length (pool (fst s)) ≤ n;
  v_flag : if isShuttingDownFlg (fst s) then 1 ≤ total shutting (snd s) else ShutdownChan (fst s) = 0;
  v_chan : ShutdownChan (fst s) ≤ 1 ∧ ShutdownChan (fst s) ≤ total sent (snd s);
  v_local : Forall (local_ok (fst s)) (snd s);
  v_refused : 0 < total refused (snd s) → 0 < total closes (snd s)
}.

(** How many operations a goroutine has before it. *)
Definition rank (k : pc) : nat :=
  match k with
  | BLock _ => 12 | BCheck _ => 11 | BSelect _ => 10 | BClient _ => 9 | BAdd _ _ => 8
  | BUnlock (Some _) => 7 | BUnlock None => 2 | Refused => 1 | Serving _ => 6 | EnvelopeReturn _ => 5
  | RRemove _ => 4 | RPut _ => 3 | RSem => 2
  | SLock => 10 | SFlag => 9 | SSend => 8 | SNotify => 7 | SUnlock => 6
  | WLock => 5 | WWait => 4 | WDrain => 3 | WFlag => 2 | WUnlock => 1
  | Finished | Stopped | Panicked | Crashed => 0
  end.

(** [P] is reached whatever the scheduler does: in each state before, some goroutine can
    go on, and every choice leads to [P]. *)
Inductive inevitable `{Digest} (P : config → Prop) (s : config) : Prop :=
| inevitable_now : P s → inevitable P s
| inevitable_later : (∃ s', step s s') → (∀ s', step s s' → inevitable P s') → inevitable P s.

(** A schedule, played: which goroutine takes its step, and the choice. *)
Definition play1 `{Digest} (x : nat * choice) (s : config) : option config :=
  if crashed s then None else
  k ← snd s !! fst x; '(p', k') ← advance (snd x) (fst s) k; Some (p', <[fst x := k']> (snd s)).
Fixpoint play `{Digest} (l : list (nat * choice)) (s : config) : option config :=
  match l with
  | [] => Some s
  | x :: l => s' ← play1 x s; play l s'
  end.

(** ** Two sessions of one place *)
Definition no_digest : Digest := λ b, b.
Definition times (q : nat) (i : nat) : list (nat * choice) := replicate q (i, Proceed).
Definition mail_then_quit : stream :=
  lines_of ["EHLO a.org"; "AUTH PLAIN AGpvZQBwdw=="; "MAIL FROM:<joe@test.org>"; "RCPT TO:<x@evil.org>"; "QUIT"].
Definition data_at_once : stream := lines_of ["DATA"; "buy"; "."; "QUIT"].
Definition connection_of (s : stream) (i : Z) : connection := mkConnection s i "10.0.0.1" 0.
Abbreviation session_of x conn :=
  (@handleClient ascii_only test_world test_backend (test_server (Some any_password) false)
    (@session_fuel test_world conn) (mkSession x [] 0 false)).
Definition first_client : client := NewClient mail_then_quit 1 (@NewEnvelope no_digest "10.0.0.1" 0 1).
Definition two_sessions : list (nat * choice) :=
  times 6 0 ++ [(0, Served (c (snd (session_of first_client mail_then_quit))))] ++ times 4 0 ++ times 6 1.

#[global] Arguments total : simpl never.

(** ** Notions used by the statements *)

Definition crowd : list pc := [BLock (connection_of [] 1); BLock (connection_of [] 2); SLock].

(** What one operation does to the counters, and to its place. *)
Record moved (p : Pool) (k : pc) (p' : Pool) (k' : pc) : Prop := mkMoved {
  mv_size : poolSize p' = poolSize p ∧ EnvPool.size (envelopePool p') = EnvPool.size (envelopePool p);
  mv_sem : sem p' + holds k = sem p + holds k';
  mv_max : sem p' ≤ sem p `max` poolSize p;
  mv_env : EnvPool.sem (envelopePool p') + has_envelope k = EnvPool.sem (envelopePool p) + has_envelope k';
  mv_wg : wg p' + counted k = wg p + counted k';
  mv_guard : nat_of (poolGuard p') + guards k = nat_of (poolGuard p) + guards k';
  mv_pool : length (pool p') ≤ length (pool p) `max` poolSize p;
  mv_shared : isShuttingDownFlg p' = isShuttingDownFlg p ∧ ShutdownChan p' = ShutdownChan p ∧ wg p' ≤ wg p ∨ guards k = 1;
  mv_rank : rank k' < rank k;
  mv_closes : closes k' = closes k;
  mv_refused : refused k' ≤ refused k ∨ isShuttingDownFlg p = true ∨ ShutdownChan p ≠ 0;
  mv_borrows : borrows k' ≤ borrows k ∧ crashes k' ≤ crashes k + borrows k
}.

(** No Borrow is refused any more: nobody shuts the pool down, or all who borrow have done so. *)
Definition calm (s : config) : Prop :=
  crashed s = false ∧ (total closes (snd s) = 0 ∨ total borrows (snd s) = 0).

(** A goroutine can go on. *)
Definition can_step `{Digest} (s : config) (i : nat) : Prop :=
  ∃ k ch r, snd s !! i = Some k ∧ advance ch (fst s) k = Some r.
Definition is_finished (k : pc) : bool := match k with Finished | Stopped => true | _ => false end.

(** * Proofs *)
Lemma total_cons f k ts : total f (k :: ts) = f k + total f ts.
Proof. done. Qed.
Lemma total_insert f ts i k k' : ts !! i = Some k → total f (<[i := k']> ts) + f k = total f ts + f k'.
Proof. apply sum_insert. Qed.
Lemma total_lookup f ts i k : ts !! i = Some k → f k ≤ total f ts.
Proof. apply sum_lookup. Qed.
Lemma total_le f g ts : (∀ k, f k ≤ g k) → total f ts ≤ total g ts.
Proof. intros H. induction ts as [|k ts IH]; [done|]. rewrite !total_cons. specialize (H k). lia. Qed.
(** One goroutine for which the counts differ makes the difference of the sums. *)
Lemma total_lt f g ts i k : (∀ k, f k ≤ g k) → ts !! i = Some k → total f ts + g k ≤ total g ts + f k.
Proof.
  intros H. revert i. induction ts as [|x ts IH]; intros [|i]; [done..| |].
  - intros [= ->]. pose proof (total_le f g ts H). rewrite !total_cons. lia.
  - intros Hi. specialize (IH _ Hi). specialize (H x). rewrite !total_cons. lia.
Qed.
Lemma total_exists f ts : 0 < total f ts → ∃ i k, ts !! i = Some k ∧ 0 < f k.
Proof.
  induction ts as [|x ts IH]; intros H; [by apply Nat.nlt_0_r in H|]. destruct (f x) as [|q] eqn:E.
  - destruct IH as (i & k & Hi & Hk); [rewrite total_cons in H; lia|]. by exists (S i), k.
  - exists 0, x. split; [done|lia].
Qed.
Lemma two_guards ts i j k k' : total guards ts ≤ 1 → ts !! i = Some k → ts !! j = Some k' → i ≠ j →
  guards k = 1 → guards k' = 0.
Proof.
  intros Ht Hi Hj Hij Hk. pose proof (total_insert guards ts i k Finished Hi) as E. cbn in E.
  pose proof (total_lookup guards (<[i := Finished]> ts) j k') as L.
  rewrite list_lookup_insert_ne in L by done. specialize (L Hj). lia.
Qed.

Lemma local_ok_shared p p' k : isShuttingDownFlg p' = isShuttingDownFlg p → ShutdownChan p' = ShutdownChan p →
  wg p' ≤ wg p → local_ok p k → local_ok p' k.
Proof.
  intros Hf Hc Hw. destruct k as [| | | | |[]| | | | | | | | | | | | | | | | | | | |];
    cbn; rewrite ?Hf, ?Hc; lia || done.
Qed.
Lemma local_ok_free p p' k : guards k = 0 → local_ok p k → local_ok p' k.
Proof. by destruct k. Qed.

Lemma sent_closes k : sent k ≤ closes k.
Proof. destruct k; cbn; lia. Qed.
Lemma shutting_closes k : shutting k ≤ closes k.
Proof. destruct k; cbn; lia. Qed.
Lemma crashed_false s : crashed s = false ↔ total crashes (snd s) = 0.
Proof. unfold crashed. destruct (Nat.eqb_spec (total crashes (snd s)) 0); cbn; split; done || lia. Qed.

Section Proofs.
Context {D : Digest}.

Lemma take_client_spec r p p' x : take_client r p = Some (p', x) →
  ID x = clientID r ∧ EnvPool.sem (envelopePool p') = S (EnvPool.sem (envelopePool p)) ∧
  EnvPool.size (envelopePool p') = EnvPool.size (envelopePool p) ∧ poolSize p' = poolSize p ∧
  sem p' = sem p ∧ wg p' = wg p ∧ poolGuard p' = poolGuard p ∧ isShuttingDownFlg p' = isShuttingDownFlg p ∧
  ShutdownChan p' = ShutdownChan p ∧ length (pool p') ≤ length (pool p) ∧ m p' = m p.
Proof.
  unfold take_client, EnvPool.Borrow. destruct (_ <=? _); [done|].
  destruct (EnvPool.ready _); cbn; destruct (pool p) eqn:E; intros [= <- <-]; cbn;
    rewrite ?E; cbn; split_and!; done || lia.
Qed.
Lemma take_client_ready r p : EnvPool.sem (envelopePool p) < EnvPool.size (envelopePool p) →
  ∃ p' x, take_client r p = Some (p', x).
Proof.
  intros H. unfold take_client, EnvPool.Borrow. destruct (_ <=? _) eqn:E; [apply Nat.leb_le in E; lia|].
  destruct (EnvPool.ready _); cbn; destruct (pool p); eauto.
Qed.

Lemma advance_moved ch p k p' k' : (guards k = 1 → poolGuard p = true) → counted k ≤ wg p →
  advance ch p k = Some (p', k') → moved p k p' k'.
Proof.
  intros Hg Hw. destruct k, ch; cbn -[Nat.ltb]; try done.
  all: unfold lock, activeClientsRemove, EnvPool.Return.
  all: try match goal with |- context [take_client ?r ?p] => destruct (take_client r p) as [[q x]|] eqn:Et; cbn; [|done] end.
  all: try match goal with |- context [match ?n with 0 => _ | S _ => _ end] => destruct n eqn:?; cbn; [done || lia|] end.
  all: repeat case_match; try done; try match goal with H : Some _ = Some _ |- _ => injection H as <- end.
  all: cbn; intros E; injection E as <- <-.
  all: try (apply take_client_spec in Et; destruct_and! Et).
  all: repeat match goal with H : (_ <? _) = true |- _ => apply Nat.ltb_lt in H end.
  all: constructor; cbn in *; try match goal with H : poolGuard ?q = poolGuard _ |- _ => rewrite H end;
    try match goal with H : poolGuard ?p = false |- _ => rewrite H end;
    try (rewrite ?Hg by done); cbn; rewrite ?length_app; cbn;
    first [done | lia | left; split_and!; done || lia | by right | by right; left | right; right; lia | split; done || lia | idtac].
Qed.

(** The flag and the channel: what an operation sets, and what its place says then. *)
Lemma advance_flag ch p k p' k' :
  local_ok p k → ShutdownChan p ≤ 1 → (isShuttingDownFlg p = false → ShutdownChan p = 0) → counted k ≤ wg p →
  advance ch p k = Some (p', k') →
  local_ok p' k' ∧ ShutdownChan p' ≤ 1 ∧
  (isShuttingDownFlg p' = false → ShutdownChan p' = 0) ∧
  (isShuttingDownFlg p' = true → isShuttingDownFlg p = true ∧ shutting k ≤ shutting k' ∨ shutting k' = 1) ∧
  (ShutdownChan p' = 0 ∨ ShutdownChan p' = ShutdownChan p ∧ sent k ≤ sent k' ∨ sent k' = 1).
Proof.
  intros Hl Hc Hf Hw. destruct k, ch; cbn -[Nat.ltb]; try done.
  all: unfold lock, activeClientsRemove, EnvPool.Return.
  all: try match goal with |- context [take_client ?r ?p] => destruct (take_client r p) as [[q x]|] eqn:Et; cbn; [|done] end.
  all: try match goal with |- context [match ?n with 0 => _ | S _ => _ end] => destruct n eqn:?; cbn; [done || lia|] end.
  all: repeat case_match; try done; try match goal with H : Some _ = Some _ |- _ => injection H as <- end.
  all: cbn; intros E; injection E as <- <-.
  all: try (apply take_client_spec in Et; destruct_and! Et).
  all: cbn in *; repeat match goal with H : isShuttingDownFlg ?q = isShuttingDownFlg _ |- _ => rewrite H; clear H end;
    repeat match goal with H : ShutdownChan ?q = ShutdownChan _ |- _ => rewrite H; clear H end.
  all: split_and?; first [done | lia | congruence | intros; left; split; [done|lia] | by destruct (isShuttingDownFlg p) | idtac].
Qed.

Lemma guarded n s i k : Inv n s → snd s !! i = Some k → guards k = 1 → poolGuard (fst s) = true.
Proof.
  intros Hi Hk Hg. pose proof (total_lookup guards _ _ _ Hk) as H. rewrite <- (v_guard _ _ Hi), Hg in H.
  destruct (poolGuard (fst s)); [done|cbn in H; lia].
Qed.

Lemma Inv_step n s s' : Inv n s → step s s' → Inv n s'.
Proof.
  intros Hi Hst. destruct Hst as [i k ch p p' k' ts Hcr Hk Ha].
  pose proof (guarded _ _ _ _ Hi Hk) as Hg. destruct Hi as [Hz Hs Hm He Hw Hgd Hp Hf Hc Hl Href]. cbn in *.
  assert (local_ok p k) as Hlk by (rewrite list.Forall_forall in Hl; eapply Hl, list_elem_of_lookup_2; eauto).
  assert (counted k ≤ wg p) as Hck by (rewrite Hw; by eapply total_lookup).
  destruct Hz as [Hz1 Hz2].
  destruct (advance_moved _ _ _ _ _ Hg Hck Ha) as [Mz Ms Mm Me Mw Mg Mp Msh Mr Mc Mref _].
  destruct (advance_flag _ _ _ _ _ Hlk (proj1 Hc) ltac:(intros E; by rewrite E in Hf) Hck Ha) as (Fl & Fc & Ff & Ft & Fs).
  pose proof (λ f, total_insert f ts i k k' Hk) as T. pose proof (λ f, total_lookup f ts i k Hk) as L.
  constructor; cbn.
  - destruct Mz. split; congruence.
  - specialize (T holds). lia.
  - rewrite Hz1 in *. lia.
  - specialize (T has_envelope). lia.
  - specialize (T counted). lia.
  - specialize (T guards). lia.
  - rewrite Hz1 in *. lia.
  - destruct (isShuttingDownFlg p') eqn:E; [|by apply Ff]. specialize (T shutting). specialize (L shutting).
    destruct (Ft eq_refl) as [[E' ?]|?]; [rewrite E' in Hf; lia|lia].
  - split; [done|]. specialize (T sent). specialize (L sent). destruct Fs as [->|[[-> ?]|?]]; lia.
  - apply list.Forall_forall. intros k2 Hk2. apply list_elem_of_lookup in Hk2 as [j Hj].
    destruct (decide (i = j)) as [<-|Hij].
    + rewrite list_lookup_insert_eq in Hj by (by eapply lookup_lt_Some). by injection Hj as <-.
    + rewrite list_lookup_insert_ne in Hj by done.
      assert (local_ok p k2) as Hl2 by (rewrite list.Forall_forall in Hl; eapply Hl, list_elem_of_lookup_2; eauto).
      destruct Msh as [(E1 & E2 & E3)|Hg1]; [by eapply local_ok_shared|].
      eapply local_ok_free; [|done]. eapply (two_guards ts i j k); try done. rewrite <- Hgd. by destruct (poolGuard p); cbn; lia.
  - pose proof (T refused). pose proof (T closes). pose proof (L closes). intros ?.
    destruct Mref as [?|Hf1]; [lia|]. pose proof (total_le sent closes ts sent_closes).
    pose proof (total_le shutting closes ts shutting_closes). destruct (isShuttingDownFlg p); [lia|].
    destruct Hf1 as [[=]|?]. lia.
Qed.
Lemma Inv_initial n s : initial n s → Inv n s.
Proof.
  intros [E H]. destruct s as [p ts]. cbn in *. subst p.
  assert (∀ f, (∀ k, may_start k → f k = 0) → total f ts = 0) as T.
  { intros f Hf. induction H as [|k ts Hk H IH]; [done|]. by rewrite total_cons, IH, Hf. }
  assert (∀ k, may_start k → local_ok (NewPool n) k) as L by by intros k [[r ->]| ->].
  constructor; cbn; lazymatch goal with |- _ → _ => rewrite (T refused) | _ => rewrite ?T end;
    try done; try lia; try (by intros k [[r ->]| ->]).
  eapply list.Forall_impl; [exact H|exact L].
Qed.
Lemma reachable_Inv n s : reachable n s → Inv n s.
Proof.
  intros (s0 & H0 & Hr). apply Inv_initial in H0. induction Hr as [|s0 s1 s2 Hst Hr IH]; [done|].
  apply IH. by eapply Inv_step.
Qed.
End Proofs.
(** ** No operation waits for ever *)
Section Progress.
Context {D : Digest}.

Lemma holds_bound k : holds k ≤ 1.
Proof. by destruct k as [| | | | |[]| | | | | | | | | | | | | | | | | | | |]; cbn; lia. Qed.
Lemma envelope_holds k : has_envelope k ≤ holds k.
Proof. by destruct k as [| | | | |[]| | | | | | | | | | | | | | | | | | | |]; cbn; lia. Qed.
Lemma counted_holds k : counted k ≤ holds k.
Proof. by destruct k as [| | | | |[]| | | | | | | | | | | | | | | | | | | |]; cbn; lia. Qed.

Lemma can_step_step s i : crashed s = false → can_step s i → ∃ s', step s s'.
Proof. destruct s as [p ts]. intros Hcr (k & ch & [p' k'] & Hk & Ha). eexists. by eapply step_at. Qed.

(** One that holds a place never waits: its envelope is there, and its place is in the
    channel to be taken off. *)
Lemma holder_can_step n s i k : Inv n s → snd s !! i = Some k → 0 < holds k → can_step s i.
Proof.
  intros Hi Hk Hh. pose proof (λ f, total_lookup f _ _ _ Hk) as L.
  assert (∀ ch r, advance ch (fst s) k = Some r → can_step s i) as Go by (intros ch r Hr; by exists k, ch, r).
  destruct k as [| | |r|r x|[x|]| |x|x|x|x| | | | | | | | | | | | | | |]; cbn in Hh; try lia.
  - destruct (take_client_ready r (fst s)) as (p' & x & Ht).
    { destruct (v_size _ _ Hi) as [_ ->]. rewrite (v_env _ _ Hi).
      pose proof (total_lt has_envelope holds _ _ _ envelope_holds Hk) as Hlt. cbn in Hlt.
      pose proof (v_max _ _ Hi) as Hm. rewrite (v_sem _ _ Hi) in Hm. lia. }
    eapply (Go Proceed). cbn. by rewrite Ht.
  - by eapply (Go Proceed).
  - by eapply (Go Proceed).
  - eapply (Go (Served x)). cbn. by rewrite bool_decide_eq_true_2.
  - specialize (L has_envelope). rewrite <- (v_env _ _ Hi) in L. cbn in L.
    destruct (EnvPool.sem (envelopePool (fst s))) eqn:E; [lia|].
    eapply (Go Proceed). cbn. unfold EnvPool.Return. by rewrite E.
  - destruct (activeClientsRemove x (fst s)) as [p'|] eqn:E; eapply (Go Proceed); cbn; by rewrite E.
  - by eapply (Go Proceed).
  - specialize (L holds). rewrite <- (v_sem _ _ Hi) in L. cbn in L.
    destruct (sem (fst s)) eqn:E; [lia|]. eapply (Go Proceed). cbn. by rewrite E.
Qed.

Lemma holder_progress n s : Inv n s → 0 < sem (fst s) → ∃ i, can_step s i.
Proof.
  intros Hi Hs. rewrite (v_sem _ _ Hi) in Hs. apply total_exists in Hs as (i & k & Hk & Hh).
  exists i. by eapply holder_can_step.
Qed.

(** One that holds the guard waits only for goroutines that hold a place. *)
Lemma guard_progress n s i k : 0 < n → Inv n s → total closes (snd s) ≤ 1 → snd s !! i = Some k → guards k = 1 →
  ∃ j, can_step s j.
Proof.
  intros Hn Hi Hc Hk Hg. pose proof (λ f, total_lookup f _ _ _ Hk) as L.
  assert (∀ ch r, advance ch (fst s) k = Some r → ∃ j, can_step s j) as Go
    by (intros ch r Hr; exists i; by exists k, ch, r).
  destruct k as [|r|r|r|r x|[x|]| |x|x|x|x| | | | | | | | | | | | | | |]; try done; try (by eapply (Go Proceed)).
  - destruct (isShuttingDownFlg (fst s)) eqn:E; eapply (Go Proceed); cbn; by rewrite E.
  - destruct (decide (sem (fst s) < n)) as [Hlt|Hge]; [|eapply holder_progress; [done|lia]].
    eapply (Go Proceed). cbn -[Nat.ltb]. destruct (v_size _ _ Hi) as [-> _]. apply Nat.ltb_lt in Hlt. by rewrite Hlt.
  - exists i. eapply holder_can_step; [done..|cbn; lia].
  - pose proof (total_lt sent closes _ _ _ sent_closes Hk) as Hlt. cbn in Hlt.
    destruct (v_chan _ _ Hi) as [_ Hch]. eapply (Go Proceed). cbn.
    assert (ShutdownChan (fst s) = 0) as -> by lia. done.
  - by eapply (Go (Deadlines (λ _, true))).
  - destruct (wg (fst s)) eqn:E; [eapply (Go Proceed); cbn; by rewrite E|].
    rewrite (v_wg _ _ Hi) in E. destruct (total_exists counted (snd s)) as (j & k & Hj & Hkj); [lia|].
    exists j. eapply holder_can_step; [done..|]. pose proof (counted_holds k). lia.
Qed.

Lemma progress n s : 0 < n → Inv n s → total closes (snd s) ≤ 1 →
  Forall finished (snd s) ∨ crashed s = true ∨ ∃ s', step s s'.
Proof.
  intros Hn Hi Hc. destruct (crashed s) eqn:Ecr; [by right; left|]. destruct (poolGuard (fst s)) eqn:Eg.
  - right; right. pose proof (v_guard _ _ Hi) as Hg. rewrite Eg in Hg.
    destruct (total_exists guards (snd s)) as (i & k & Hk & Hgk); [cbn in Hg; lia|].
    destruct (guard_progress n s i k) as [j Hj]; try done; [destruct k; cbn in *; lia|]. by eapply can_step_step.
  - destruct (decide (Forall (λ k, is_finished k = true) (snd s))) as [Hf|Hf].
    { left. eapply list.Forall_impl; [exact Hf|]. unfold finished. by intros []; cbn; auto. }
    right; right. apply not_Forall_Exists, list.Exists_exists in Hf as (k & Hin & Hk); [|apply _].
    apply list_elem_of_lookup in Hin as [i Hi'].
    destruct (decide (guards k = 1)) as [Hg|Hg].
    { pose proof (guarded _ _ _ _ Hi Hi' Hg). congruence. }
    destruct (decide (0 < holds k)) as [Hh|Hh].
    { eapply can_step_step, holder_can_step; eauto. }
    assert (local_ok (fst s) k) as Hl.
    { pose proof (v_local _ _ Hi) as Hl. rewrite list.Forall_forall in Hl. eapply Hl, list_elem_of_lookup_2; eauto. }
    apply (can_step_step s i); [done|]. exists k, Proceed.
    apply crashed_false in Ecr. pose proof (total_lookup crashes _ _ _ Hi') as Hcr. rewrite Ecr in Hcr.
    destruct k; cbn in *; try done; try lia; unfold lock; rewrite ?Eg; eauto.
Qed.

Lemma step_calm n s s' : Inv n s → step s s' → calm s → calm s'.
Proof.
  intros Hi Hst. destruct Hst as [i k ch p p' k' ts Hcr Hk Ha]. unfold calm. rewrite !crashed_false. cbn.
  destruct (advance_moved ch p k p' k') as [? ? ? ? ? ? ? ? _ Hc Hr [Hb Hx]]; [|..|done|].
  - intros Hg. by eapply (guarded n (p, ts)).
  - rewrite (v_wg _ _ Hi : wg p = _). by eapply (total_lookup counted ts).
  - pose proof (λ f, total_insert f ts i k k' Hk) as T. pose proof (λ f, total_lookup f ts i k Hk) as L.
    pose proof (T crashes). pose proof (T closes). pose proof (T borrows). pose proof (L borrows). pose proof (L closes).
    pose proof (v_refused _ _ Hi) as Href. cbn in Href. pose proof (L refused).
    assert (borrows k ≤ 1) by (destruct k as [| | | | |[]| | | | | | | | | | | | | | | | | | | |]; cbn; lia).
    assert (crashes k' ≤ refused k) as Hx'.
    { clear -Ha. destruct k, ch; cbn -[Nat.ltb] in Ha; unfold lock in Ha; try done;
        first [apply bind_Some in Ha as ([? ?] & _ & Ha)|idtac]; repeat case_match; simplify_eq; done || (cbn; lia). }
    lia.
Qed.
Lemma step_rank s s' n : Inv n s → step s s' →
  total rank (snd s') < total rank (snd s) ∧ total closes (snd s') = total closes (snd s).
Proof.
  intros Hi Hst. destruct Hst as [i k ch p p' k' ts Hcr Hk Ha]. cbn.
  destruct (advance_moved ch p k p' k') as [? ? ? ? ? ? ? ? Hr Hc _ _]; [|..|done|].
  - intros Hg. by eapply (guarded n (p, ts)).
  - rewrite (v_wg _ _ Hi : wg p = _). by eapply (total_lookup counted ts).
  - pose proof (total_insert rank ts i k k' Hk). pose proof (total_insert closes ts i k k' Hk). lia.
Qed.

Lemma finished_idle n s : Inv n s → Forall finished (snd s) →
  idle (fst s).
Proof. unfold idle.
  intros Hi Hf. assert (∀ f, (∀ k, finished k → f k = 0) → total f (snd s) = 0) as T.
  { intros f H. induction Hf as [|k ts Hk _ IH]; [done|]. by rewrite total_cons, IH, H. }
  assert (∀ (f : pc → nat), f Finished = 0 → f Stopped = 0 → total f (snd s) = 0) as T'.
  { intros f ? ?. apply T. by intros k [->| ->]. }
  pose proof (v_sem _ _ Hi) as Hs. pose proof (v_wg _ _ Hi) as Hw. pose proof (v_guard _ _ Hi) as Hg.
  pose proof (v_flag _ _ Hi) as Hfl. rewrite T' in Hs, Hw, Hg by done.
  destruct (poolGuard (fst s)); [done|]. rewrite (T' shutting) in Hfl by done.
  destruct (isShuttingDownFlg (fst s)); [lia|]. done.
Qed.

Lemma finishes n s : 0 < n → Inv n s → total closes (snd s) ≤ 1 →
  inevitable (λ s', Inv n s' ∧ (Forall finished (snd s') ∨ crashed s' = true)) s.
Proof.
  intros Hn. remember (total rank (snd s)) as q eqn:E. revert s E. induction q as [q IH] using lt_wf_ind.
  intros s -> Hi Hc. destruct (progress n s Hn Hi Hc) as [Hf|[Hf|He]].
  - apply inevitable_now. auto.
  - apply inevitable_now. auto.
  - apply inevitable_later; [done|]. intros s' Hst. destruct (step_rank _ _ _ Hi Hst) as [Hr Hc'].
    eapply IH; [exact Hr|done|by eapply Inv_step|lia].
Qed.
Lemma inevitable_impl (P Q : config → Prop) s : (∀ s', P s' → Q s') → inevitable P s → inevitable Q s.
Proof. intros HPQ. induction 1; [by apply inevitable_now, HPQ|by apply inevitable_later]. Qed.
(** What every step keeps holds at the end too. *)
Lemma inevitable_keeps (P I : config → Prop) s : (∀ s1 s2, I s1 → step s1 s2 → I s2) →
  inevitable P s → I s → inevitable (λ s', P s' ∧ I s') s.
Proof. intros HI. induction 1; intros; [by apply inevitable_now|apply inevitable_later; eauto]. Qed.
Lemma calm_finishes n s : 0 < n → Inv n s → total closes (snd s) ≤ 1 → calm s →
  inevitable (λ s', Inv n s' ∧ Forall finished (snd s')) s.
Proof.
  intros Hn Hi Hc Hm. eapply (inevitable_impl (λ s', (Inv n s' ∧ (Forall finished (snd s') ∨ crashed s' = true)) ∧ Inv n s' ∧ calm s')).
  - intros s' [[? [?|Hcr]] [_ [Hcr' _]]]; [done|congruence].
  - apply inevitable_keeps; [|by apply finishes|done]. intros s1 s2 [H1 H2] Hst. split; [by eapply Inv_step|by eapply step_calm].
Qed.
End Progress.

(** ** The properties of the pool *)
Section Properties.
Context {D : Digest}.

(** C5. At most as many clients are served at the same time as the pool was made for,
    whatever the interleaving of borrowing, returning and shutting down; the number
    reported as active is the number of places taken; once ShutdownWait has waited, and
    until it lets go of the pool, no client is being served; and the counters never go
    below zero, which would be a panic of the wait group. *)
Theorem pool_bounds n s : reachable n s →
  total serves (snd s) ≤ GetActiveClientsCount (fst s) ≤ n ∧
  GetActiveClientsCount (fst s) = total holds (snd s) ∧
  (∀ k, k ∈ [WDrain; WFlag; WUnlock] → k ∈ snd s → total serves (snd s) = 0) ∧
  Panicked ∉ snd s.
Proof.
  intros Hr. apply reachable_Inv in Hr as Hi.
  assert (∀ k, k ∈ snd s → local_ok (fst s) k) as Hl.
  { intros k. pose proof (v_local _ _ Hi) as Hl. rewrite list.Forall_forall in Hl. apply Hl. }
  pose proof (v_sem _ _ Hi) as Hs. pose proof (v_max _ _ Hi) as Hm. unfold GetActiveClientsCount.
  assert (total serves (snd s) ≤ total counted (snd s)) as Hc by (apply total_le; intros []; cbn; lia).
  assert (total serves (snd s) ≤ total holds (snd s)) as Hh by (apply total_le; intros []; cbn; lia).
  rewrite <- (v_wg _ _ Hi) in Hc. split_and!; [lia|done|done| |by intros ?%Hl].
  intros k Hk Hin%Hl. rewrite !elem_of_cons, elem_of_nil in Hk.
  destruct Hk as [->|[->|[->|[]]]]; cbn in Hin; lia.
Qed.

(** A Borrow that waits for a place is not let go by ShutdownState: its select can
    never take the branch of the shutdown channel, because ShutdownState needs the lock
    that the waiting Borrow holds. It goes on only when a client is returned. *)
Theorem waiting_Borrow_ignores_shutdown n s i r : reachable n s → snd s !! i = Some (BSelect r) →
  advance TakeShutdown (fst s) (BSelect r) = None ∧
  (advance Proceed (fst s) (BSelect r) = None ↔ GetActiveClientsCount (fst s) = n).
Proof.
  intros Hr Hk. apply reachable_Inv in Hr as Hi. pose proof (v_local _ _ Hi) as Hl.
  rewrite list.Forall_forall in Hl. specialize (Hl _ (list_elem_of_lookup_2 _ _ _ Hk)). cbn in Hl.
  pose proof (v_flag _ _ Hi) as Hf. rewrite Hl in Hf. cbn -[Nat.ltb]. rewrite Hf. split; [done|].
  destruct (v_size _ _ Hi) as [-> _]. pose proof (v_max _ _ Hi). unfold GetActiveClientsCount.
  destruct (sem (fst s) <? n) eqn:E; [apply Nat.ltb_lt in E|apply Nat.ltb_ge in E]; split; [done|lia|lia|done].
Qed.

(** C9. The goroutines of a pool for at least one client, of which at most one shuts it
    down, never wait for ever, whatever the scheduler does: either all come to their end,
    with everything returned and the pool as ready for use as it was at first, or a
    connection is refused and the goroutine that server.Start made for it panics on its
    nil client, which ends the program. The latter cannot happen when nobody shuts the
    pool down, nor once all have their client, as when the loop of server.Start, which
    borrows and shuts down in the same goroutine, has left off accepting: then everyone
    is served to the end and the shutdown completes. *)
Theorem pool_finishes n s : 0 < n → reachable n s → total closes (snd s) ≤ 1 →
  inevitable (λ s', Forall finished (snd s') ∧ idle (fst s') ∨ crashed s' = true) s ∧
  (total closes (snd s) = 0 ∨ total borrows (snd s) = 0 ∧ crashed s = false →
   inevitable (λ s', Forall finished (snd s') ∧ idle (fst s')) s).
Proof.
  intros Hn Hr%reachable_Inv Hc. split.
  - eapply inevitable_impl; [|by apply (finishes n)]. intros s' [Hi [Hf|Hf]]; [left|by right].
    split; [done|by eapply finished_idle].
  - intros Hq. eapply inevitable_impl; [|apply (calm_finishes n); try done].
    + intros s' [Hi Hf]. split; [done|by eapply finished_idle].
    + unfold calm. pose proof (v_refused _ _ Hr). pose proof (total_le crashes refused (snd s)) as Hle.
      destruct Hq as [Hq|[Hq1 Hq2]]; [split; [|by left]|split; [done|by right]].
      apply crashed_false. enough (total crashes (snd s) ≤ total refused (snd s)) by lia.
      apply Hle. by intros [| | | | |[]| | | | | | | | | | | | | | | | | | | |]; cbn; lia.
Qed.
End Properties.

(** ** Concrete schedules *)
Section Schedules.
Context {D : Digest}.

Lemma play_reaches l s s' : play l s = Some s' → rtc step s s'.
Proof.
  revert s. induction l as [|[i ch] l IH]; intros [p ts]; cbn [play]; [by intros [= ->]|].
  unfold play1. cbn [fst snd]. destruct (crashed (p, ts)) eqn:Hcr; [by intros [=]|]. destruct (ts !! i) as [k|] eqn:Hk; [|by intros [=]]. cbn [mbind option_bind].
  destruct (advance ch p k) as [[p' k']|] eqn:Ha; [|by intros [=]]. cbn [mbind option_bind]. intros Hp. eapply rtc_l; [by eapply step_at|by apply IH].
Qed.
Lemma played n ts l s : Forall may_start ts → play l (NewPool n, ts) = Some s → reachable n s.
Proof. intros Hs Hp. exists (NewPool n, ts). split; [done|by eapply play_reaches]. Qed.
End Schedules.

(** Two goroutines for a pool of one: the second waits while the first is served; a
    third shuts the pool down. *)
#[local] Existing Instance no_digest.
Lemma crowd_starts : Forall may_start crowd.
Proof. unfold crowd. rewrite !list.Forall_cons. unfold may_start. split_and!; eauto. Qed.

Lemma pool_bounds_witness :
  ∃ s x, play (times 6 0 ++ times 2 1) (NewPool 1, crowd) = Some s ∧
    snd s = [Serving x; BSelect (connection_of [] 2); SLock] ∧
    total serves (snd s) ≤ GetActiveClientsCount (fst s) ≤ 1.
Proof.
  do 2 eexists. split; [vm_compute; reflexivity|]. split; [reflexivity|].
  eapply (pool_bounds 1), (played 1 crowd (times 6 0 ++ times 2 1)); [apply crowd_starts|vm_compute; reflexivity].
Defined.
Lemma waiting_Borrow_ignores_shutdown_witness :
  ∃ s, play (times 6 0 ++ times 2 1) (NewPool 1, crowd) = Some s ∧
    advance TakeShutdown (fst s) (BSelect (connection_of [] 2)) = None ∧
    advance Proceed (fst s) (BSelect (connection_of [] 2)) = None.
Proof.
  eexists. split; [vm_compute; reflexivity|].
  destruct (waiting_Borrow_ignores_shutdown 1 _ 1 (connection_of [] 2)
    (played 1 crowd (times 6 0 ++ times 2 1) _ crowd_starts eq_refl) eq_refl) as [H1 H2].
  split; [exact H1|]. apply H2. reflexivity.
Defined.
Lemma pool_finishes_witness :
  inevitable (λ s', Forall finished (snd s') ∧ idle (fst s') ∨ crashed s' = true) (NewPool 1, crowd) ∧
  inevitable (λ s', Forall finished (snd s') ∧ idle (fst s')) (NewPool 1, take 2 crowd).
Proof.
  split.
  - apply (pool_finishes 1). 1: lia. 2: apply Nat.le_refl.
    exists (NewPool 1, crowd). split; [split; [reflexivity|apply crowd_starts]|apply rtc_refl].
  - apply (pool_finishes 1); [lia| |apply Nat.le_0_l|left; reflexivity].
    exists (NewPool 1, take 2 crowd). split; [split; [reflexivity|]|apply rtc_refl].
    exact (list.Forall_take may_start 2 _ crowd_starts).
Defined.
(** A connection that is refused ends the program: ShutdownState between two of them. *)
Lemma refused_connection_panics :
  ∃ s, play (times 6 0 ++ times 3 2 ++ [(2, Deadlines (λ _, true))] ++ times 1 2 ++ times 4 1) (NewPool 1, crowd) = Some s ∧
    snd s !! 1 = Some Crashed ∧ crashed s = true.
Proof. eexists. split; [vm_compute; reflexivity|]. split; reflexivity. Qed.

(** C8. A session inherits the transaction of the session before it. Nothing resets an
    envelope that is returned to the pool, and Reseed keeps sender and recipients: after
    an authenticated client has named a recipient elsewhere and quit, the next client of
    the same envelope, which is not authenticated, sends its own message to that
    recipient by a single DATA command, although the hosts of the server never allow it. *)
Theorem next_session_inherits_mail :
  ∃ s x t e rcpt, reachable 1 s ∧ snd s = [Finished; Serving x] ∧ Authed x = false ∧
    Delivered t e false ∈ trace (snd (session_of x data_at_once)) ∧ Data e = bs "buy" ++ [LF] ∧
    rcpt ∈ e_RcptTo e ∧
    ∀ t', @allowed_address ascii_only (@hosts_at (test_server (Some any_password) false) t') rcpt = false.
Proof.
  assert (∃ s, play two_sessions (NewPool 1, [BLock (connection_of mail_then_quit 1); BLock (connection_of data_at_once 2)])
    = Some s) as [s Hs] by (eexists; vm_compute; reflexivity).
  eexists s, _, _, _, _. split.
  { eapply played; [|exact Hs]. rewrite !list.Forall_cons. unfold may_start. split_and!; eauto. }
  vm_compute in Hs. injection Hs as <-. split; [reflexivity|].
  split; [reflexivity|]. split.
  { eapply (list_elem_of_lookup_2 _ 2). vm_compute. reflexivity. }
  split; [reflexivity|]. split; [apply elem_of_cons; by left|]. intros t'. vm_compute. reflexivity.
Qed.
