(* ===== verification/Processor.v ===== *)
(** * Processors: processor.go, decorate.go, ExtractConfig of backend.go, and the
    processors that need nothing but the envelope (p_header.go, p_hasher.go,
    p_debugger.go, p_headers_parser.go, p_compressor.go)

    A processor works on an envelope, and returns a result, an error, both or neither;
    it may panic, or never return. A decorator wraps a processor. The configuration that
    a processor keeps in its closure is an argument here: [None] before its initialiser
    has run. *)
From S2P Require Import Prelude GoStd Response Shared Envelope Tenant Backend.

Inductive SelectTask : Type := TaskSaveMail | TaskValidateRcpt.
#[export] Instance SelectTask_eq_dec : EqDecision SelectTask.
Proof. solve_decision. Defined.
Definition SelectTask_String (o : SelectTask) : bytes :=
  match o with TaskSaveMail => "save mail" | TaskValidateRcpt => "validate recipient" end.

(** What a processor does outside the program, for the processors that send or store mail. *)
Inductive sqlval : Type := sv_text (v : bytes) | sv_bytes (v : bytes) | sv_bool (v : bool).
Inductive smtp_op : Type :=
| op_dial (addr : bytes) (implicit_tls : bool)
| op_greeting (host : bytes)
| op_starttls (host : bytes)
| op_auth (user password host : bytes)
| op_mail (from : bytes)
| op_rcpt (to : bytes)
| op_data
| op_write (raw : bytes)
| op_end_data
| op_quit.
(** What became of a statement: one that failed, or in which the driver panicked, may have been carried out all the
    same. *)
Inductive exec_answer : Type := ex_done | ex_failed (err : bytes) (stored : bool) | ex_panicked (stored : bool).
Inductive effect : Type :=
| fx_ses (client : sesClient) (source : bytes) (dests : list bytes) (raw : bytes)
| fx_smtp (op : smtp_op)
| fx_senders (c : senderCache)
| fx_prepare (query : bytes)
| fx_exec (query : bytes) (args : list sqlval) (answer : exec_answer)
| fx_redis (command : bytes) (args : list bytes) (answer : option bytes)
| fx_feed (batcher : nat) (row : list sqlval).

(** The envelope, a clock that ticks at every look at the time, and what was done outside, in order. *)
Record work := mkWork { w_env : Envelope; w_now : nat; w_done : list effect }.

Abbreviation Work := (M work Empty_set).
Definition Processor : Type := SelectTask → Work (option Result * option bytes).
Definition Decorator : Type := Processor → Processor.

Definition env {A} (f : Envelope → A) : Work A := gets (λ w, f (w_env w)).
Definition set_env (f : Envelope → Envelope) : Work unit := modify (λ w, mkWork (f (w_env w)) (w_now w) (w_done w)).
Definition tick : Work nat := λ w, (Ok (w_now w), mkWork (w_env w) (S (w_now w)) (w_done w)).
Definition emit (x : effect) : Work unit := modify (λ w, mkWork (w_env w) (w_now w) (w_done w ++ [x])).

Definition DefaultProcessor : Processor := λ _, mret (Some BackendResultOK, None).

Definition Decorate (c : Processor) (ds : list Decorator) : Processor :=
  foldl (λ decorated decorate, decorate decorated) c ds.

(** The pattern of every processor: work on TaskSaveMail only, then the next one. *)
Definition on_save (body : Work unit) : Decorator := λ p task,
  match task with
  | TaskSaveMail => body;; p task
  | TaskValidateRcpt => p task
  end.

(** ** ExtractConfig

    A configuration struct is the list of its fields: the name in its tag, the type,
    and the omitempty flag. *)
Inductive ftype : Type := f_int | f_string | f_bool.
Record field := mkField { f_name : bytes; f_type : ftype; f_omitempty : bool }.

(** [int64(f)] of a float, towards zero; the value of a float that does not fit is the
    one of the amd64 conversion. *)
Definition int_of_float (mantissa exponent : Z) : Z :=
  let v := if (0 <=? exponent)%Z then (mantissa * 2 ^ exponent)%Z else Z.quot mantissa (2 ^ (- exponent)) in
  if (int_min <=? v)%Z && (v <=? int_max)%Z then v else int_min.

Definition missing_int (name : bytes) : bytes :=
  "failed to load backend config (property missing/invalid: '" ++ name ++ "' of expected type: int)".
Definition missing (name ty : bytes) : bytes :=
  "failed to load backend config (missing/invalid: '" ++ name ++ "' of type: " ++ ty ++ ")".

(** What is stored in a field; [None] leaves it as it is. *)
Definition extract_field (configData : BackendConfig) (f : field) : outcome bytes (option cfgval) :=
  match f_type f, configData !! f_name f with
  | f_int, Some (CFloat m e) => Ok (Some (CInt (int_of_float m e)))
  | f_int, Some (CInt v) => Ok (Some (CInt v))
  | f_int, _ => if f_omitempty f then Ok None else Err (missing_int (f_name f))
  | f_string, Some (CString v) => Ok (Some (CString v))
  | f_string, _ => if f_omitempty f then Ok None else Err (missing (f_name f) "string")
  | f_bool, Some (CBool v) => Ok (Some (CBool v))
  | f_bool, _ => if f_omitempty f then Ok None else Err (missing (f_name f) "bool")
  end.

(** The fields in their order; the first that is missing ends it. The struct that was
    filled is the map of the fields that were set. *)
Fixpoint ExtractConfig (configData : BackendConfig) (configType : list field)
    : outcome bytes BackendConfig :=
  match configType with
  | [] => Ok ∅
  | f :: fs =>
      match extract_field configData f with
      | Ok v =>
          match ExtractConfig configData fs with
          | Ok r => Ok (match v with Some v => <[f_name f := v]> r | None => r end)
          | x => x
          end
      | Err e => Err e
      | Panic => Panic
      | OutOfFuel => OutOfFuel
      end
  end.

Definition int_of (c : BackendConfig) (name : bytes) : Z :=
  match c !! name with Some (CInt v) => v | _ => 0%Z end.
Definition string_of (c : BackendConfig) (name : bytes) : bytes :=
  match c !! name with Some (CString v) => v | _ => [] end.
Definition bool_of (c : BackendConfig) (name : bytes) : bool :=
  match c !! name with Some (CBool v) => v | _ => false end.

(** ** The clock of the machine, as it is printed *)
Class Clock := {
  unix_nano : nat → Z;
  rfc1123z : nat → bytes
}.

(** ** header *)
Definition HeaderConfig : list field := [mkField "primary_mail_host" f_string false].

Section Processors.
Context {U : Unicode} {K : Clock} {D : Digest}.

Definition protocol (e : Envelope) : bytes :=
  let p : bytes := if ESMTP e then "ESMTP" else "SMTP" in
  if TLS e then p ++ bs "S" else p.

Definition delivery_header (rcpt : Address) (primaryHost date : bytes) (e : Envelope) : bytes :=
  let to := TrimSpace (User rcpt) ++ bs "@" ++ primaryHost in
  let hash := match Hashes e with h :: _ => h | [] => bs "unknown" end in
  bs "Delivered-To: " ++ to ++ [LF] ++
  bs "Received: from " ++ RemoteIP e ++ bs " ([" ++ RemoteIP e ++ bs "])" ++ [LF] ++
  [TAB] ++ bs "by " ++ Host rcpt ++ bs " with " ++ protocol e ++ bs " id " ++ hash ++ bs "@" ++ Host rcpt ++ bs ";" ++ [LF] ++
  [TAB] ++ date ++ [LF].

(** The index of the first recipient and the closure's configuration are not checked. *)
Definition Header (config : option BackendConfig) : Decorator := on_save (
  rcpts ← env e_RcptTo;
  match rcpts, config with
  | rcpt :: _, Some config =>
      t ← tick;
      set_env (λ e, set_DeliveryHeader (delivery_header rcpt (string_of config "primary_mail_host") (rfc1123z t) e) e)
  | _, _ => panic
  end).

(** ** hasher

    [h2 := h] copies the interface, not the state of the hash: the sums are those of
    ever longer texts. *)
Fixpoint hash_rcpts (written : bytes) (rcpts : list Address) : list bytes :=
  match rcpts with
  | [] => []
  | r :: rs =>
      let written := written ++ Address_String r in
      hex_bytes (md5_sum written) :: hash_rcpts written rs
  end.
Definition Hasher : Decorator := on_save (
  t ← tick;
  set_env (λ e, set_Hashes (Hashes e ++
    hash_rcpts (Address_String (e_MailFrom e) ++ Subject e ++ Itoa (unix_nano t)) (e_RcptTo e)) e)).

(** ** debugger: logs, sleeps, and panics when told to sleep for a second *)
Definition debuggerConfig : list field :=
  [mkField "log_received_mails" f_bool false; mkField "sleep_seconds" f_int true].
Definition Debugger (config : option BackendConfig) : Decorator := on_save (
  match config with
  | None => panic
  | Some config => if (int_of config "sleep_seconds" =? 1)%Z then panic else mret tt
  end).

(** ** headersparser *)
Definition HeadersParser {WD : WordDecoder} {MR : MIMEReader} : Decorator := on_save (
  e ← env id;
  match ParseHeaders e with
  | Ok (_, e') => set_env (λ _, e')
  | Err _ | Panic => panic
  | OutOfFuel => out_of_fuel
  end).

(** ** compressor: leaves a compressor of the data in the envelope *)
Definition Compressor : Decorator := on_save (
  set_env (λ e, set_Values (<[bs "zlib-compressor" :=
    any_compressor (mkDataCompressor (DeliveryHeader e) true)]> (Values e)) e)).
End Processors.

(** ** Notions used by the statements *)

(** What a processor has to do: leave the data of the session alone, and the transaction too when it only
    validates a recipient; come to an end (a panic is one); and return errors of at least three bytes, which
    the gateway takes for their code. *)
Definition keeps_session (e e' : Envelope) : Prop :=
  RemoteIP e' = RemoteIP e ∧ e_Helo e' = e_Helo e ∧ TLS e' = TLS e ∧ ESMTP e' = ESMTP e.
Definition keeps_transaction (e e' : Envelope) : Prop :=
  e_MailFrom e' = e_MailFrom e ∧ e_RcptTo e' = e_RcptTo e ∧ Data e' = Data e ∧ Values e' = Values e.
Definition polite_work {A} (m : Work A) : Prop := ∀ w,
  keeps_session (w_env w) (w_env (snd (m w))) ∧ fst (m w) ≠ OutOfFuel.
Definition polite (p : Processor) : Prop := ∀ task w,
  keeps_session (w_env w) (w_env (snd (p task w))) ∧
  match fst (p task w) with Ok (_, Some err) => 3 ≤ length err | OutOfFuel => False | _ => True end ∧
  (task = TaskValidateRcpt → keeps_transaction (w_env w) (w_env (snd (p task w)))).
(** A decorator that keeps what it decorates polite. *)
Definition mannered (d : Decorator) : Prop := ∀ p, polite p → polite (d p).

(** The envelope is the same up to its parsed headers. *)
Definition same_message (e e' : Envelope) : Prop :=
  Values e' = Values e ∧ Data e' = Data e ∧ DeliveryHeader e' = DeliveryHeader e.
(** What was done from one state to another, also without a change of the envelope. *)
Definition did (F : effect → Prop) (w w' : work) : Prop := ∃ fx, w_done w' = w_done w ++ fx ∧ Forall F fx.
Definition emits (F : effect → Prop) (w w' : work) : Prop := w_env w' = w_env w ∧ did F w w'.
(** What a call does with the processor that follows: it goes on to it with a state
    for which [P] holds, or never calls it, and reports an error or panics in such a state, or, if [hangs]
    allows it, never returns. *)
Definition refused (hangs : bool) (r : outcome Empty_set (option Result * option bytes)) : Prop :=
  match r with Ok (Some _, Some _) | Panic => True | OutOfFuel => hangs = true | _ => False end.
Definition goes_on_with (hangs : bool) (P : work → Prop) (task : SelectTask)
    (call : Processor → Work (option Result * option bytes)) (w : work) : Prop :=
  ∃ w', P w' ∧ ((∀ p, call p w = p task w') ∨ ∃ r, (∀ p, call p w = (r, w')) ∧ refused hangs r).

(** * Proofs *)
(** ** Going on to the next processor *)
Lemma goes_bind {A} hangs P task (m : Work A) k w a w1 :
  m w = (Ok a, w1) → goes_on_with hangs P task (k a) w1 → goes_on_with hangs P task (λ p, m ≫= λ a, k a p) w.
Proof. intros H. unfold goes_on_with, mbind, M_bind. by rewrite H. Qed.
Lemma goes_panic {A} hangs (P : work → Prop) task (m : Work A) k w w1 :
  m w = (Panic, w1) → P w1 → goes_on_with hangs P task (λ p, m ≫= λ a, k a p) w.
Proof. intros H HP. exists w1. split; [done|]. right. exists Panic. split; [|done]. intros p. unfold mbind, M_bind. by rewrite H. Qed.
Lemma goes_on hangs (P : work → Prop) task w : P w → goes_on_with hangs P task (λ p, p task) w.
Proof. exists w. split; [done|by left]. Qed.
Lemma goes_refuse hangs (P : work → Prop) task r err w : P w → goes_on_with hangs P task (λ _, mret (Some r, Some err)) w.
Proof. exists w. split; [done|]. right. by eexists. Qed.
Lemma goes_mono hangs (P P' : work → Prop) task call w :
  (∀ w', P w' → P' w') → goes_on_with hangs P task call w → goes_on_with hangs P' task call w.
Proof. intros H (w'&HP&Hc). exists w'. auto. Qed.
Lemma goes_hangs P task call w : goes_on_with false P task call w → goes_on_with true P task call w.
Proof.
  intros (w'&HP&[H|(r&Hc&Hr)]); exists w'; (split; [done|]); [by left|right]. exists r. split; [done|]. by destruct r as [[[] []]| | |].
Qed.
(** One processor after the other. *)
Lemma goes_compose hangs (P P' : work → Prop) task (d d' : Decorator) w :
  goes_on_with hangs P task (λ p, d p task) w → (∀ w', P w' → P' w') →
  (∀ w', P w' → goes_on_with hangs P' task (λ p, d' p task) w') → goes_on_with hangs P' task (λ p, d (d' p) task) w.
Proof.
  intros (w1&HP&[Hc|(r&Hc&Hr)]) Himp Hnext.
  - destruct (Hnext w1 HP) as (w2&HP'&H2). exists w2. split; [done|].
    destruct H2 as [H2|(r&H2&Hr)]; [left|right; exists r; split; [|done]]; intros p; by rewrite Hc, H2.
  - exists w1. split; [by apply Himp|]. right. by exists r.
Qed.

(** What the parts of a processor do is done by the whole. *)
Lemma goes_call {A} (R : work → work → Prop) (P : work → Prop) task (m : Work A) k w :
  preserves R m → (∀ w', R w w' → P w') → (∀ a w', R w w' → goes_on_with true P task (k a) w') →
  goes_on_with true P task (λ p, m ≫= λ a, k a p) w.
Proof.
  intros Hm HP Hk. specialize (Hm w). destruct (m w) as [[a|[]| |] w'] eqn:E; cbn in Hm.
  - eapply goes_bind; [exact E|by apply Hk].
  - eapply goes_panic; [exact E|by apply HP].
  - exists w'. split; [by apply HP|]. right. exists OutOfFuel. split; [|done]. intros p. unfold mbind, M_bind. by rewrite E.
Qed.
#[export] Instance emits_pre F : PreOrder (emits F).
Proof.
  split; [intros w; split; [done|exists []; by rewrite app_nil_r]|].
  intros w1 w2 w3 (He&fx&Hd&HF) (He'&fx'&Hd'&HF'). split; [congruence|]. exists (fx ++ fx').
  rewrite Hd', Hd, app_assoc. split; [done|]. by apply Forall_app.
Qed.
Lemma emits_emit F x : F x → preserves (emits F) (emit x).
Proof. intros H w. split; [done|]. exists [x]. split; [done|]. by apply Forall_singleton. Qed.
Lemma emits_tick F : preserves (emits F) tick.
Proof. intros w. split; [done|]. exists []. by rewrite app_nil_r. Qed.
#[export] Hint Resolve emits_emit emits_tick : preserves.


#[export] Instance keeps_session_pre : PreOrder keeps_session.
Proof. split; [done|]. intros e1 e2 e3 (?&?&?&?) (?&?&?&?). split_and!; congruence. Qed.

Lemma polite_ret {A} (a : A) : polite_work (mret a).
Proof. done. Qed.
Lemma polite_bind {A B} (m : Work A) (f : A → Work B) :
  polite_work m → (∀ a, polite_work (f a)) → polite_work (m ≫= f).
Proof.
  intros Hm Hf w. destruct (Hm w) as [Hk Hr]. unfold mbind, M_bind. destruct (m w) as [[a| | |] w']; cbn in *; try done.
  destruct (Hf a w'). split; [by etrans|done].
Qed.
Lemma polite_panic {A} : polite_work (@panic work Empty_set A).
Proof. done. Qed.
Lemma polite_set_env f : (∀ e, keeps_session e (f e)) → polite_work (set_env f).
Proof. intros H w. split; [apply H|done]. Qed.
Lemma polite_Default : polite DefaultProcessor.
Proof. done. Qed.
Lemma on_save_mannered body : polite_work body → mannered (on_save body).
Proof.
  intros Hb p Hp [] w; [|apply Hp]. cbn. destruct (Hb w) as [Hk Hr]. unfold mbind, M_bind.
  destruct (body w) as [[a| | |] w']; cbn in *; try done. destruct (Hp TaskSaveMail w') as (?&?&_).
  split_and!; [by etrans|done|done].
Qed.
Lemma Decorate_polite ds c : Forall mannered ds → polite c → polite (Decorate c ds).
Proof. intros H. revert c. induction H as [|d ds Hd _ IH]; intros c Hc; [done|]. apply IH, Hd, Hc. Qed.

Section Manners.
Context {U : Unicode} {K : Clock} {D : Digest} {WD : WordDecoder} {MR : MIMEReader}.

Lemma Header_mannered config : mannered (Header config).
Proof.
  apply on_save_mannered, polite_bind; [done|]. intros [|rcpt l]; [done|]. destruct config; [|done].
  apply polite_bind; [done|]. intros t. by apply polite_set_env.
Qed.
Lemma Hasher_mannered : mannered Hasher.
Proof. apply on_save_mannered, polite_bind; [done|]. intros t. by apply polite_set_env. Qed.
Lemma Debugger_mannered config : mannered (Debugger config).
Proof. apply on_save_mannered. destruct config; [|done]. by case_match. Qed.
Lemma Compressor_mannered : mannered Compressor.
Proof. by apply on_save_mannered, polite_set_env. Qed.
Lemma ParseHeaders_session e err e' : ParseHeaders e = Ok (err, e') → keeps_session e e'.
Proof.
  unfold ParseHeaders. destruct (Envelope.Header e); [by intros [= _ <-]|].
  repeat case_match; try done; by intros [= _ <-].
Qed.
Lemma ParseHeaders_message e err e' : ParseHeaders e = Ok (err, e') → same_message e e'.
Proof.
  unfold ParseHeaders. destruct (Envelope.Header e); [by intros [= _ <-]|].
  repeat case_match; try done; by intros [= _ <-].
Qed.
Lemma ParseHeaders_returns e : ∃ r, ParseHeaders e = match r with Some x => Ok x | None => Panic end.
Proof.
  unfold ParseHeaders. destruct (Envelope.Header e); [by exists (Some (Some err_headers_already_parsed, e))|].
  repeat case_match.
  all: try match goal with H : MimeHeaderDecode ?s = _ |- _ =>
    destruct (MimeHeaderDecode_returns s) as [v Hv]; rewrite Hv in H; try discriminate H end.
  all: first [by exists None | eexists (Some (_, _)); reflexivity].
Qed.
Lemma HeadersParser_mannered : mannered HeadersParser.
Proof.
  apply on_save_mannered. intros w. cbn. unfold mbind, M_bind, env, gets, id.
  destruct (ParseHeaders_returns (w_env w)) as (r & Hr). rewrite Hr.
  destruct r as [[err e']|]; [split; [by eapply ParseHeaders_session|done]|done].
Qed.
End Manners.

(** ** The delivery header *)
Section DeliveryHeader.
Context {K : Clock}.

Lemma split_lines ls : Forall one_line ls → split_byte LF (concat (map (λ l, l ++ [LF]) ls)) = ls ++ [[]].
Proof.
  induction 1 as [|l ls [Hl _] _ IH]; [done|]. cbn. rewrite <- app_assoc. cbn.
  by rewrite split_byte_app, IH.
Qed.

(** C27. The header that is put before a message has exactly its four lines, each with its beginning, and no CR: for a
    first recipient that the path parser has accepted, whose text is printable, whatever
    it is. The other parts are taken for text without line ends: the hashes, the primary host of the configuration, the date, and
    the address of the peer. The first three are not of the client; the address is one of net.Conn, which is
    free of them, unless XClientOn lets the client name it: XCLIENT ADDR takes any bytes up to the next space, a bare CR
    included ([Session.XCLIENT_ADDR_takes_CR]). *)
Theorem Header_adds_four_lines config p w rcpt rcpts :
  e_RcptTo (w_env w) = rcpt :: rcpts → Printable (User rcpt) → Printable (Host rcpt) →
  one_line (RemoteIP (w_env w)) → Forall one_line (Hashes (w_env w)) →
  one_line (string_of config "primary_mail_host") → one_line (rfc1123z (w_now w)) →
  ∃ h, Header (Some config) p TaskSaveMail w = p TaskSaveMail (mkWork (set_DeliveryHeader h (w_env w)) (S (w_now w)) (w_done w)) ∧
    ∃ l1 l2 l3 l4, split_byte LF h = [l1; l2; l3; l4; []] ∧ (CR ∉ h) ∧
      HasPrefix l1 "Delivered-To: " = true ∧ HasPrefix l2 "Received: from " = true ∧
      HasPrefix l3 [TAB] = true ∧ HasPrefix l4 [TAB] = true.
Proof.
  intros Hr Hu%Printable_one_line Hh%Printable_one_line Hip Hha Hc Hd.
  exists (delivery_header rcpt (string_of config "primary_mail_host") (rfc1123z (w_now w)) (w_env w)).
  split; [unfold Header, on_save, env, gets, mbind, M_bind; by rewrite Hr|].
  set (ls := [bs "Delivered-To: " ++ TrimSpace (User rcpt) ++ bs "@" ++ string_of config "primary_mail_host";
    bs "Received: from " ++ RemoteIP (w_env w) ++ bs " ([" ++ RemoteIP (w_env w) ++ bs "])";
    [TAB] ++ bs "by " ++ Host rcpt ++ bs " with " ++ protocol (w_env w) ++ bs " id " ++
      (match Hashes (w_env w) with h :: _ => h | [] => bs "unknown" end) ++ bs "@" ++ Host rcpt ++ bs ";";
    [TAB] ++ rfc1123z (w_now w)]).
  assert (delivery_header rcpt (string_of config "primary_mail_host") (rfc1123z (w_now w)) (w_env w)
    = concat (map (λ l, l ++ [LF]) ls)) as ->.
  { unfold delivery_header, ls. cbn [map concat]. by rewrite <- !app_assoc. }
  assert (Forall one_line ls) as Hl.
  { assert (∀ s : bytes, bool_decide (LF ∉ s) && bool_decide (CR ∉ s) = true → one_line s) as Hs.
    { intros s H. apply andb_true_iff in H. rewrite !bool_decide_eq_true in H. done. }
    assert (one_line (protocol (w_env w))) as Hp.
    { unfold protocol. destruct (ESMTP _), (TLS _); by apply Hs. }
    assert (one_line (match Hashes (w_env w) with h :: _ => h | [] => bs "unknown" end)) as Hha'.
    { destruct (Hashes _); [by apply Hs|]. by apply list.Forall_cons in Hha as []. }
    unfold ls. rewrite !list.Forall_cons, list.Forall_nil.
    split_and!; [..|done]; repeat apply one_line_app; first [done | by apply one_line_TrimSpace | by apply Hs]. }
  exists (nth 0 ls []), (nth 1 ls []), (nth 2 ls []), (nth 3 ls []). split; [by rewrite split_lines|].
  split; [|by split_and!; apply HasPrefix_app_l].
  intros Hin. apply list_elem_of_In, in_concat in Hin as (l & Hl1 & Hl2).
  apply in_map_iff in Hl1 as (l' & <- & Hl1). rewrite <- list_elem_of_In, elem_of_app in Hl2.
  rewrite list.Forall_forall in Hl. destruct Hl2 as [Hl2|Hl2].
  - by apply list_elem_of_In, Hl in Hl1 as [_ ?].
  - by apply list_elem_of_singleton in Hl2.
Qed.
End DeliveryHeader.

Lemma Header_adds_four_lines_witness :
  let rcpt := mkAddress "joe" "test.org" [] [] false false None [] false in
  let e := mkEnvelope "10.0.0.1" "a.org" zero_Address [rcpt] [] [] true None ∅ [] [] "q1" true in
  let k := {| unix_nano := λ _, 0%Z; rfc1123z := λ _, bs "Mon, 02 Jan 2006 15:04:05 +0000" |} in
  ∃ h, @Header k (Some ∅) DefaultProcessor TaskSaveMail (mkWork e 7 []) =
    DefaultProcessor TaskSaveMail (mkWork (set_DeliveryHeader h e) 8 []) ∧ length (split_byte LF h) = 5.
Proof.
  intros rcpt e k.
  destruct (@Header_adds_four_lines k ∅ DefaultProcessor (mkWork e 7 []) rcpt []) as (h & Hh & l1 & l2 & l3 & l4 & Hs & _).
  - reflexivity.
  - repeat constructor.
  - repeat constructor.
  - by split; apply (bool_decide_eq_true _).
  - constructor.
  - by split; apply (bool_decide_eq_true _).
  - by split; apply (bool_decide_eq_true _).
  - exists h. split; [exact Hh|]. by rewrite Hs.
Defined.
