(* ===== verification/Gateway.v ===== *)
(** * The backend gateway: gateway.go, and the service of backend.go

    The gateway owns the stacks of processors, the workers that run them, and the state
    that says whether mail can be processed. Its methods are computations on the
    gateway and the service; a call of Process or ValidateRcpt hands the envelope to a
    worker and waits for the answer or the timer. *)
From S2P Require Import Prelude GoStd Response Shared Envelope Config Tenant Backend Processor.

Inductive backendState : Type :=
| BackendStateNew | BackendStateRunning | BackendStateShuttered | BackendStateError | BackendStateInitialized.
#[export] Instance backendState_eq_dec : EqDecision backendState.
Proof. solve_decision. Defined.
Definition state_String (s : backendState) : bytes :=
  match s with
  | BackendStateNew => "NewState"
  | BackendStateRunning => "RunningState"
  | BackendStateShuttered => "ShutteredState"
  | BackendStateError => "ErrorSate"
  | BackendStateInitialized => "InitializedState"
  end.

Definition saveTimeout : Z := (30 * second)%Z.
Definition validateRcptTimeout : Z := (5 * second)%Z.

(** ** The service: initialisers and shutdowners of the processors

    An initialiser gets the configuration, both may fail; the number is the moment of
    the call. *)
Definition processorInitializer : Type := nat → BackendConfig → option bytes.
Definition processorShutdowner : Type := nat → option bytes.
Record service := mkService {
  initializers : list processorInitializer;
  shutdowners : list processorShutdowner
}.

Definition AddInitializer (i : processorInitializer) (s : service) : service :=
  mkService (initializers s ++ [i]) (shutdowners s).
Definition AddShutdowner (d : processorShutdowner) (s : service) : service :=
  mkService (initializers s) (shutdowners s ++ [d]).
Definition reset : service := mkService [] [].

(** The ones that fail are kept for the next call. *)
Definition initialize (now : nat) (cfg : BackendConfig) (s : service) : list bytes * service :=
  (omap (λ i, i now cfg) (initializers s),
   mkService (filter (λ i, is_Some (i now cfg)) (initializers s)) (shutdowners s)).
Definition shutdown (now : nat) (s : service) : list bytes * service :=
  (omap (λ d, d now) (shutdowners s),
   mkService (initializers s) (filter (λ d, is_Some (d now)) (shutdowners s))).

Definition Errors_Error (e : list bytes) : bytes :=
  match e with
  | [x] => x
  | _ => concat (map (λ x, LF :: x) e)
  end.

(** ** Constructors of processors

    A constructor registers what its processor needs, and gives the decorator, whose
    closure has the configuration once the initialisers have run. *)
Record ProcessorConstructor := mkConstructor {
  make : BackendConfig → Decorator;
  new_initializers : list processorInitializer;
  new_shutdowners : list processorShutdowner
}.
(** The table of processors by name. *)
Class Plugins := processors : gmap bytes ProcessorConstructor.

(** [AddProcessor]. *)
Definition AddProcessor `{Unicode} (name : bytes) (p : ProcessorConstructor) (t : gmap bytes ProcessorConstructor)
    : gmap bytes ProcessorConstructor := <[ToLower name := p]> t.

(** A stack: the processor that does nothing, or a chain of decorators. *)
Inductive stack : Type := NoopProcessor | Stack (p : Processor).
Definition stack_Process (s : stack) : Processor :=
  match s with NoopProcessor => DefaultProcessor | Stack p => p end.

Inductive gw_error : Type :=
| ge_not_found (name : bytes)
| ge_config (m : bytes)
| ge_workers
| ge_initialize_state
| ge_reinitialize_state
| ge_start_state (s : backendState)
| ge_processors (e : list bytes).
#[export] Instance gw_error_eq_dec : EqDecision gw_error.
Proof. solve_decision. Defined.

(** [workers] counts the goroutines that run, [workStoppers] the channels made for them. *)
Record BackendGateway := mkGateway {
  State : backendState;
  config : BackendConfig;
  gwConfig : option BackendConfig;
  save_stacks : list stack;
  validators : list stack;
  conveyor : option nat;
  workStoppers : nat;
  workers : nat;
  svc : service;
  clock : nat
}.
Definition GW : Type → Type := M BackendGateway gw_error.

Definition GatewayConfig : list field :=
  [mkField "save_workers_size" f_int true; mkField "save_process" f_string true;
   mkField "validate_process" f_string true; mkField "gw_save_timeout" f_string true;
   mkField "gw_val_rcpt_timeout" f_string true].

(** [&BackendGateway{}]. *)
Definition new_gateway (s : service) (now : nat) : BackendGateway :=
  mkGateway BackendStateNew ∅ None [] [] None 0 0 s now.

Section Gateway.
Context {U : Unicode} {P : Plugins} {Du : Durations}.

Definition set_State (v : backendState) (g : BackendGateway) : BackendGateway :=
  mkGateway v (config g) (gwConfig g) (save_stacks g) (validators g) (conveyor g) (workStoppers g) (workers g) (svc g) (clock g).
Definition set_config (v : BackendConfig) (g : BackendGateway) : BackendGateway :=
  mkGateway (State g) v (gwConfig g) (save_stacks g) (validators g) (conveyor g) (workStoppers g) (workers g) (svc g) (clock g).
Definition set_gwConfig (v : BackendConfig) (g : BackendGateway) : BackendGateway :=
  mkGateway (State g) (config g) (Some v) (save_stacks g) (validators g) (conveyor g) (workStoppers g) (workers g) (svc g) (clock g).
Definition set_stacks (s v : list stack) (g : BackendGateway) : BackendGateway :=
  mkGateway (State g) (config g) (gwConfig g) s v (conveyor g) (workStoppers g) (workers g) (svc g) (clock g).
Definition set_conveyor (v : nat) (g : BackendGateway) : BackendGateway :=
  mkGateway (State g) (config g) (gwConfig g) (save_stacks g) (validators g) (Some v) (workStoppers g) (workers g) (svc g) (clock g).
Definition set_workers (s v : nat) (g : BackendGateway) : BackendGateway :=
  mkGateway (State g) (config g) (gwConfig g) (save_stacks g) (validators g) (conveyor g) s v (svc g) (clock g).
Definition set_svc (v : service) (g : BackendGateway) : BackendGateway :=
  mkGateway (State g) (config g) (gwConfig g) (save_stacks g) (validators g) (conveyor g) (workStoppers g) (workers g) v (S (clock g)).

(** [gw.State = BackendStateError; return err]. *)
Definition broken {A} (e : gw_error) : GW A := modify (set_State BackendStateError);; fail e.

Definition workersSize (gc : BackendConfig) : nat :=
  let n := int_of gc "save_workers_size" in
  if (n <=? 0)%Z then 1 else Z.to_nat n.

Definition timeout_of (gc : BackendConfig) (key : bytes) (default_ : Z) : Z :=
  let s := string_of gc key in
  if bool_decide (s = []) then default_ else default default_ (parse_duration s).
Definition save_timeout (gc : BackendConfig) : Z := timeout_of gc "gw_save_timeout" saveTimeout.
Definition validate_timeout (gc : BackendConfig) : Z := timeout_of gc "gw_val_rcpt_timeout" validateRcptTimeout.

(** The decorators of the items, in the order of the loop: the last item first. The
    constructors register as they are called. *)
Fixpoint make_decorators (cfg : BackendConfig) (names : list bytes) (s : service)
    : outcome gw_error (list Decorator) * service :=
  match names with
  | [] => (Ok [], s)
  | name :: names =>
      match processors !! name with
      | Some c =>
          let s := mkService (initializers s ++ new_initializers c) (shutdowners s ++ new_shutdowners c) in
          match make_decorators cfg names s with
          | (Ok ds, s) => (Ok (make c cfg :: ds), s)
          | r => r
          end
      | None => (Err (ge_not_found name), s)
      end
  end.

Definition stack_items (stackConfig : bytes) : list bytes :=
  split_byte "|" (ToLower (TrimSpace stackConfig)).

Definition newStack (cfg : BackendConfig) (stackConfig : bytes) (s : service)
    : outcome gw_error stack * service :=
  if bool_decide (ToLower (TrimSpace stackConfig) = []) then (Ok NoopProcessor, s)
  else match make_decorators cfg (rev (stack_items stackConfig)) s with
       | (Ok ds, s) => (Ok (Stack (Decorate DefaultProcessor ds)), s)
       | (Err e, s) => (Err e, s)
       | (Panic, s) => (Panic, s)
       | (OutOfFuel, s) => (OutOfFuel, s)
       end.

(** [newStack] as a call of the gateway: an error breaks it. *)
Definition new_stack (cfg : BackendConfig) (stackConfig : bytes) : GW stack := λ g,
  match newStack cfg stackConfig (svc g) with
  | (Ok st, s) => (Ok st, set_svc s g)
  | (Err e, s) => (Err e, set_State BackendStateError (set_svc s g))
  | (Panic, s) => (Panic, set_svc s g)
  | (OutOfFuel, s) => (OutOfFuel, set_svc s g)
  end.

Fixpoint new_stacks (n : nat) (cfg gc : BackendConfig) : GW unit :=
  match n with
  | 0 => mret tt
  | S n =>
      p ← new_stack cfg (string_of gc "save_process");
      modify (λ g, set_stacks (save_stacks g ++ [p]) (validators g) g);;
      v ← new_stack cfg (string_of gc "validate_process");
      modify (λ g, set_stacks (save_stacks g) (validators g ++ [v]) g);;
      new_stacks n cfg gc
  end.

Definition loadConfig (cfg : BackendConfig) : GW BackendConfig :=
  match ExtractConfig cfg GatewayConfig with
  | Ok gc => modify (set_gwConfig gc);; mret gc
  | Err m => broken (ge_config m)
  | Panic => panic
  | OutOfFuel => out_of_fuel
  end.

Definition Svc_initialize (cfg : BackendConfig) : GW unit := λ g,
  let '(errs, s) := initialize (clock g) cfg (svc g) in
  match errs with
  | [] => (Ok tt, set_svc s g)
  | _ => (Err (ge_processors errs), set_State BackendStateError (set_svc s g))
  end.

Definition Initialize (cfg : BackendConfig) : GW unit :=
  st ← gets State;
  if bool_decide (st ≠ BackendStateNew) && bool_decide (st ≠ BackendStateShuttered) then fail ge_initialize_state
  else
    gc ← loadConfig cfg;
    let n := workersSize gc in
    if n <? 1 then broken ge_workers
    else
      modify (set_stacks [] []);;
      new_stacks n cfg gc;;
      Svc_initialize cfg;;
      g ← get;
      (match conveyor g with None => modify (set_conveyor n) | Some _ => mret tt end);;
      modify (set_State BackendStateInitialized).

(** A gateway that has never been initialised has no configuration to read, and one
    whose initialisation failed may have too few stacks for its workers. *)
Definition Start : GW unit :=
  st ← gets State;
  if bool_decide (st = BackendStateInitialized) || bool_decide (st = BackendStateShuttered) then
    g ← get;
    match gwConfig g with
    | None => panic
    | Some gc =>
        let n := workersSize gc in
        if (length (save_stacks g) <? n) || (length (validators g) <? n) then panic
        else
          modify (set_workers n n);;
          modify (set_State BackendStateRunning)
    end
  else fail (ge_start_state st).

(** The workers stop first, then the processors are shut down. A worker is told to stop
    through a channel that only it reads: with no workers left from an earlier call whose
    processors failed, the call never returns. *)
Definition Shutdown : GW unit :=
  g ← get;
  if bool_decide (State g ≠ BackendStateShuttered) then
    if workers g <? workStoppers g then out_of_fuel
    else
      modify (set_workers (workStoppers g) 0);;
      let '(errs, s) := shutdown (clock g) (svc g) in
      modify (set_svc s);;
      match errs with
      | [] => modify (set_State BackendStateShuttered)
      | _ => fail (ge_processors errs)
      end
  else mret tt.

Definition Reinitialize : GW unit :=
  st ← gets State;
  if bool_decide (st ≠ BackendStateShuttered) then fail ge_reinitialize_state
  else
    modify (set_svc reset);;
    c ← gets config;
    Initialize c.

(** [New]: the configuration is kept once it is known to be good. *)
Definition New (cfg : BackendConfig) (s : service) (now : nat) : outcome gw_error BackendGateway :=
  match Initialize cfg (new_gateway s now) with
  | (Ok _, g) => Ok (set_config cfg g)
  | (Err e, _) => Err e
  | (Panic, _) => Panic
  | (OutOfFuel, _) => OutOfFuel
  end.
End Gateway.

(** ** Work *)

Record notifyMsg := mkNotify { n_err : option bytes; n_queuedID : bytes; n_result : option Result }.

(** What [workDispatcher] does with one message: the answer, if the processor ever
    returns or panics, and the envelope. A panic is caught; the worker goes on with the
    next message. *)
Definition work_on (save validate : Processor) (task : SelectTask) (w : work) : option notifyMsg * Envelope :=
  match task with
  | TaskSaveMail =>
      match save task w with
      | (Ok (result, err), w') => (Some (mkNotify err (QueuedId (w_env w')) result), w_env w')
      | (Err _, w') | (Panic, w') => (Some (mkNotify (Some (bs "storage failed")) [] None), w_env w')
      | (OutOfFuel, w') => (None, w_env w')
      end
  | TaskValidateRcpt =>
      match validate task w with
      | (Ok (result, err), w') => (Some (mkNotify err [] result), w_env w')
      | (Err _, w') | (Panic, w') => (Some (mkNotify (Some (bs "storage failed")) [] None), w_env w')
      | (OutOfFuel, w') => (None, w_env w')
      end
  end.

(** The result that Process makes of an answer. *)
Definition save_result (status : notifyMsg) : outcome unit Result :=
  if bool_decide (n_result status = Some BackendResultOK) && bool_decide (n_queuedID status ≠ []) then
    Ok (NewResult [text Canned.SuccessMessageQueued; SP; n_queuedID status])
  else match n_result status, n_err status with
       | Some r, _ => Ok r
       | None, Some err =>
           if length err <? 3 then Panic
           else match Atoi (take 3 err) with
                | None => Ok (NewResult [text Canned.FailBackendTransaction; SP; err])
                | Some _ => Ok (NewResult [err])
                end
       | None, None => Ok (NewResult [text Canned.FailBackendTransaction; SP;
           bs "no response from backend - processor did not return a result or an error"])
       end.

(** What the scheduler decides: which worker takes the message, and how long it takes. *)
Class Scheduling := {
  worker_of : nat → nat;
  takes : nat → Z
}.

Section Serve.
Context {Sch : Scheduling} {Du : Durations}.

(** The answer is there before the timer. *)
Definition in_time (timeout : BackendConfig → Z) (g : BackendGateway) (now : nat) : bool :=
  match gwConfig g with Some gc => (takes now <? timeout gc)%Z | None => false end.

Definition pick (l : list stack) (now : nat) : option Processor :=
  stack_Process <$> (l !! (worker_of now mod length l)).

(** The reply, the envelope, and whether the envelope stays locked for ever, because
    the worker that has it never finishes. A stack for every worker is part of what it
    means to run; without workers, or on the nil channel of a gateway whose first
    initialisation failed, nothing is ever answered. *)
Definition Process (g : BackendGateway) (now : nat) (e : Envelope) : outcome unit Result * Envelope * bool :=
  if bool_decide (State g ≠ BackendStateRunning) then
    (Ok (NewResult [text Canned.FailBackendNotRunning; SP; state_String (State g)]), e, false)
  else match conveyor g, workers g, pick (save_stacks g) now, pick (validators g) now with
       | Some _, S _, Some save, Some validate =>
           match work_on save validate TaskSaveMail (mkWork e now []) with
           | (Some status, e') =>
               (if in_time save_timeout g now then save_result status else Ok (NewResult [text Canned.FailBackendTimeout]), e', false)
           | (None, e') => (Ok (NewResult [text Canned.FailBackendTimeout]), e', true)
           end
       | _, _, _, _ => (Ok (NewResult [text Canned.FailBackendTimeout]), e, true)
       end.

(** The reply [r] to a message stands for work that was done: the processor of a worker has returned in
    time, and has accepted the message, which then has an id; or has given this very reply; or has given no
    result, and an error that begins with the number. *)
Definition accepted (g : BackendGateway) (now : nat) (e : Envelope) (r : Result) : Prop :=
  in_time save_timeout g now = true ∧ ∃ save res err w', pick (save_stacks g) now = Some save ∧
    save TaskSaveMail (mkWork e now []) = (Ok (res, err), w') ∧
    match res with
    | Some BackendResultOK =>
        (QueuedId (w_env w') ≠ [] ∧ r = NewResult [text Canned.SuccessMessageQueued; SP; QueuedId (w_env w')]) ∨
        r = BackendResultOK
    | Some res => r = res
    | None => ∃ m n, err = Some m ∧ Atoi (take 3 m) = Some n ∧ r = MkResult m
    end.

(** The answer, and the envelope with what the worker has changed of it. A worker that comes after the timer has
    done it all at once here; how the session goes on meanwhile is in Conveyor.v. *)
Definition ValidateRcpt (g : BackendGateway) (now : nat) (e : Envelope) : option RcptError * Envelope :=
  if bool_decide (State g ≠ BackendStateRunning) then (Some StorageNotAvailable, e)
  else match validators g with
       | NoopProcessor :: _ => (None, e)
       | _ =>
           match conveyor g, workers g, pick (save_stacks g) now, pick (validators g) now with
           | Some _, S _, Some save, Some validate =>
               match work_on save validate TaskValidateRcpt (mkWork e now []) with
               | (Some status, e') =>
                   (if in_time validate_timeout g now then OtherRcptError <$> n_err status else Some StorageTimeout, e')
               | (None, e') => (Some StorageTimeout, e')
               end
           | _, _, _, _ => (Some StorageTimeout, e)
           end
       end.

(** What a session sees of the gateway. It writes the reply to its buffer, and then waits
    in resetTransaction for the lock of the envelope before it sends anything: while
    the worker goes on after the timer, the client waits, for ever if the worker
    never finishes. *)
Definition gateway_backend (g : BackendGateway) : Backend := {|
  Backend.ValidateRcpt := ValidateRcpt g;
  Backend.Process now e :=
    let '(r, e', stuck) := Process g now e in
    ((if (stuck : bool) then OutOfFuel else r), e')
|}.
End Serve.

(** ** The specification: the life of a backend *)
Inductive op : Type := OInitialize (cfg : BackendConfig) | OStart | OShutdown | OReinitialize.

Inductive life : backendState → op → bool → backendState → Prop :=
| life_initialized st cfg : st = BackendStateNew ∨ st = BackendStateShuttered →
    life st (OInitialize cfg) true BackendStateInitialized
| life_broken st cfg : st = BackendStateNew ∨ st = BackendStateShuttered →
    life st (OInitialize cfg) false BackendStateError
| life_no_initialize st cfg : st ≠ BackendStateNew → st ≠ BackendStateShuttered →
    life st (OInitialize cfg) false st
| life_started st : st = BackendStateInitialized ∨ st = BackendStateShuttered →
    life st OStart true BackendStateRunning
| life_no_start st : st ≠ BackendStateInitialized → st ≠ BackendStateShuttered →
    life st OStart false st
| life_shut st : life st OShutdown true BackendStateShuttered
| life_not_shut st : st ≠ BackendStateShuttered → life st OShutdown false st
| life_again st : st = BackendStateShuttered → life st OReinitialize true BackendStateInitialized
| life_broken_again st : st = BackendStateShuttered → life st OReinitialize false BackendStateError
| life_no_again st : st ≠ BackendStateShuttered → life st OReinitialize false st.

(** The lives that the specification allows, as the answers to a sequence of calls. *)
Inductive lives : backendState → list op → list bool → backendState → Prop :=
| lives_nil st : lives st [] [] st
| lives_cons st o b st' os bs st'' :
    life st o b st' → lives st' os bs st'' → lives st (o :: os) (b :: bs) st''.

Section Life.
Context {U : Unicode} {P : Plugins} {Du : Durations}.

Definition run_op (o : op) : GW unit :=
  match o with
  | OInitialize cfg => Initialize cfg
  | OStart => Start
  | OShutdown => Shutdown
  | OReinitialize => Reinitialize
  end.
(** A sequence of calls, as far as they return; [true] is a nil error. The second component says how it ended: all
    have returned, or the next one panics or never returns, in the state that is given. *)
Fixpoint run_ops (os : list op) (g : BackendGateway) : list bool * outcome Empty_set unit * BackendGateway :=
  match os with
  | [] => ([], Ok tt, g)
  | o :: os =>
      match run_op o g with
      | (Ok _, g') => let '(bs, r, g'') := run_ops os g' in (true :: bs, r, g'')
      | (Err _, g') => let '(bs, r, g'') := run_ops os g' in (false :: bs, r, g'')
      | (Panic, _) => ([], Panic, g)
      | (OutOfFuel, _) => ([], OutOfFuel, g)
      end
  end.
End Life.

(** What holds of a gateway between its calls: a running one has a configuration, as many
    stacks as workers are due, and at least one. *)
Definition gw_ok `{Unicode} (g : BackendGateway) : Prop :=
  ∃ gc, gwConfig g = Some gc ∧
    workersSize gc ≤ length (save_stacks g) ∧ workersSize gc ≤ length (validators g).
Record gw_inv `{Unicode} (g : BackendGateway) : Prop := mkGwInv {
  gi_ready : State g = BackendStateInitialized → gw_ok g;
  gi_running : State g = BackendStateRunning → gw_ok g ∧ 0 < workStoppers g;
  gi_workers : workers g = 0 ∨ workers g = workStoppers g
}.

(** The calls that do not return: Start of a gateway that was shut down without the configuration and the stacks of a
    successful initialisation; and Shutdown when the workers of the last start have stopped already, which leaves nobody to
    take its signals. *)
Definition start_panics `{Unicode} (o : op) (g : BackendGateway) : Prop :=
  o = OStart ∧ State g = BackendStateShuttered ∧ ¬ gw_ok g.
Definition shutdown_hangs (o : op) (g : BackendGateway) : Prop :=
  o = OShutdown ∧ State g ≠ BackendStateShuttered ∧ workers g = 0 ∧ 0 < workStoppers g.

(** The registrations of the constructors of some names. *)
Definition registered (cs : list ProcessorConstructor) (s : service) : service :=
  mkService (initializers s ++ concat (map new_initializers cs)) (shutdowners s ++ concat (map new_shutdowners cs)).

(** What the making of stacks leaves alone. *)
Definition same_life (g g' : BackendGateway) : Prop :=
  State g' = State g ∧ config g' = config g ∧ gwConfig g' = gwConfig g ∧ conveyor g' = conveyor g ∧
  workStoppers g' = workStoppers g ∧ workers g' = workers g.

Definition broke (g g' : BackendGateway) : Prop :=
  State g' = BackendStateError ∧ workStoppers g' = workStoppers g ∧ workers g' = workers g ∧ config g' = config g.

(** A gateway that can serve: its workers run, and their stacks are polite. *)
Record serves (g : BackendGateway) : Prop := mkServes {
  sv_workers : 0 < workers g;
  sv_conveyor : conveyor g ≠ None;
  sv_saves : save_stacks g ≠ [] ∧ Forall (λ s, polite (stack_Process s)) (save_stacks g);
  sv_validators : validators g ≠ [] ∧ Forall (λ s, polite (stack_Process s)) (validators g)
}.

(** Every constructor of the table makes mannered decorators. *)
Definition mannered_plugins `{Plugins} : Prop := ∀ n c cfg, processors !! n = Some c → mannered (make c cfg).

Definition polite_stacks (g : BackendGateway) : Prop :=
  Forall (λ s, polite (stack_Process s)) (save_stacks g) ∧ Forall (λ s, polite (stack_Process s)) (validators g).

(** ** The processors of the program *)
Section Builtin.
Context {U : Unicode} {K : Clock} {D : Digest} {WD : WordDecoder} {MR : MIMEReader}.

Definition configured (l : list field) (cfg : BackendConfig) : option BackendConfig :=
  match ExtractConfig cfg l with Ok r => Some r | _ => None end.
Definition extracting (l : list field) : processorInitializer := λ _ cfg,
  match ExtractConfig cfg l with Err m => Some m | _ => None end.

(** The entries that the [init] functions make. *)
Definition builtin_list : list (bytes * ProcessorConstructor) :=
  [(bs "headersparser", mkConstructor (λ _, HeadersParser) [] []);
   (bs "header", mkConstructor (λ cfg, Header (configured HeaderConfig cfg)) [extracting HeaderConfig] []);
   (bs "debugger", mkConstructor (λ cfg, Debugger (configured debuggerConfig cfg)) [extracting debuggerConfig] []);
   (bs "hasher", mkConstructor (λ _, Hasher) [] []);
   (bs "compressor", mkConstructor (λ _, Compressor) [] [])].
Definition builtin : Plugins := (list_to_map builtin_list : gmap bytes ProcessorConstructor).
End Builtin.

(** ** A gateway for concrete calls *)
Definition test_clock : Clock := {| unix_nano := λ _, 0%Z; rfc1123z := λ _, bs "now" |}.
Definition test_scheduling : Scheduling := {| worker_of := λ now, now; takes := λ _, 1%Z |}.
Definition default_config : BackendConfig := (list_to_map : _ → gmap bytes cfgval)
  [(bs "save_process", CString default_process); (bs "primary_mail_host", CString "mx.test.org");
   (bs "log_received_mails", CBool false); (bs "save_workers_size", CInt 2)].
Definition test_plugins : Plugins :=
  @builtin test_clock (λ b, b) (λ _, None) (λ _, (Some ∅, None)).
Definition test_mail : Envelope :=
  mkEnvelope "10.0.0.1" "a.org" zero_Address [mkAddress "joe" "test.org" [] [] false false None [] false]
    (bs "Subject: x" ++ [LF; LF]) [] false None ∅ [] [] "q1" false.
(** A processor whose shutdown fails. *)
Definition stubborn_plugins : Plugins :=
  ({[ bs "stubborn" := mkConstructor (λ _ p, p) [] [λ _, Some (bs "connection in use")] ]}
    : gmap bytes ProcessorConstructor).
Definition stubborn_config : BackendConfig := <[bs "save_process" := CString "Stubborn"]> (∅ : gmap bytes cfgval).
Definition test_ops : list op :=
  [OStart; OInitialize default_config; OStart; OInitialize default_config; OReinitialize; OShutdown; OShutdown;
   OReinitialize; OStart].

Definition reply_text `{Scheduling} `{Durations} (g : BackendGateway) : option bytes :=
  match fst (fst (Process g 0 test_mail)) with Ok r => Some (result_String r) | _ => None end.

(** * Proofs *)

(** ** Stacks *)
Section Stacks.
Context {U : Unicode} {P : Plugins}.

Lemma make_decorators_ok cfg names cs s : Forall2 (λ n c, processors !! n = Some c) names cs →
  make_decorators cfg names s = (Ok (map (λ c, make c cfg) cs), registered cs s).
Proof.
  intros H. revert s. induction H as [|n c names cs Hn _ IH]; intros s; cbn.
  - unfold registered. cbn. rewrite !app_nil_r. by destruct s.
  - rewrite Hn, IH. unfold registered. cbn. by rewrite <- !app_assoc.
Qed.
Lemma make_decorators_missing cfg names s n : head (filter (λ n, processors !! n = None) names) = Some n →
  ∃ s', make_decorators cfg names s = (Err (ge_not_found n), s').
Proof.
  revert s. induction names as [|x names IH]; intros s; [done|]. rewrite list.filter_cons. intros Hh.
  case_decide as Hx; cbn in Hh |- *.
  - injection Hh as ->. rewrite Hx. eauto.
  - destruct (processors !! x) as [c|]; [|done].
    cbn. destruct (IH (mkService (initializers s ++ new_initializers c) (shutdowners s ++ new_shutdowners c)) Hh) as [s' ->]. eauto.
Qed.
Lemma make_decorators_returns cfg names s :
  (∃ ds s', make_decorators cfg names s = (Ok ds, s')) ∨ (∃ n s', make_decorators cfg names s = (Err (ge_not_found n), s')).
Proof.
  revert s. induction names as [|x names IH]; intros s; cbn; [left; eauto|].
  destruct (processors !! x) as [c|]; [|right; eauto].
  destruct (IH (mkService (initializers s ++ new_initializers c) (shutdowners s ++ new_shutdowners c))) as
    [(ds & s' & ->)|(n & s' & ->)]; [left|right]; eauto.
Qed.
Lemma newStack_returns cfg sc s :
  (∃ st s', newStack cfg sc s = (Ok st, s')) ∨ (∃ n s', newStack cfg sc s = (Err (ge_not_found n), s')).
Proof.
  unfold newStack. case_bool_decide; [left; eauto|].
  destruct (make_decorators_returns cfg (rev (stack_items sc)) s) as [(ds & s' & ->)|(n & s' & ->)]; [left|right]; eauto.
Qed.

Lemma Decorate_rev cs cfg p :
  Decorate p (map (λ c, make c cfg) (rev cs)) = foldr (λ c q, make c cfg q) p cs.
Proof.
  unfold Decorate. induction cs as [|c cs IH]; cbn; [done|]. by rewrite map_app, foldl_app, IH.
Qed.

(** C26. A stack is the composition of its processors in the order of the
    configuration: the first one named is the first one to see the envelope, and each
    decides whether the next one does. The empty configuration is the processor that does
    nothing. An unknown name is an error, which names the last unknown one. *)
Theorem newStack_order cfg stackConfig s :
  (ToLower (TrimSpace stackConfig) = [] → newStack cfg stackConfig s = (Ok NoopProcessor, s)) ∧
  (ToLower (TrimSpace stackConfig) ≠ [] →
   (∀ cs, Forall2 (λ n c, processors !! n = Some c) (stack_items stackConfig) cs →
      fst (newStack cfg stackConfig s) = Ok (Stack (foldr (λ c p, make c cfg p) DefaultProcessor cs))) ∧
   (∀ n, head (filter (λ n, processors !! n = None) (rev (stack_items stackConfig))) = Some n →
      fst (newStack cfg stackConfig s) = Err (ge_not_found n))).
Proof.
  unfold newStack. split; intros Hs; [by rewrite bool_decide_eq_true_2|]. rewrite bool_decide_eq_false_2 by done.
  split.
  - intros cs Hcs. rewrite (make_decorators_ok _ _ (rev cs)); [cbn; by rewrite Decorate_rev|].
    induction Hcs as [|n c ns cs' Hc _ IH]; [by constructor|]. cbn. apply Forall2_app; [done|by repeat constructor].
  - intros n Hn. by destruct (make_decorators_missing cfg _ s n Hn) as [s' ->].
Qed.
End Stacks.

(** ** The life of the gateway *)
Section Lifecycle.
Context {U : Unicode} {P : Plugins} {Du : Durations}.

Lemma ExtractConfig_returns c l : (∃ r, ExtractConfig c l = Ok r) ∨ (∃ m, ExtractConfig c l = Err m).
Proof.
  induction l as [|f l IH]; cbn; [left; eauto|].
  assert ((∃ v, extract_field c f = Ok v) ∨ ∃ m, extract_field c f = Err m) as [[v ->]|[m ->]].
  { unfold extract_field. repeat case_match; eauto. }
  - destruct IH as [[r ->]|[m ->]]; eauto.
  - eauto.
Qed.

#[local] Instance same_life_trans : Transitive same_life.
Proof. intros g1 g2 g3 (?&?&?&?&?&?) (?&?&?&?&?&?). split_and!; congruence. Qed.
Lemma wp_new_stack cfg sc g :
  wp (new_stack cfg sc)
    (λ _ g', same_life g g' ∧ save_stacks g' = save_stacks g ∧ validators g' = validators g)
    (λ _ g', broke g g') g.
Proof.
  unfold wp, new_stack. by destruct (newStack_returns cfg sc (svc g)) as [(st & s' & ->)|(n & s' & ->)].
Qed.
Lemma wp_new_stacks n cfg gc g :
  wp (new_stacks n cfg gc)
    (λ _ g', same_life g g' ∧ length (save_stacks g') = length (save_stacks g) + n ∧
             length (validators g') = length (validators g) + n)
    (λ _ g', broke g g') g.
Proof.
  revert g. induction n as [|n IH]; intros g; cbn [new_stacks]; [apply wp_ret; split_and!; done || lia|].
  apply wp_bind. eapply wp_mono; [apply wp_new_stack| |done]. intros st g1 (H1 & Es1 & Ev1).
  apply wp_bind, wp_modify, wp_bind. eapply wp_mono; [apply wp_new_stack| |].
  2: { intros e g2 (? & ? & ? & ?). destruct H1 as (?&?&?&?&?&?). cbn in *. split_and!; congruence. }
  intros v g2 (H2 & Es2 & Ev2). apply wp_bind, wp_modify.
  eapply wp_mono; [apply IH| |].
  - intros [] g3 (H3 & Es3 & Ev3). cbn in *. rewrite Es2, Ev2, ?length_app in *. cbn in *.
    rewrite Es1, Ev1 in *. split_and!; [|lia|lia].
    destruct H1 as (?&?&?&?&?&?), H2 as (?&?&?&?&?&?), H3 as (?&?&?&?&?&?). cbn in *. split_and!; congruence.
  - intros e g3 (?&?&?&?). destruct H1 as (?&?&?&?&?&?), H2 as (?&?&?&?&?&?). cbn in *. split_and!; congruence.
Qed.

Lemma wp_Initialize cfg g : State g = BackendStateNew ∨ State g = BackendStateShuttered →
  wp (Initialize cfg)
    (λ _ g', State g' = BackendStateInitialized ∧ gw_ok g' ∧ conveyor g' ≠ None ∧ workStoppers g' = workStoppers g ∧
             workers g' = workers g ∧ config g' = config g)
    (λ _ g', broke g g') g.
Proof.
  intros Hst. unfold Initialize. apply wp_bind, wp_gets.
  assert (bool_decide (State g ≠ BackendStateNew) && bool_decide (State g ≠ BackendStateShuttered) = false) as ->
    by (destruct Hst as [-> | ->]; done).
  apply wp_bind. unfold loadConfig.
  destruct (ExtractConfig_returns cfg GatewayConfig) as [[gc ->]|[m ->]]; [|by apply wp_bind, wp_modify, wp_fail].
  apply wp_bind, wp_modify, wp_ret. cbv zeta.
  destruct (workersSize gc <? 1) eqn:En; [by apply wp_bind, wp_modify, wp_fail|].
  apply wp_bind, wp_modify, wp_bind. eapply wp_mono; [apply wp_new_stacks| |by intros e g' (?&?&?&?)].
  intros [] g1 ((?&?&?&?&?&?) & Es & Ev). cbn in *.
  apply wp_bind. unfold wp at 1, Svc_initialize.
  destruct (initialize (clock g1) cfg (svc g1)) as [[|x errs] s]; cbn; [|split_and!; cbn; congruence].
  apply wp_bind. unfold wp at 1, get. apply wp_bind. cbn.
  destruct (conveyor g1) as [q|] eqn:Eq; [apply wp_ret, wp_modify|apply wp_modify, wp_modify]; cbn;
    (split_and!; [done| |congruence..]; exists gc; cbn; split_and!; [congruence|lia|lia]).
Qed.

Lemma Initialize_refused cfg g : State g ≠ BackendStateNew → State g ≠ BackendStateShuttered →
  Initialize cfg g = (Err ge_initialize_state, g).
Proof. intros H1 H2. unfold Initialize, gets, mbind, M_bind. by rewrite !bool_decide_eq_true_2. Qed.

Lemma workersSize_pos gc : 0 < workersSize gc.
Proof. unfold workersSize. destruct (_ <=? 0)%Z eqn:E; [lia|]. apply Z.leb_gt in E. lia. Qed.

(** Every call that returns does what the specification allows, and keeps the
    invariant; the others are known. *)
Lemma op_refines o g r g' : gw_inv g → run_op o g = (r, g') →
  match r with
  | Ok _ => life (State g) o true (State g') ∧ gw_inv g'
  | Err _ => life (State g) o false (State g') ∧ gw_inv g'
  | Panic => start_panics o g
  | OutOfFuel => shutdown_hangs o g
  end.
Proof.
  intros [Hr Hu Hw] E. destruct o as [cfg| | |]; cbn in E.
  - destruct (decide (State g = BackendStateNew ∨ State g = BackendStateShuttered)) as [Hs|Hs].
    + pose proof (wp_Initialize cfg g Hs) as H. unfold wp in H. rewrite E in H. destruct r as [[]|e| |]; try done.
      * destruct H as (Es & Hok & _ & E1 & E2 & _). rewrite Es. split; [by constructor|].
        constructor; [done|congruence|]. by rewrite E1, E2.
      * destruct H as (Es & E1 & E2 & _). rewrite Es. split; [by constructor|].
        constructor; [congruence|congruence|]. by rewrite E1, E2.
    + rewrite Initialize_refused in E by tauto. injection E as <- <-.
      split; [constructor; tauto|by constructor].
  - unfold Start, gets, get, mbind, M_bind in E.
    destruct (bool_decide (State g = _) || _) eqn:Es.
    + apply orb_true_iff in Es. rewrite !bool_decide_eq_true in Es.
      assert (State g = BackendStateShuttered ∨ gw_ok g) as Hok by (destruct Es; auto).
      destruct (gwConfig g) as [gc|] eqn:Eg.
      2: { injection E as <- <-. assert (¬ gw_ok g) as Hn by (intros (gc&Hg&_); congruence). split_and!; [done|by destruct Hok|done]. }
      destruct (_ || _) eqn:El.
      { injection E as <- <-. apply orb_true_iff in El. rewrite !Nat.ltb_lt in El.
        assert (¬ gw_ok g) as Hn by (intros (gc'&Hg&H1&H2); rewrite Eg in Hg; injection Hg as <-; lia).
        split_and!; [done|by destruct Hok|done]. }
      injection E as <- <-.
      apply orb_false_iff in El as [El1 El2]. apply Nat.ltb_ge in El1, El2.
      split; [by constructor|]. pose proof (workersSize_pos gc).
      constructor; cbn; [done| |by right]. intros _. split; [|done].
      exists gc. cbn. split_and!; [done|lia|lia].
    + apply orb_false_iff in Es. rewrite !bool_decide_eq_false in Es. injection E as <- <-.
      split; [constructor; tauto|by constructor].
  - unfold Shutdown, get, mbind, M_bind in E. case_bool_decide as Es.
    + destruct (_ <? _) eqn:El.
      { injection E as <- <-. apply Nat.ltb_lt in El. split_and!; [done|done|lia|lia]. }
      cbn in E.
      destruct (omap _ _) as [|x errs]; injection E as <- <-; cbn.
      * split; [constructor|]. constructor; cbn; [done|done|by left].
      * split; [by constructor|]. constructor; cbn; [exact Hr|exact Hu|by left].
    + injection E as <- <-. split; [|by constructor]. rewrite Es. constructor.
  - unfold Reinitialize, gets, mbind, M_bind in E. case_bool_decide as Es.
    + injection E as <- <-. split; [by constructor|by constructor].
    + cbn in E.
      pose proof (wp_Initialize (config g) (set_svc reset g) (or_intror Es)) as H.
      unfold wp in H. rewrite E in H. destruct r as [[]|e| |]; try done.
      * destruct H as (Es' & Hok & _ & E1 & E2 & _). rewrite Es'. split; [by constructor|].
        constructor; [done|congruence|]. by rewrite E1, E2.
      * destruct H as (Es' & E1 & E2 & _). rewrite Es'. split; [by constructor|].
        constructor; [congruence|congruence|]. by rewrite E1, E2.
Qed.
End Lifecycle.

Section Lives.
Context {U : Unicode} {P : Plugins} {Du : Durations}.

(** C13. The gateway implements the life of a backend, over every sequence of calls up to the first that does not
    return, if there is one: it can be initialised when it is new or shut down, which fails into the error
    state; started when it is initialised or shut down, reinitialised only when it is shut
    down; a call out of turn is refused and changes nothing. And whenever it is running
    it has its configuration and a stack of each kind for every worker. Two calls do not return: Start panics
    when the gateway was shut down without ever having been initialised well, and Shutdown hangs when its workers have
    stopped already, by an earlier Shutdown whose processors failed or after which the gateway was only
    initialised again. *)
Theorem gateway_lives os g answers r g' : gw_inv g → run_ops os g = (answers, r, g') →
  lives (State g) (take (length answers) os) answers (State g') ∧ gw_inv g' ∧
  match r with
  | Ok _ => length answers = length os
  | Panic => ∃ o, os !! length answers = Some o ∧ start_panics o g'
  | OutOfFuel => ∃ o, os !! length answers = Some o ∧ shutdown_hangs o g'
  | Err _ => False
  end.
Proof.
  revert g answers. induction os as [|o os IH]; intros g answers Hi; cbn [run_ops].
  - intros [= <- <- <-]. by split_and!; [constructor| |].
  - destruct (run_op o g) as [r1 g1] eqn:E. pose proof (op_refines _ _ _ _ Hi E) as H.
    destruct r1 as [u|e| |];
      [destruct H as [Hl Hi1]; destruct (run_ops os g1) as [[bs r2] g2] eqn:E2; intros [= <- <- <-];
       destruct (IH _ _ Hi1 E2) as (H1&H2&H3).. | |].
    1,2: split_and!; [cbn [length take]; by eapply lives_cons|done|]; destruct r2; cbn [length]; [lia|done|exact H3..].
    1,2: intros [= <- <- <-]; split_and!; [constructor|done|by exists o].
Qed.
Lemma new_gateway_inv s now : gw_inv (new_gateway s now).
Proof. constructor; try done. by left. Qed.

(** ** Serving *)
Context {Sch : Scheduling}.

Lemma pick_some l now (Q : Processor → Prop) : l ≠ [] → Forall (λ s, Q (stack_Process s)) l →
  ∃ p, pick l now = Some p ∧ Q p.
Proof.
  intros Hl HQ. unfold pick. destruct (lookup_lt_is_Some_2 l (worker_of now mod length l)) as [st Hst].
  { apply Nat.mod_upper_bound. by destruct l. }
  rewrite Hst. eexists. split; [done|]. rewrite list.Forall_forall in HQ. eapply HQ, list_elem_of_lookup_2; eauto.
Qed.

Lemma save_result_returns n : match n_err n with Some e => 3 ≤ length e | None => True end →
  ∃ r, save_result n = Ok r.
Proof.
  intros H. unfold save_result. destruct (_ && _); [eauto|]. destruct (n_result n); [eauto|].
  destruct (n_err n) as [e|]; [|eauto]. destruct (_ <? _) eqn:E; [apply Nat.ltb_lt in E; lia|].
  destruct (Atoi _); eauto.
Qed.

Lemma work_on_save save validate w : polite save →
  ∃ n e', work_on save validate TaskSaveMail w = (Some n, e') ∧ keeps_session (w_env w) e' ∧
    match n_err n with Some e => 3 ≤ length e | None => True end.
Proof.
  intros Hp. destruct (Hp TaskSaveMail w) as (Hk & Hr & _). unfold work_on.
  destruct (save TaskSaveMail w) as [[[res err]| | |] w']; cbn in *; try done; do 2 eexists; split_and!; try done; cbn; lia.
Qed.

Lemma serves_laws g : serves g → @BackendLaws (gateway_backend g).
Proof.
  intros [Hw Hc [Hs1 Hs2] [Hv1 Hv2]].
  assert (∀ now e, (∃ r e', Process g now e = (Ok r, e', false) ∧ keeps_session e e')) as H.
  { intros now e. unfold Process. case_bool_decide as Hst; [by do 2 eexists|].
    destruct (conveyor g); [|done]. destruct (workers g) eqn:Ew; [lia|].
    destruct (pick_some _ now polite Hs1 Hs2) as (save & -> & Hps).
    destruct (pick_some _ now polite Hv1 Hv2) as (validate & -> & _).
    destruct (work_on_save save validate (mkWork e now []) Hps) as (st & e' & -> & Hk & He).
    destruct (save_result_returns _ He) as [r Hr]. destruct (in_time save_timeout g now); [rewrite Hr|]; eauto. }
  constructor; intros now e; [destruct (H now e) as (r & e' & E & Hk); cbn; rewrite E; by exists r|
    destruct (H now e) as (r & e' & E & Hk); cbn; rewrite E; exact Hk|].
  change (Backend.ValidateRcpt now e) with (ValidateRcpt g now e). unfold ValidateRcpt. case_bool_decide; [done|].
  destruct (pick_some _ now polite Hs1 Hs2) as (save & -> & _).
  destruct (pick_some _ now polite Hv1 Hv2) as (validate & -> & Hpv).
  destruct (Hpv TaskValidateRcpt (mkWork e now [])) as ((_&_&Ht&_)&_&Hk). specialize (Hk eq_refl) as (?&?&?&?).
  destruct (validators g) as [|[] l]; destruct (conveyor g); destruct (workers g); try done;
    unfold work_on; destruct (validate TaskValidateRcpt _) as [[[res err]| | |] w']; cbn in *; by split_and!.
Qed.

Lemma make_decorators_mannered cfg names s ds s' : mannered_plugins →
  make_decorators cfg names s = (Ok ds, s') → Forall mannered ds.
Proof.
  intros HP. revert s ds. induction names as [|n names IH]; intros s ds; cbn; [by intros [= <- <-]|].
  destruct (processors !! n) as [c|] eqn:E; [|done].
  destruct (make_decorators _ _ _) as [[ds'| | |] s''] eqn:E2; try done. intros [= <- <-].
  constructor; [by eapply HP|by eapply IH].
Qed.
Lemma newStack_polite cfg sc s st s' : mannered_plugins → newStack cfg sc s = (Ok st, s') → polite (stack_Process st).
Proof.
  intros HP. unfold newStack. case_bool_decide; [by intros [= <- <-]|].
  destruct (make_decorators _ _ _) as [[ds| | |] s''] eqn:E; try done. intros [= <- <-].
  apply Decorate_polite; [by eapply make_decorators_mannered|apply polite_Default].
Qed.

Lemma new_stack_polite cfg sc g st g' : mannered_plugins → new_stack cfg sc g = (Ok st, g') →
  polite (stack_Process st) ∧ save_stacks g' = save_stacks g ∧ validators g' = validators g.
Proof.
  intros HP. unfold new_stack. destruct (newStack cfg sc (svc g)) as [[st'| | |] s'] eqn:E; try done.
  intros [= <- <-]. split; [by eapply newStack_polite|done].
Qed.
Lemma new_stacks_polite n cfg gc g g' u : mannered_plugins → polite_stacks g →
  new_stacks n cfg gc g = (Ok u, g') → polite_stacks g'.
Proof.
  intros HP. revert g. induction n as [|n IH]; intros g Hg; cbn; [by intros [= _ <-]|].
  unfold mbind, M_bind. destruct (new_stack _ _ g) as [[p| | |] g1] eqn:E1; try done.
  apply new_stack_polite in E1 as (Hp & Es1 & Ev1); [|done]. cbn.
  destruct (new_stack _ _ _) as [[v| | |] g2] eqn:E2; try done.
  apply new_stack_polite in E2 as (Hv & Es2 & Ev2); [|done]. cbn in *.
  apply IH. unfold polite_stacks. cbn. rewrite Es2, Ev2, Es1, Ev1, !Forall_app.
  destruct Hg. split; (split; [done|]); by constructor.
Qed.
Lemma Initialize_polite cfg g g' u : mannered_plugins → Initialize cfg g = (Ok u, g') → polite_stacks g'.
Proof.
  intros HP. unfold Initialize, loadConfig, broken, gets, get, mbind, M_bind. destruct (_ && _); [done|].
  destruct (ExtractConfig _ _) as [gc| | |]; cbn -[Nat.ltb]; try done.
  destruct (workersSize gc <? 1); [done|]. cbn -[Nat.ltb].
  destruct (new_stacks _ _ _ _) as [[[]| | |] g1] eqn:E; try done.
  apply new_stacks_polite in E; [|done|by split]. unfold Svc_initialize.
  destruct (omap _ _); cbn; [|done].
  destruct (conveyor g1); intros [= _ <-]; exact E.
Qed.

(** C4. A gateway serves sessions. After New and Start with processors that are
    mannered, which may panic at any time, in any number of workers and under any
    scheduling, every message gets a reply, the data of the session stays as it was, and a
    validation leaves the transaction alone: the gateway is a backend as the theorems about sessions ask for. *)
Theorem gateway_serves cfg s now g : mannered_plugins → New cfg s now = Ok g →
  ∃ g', Start g = (Ok tt, g') ∧ State g' = BackendStateRunning ∧ 0 < workers g' ∧
    @BackendLaws (gateway_backend g').
Proof.
  intros HP. unfold New. pose proof (wp_Initialize cfg (new_gateway s now) (or_introl eq_refl)) as H. unfold wp in H.
  destruct (Initialize cfg (new_gateway s now)) as [[u| | |] g1] eqn:E; try done. intros [= <-].
  destruct H as (Es & (gc & Eg & Hl1 & Hl2) & Hc & _). apply Initialize_polite in E as [Hp1 Hp2]; [|done].
  pose proof (workersSize_pos gc) as Hpos. unfold Start, gets, get, mbind, M_bind.
  cbn -[Nat.ltb]. rewrite Es. rewrite (bool_decide_eq_true_2 _ eq_refl). cbn -[Nat.ltb]. rewrite Eg.
  destruct (_ || _) eqn:El; [apply orb_true_iff in El; rewrite !Nat.ltb_lt in El; cbn in El; lia|].
  eexists. split; [done|]. split; [done|]. split; [done|]. apply serves_laws. constructor; cbn; try done.
  - split; [|done]. intros E'. rewrite E' in Hl1. cbn in Hl1. lia.
  - split; [|done]. intros E'. rewrite E' in Hl2. cbn in Hl2. lia.
Qed.
End Lives.

(** ** Replies *)
Section Replies.
Context {U : Unicode} {Sch : Scheduling} {Du : Durations}.

(** A failure is never reported as a success: a gateway answers with a code below 300 only if it runs and the
    work was done. A processor that panics, that is late, that returns nothing or an error without a code of
    its own, makes the reply 554. *)
Lemma failed_work_is_reported g now e r e' stuck : Process g now e = (Ok r, e', stuck) → (Code r < 300)%Z →
  State g = BackendStateRunning ∧ accepted g now e r.
Proof.
  intros Hpr Hc.
  assert (∀ t items, r = NewResult ((bs "554" ++ t) :: items) → False) as Hf.
  { intros t items ->. revert Hc. unfold NewResult. cbn [concat]. rewrite <- app_assoc, Code_554. lia. }
  assert (r = NewResult [text Canned.FailBackendTimeout] → False) as Hto by (intros ->; vm_compute in Hc; discriminate Hc).
  unfold Process in Hpr. case_bool_decide as Hst.
  { injection Hpr as <- _ _. by destruct (Hf (bs " 5.5.0 Transaction failed - backend not running") _ eq_refl). }
  split; [by destruct (decide (State g = BackendStateRunning))|].
  destruct (conveyor g); [|injection Hpr as <- _ _; by destruct Hto].
  destruct (workers g); [injection Hpr as <- _ _; by destruct Hto|].
  destruct (pick (save_stacks g) now) as [save|] eqn:Ep; [|injection Hpr as <- _ _; by destruct Hto].
  destruct (pick (validators g) now) as [validate|]; [|injection Hpr as <- _ _; by destruct Hto].
  unfold work_on in Hpr. destruct (save TaskSaveMail (mkWork e now [])) as [[[res err]|[]| |] w'] eqn:Es.
  2: { destruct (in_time save_timeout g now); injection Hpr as Hr _ _; [|by destruct Hto].
       by destruct (Hf (bs " 5.5.0 Error:") _ (eq_sym Hr)). }
  2: { injection Hpr as <- _ _. by destruct Hto. }
  unfold accepted. destruct (in_time save_timeout g now); [|injection Hpr as <- _ _; by destruct Hto]. injection Hpr as Hr _.
  split; [done|]. exists save, res, err, w'. split; [done|]. split; [done|].
  unfold save_result in Hr. cbn [n_result n_err n_queuedID] in Hr. destruct res as [[|m]|].
  - rewrite (bool_decide_eq_true_2 (Some BackendResultOK = _)) in Hr by done. cbn [andb] in Hr.
    case_bool_decide as Hq; injection Hr as <-; [by left|by right].
  - by injection Hr as <-.
  - destruct err as [m|]; [|injection Hr as <-; by destruct (Hf (bs " 5.5.0 Error:") _ eq_refl)].
    destruct (_ <? _); [done|]. destruct (Atoi (take 3 m)) as [cd|] eqn:En; injection Hr as <-.
    + exists m, cd. split_and!; try done. unfold NewResult. cbn. by rewrite app_nil_r.
    + by destruct (Hf (bs " 5.5.0 Error:") _ eq_refl).
Qed.
End Replies.

Section BuiltinProofs.
Context {U : Unicode} {K : Clock} {D : Digest} {WD : WordDecoder} {MR : MIMEReader}.
Lemma builtin_mannered : @mannered_plugins builtin.
Proof.
  intros n x cfg H. apply elem_of_list_to_map_2 in H. unfold builtin_list in H.
  repeat (apply elem_of_cons in H as [[= _ ->]|H]); [..|by apply elem_of_nil in H]; cbn.
  - apply HeadersParser_mannered.
  - apply Header_mannered.
  - apply Debugger_mannered.
  - apply Hasher_mannered.
  - apply Compressor_mannered.
Qed.
End BuiltinProofs.

(** ** Concrete calls *)
#[local] Existing Instances ascii_only test_scheduling test_plugins.
#[local] Instance no_durations : Durations := λ _, None.

Lemma newStack_order_witness :
  ∃ p, fst (newStack default_config default_process reset) = Ok (Stack p) ∧
    p = foldr (λ x q, make x default_config q) DefaultProcessor
          (omap (λ n, processors !! n) (stack_items default_process)).
Proof.
  eexists. split; [|reflexivity].
  destruct (newStack_order default_config default_process reset) as [_ [H _]]; [by vm_compute|].
  apply H. vm_compute stack_items. cbn [omap list_omap]. repeat constructor.
Defined.
Lemma gateway_lives_witness :
  (∃ g', run_ops test_ops (new_gateway reset 0) =
      ([false; true; true; false; false; true; true; true; true], Ok tt, g') ∧
    lives BackendStateNew test_ops
      [false; true; true; false; false; true; true; true; true] BackendStateRunning) ∧
  (∃ g', run_ops [OShutdown; OStart] (new_gateway reset 0) = ([true], Panic, g') ∧ start_panics OStart g') ∧
  (∃ g', run_ops (test_ops ++ [OShutdown; OReinitialize; OShutdown]) (new_gateway reset 0) =
      ([false; true; true; false; false; true; true; true; true; true; true], OutOfFuel, g') ∧ shutdown_hangs OShutdown g').
Proof.
  split_and!.
  - assert ((λ x, (fst x, State (snd x))) (run_ops test_ops (new_gateway reset 0)) =
      ([false; true; true; false; false; true; true; true; true], Ok tt, BackendStateRunning)) as H by (vm_compute; reflexivity).
    destruct (run_ops test_ops (new_gateway reset 0)) as [[answers r] g'] eqn:E. injection H as -> -> Es.
    exists g'. split; [reflexivity|].
    destruct (gateway_lives test_ops (new_gateway reset 0) _ _ g' (new_gateway_inv _ _) E) as [H _]. by rewrite Es in H.
  - assert (fst (run_ops [OShutdown; OStart] (new_gateway reset 0)) = ([true], Panic)) as H by (vm_compute; reflexivity).
    destruct (run_ops [OShutdown; OStart] (new_gateway reset 0)) as [[answers r] g'] eqn:E. injection H as -> ->.
    exists g'. split; [reflexivity|].
    destruct (gateway_lives _ (new_gateway reset 0) _ _ g' (new_gateway_inv _ _) E) as (_&_&o&[= <-]&Ho). exact Ho.
  - assert (fst (run_ops (test_ops ++ [OShutdown; OReinitialize; OShutdown]) (new_gateway reset 0)) =
      ([false; true; true; false; false; true; true; true; true; true; true], OutOfFuel)) as H by (vm_compute; reflexivity).
    destruct (run_ops (test_ops ++ _) (new_gateway reset 0)) as [[answers r] g'] eqn:E. injection H as -> ->.
    exists g'. split; [reflexivity|].
    destruct (gateway_lives _ (new_gateway reset 0) _ _ g' (new_gateway_inv _ _) E) as (_&_&o&[= <-]&Ho). exact Ho.
Defined.
Lemma gateway_serves_witness :
  ∃ g g', New default_config reset 0 = Ok g ∧ Start g = (Ok tt, g') ∧ @BackendLaws (gateway_backend g') ∧
    reply_text g' = Some (bs "250 2.0.0 OK: queued as q1").
Proof.
  assert (match New default_config reset 0 with Ok g => reply_text (snd (Start g)) | _ => None end
    = Some (bs "250 2.0.0 OK: queued as q1")) as H by (vm_compute; reflexivity).
  destruct (New default_config reset 0) as [g| | |] eqn:E; [|discriminate H..].
  destruct (gateway_serves default_config reset 0 g builtin_mannered E) as (g' & Hs & _ & _ & Hl).
  rewrite Hs in H. exists g, g'. split; [reflexivity|]. split; [exact Hs|]. split; [exact Hl|exact H].
Defined.

(** When a processor fails to shut down, the gateway still says that it is running, but
    its workers are gone: the next message is never answered, and the next call of
    Shutdown waits for ever. *)
Example failed_shutdown_strands :
  ∃ g, @run_ops _ stubborn_plugins [OInitialize stubborn_config; OStart; OShutdown] (new_gateway reset 0)
      = ([true; true; false], Ok tt, g) ∧
    State g = BackendStateRunning ∧ snd (Process g 0 test_mail) = true ∧
    fst (@run_op _ stubborn_plugins OShutdown g) = OutOfFuel.
Proof. eexists. split; [vm_compute; reflexivity|]. split_and!; vm_compute; reflexivity. Qed.
