(* ===== verification/Answers.v ===== *)
(** * From the client to the processors and back: handleClient of src/server.go over the gateway of src/backends/gateway.go

    The session of Server.v and the gateway of Gateway.v together: what a client is told about a message that it sent. *)
From S2P Require Import Prelude GoStd Response Rfc5321 Shared Envelope Config Tenant Reader Auth Processor Gateway Backend Client Server Session.

(** ** Notions used by the statements *)

(** What follows a message in the trace: its reply and what comes then; or a first part of the reply, after
    which the client is sent nothing more. *)
Definition reply_bytes (r : Result) : bytes := result_String r ++ [CR; LF].
Definition replied (r : Result) (tr : list event) : Prop := ∃ chunks rest, tr = map Sent chunks ++ rest ∧ concat chunks = reply_bytes r.
Definition cut_off (r : Result) (tr : list event) : Prop := ∃ chunks, tr = map Sent chunks ∧ concat chunks `prefix_of` reply_bytes r.
Definition answers (P : nat → Envelope → outcome unit Result) (tr : list event) : Prop :=
  ∀ i t e a, tr !! i = Some (Delivered t e a) →
    drop (S i) tr = [] ∨ ∃ r, P t e = Ok r ∧ (replied r (drop (S i) tr) ∨ cut_off r (drop (S i) tr)).
(** Every message has its whole reply. *)
Definition all_replied (P : nat → Envelope → outcome unit Result) (tr : list event) : Prop :=
  ∀ i t e a, tr !! i = Some (Delivered t e a) → ∃ r, P t e = Ok r ∧ replied r (drop (S i) tr).
(** No message was given to the backend between two states. *)
Definition no_delivery (s s' : session) : Prop := ∃ out, trace s' = trace s ++ out ∧ ∀ t e a, Delivered t e a ∉ out.

(** A call from a state: [Q] holds when it returns, [R] of the state that an error, a panic or a call that
    does not come back leaves. *)
Definition ends {S E A} (m : M S E A) (Q : A → S → Prop) (R : S → Prop) (s : S) : Prop :=
  match m s with (Ok a, s') => Q a s' | (_, s') => R s' end.
(** [body] is under way since [s0]: a part was sent, and the rest is buffered unless the writer has failed. *)
Definition sent_part (s0 s : session) (body : bytes) : Prop :=
  ∃ chunks, trace s = trace s0 ++ map Sent chunks ∧ concat chunks `prefix_of` body ∧
    (w_err (c s) = false → concat chunks ++ bufout (c s) = body).
Definition half_sent (s0 s : session) (body : bytes) : Prop :=
  ∃ chunks, trace s = trace s0 ++ map Sent chunks ∧ concat chunks `prefix_of` body ∧
    (bufErr (c s) = false → concat chunks ++ bufout (c s) = body).
(** One message was given to the backend, and its reply is under way. *)
Definition delivering (P : nat → Envelope → outcome unit Result) (s s' : session) : Prop :=
  ∃ t e a r s1, trace s1 = trace s ++ [Delivered t e a] ∧ P t e = Ok r ∧ half_sent s1 s' (reply_bytes r).
Definition delivered_last (s s' : session) : Prop := ∃ t e a, trace s' = trace s ++ [Delivered t e a].
(** Nothing was sent, buffered or delivered. *)
Definition quiet (s s' : session) : Prop :=
  trace s' = trace s ∧ bufErr (c s') = bufErr (c s) ∧ bufout (c s') = bufout (c s).

(** The outcome of processing, without the envelope. *)
Definition reply_of `{Backend} (t : nat) (e : Envelope) : outcome unit Result := fst (Process t e).

(** A gateway whose state may change between the calls of a session. *)
Definition gateways `{Scheduling} `{Durations} (g_at : nat → BackendGateway) : Backend := {|
  Backend.ValidateRcpt t e := @Backend.ValidateRcpt (gateway_backend (g_at t)) t e;
  Backend.Process t e := @Backend.Process (gateway_backend (g_at t)) t e
|}.

(** * Proofs *)
#[local] Instance no_delivery_pre : PreOrder no_delivery.
Proof.
  split.
  - intros s. exists []. split; [by rewrite app_nil_r|]. by intros ? ? ? ?%elem_of_nil.
  - intros s1 s2 s3 (o1&E1&H1) (o2&E2&H2). exists (o1 ++ o2). split; [by rewrite E2, E1, app_assoc|].
    intros t e a [H|H]%elem_of_app; [by eapply H1|by eapply H2].
Qed.
Lemma no_delivery_same s s' : trace s' = trace s → no_delivery s s'.
Proof. intros E. exists []. split; [by rewrite E, app_nil_r|]. by intros ? ? ? ?%elem_of_nil. Qed.

Lemma ends_ret {S E A} (a : A) (Q : A → S → Prop) R s : Q a s → ends (E:=E) (mret a) Q R s.
Proof. done. Qed.
Lemma ends_gets {S E A} (f : S → A) (Q : A → S → Prop) R s : Q (f s) s → ends (E:=E) (gets f) Q R s.
Proof. done. Qed.
Lemma ends_modify {S E} f (Q : unit → S → Prop) R s : Q tt (f s) → ends (E:=E) (modify f) Q R s.
Proof. done. Qed.
Lemma ends_bind {S E A B} (m : M S E A) (k : A → M S E B) Q R s :
  ends m (λ a s', ends (k a) Q R s') R s → ends (m ≫= k) Q R s.
Proof. unfold ends, mbind, M_bind. by destruct (m s) as [[] ?]. Qed.
Lemma ends_mono {S E A} (m : M S E A) (Q Q' : A → S → Prop) (R R' : S → Prop) s :
  ends m Q R s → (∀ a s', Q a s' → Q' a s') → (∀ s', R s' → R' s') → ends m Q' R' s.
Proof. unfold ends. destruct (m s) as [[] ?]; naive_solver. Qed.
Lemma ends_preserves {S E A} (m : M S E A) Rel (Q : A → S → Prop) (R : S → Prop) s : preserves Rel m →
  (∀ a s', Rel s s' → Q a s') → (∀ s', Rel s s' → R s') → ends m Q R s.
Proof. intros H HQ HR. specialize (H s). unfold ends. destruct (m s) as [[] ?]; cbn in H; auto. Qed.

Section Quiet.
Context {U : Unicode} {W : World} {B : Backend} {Sv : Server}.

Lemma nd_upd f : preserves no_delivery (upd f).
Proof. intros s. by apply no_delivery_same. Qed.
Lemma nd_upd_env f : preserves no_delivery (upd_env f).
Proof. intros s. by apply no_delivery_same. Qed.
Lemma nd_clock : preserves no_delivery Client.clock.
Proof. intros s. by apply no_delivery_same. Qed.
Lemma nd_get : preserves no_delivery (get : Ses session).
Proof. intros s. by apply no_delivery_same. Qed.
Lemma nd_cl {A} (f : client → A) : preserves no_delivery (cl f).
Proof. intros s. by apply no_delivery_same. Qed.
Lemma nd_emit ev : (∀ t e a, ev ≠ Delivered t e a) → preserves no_delivery (emit ev).
Proof. intros Hev s. exists [ev]. split; [done|]. intros t e a H%list_elem_of_singleton. by apply (Hev t e a). Qed.
Lemma nd_parse {A} (m : P A) : preserves no_delivery (parse m).
Proof. intros s. unfold parse. destruct (m (parser (c s))) as [[] q]; by apply no_delivery_same. Qed.
Lemma nd_advertise b : preserves no_delivery (set_advertiseTLS b).
Proof. intros s. by apply no_delivery_same. Qed.
#[local] Hint Resolve nd_upd nd_upd_env nd_clock nd_get nd_cl nd_parse nd_advertise : preserves.
#[local] Hint Extern 1 (preserves _ (emit _)) => (by apply nd_emit) : preserves.
Lemma nd_Flush : preserves no_delivery w_Flush.
Proof. unfold w_Flush. preserved. Qed.
#[local] Hint Resolve nd_Flush : preserves.
Lemma nd_WriteString s : preserves no_delivery (w_WriteString s).
Proof. unfold w_WriteString. generalize (length s + 2). intros fuel. revert s. induction fuel as [|fuel IH]; intros s; cbn [w_WriteString_loop]; preserved. Qed.
#[local] Hint Resolve nd_WriteString : preserves.
Lemma nd_items r : preserves no_delivery (write_items r).
Proof. induction r; cbn [write_items]; preserved. Qed.
#[local] Hint Resolve nd_items : preserves.
Lemma nd_sendResponse r : preserves no_delivery (sendResponse r).
Proof. unfold sendResponse. preserved. Qed.
Lemma nd_flushResponse : preserves no_delivery flushResponse.
Proof. unfold flushResponse, setTimeout. preserved. Qed.
Lemma nd_readCommand : preserves no_delivery readCommand.
Proof. unfold readCommand. preserved. Qed.
Lemma nd_slice_from n l : preserves no_delivery (slice_from n l).
Proof. unfold slice_from. preserved. Qed.
Lemma nd_upgradeToTLS : preserves no_delivery upgradeToTLS.
Proof. unfold upgradeToTLS. preserved. Qed.
#[local] Hint Resolve nd_sendResponse nd_flushResponse nd_readCommand nd_slice_from nd_upgradeToTLS : preserves.
Lemma nd_prompt q : preserves no_delivery (prompt q).
Proof. unfold prompt, kill. preserved. Qed.
#[local] Hint Resolve nd_prompt : preserves.
Lemma nd_AUTH input : preserves no_delivery (do_AUTH input).
Proof. unfold do_AUTH, auth_credentials, auth_plain, auth_login, ask, authenticator. preserved. Qed.
Lemma nd_parsePath i p : preserves no_delivery (parsePath i p).
Proof. unfold parsePath. preserved. Qed.
#[local] Hint Resolve nd_AUTH nd_parsePath : preserves.
Lemma nd_command input : preserves no_delivery (command input).
Proof.
  unfold command, do_HELO, do_EHLO, do_HELP, do_XCLIENT, do_MAIL, do_RCPT, do_DATA, do_unknown, resetTransaction, kill, defaultHost, authenticator.
  preserved.
Qed.
#[local] Hint Resolve nd_command : preserves.
Lemma nd_state_Cmd : preserves no_delivery state_Cmd.
Proof. unfold state_Cmd, kill, isShuttingDown. preserved. Qed.
Lemma nd_state_StartTLS : preserves no_delivery state_StartTLS.
Proof. unfold state_StartTLS, kill, resetTransaction. preserved. Qed.
Lemma nd_prologue : preserves no_delivery prologue.
Proof. unfold prologue, kill. preserved. Qed.
End Quiet.

(** ** A reply on its way *)
Section Replying.
Context {W : World}.

Lemma sent_part_fails s0 s body x : w_err (c s) = true → sent_part s0 s body → sent_part s0 s (body ++ x).
Proof.
  intros Hw (ch & Ht & Hp & _). exists ch. split; [done|]. split; [by apply prefix_app_r|]. by rewrite Hw.
Qed.
Lemma sent_part_buffer s0 s body x : w_err (c s) = false → sent_part s0 s body →
  sent_part s0 (mkSession (set_out (bufErr (c s)) (bufout (c s) ++ x) false (c s)) (trace s) (now s) (advertiseTLS s)) (body ++ x).
Proof.
  intros Hw (ch & Ht & Hp & He). exists ch. split; [done|]. split; [by apply prefix_app_r|]. intros _. cbn.
  by rewrite app_assoc, He.
Qed.
Lemma w_Flush_sends s0 s body : sent_part s0 s body →
  ends w_Flush (λ ok s', sent_part s0 s' body ∧ (ok = true → w_err (c s') = false ∧ bufout (c s') = [])) (λ _, False) s.
Proof.
  intros (ch & Ht & Hp & He). unfold w_Flush. apply ends_bind, ends_gets. unfold id.
  destruct (w_err (c s)) eqn:Ew; [by apply ends_ret; split; [exists ch; rewrite Ew|]|].
  destruct (bufout (c s)) as [|b bs] eqn:Eb.
  { apply ends_ret. split; [|by rewrite Ew, Eb]. exists ch. split; [done|]. split; [done|]. intros _. rewrite Eb. by apply He. }
  unfold ends, mbind, M_bind. cbn. destruct (write_ok (now s)); cbn.
  - split; [|done]. exists (ch ++ [b :: bs]). cbn. rewrite map_app, Ht, <- app_assoc. split; [done|].
    rewrite concat_app. cbn. rewrite app_nil_r, (He eq_refl). split; [done|]. intros _. by rewrite app_nil_r.
  - split; [|done]. by exists ch.
Qed.
Lemma w_WriteString_loop_sends fuel : ∀ x s0 s body, sent_part s0 s body →
  ends (w_WriteString_loop fuel x) (λ ok s', sent_part s0 s' (body ++ x) ∧ (ok = true → w_err (c s') = false)) (λ _, True) s.
Proof.
  induction fuel as [|fuel IH]; intros x s0 s body H; cbn [w_WriteString_loop]; [done|].
  apply ends_bind, ends_gets. unfold id. cbv beta zeta. destruct (w_err (c s)) eqn:Ew.
  { rewrite andb_false_r. apply ends_ret. split; [by apply sent_part_fails|done]. }
  destruct (_ <? length x); cbn [andb negb].
  - set (n := w_size - length (bufout (c s))). apply ends_bind, ends_modify, ends_bind.
    eapply ends_mono; [apply w_Flush_sends, (sent_part_buffer _ _ _ (take n x) Ew H)| |done].
    cbn. intros _ s1 [H1 _]. eapply ends_mono; [by apply IH| |done]. cbn. intros ok s2. by rewrite <- app_assoc, take_drop.
  - apply ends_bind, ends_modify, ends_ret. split; [by apply sent_part_buffer|done].
Qed.
Lemma w_WriteString_sends x s0 s body : sent_part s0 s body →
  ends (w_WriteString x) (λ ok s', sent_part s0 s' (body ++ x) ∧ (ok = true → w_err (c s') = false)) (λ _, False) s.
Proof.
  intros H. pose proof (w_WriteString_loop_sends (length x + 2) x s0 s body H) as H1.
  pose proof (calmly_w_WriteString x s) as H2. unfold wp, ends, w_WriteString in *. by destruct (w_WriteString_loop _ _ _) as [[] ?].
Qed.
(** A reply of one text: it is buffered, after the part of it that has filled the buffer. *)
Lemma sendResponse_sends out s : ends (sendResponse [out]) (λ _ s', half_sent s s' (out ++ [CR; LF])) (λ _, False) s.
Proof.
  unfold sendResponse. apply ends_bind, ends_modify.
  set (s1 := mkSession _ _ _ _). assert (sent_part s s1 []) as H1 by (exists []; cbn; by rewrite app_nil_r).
  apply ends_bind. cbn [write_items]. apply ends_bind.
  eapply ends_mono; [by apply w_WriteString_sends| |done]. cbv beta. intros ok s2 [H2 Hok]. rewrite app_nil_l in H2.
  assert (∀ b s', (∃ body, sent_part s s' body ∧ body `prefix_of` out ++ [CR; LF]) →
      (b = true → sent_part s s' (out ++ [CR; LF]) ∧ w_err (c s') = false) →
    ends (upd (λ x, set_out (negb b) (bufout x) (w_err x) x)) (λ _ s', half_sent s s' (out ++ [CR; LF])) (λ _, False) s') as Hend.
  { intros b s' (body & (ch & Ht & Hp & _) & Hb) Hok'. destruct b; cbn.
    - destruct (Hok' eq_refl) as [(ch' & Ht' & Hp' & He') Hw']. exists ch'. cbn. split_and!; [done|done|]. intros _. by apply He'.
    - exists ch. cbn. split_and!; [done|by etrans|done]. }
  destruct ok; cbv iota; cbn [write_items]; apply ends_ret; cbv iota.
  - apply ends_bind. eapply ends_mono; [by apply w_WriteString_sends| |done]. cbv beta. intros ok' s3 [H3 Hok']. apply Hend; [by exists (out ++ [CR; LF])|auto].
  - apply ends_bind, ends_ret, Hend; [|done]. exists out. split; [done|by apply prefix_app_r].
Qed.
End Replying.

(** ** Traces *)
Section Traces.
Context (P : nat → Envelope → outcome unit Result).

Lemma delivered_lookup tr t e a ch i t' e' a' :
  (tr ++ Delivered t e a :: map Sent ch) !! i = Some (Delivered t' e' a') →
  (tr !! i = Some (Delivered t' e' a') ∧
     drop (S i) (tr ++ Delivered t e a :: map Sent ch) = drop (S i) tr ++ Delivered t e a :: map Sent ch) ∨
  (t' = t ∧ e' = e ∧ a' = a ∧ drop (S i) (tr ++ Delivered t e a :: map Sent ch) = map Sent ch).
Proof.
  destruct (decide (i < length tr)) as [Hi|Hi].
  - rewrite lookup_app_l by done. intros H. left. split; [done|]. by rewrite drop_app_le by lia.
  - rewrite lookup_app_r by lia. destruct (i - length tr) as [|k] eqn:Ek; cbn.
    + intros [= -> -> ->]. right. rewrite drop_app_ge by lia. by replace (S i - length tr) with 1 by lia.
    + intros H. apply (list_elem_of_lookup_2 (map Sent ch) k), list_elem_of_In, in_map_iff in H. by destruct H as (? & ? & _).
Qed.
Lemma replied_more r tr out : replied r tr → replied r (tr ++ out).
Proof. intros (ch & rest & -> & E). exists ch, (rest ++ out). by rewrite app_assoc. Qed.
Lemma all_replied_after tr t e a r ch : all_replied P tr → P t e = Ok r → concat ch = reply_bytes r →
  all_replied P (tr ++ Delivered t e a :: map Sent ch).
Proof.
  intros Ha Hr Hc i t' e' a' [[H Hd]|(-> & -> & -> & Hd)]%delivered_lookup; rewrite Hd.
  - destruct (Ha _ _ _ _ H) as (r' & ? & ?). exists r'. split; [done|by apply replied_more].
  - exists r. split; [done|]. exists ch, []. by rewrite app_nil_r.
Qed.
Lemma answers_after tr t e a ch : all_replied P tr →
  ch = [] ∨ (∃ r, P t e = Ok r ∧ concat ch `prefix_of` reply_bytes r) → answers P (tr ++ Delivered t e a :: map Sent ch).
Proof.
  intros Ha Hc i t' e' a' [[H Hd]|(-> & -> & -> & Hd)]%delivered_lookup; rewrite Hd.
  - destruct (Ha _ _ _ _ H) as (r' & ? & ?). right. exists r'. split; [done|]. left. by apply replied_more.
  - destruct Hc as [->|(r & Hr & Hp)]; [by left|right]. exists r. split; [done|]. right. by exists ch.
Qed.
Lemma all_replied_answers tr : all_replied P tr → answers P tr.
Proof. intros H i t e a (r & ? & ?)%H. right. eauto. Qed.
Lemma all_replied_quiet s s' : all_replied P (trace s) → no_delivery s s' → all_replied P (trace s').
Proof.
  intros Ha (out & -> & Ho) i t e a Hi. destruct (decide (i < length (trace s))) as [Hl|Hl].
  - rewrite lookup_app_l in Hi by done. destruct (Ha _ _ _ _ Hi) as (r & ? & ?). exists r. split; [done|].
    rewrite drop_app_le by lia. by apply replied_more.
  - rewrite lookup_app_r in Hi by lia. apply list_elem_of_lookup_2 in Hi. by destruct (Ho t e a).
Qed.
Lemma delivering_answers s s' : all_replied P (trace s) → delivering P s s' → answers P (trace s').
Proof.
  intros Ha (t & e & a & r & s1 & E & Hr & ch & Ht & Hp & _). rewrite Ht, E, <- app_assoc.
  apply answers_after; [done|]. right. eauto.
Qed.
Lemma last_answers s s' : all_replied P (trace s) → delivered_last s s' → answers P (trace s').
Proof. intros Ha (t & e & a & E). rewrite E. apply (answers_after _ t e a []); [done|by left]. Qed.
End Traces.

(** ** The loop *)
Section Loop.
Context {U : Unicode} {W : World} {B : Backend} {Sv : Server}.

Lemma quiet_half s0 s s' body : half_sent s0 s body → quiet s s' → half_sent s0 s' body.
Proof. intros (ch & Ht & Hp & He) (E1 & E2 & E3). exists ch. by rewrite E1, E2, E3. Qed.

Lemma deliver_ends s0 s : trace s = trace s0 →
  ends deliver (λ _ s', delivering reply_of s0 s') (delivered_last s0) s.
Proof.
  intros Et. unfold deliver. apply ends_bind, ends_gets, ends_bind. unfold id.
  apply (ends_mono _ (λ _ s1, trace s1 = trace s0) _ (λ s1, False)); [by destruct (Authed (c s))| |done].
  intros _ s1 E1. apply ends_bind, ends_gets, ends_bind. unfold ends at 1, Client.clock.
  apply ends_bind, ends_modify. cbn [c trace now advertiseTLS].
  set (s2 := mkSession (c s1) _ _ _). assert (delivered_last s0 s2) as H2 by (do 3 eexists; cbn; by rewrite E1).
  destruct (Process (now s1) (c_env (c s1))) as [r e'] eqn:Ep. destruct r as [r|[]| |]; [|done..].
  apply ends_bind, ends_modify, ends_bind.
  set (s3 := mkSession _ _ _ _).
  apply (ends_mono _ (λ _ s4, trace s4 = trace s2) _ (λ s4, False)); [by destruct (_ <? _)%Z| |done].
  intros _ s4 E4. apply ends_bind. eapply ends_mono; [apply sendResponse_sends| |done].
  cbv beta. intros _ s5 H5.
  assert (delivering reply_of s0 s5) as Hd.
  { exists (now s1), (c_env (c s1)), (Authed (c s)), r, s4. split; [rewrite E4; cbn; by rewrite E1|].
    split; [unfold reply_of; by rewrite Ep|done]. }
  clear -Hd. destruct Hd as (t & e & a & r & s4 & E & Hr & Hd).
  apply (ends_mono _ (λ _ s', quiet s5 s') _ (λ _, False)).
  - unfold isShuttingDown, resetTransaction. apply ends_bind, ends_modify, ends_bind, ends_bind. unfold ends at 1, Client.clock.
    apply ends_ret, ends_bind. by destruct (shutting_down_at _).
  - intros _ s6 Hq. exists t, e, a, r, s4. split; [done|]. split; [done|]. by eapply quiet_half.
  - done.
Qed.
Lemma state_Data_ends s :
  ends state_Data (λ flush s', flush = true ∧ (no_delivery s s' ∨ delivering reply_of s s'))
    (λ s', no_delivery s s' ∨ delivered_last s s') s.
Proof.
  unfold state_Data. apply ends_bind, ends_modify, ends_bind, ends_gets. unfold id.
  destruct (ReadDot _) as [[[d err] r]| | |]; [|by left; apply no_delivery_same..].
  apply ends_bind, ends_modify, ends_bind, ends_modify, ends_bind.
  set (s1 := mkSession _ _ _ _). assert (∀ r, ends (sendResponse r;; kill;; resetTransaction)
    (λ _ s', no_delivery s s') (no_delivery s) s1) as Hk.
  { intros l. eapply (ends_preserves _ no_delivery).
    - unfold kill, resetTransaction. preserved; auto using nd_sendResponse, nd_upd, nd_upd_env.
    - intros _ s' H. etrans; [by apply (no_delivery_same s s1)|done].
    - intros s' H. etrans; [by apply (no_delivery_same s s1)|done]. }
  destruct (_ <? _)%Z; [|destruct err as [[]|]];
    try (eapply ends_mono; [apply Hk| |]; cbv beta; [intros _ s' H; apply ends_ret|]; by auto).
  eapply ends_mono; [by apply (deliver_ends s)| |]; cbv beta; [intros _ s' H; apply ends_ret|]; by auto.
Qed.
(** A reply that was buffered whole is sent whole, or the session ends. *)
Lemma flush_ends s0 s : all_replied reply_of (trace s0) → delivering reply_of s0 s → bufErr (c s) = false →
  ends (match bufout (c s) with
        | [] => mret tt
        | _ => ok ← flushResponse; if (ok : bool) then mret tt else fail WriteError
        end) (λ _ s', all_replied reply_of (trace s')) (λ s', answers reply_of (trace s')) s.
Proof.
  intros Ha Hd Hb. pose proof (delivering_answers _ _ _ Ha Hd) as Hans.
  destruct Hd as (t & e & a & r & s1 & E & Hr & ch & Ht & Hp & He). specialize (He Hb).
  destruct (bufout (c s)) as [|b out] eqn:Eo.
  { apply ends_ret. rewrite Ht, E, <- app_assoc. apply (all_replied_after _ _ _ _ _ r); [done..|]. by rewrite app_nil_r in He. }
  apply ends_bind. unfold flushResponse, setTimeout. apply ends_bind, ends_bind. unfold ends at 1, Client.clock. apply ends_ret.
  destruct (deadline_ok _); [|done].
  unfold w_Flush. apply ends_bind, ends_gets. unfold id. cbn [c]. destruct (w_err (c s)); [done|]. rewrite Eo.
  apply ends_bind. unfold ends at 1, Client.clock. destruct (write_ok _); [|done].
  apply ends_bind, ends_modify, ends_bind, ends_modify, ends_ret, ends_ret. cbn [trace].
  rewrite Ht, E, <- !app_assoc. change ([Sent (b :: out)]) with (map Sent [b :: out]). cbn [app].
  rewrite <- map_app. apply (all_replied_after _ _ _ _ _ r); [done..|]. rewrite concat_app. cbn. by rewrite app_nil_r.
Qed.
Lemma turn_ends s : all_replied reply_of (trace s) →
  ends turn (λ _ s', all_replied reply_of (trace s')) (λ s', answers reply_of (trace s')) s.
Proof.
  intros Ha. unfold turn. apply ends_bind, ends_gets, ends_bind. unfold id.
  apply (ends_mono _ (λ flush s', no_delivery s s' ∨ (flush = true ∧ delivering reply_of s s')) _
    (λ s', no_delivery s s' ∨ delivered_last s s')).
  - destruct (state (c s)) eqn:Es; [..|].
    3: { eapply ends_mono; [apply state_Data_ends| |]; cbv beta; naive_solver. }
    all: apply (ends_preserves _ no_delivery); [|by auto..].
    + unfold greeting. preserved; auto using nd_sendResponse, nd_upd, nd_cl.
    + apply nd_state_Cmd.
    + apply nd_state_StartTLS.
    + unfold kill. preserved; auto using nd_sendResponse, nd_upd.
  - intros flush s1 [H1|[-> H1]].
    + apply (ends_preserves _ no_delivery).
      * preserved; auto using nd_flushResponse, nd_cl.
      * intros _ s2 H2. eapply all_replied_quiet; [done|by etrans].
      * intros s2 H2. apply all_replied_answers. eapply all_replied_quiet; [done|by etrans].
    + apply ends_bind, ends_gets. unfold id.
      destruct (bufErr (c s1)) eqn:Eb; [by eapply delivering_answers|by eapply flush_ends].
  - intros s1 [H1|H1]; [|by eapply last_answers]. apply all_replied_answers. by eapply all_replied_quiet.
Qed.
Lemma turns_end fuel : ∀ s, all_replied reply_of (trace s) →
  ends (turns fuel) (λ _ s', all_replied reply_of (trace s')) (λ s', answers reply_of (trace s')) s.
Proof.
  induction fuel as [|fuel IH]; intros s Ha; cbn [turns]; apply ends_bind, ends_gets; unfold id;
    (destruct (isAlive (c s)); [|by apply ends_ret]); [by apply all_replied_answers|].
  apply ends_bind. eapply ends_mono; [by apply turn_ends|by auto|done].
Qed.
Lemma handleClient_answers fuel s : trace s = [] → answers reply_of (trace (handleClient fuel s).2).
Proof.
  intros Hs. assert (all_replied reply_of (trace s)) as Ha by (intros i t e a; by rewrite Hs).
  assert (ends (handleClient fuel) (λ _ s', all_replied reply_of (trace s')) (λ s', answers reply_of (trace s')) s) as H.
  { unfold handleClient. apply ends_bind, (ends_preserves _ no_delivery _ _ _ nd_prologue).
    - intros _ s' H. by apply turns_end, (all_replied_quiet _ s).
    - intros s' H. by apply all_replied_answers, (all_replied_quiet _ s). }
  unfold ends in H. destruct (handleClient fuel s) as [[u|e| |] s']; [|done..]. by apply all_replied_answers.
Qed.
End Loop.

(** ** The gateway behind the session *)
Section Acknowledged.
Context {U : Unicode} {W : World} {Sv : Server} {Sch : Scheduling} {Du : Durations}.

(** C3. No false acknowledgement, from the worker of the gateway to the socket of the client. What a client
    is sent after a message that was given to the backend begins with the reply to that message and with
    nothing else: the whole of it, or a first part with which the session ends, or nothing, when the session
    ends at once. And a reply with a code below 300 says what has happened: the gateway was running, and the
    processor of one of its workers was given this very envelope and accepted it within the time. This
    holds of every session, whatever the client sends, whichever writes fail, and however the gateway is
    started and stopped meanwhile. *)
Theorem no_false_acknowledgement (g_at : nat → BackendGateway) fuel s i t e a :
  let tr := trace (@handleClient U W (gateways g_at) Sv fuel s).2 in
  trace s = [] → tr !! i = Some (Delivered t e a) →
  drop (S i) tr = [] ∨
  ∃ r, @reply_of (gateways g_at) t e = Ok r ∧ (replied r (drop (S i) tr) ∨ cut_off r (drop (S i) tr)) ∧
    ((Code r < 300)%Z → State (g_at t) = BackendStateRunning ∧ accepted (g_at t) t e r).
Proof.
  cbv zeta. intros Hs Hi.
  destruct (@handleClient_answers U W (gateways g_at) Sv fuel s Hs i t e a Hi) as [H|(r & Hr & H)]; [by left|right].
  exists r. split; [done|]. split; [done|]. intros Hc. unfold reply_of in Hr. cbn in Hr.
  destruct (Gateway.Process (g_at t) t e) as [[r' e'] stuck] eqn:Ep. destruct stuck; [done|]. cbn in Hr. subst r'.
  by eapply failed_work_is_reported.
Qed.
End Acknowledged.

(** ** Concrete sessions *)
#[local] Existing Instances ascii_only test_scheduling test_plugins.
#[local] Instance no_durations : Durations := λ _, None.

(** The gateway of the default configuration, started. *)
Lemma no_false_acknowledgement_witness :
  ∃ g, run_ops [OInitialize default_config; OStart] (new_gateway reset 0) = ([true; true], Ok (), g) ∧
  let tr := trace (@handleClient _ test_world (gateways (λ _, g)) (test_server (Some reject_all) false) 40 (test_session relay_script)).2 in
  ∃ t e r, tr !! 7 = Some (Delivered t e false) ∧ (replied r (drop 8 tr) ∨ cut_off r (drop 8 tr)) ∧
    Code r = 250%Z ∧ accepted g t e r.
Proof.
  assert ((λ x, let g := x.2 in let tr := trace (@handleClient _ test_world (gateways (λ _, g)) (test_server (Some reject_all) false) 40
        (test_session relay_script)).2 in
      (x.1, match tr !! 7 with
       | Some (Delivered t e a) => Some (a, match @reply_of (gateways (λ _, g)) t e with Ok r => Some (Code r) | _ => None end)
       | _ => None
       end, length tr)) (run_ops [OInitialize default_config; OStart] (new_gateway reset 0)) =
    (([true; true], Ok ()), Some (false, Some 250%Z), 10)) as H by (vm_compute; reflexivity).
  destruct (run_ops [OInitialize default_config; OStart] (new_gateway reset 0)) as [x g].
  exists g. cbv zeta in H |- *. cbn [fst snd] in H. apply pair_equal_spec in H as [H Hl].
  apply pair_equal_spec in H as [-> H]. split; [reflexivity|].
  pose proof (@no_false_acknowledgement _ test_world (test_server (Some reject_all) false) _ _ (λ _, g) 40 (test_session relay_script) 7) as Hn.
  cbv zeta in Hn. set (tr := trace _) in *. clearbody tr.
  destruct (tr !! 7) as [ev|] eqn:E7; [|discriminate H]. destruct ev as [| | | |t e a]; try discriminate H.
  specialize (Hn t e a eq_refl eq_refl). destruct Hn as [Hn|(r & Hr & Hd & Ha)].
  { apply (f_equal length) in Hn. rewrite length_drop, Hl in Hn. discriminate Hn. }
  rewrite Hr in H. injection H as -> Hc. exists t, e, r. split; [reflexivity|]. split; [exact Hd|]. split; [exact Hc|].
  apply Ha. rewrite Hc. reflexivity.
Defined.
