(* ===== verification/Conveyor.v ===== *)
(** * Several messages on the conveyor: the goroutines of backends/gateway.go

    Gateway.v follows one message. Here sessions, workers and the goroutines that go on waiting after a timeout run
    in any order; each operation on a channel, on the lock of an envelope or on the pool of
    messages is one step. A [workerMsg] is an object of a heap, with fields that are written again when
    it is used again. *)
From S2P Require Import Prelude GoStd Shared Envelope Backend Processor Gateway.

(** A call of Process or ValidateRcpt: for which envelope, of which client. It is also what a message is about. *)
Record call := mkCall { c_env : nat; c_client : nat; c_task : SelectTask }.
(** The session of an envelope: between two calls, or in one of them; [m] is its message. *)
Inductive session_pc : Type := s_idle | s_sending (m : nat) | s_waiting (m : nat) | s_locking (m : nat).
Record session := mkSession { s_client : nat; s_task : SelectTask; s_pc : session_pc }.
(** A worker has read the fields of its message when it began. *)
Inductive worker : Type := w_idle | w_working (m : nat) (x : call) | w_notifying (m : nat) (x : call) (st : notifyMsg) | w_stopped.
(** The goroutine of a call that timed out; [e] is the envelope it has locked. *)
Inductive waiter : Type := wt_waiting (m e : nat) | wt_unlocking (m e : nat) | wt_putting (m : nat) | wt_gone.
(** What a call returned: the answer to a message, or that it timed out. *)
Record reply := mkReply { r_call : call; r_answer : option (call * notifyMsg) }.

Record conv := mkConv {
  k_size : nat;
  k_running : bool;
  k_sessions : list session;
  k_workers : list worker;
  k_waiters : list waiter;
  k_conveyor : list nat;
  k_pool : list nat;
  k_msgs : list call;
  k_locked : gset nat;
  k_made : list call;
  k_worked : list call;
  k_replies : list reply
}.
#[export] Instance SelectTask_eq_dec : EqDecision SelectTask.
Proof. solve_decision. Defined.
#[export] Instance session_pc_eq_dec : EqDecision session_pc.
Proof. solve_decision. Defined.

Definition with_session (e : nat) (x : session) (s : conv) : conv :=
  mkConv (k_size s) (k_running s) (<[e := x]> (k_sessions s)) (k_workers s) (k_waiters s) (k_conveyor s) (k_pool s) (k_msgs s)
    (k_locked s) (k_made s) (k_worked s) (k_replies s).
Definition with_pc (e : nat) (x : session) (p : session_pc) (s : conv) : conv :=
  with_session e (mkSession (s_client x) (s_task x) p) s.
Definition with_worker (i : nat) (x : worker) (s : conv) : conv :=
  mkConv (k_size s) (k_running s) (k_sessions s) (<[i := x]> (k_workers s)) (k_waiters s) (k_conveyor s) (k_pool s) (k_msgs s)
    (k_locked s) (k_made s) (k_worked s) (k_replies s).
Definition with_waiters (l : list waiter) (s : conv) : conv :=
  mkConv (k_size s) (k_running s) (k_sessions s) (k_workers s) l (k_conveyor s) (k_pool s) (k_msgs s)
    (k_locked s) (k_made s) (k_worked s) (k_replies s).
Definition with_conveyor (l : list nat) (s : conv) : conv :=
  mkConv (k_size s) (k_running s) (k_sessions s) (k_workers s) (k_waiters s) l (k_pool s) (k_msgs s)
    (k_locked s) (k_made s) (k_worked s) (k_replies s).
Definition with_pool (l : list nat) (s : conv) : conv :=
  mkConv (k_size s) (k_running s) (k_sessions s) (k_workers s) (k_waiters s) (k_conveyor s) l (k_msgs s)
    (k_locked s) (k_made s) (k_worked s) (k_replies s).
Definition with_msgs (l : list call) (s : conv) : conv :=
  mkConv (k_size s) (k_running s) (k_sessions s) (k_workers s) (k_waiters s) (k_conveyor s) (k_pool s) l
    (k_locked s) (k_made s) (k_worked s) (k_replies s).
Definition with_locked (l : gset nat) (s : conv) : conv :=
  mkConv (k_size s) (k_running s) (k_sessions s) (k_workers s) (k_waiters s) (k_conveyor s) (k_pool s) (k_msgs s)
    l (k_made s) (k_worked s) (k_replies s).
Definition with_running (b : bool) (s : conv) : conv :=
  mkConv (k_size s) b (k_sessions s) (k_workers s) (k_waiters s) (k_conveyor s) (k_pool s) (k_msgs s)
    (k_locked s) (k_made s) (k_worked s) (k_replies s).
Definition log_made (x : call) (s : conv) : conv :=
  mkConv (k_size s) (k_running s) (k_sessions s) (k_workers s) (k_waiters s) (k_conveyor s) (k_pool s) (k_msgs s)
    (k_locked s) (k_made s ++ [x]) (k_worked s) (k_replies s).
Definition log_worked (x : call) (s : conv) : conv :=
  mkConv (k_size s) (k_running s) (k_sessions s) (k_workers s) (k_waiters s) (k_conveyor s) (k_pool s) (k_msgs s)
    (k_locked s) (k_made s) (k_worked s ++ [x]) (k_replies s).
Definition log_reply (r : reply) (s : conv) : conv :=
  mkConv (k_size s) (k_running s) (k_sessions s) (k_workers s) (k_waiters s) (k_conveyor s) (k_pool s) (k_msgs s)
    (k_locked s) (k_made s) (k_worked s) (k_replies s ++ [r]).

(** The next step: who takes it, and what it chooses. *)
Inductive choice : Type :=
(* a session: [workerMsgPool.Get] finds any message of the pool, or makes one; the send; the timer; the lock *)
| c_call (e : nat) (task : SelectTask) (from : option nat)
| c_send (e : nat)
| c_timeout (e : nat)
| c_lock (e : nat)
(* the client of an envelope leaves, and the next one gets the envelope *)
| c_next (e client : nat)
(* a worker: it takes a message, the processors return or panic, it notifies the session, or its waiter *)
| c_take (w : nat)
| c_finish (w : nat) (st : notifyMsg)
| c_notify (w e : nat)
| c_notify_late (w i : nat)
(* the goroutine that waits after a timeout *)
| c_unlock (i : nat)
| c_put (i : nat)
(* Shutdown and Start *)
| c_stop (w : nat)
| c_shut
| c_start.

Definition the_call (e : nat) (x : session) : call := mkCall e (s_client x) (s_task x).
(** [workerMsgPool.Get] and [reset]. *)
Definition get_msg (from : option nat) (x : call) (s : conv) : option (nat * conv) :=
  match from with
  | Some i => m ← k_pool s !! i; Some (m, with_msgs (<[m := x]> (k_msgs s)) (with_pool (delete i (k_pool s)) s))
  | None => Some (length (k_msgs s), with_msgs (k_msgs s ++ [x]) s)
  end.

(** One step; [None] is an operation that blocks. *)
Definition advance (ch : choice) (s : conv) : option conv :=
  match ch with
  | c_call e task from =>
      x ← k_sessions s !! e;
      if bool_decide (s_pc x = s_idle) && k_running s then
        let x := mkSession (s_client x) task s_idle in
        '(m, s) ← get_msg from (the_call e x) s;
        Some (log_made (the_call e x) (with_pc e x (s_sending m) s))
      else None
  | c_send e =>
      x ← k_sessions s !! e;
      match s_pc x with
      | s_sending m => if length (k_conveyor s) <? k_size s then Some (with_conveyor (k_conveyor s ++ [m]) (with_pc e x (s_waiting m) s)) else None
      | _ => None
      end
  | c_timeout e =>
      x ← k_sessions s !! e;
      match s_pc x with s_waiting m => Some (with_pc e x (s_locking m) s) | _ => None end
  | c_lock e =>
      x ← k_sessions s !! e;
      match s_pc x with
      | s_locking m =>
          if bool_decide (e ∈ k_locked s) then None
          else Some (log_reply (mkReply (the_call e x) None) (with_waiters (k_waiters s ++ [wt_waiting m e])
                 (with_locked ({[e]} ∪ k_locked s) (with_pc e x s_idle s))))
      | _ => None
      end
  | c_next e client =>
      x ← k_sessions s !! e;
      if bool_decide (s_pc x = s_idle) then Some (with_session e (mkSession client (s_task x) s_idle) s) else None
  | c_take w =>
      x ← k_workers s !! w;
      match x, k_conveyor s with
      | w_idle, m :: rest => y ← k_msgs s !! m; Some (log_worked y (with_conveyor rest (with_worker w (w_working m y) s)))
      | _, _ => None
      end
  | c_finish w st =>
      x ← k_workers s !! w;
      match x with w_working m y => Some (with_worker w (w_notifying m y st) s) | _ => None end
  | c_notify w e =>
      x ← k_workers s !! w;
      y ← k_sessions s !! e;
      match x, s_pc y with
      | w_notifying m z st, s_waiting m' =>
          if m =? m' then
            let s := log_reply (mkReply (the_call e y) (Some (z, st))) (with_pc e y s_idle (with_worker w w_idle s)) in
            Some (match s_task y with TaskValidateRcpt => with_pool (m :: k_pool s) s | TaskSaveMail => s end)
          else None
      | _, _ => None
      end
  | c_notify_late w i =>
      x ← k_workers s !! w;
      y ← k_waiters s !! i;
      match x, y with
      | w_notifying m z st, wt_waiting m' e =>
          if m =? m' then Some (with_waiters (<[i := wt_unlocking m e]> (k_waiters s)) (with_worker w w_idle s)) else None
      | _, _ => None
      end
  | c_unlock i =>
      y ← k_waiters s !! i;
      match y with
      | wt_unlocking m e => Some (with_waiters (<[i := wt_putting m]> (k_waiters s)) (with_locked (k_locked s ∖ {[e]}) s))
      | _ => None
      end
  | c_put i =>
      y ← k_waiters s !! i;
      match y with
      | wt_putting m => Some (with_waiters (<[i := wt_gone]> (k_waiters s)) (with_pool (m :: k_pool s) s))
      | _ => None
      end
  | c_stop w =>
      x ← k_workers s !! w;
      match x with w_idle => Some (with_worker w w_stopped s) | _ => None end
  | c_shut => if forallb (λ w, match w with w_stopped => true | _ => false end) (k_workers s) then Some (with_running false s) else None
  | c_start =>
      if k_running s then None
      else Some (mkConv (k_size s) true (k_sessions s) (replicate (k_size s) w_idle) (k_waiters s) (k_conveyor s)
             (k_pool s) (k_msgs s) (k_locked s) (k_made s) (k_worked s) (k_replies s))
  end.

Inductive step : conv → conv → Prop :=
| step_by ch s s' : advance ch s = Some s' → step s s'.
(** A gateway that has just been started, and the clients of its envelopes. *)
Definition started (size : nat) (clients : list nat) : conv :=
  mkConv size true (map (λ c, mkSession c TaskSaveMail s_idle) clients) (replicate size w_idle) [] [] [] [] ∅ [] [] [].
Definition reachable (size : nat) (clients : list nat) (s : conv) : Prop := rtc step (started size clients) s.
Fixpoint play (l : list choice) (s : conv) : option conv :=
  match l with [] => Some s | ch :: l => s ← advance ch s; play l s end.

(** ** Notions used by the statements *)

Definition one (b : bool) : nat := if b then 1 else 0.
Abbreviation total := (λ f l, sum_list_with f l).
(** A message is with a worker; it is expected by its session or its waiter; it is held by one of them, or by the pool. *)
Definition works_on (m : nat) (w : worker) : nat :=
  match w with w_working m' _ | w_notifying m' _ _ => one (m' =? m) | _ => 0 end.
Definition expects (m : nat) (x : session) : nat :=
  match s_pc x with s_waiting m' | s_locking m' => one (m' =? m) | _ => 0 end.
Definition expects_late (m : nat) (y : waiter) : nat := match y with wt_waiting m' _ => one (m' =? m) | _ => 0 end.
Definition holds (m : nat) (x : session) : nat := match s_pc x with s_sending m' => one (m' =? m) | _ => 0 end.
Definition holds_late (m : nat) (y : waiter) : nat :=
  match y with wt_unlocking m' _ | wt_putting m' => one (m' =? m) | _ => 0 end.
Definition is_msg (m m' : nat) : nat := one (m' =? m).
Definition has_locked (e : nat) (y : waiter) : nat :=
  match y with wt_waiting _ e' | wt_unlocking _ e' => one (e' =? e) | _ => 0 end.
Definition expected (m : nat) (s : conv) : nat := total (expects m) (k_sessions s) + total (expects_late m) (k_waiters s).
Definition taken (m : nat) (s : conv) : nat := total (is_msg m) (k_conveyor s) + total (works_on m) (k_workers s).
Definition held (m : nat) (s : conv) : nat :=
  total (holds m) (k_sessions s) + total (holds_late m) (k_waiters s) + total (is_msg m) (k_pool s).
(** The message of a call, of a worker, of a waiter. *)
Definition session_ok (msgs : list call) (e : nat) (x : session) : Prop :=
  match s_pc x with
  | s_idle => True
  | s_sending m | s_waiting m | s_locking m => msgs !! m = Some (the_call e x)
  end.
Definition worker_ok (msgs : list call) (w : worker) : Prop :=
  match w with w_working m y | w_notifying m y _ => msgs !! m = Some y | _ => True end.
Definition waiter_ok (msgs : list call) (y : waiter) : Prop :=
  match y with wt_waiting m e => c_env <$> msgs !! m = Some e | _ => True end.
Definition sent_call (e : nat) (x : session) : option call := match s_pc x with s_sending _ => Some (the_call e x) | _ => None end.
Definition calls_of (f : nat → session → option call) (s : conv) : list call := omap id (imap f (k_sessions s)).
Definition sending_calls : conv → list call := calls_of sent_call.
Definition queued_calls (s : conv) : list call := omap (λ m, k_msgs s !! m) (k_conveyor s).
Definition reply_ok (r : reply) : Prop := match r_answer r with Some (y, _) => y = r_call r | None => True end.
Definition open_call (e : nat) (x : session) : option call := match s_pc x with s_idle => None | _ => Some (the_call e x) end.

Record Inv (s : conv) : Prop := mkInv {
  i_taken m : taken m s = expected m s;
  i_once m : expected m s + held m s ≤ 1;
  i_msgs m : length (k_msgs s) ≤ m → expected m s + held m s = 0;
  i_sessions e x : k_sessions s !! e = Some x → session_ok (k_msgs s) e x;
  i_workers w x : k_workers s !! w = Some x → worker_ok (k_msgs s) x;
  i_waiters i y : k_waiters s !! i = Some y → waiter_ok (k_msgs s) y;
  i_locked e : total (has_locked e) (k_waiters s) = one (bool_decide (e ∈ k_locked s));
  i_replies : Forall reply_ok (k_replies s);
  i_count : k_made s ≡ₚ map r_call (k_replies s) ++ calls_of open_call s;
  i_made : k_made s ≡ₚ k_worked s ++ queued_calls s ++ sending_calls s;
  i_down : k_running s = false → Forall (λ w, w = w_stopped) (k_workers s)
}.

(** A message of an envelope that is locked is before the one its session waits for now. *)
Definition in_order (s : conv) : Prop :=
  ∀ i m' e x m j, k_waiters s !! i = Some (wt_waiting m' e) → k_sessions s !! e = Some x →
    s_pc x = s_waiting m ∨ s_pc x = s_locking m → k_conveyor s !! j = Some m' → ∃ j', j < j' ∧ k_conveyor s !! j' = Some m.
(** What a worker or a message in the conveyor is about. *)
Definition at_work (s : conv) (y : call) : Prop :=
  (∃ w m, k_workers s !! w = Some (w_working m y) ∨ (∃ st, k_workers s !! w = Some (w_notifying m y st)))
  ∨ (∃ m, m ∈ k_conveyor s ∧ k_msgs s !! m = Some y).
(** The steps that nobody asks for: those of the calls under way. *)
Definition internal (ch : choice) : bool :=
  match ch with
  | c_send _ | c_timeout _ | c_lock _ | c_take _ | c_finish _ _ | c_notify _ _ | c_notify_late _ _ | c_unlock _ | c_put _ => true
  | _ => false
  end.
Definition session_effort (x : session) : nat :=
  match s_pc x with s_idle => 0 | s_sending _ => 10 | s_waiting _ => 6 | s_locking _ => 5 end.
Definition worker_effort (w : worker) : nat := match w with w_working _ _ => 2 | w_notifying _ _ _ => 1 | _ => 0 end.
Definition waiter_effort (y : waiter) : nat :=
  match y with wt_waiting _ _ => 3 | wt_unlocking _ _ => 2 | wt_putting _ => 1 | wt_gone => 0 end.
Definition effort (s : conv) : nat :=
  total session_effort (k_sessions s) + total worker_effort (k_workers s) + total waiter_effort (k_waiters s)
  + 3 * length (k_conveyor s).
Definition live (s : conv) : Prop := ∃ w x, k_workers s !! w = Some x ∧ x ≠ w_stopped.
(** The steps among which one can be taken, if any. *)
Definition no_answer : notifyMsg := mkNotify None [] None.
Definition candidates (s : conv) : list choice :=
  let sessions := seq 0 (length (k_sessions s)) in
  let workers := seq 0 (length (k_workers s)) in
  let waiters := seq 0 (length (k_waiters s)) in
  flat_map (λ e, [c_send e; c_lock e]) sessions
  ++ flat_map (λ w, c_take w :: c_finish w no_answer :: map (c_notify w) sessions ++ map (c_notify_late w) waiters) workers
  ++ flat_map (λ i, [c_unlock i; c_put i]) waiters.
(** Nothing under way: every call has returned, every message was processed, no envelope is locked. *)
Definition quiet (s : conv) : Prop :=
  Forall (λ x, s_pc x = s_idle) (k_sessions s) ∧ Forall (λ w, w = w_idle ∨ w = w_stopped) (k_workers s)
  ∧ Forall (λ y, y = wt_gone) (k_waiters s) ∧ k_conveyor s = [].

(** ** Runs *)
Definition answered : notifyMsg := no_answer.
Definition size_two : conv := started 2 [7].
(** A call that times out, is processed all the same, and another that is answered with the same message. *)
Definition timed_out : list choice :=
  [c_call 0 TaskSaveMail None; c_send 0; c_take 0; c_timeout 0; c_lock 0; c_finish 0 answered; c_notify_late 0 0; c_unlock 0; c_put 0;
   c_call 0 TaskValidateRcpt (Some 0); c_send 0; c_take 1; c_finish 1 answered; c_notify 1 0].
(** The session of a call that timed out goes on without the lock (server.go after ValidateRcpt): two workers have its envelope. *)
Definition two_workers : list choice :=
  [c_call 0 TaskValidateRcpt None; c_send 0; c_take 0; c_timeout 0; c_lock 0; c_call 0 TaskValidateRcpt None; c_send 0; c_take 1].

(** * Proofs *)
(** ** Who has a message *)
Lemma one_same m : one (m =? m) = 1.
Proof. by rewrite Nat.eqb_refl. Qed.
Lemma one_other m m' : m ≠ m' → one (m =? m') = 0.
Proof. intros Hne. by rewrite (proj2 (Nat.eqb_neq m m') Hne). Qed.
Lemma one_pos m m' : 0 < one (m =? m') → m = m'.
Proof. destruct (Nat.eqb_spec m m'); [done|cbn; lia]. Qed.
Lemma is_msg_elem m l : m ∈ l → 1 ≤ total (is_msg m) l.
Proof. intros [i Hi]%list_elem_of_lookup. etrans; [|by eapply sum_lookup]. unfold is_msg. by rewrite one_same. Qed.
Lemma session_sends s e x m : k_sessions s !! e = Some x → s_pc x = s_sending m → 1 ≤ total (holds m) (k_sessions s).
Proof. intros He Hpc. etrans; [|by eapply sum_lookup]. unfold holds. by rewrite Hpc, one_same. Qed.
Lemma session_expects s e x m : k_sessions s !! e = Some x → s_pc x = s_waiting m ∨ s_pc x = s_locking m →
  1 ≤ total (expects m) (k_sessions s).
Proof. intros He Hpc. etrans; [|by eapply sum_lookup]. unfold expects. by destruct Hpc as [-> | ->]; rewrite one_same. Qed.
Lemma worker_has s w x m : k_workers s !! w = Some x → 1 ≤ works_on m x → 1 ≤ taken m s.
Proof. intros Hw Hm. pose proof (sum_lookup (works_on m) _ _ _ Hw). unfold taken. lia. Qed.
Lemma waiter_has s i m e : k_waiters s !! i = Some (wt_waiting m e) → 1 ≤ expected m s.
Proof.
  intros Hi. pose proof (sum_lookup (expects_late m) _ _ _ Hi) as H1. cbn in H1. rewrite one_same in H1. unfold expected. lia.
Qed.
Lemma works_on_self m x : works_on m (w_working m x) = 1.
Proof. apply one_same. Qed.
Lemma works_on_self' m x st : works_on m (w_notifying m x st) = 1.
Proof. apply one_same. Qed.

(** ** A message from the pool, or a new one: nobody else has it *)
Lemma queued_ext (msgs msgs' : list call) (l : list nat) : (∀ m, m ∈ l → msgs' !! m = msgs !! m) → omap (λ m, msgs' !! m) l = omap (λ m, msgs !! m) l.
Proof. induction l as [|m l IH]; intros Hl; [done|]. cbn. rewrite Hl by by left. rewrite IH; [done|]. intros; apply Hl; by right. Qed.
Lemma Inv_msgs msgs pool s m :
  Inv s → (∀ m', m' ≠ m → msgs !! m' = k_msgs s !! m') → length (k_msgs s) ≤ length msgs → expected m s = 0 →
  total (holds m) (k_sessions s) = 0 → (∀ m', total (is_msg m') pool ≤ total (is_msg m') (k_pool s)) →
  Inv (with_msgs msgs (with_pool pool s)).
Proof.
  intros [It Io Im Is Iw Iy Il Ir Ic Ip Id] Hext Hlen Hexp Hhold Hpool.
  assert (Hlive : ∀ m', 1 ≤ expected m' s + total (holds m') (k_sessions s) → msgs !! m' = k_msgs s !! m').
  { intros m' Hm'. apply Hext. intros ->. lia. }
  constructor; cbn; try done.
  - intros m'. specialize (Io m'). specialize (Hpool m'). unfold held, expected in *. cbn. lia.
  - intros m' Hm'. specialize (Im m' ltac:(lia)). specialize (Hpool m'). unfold held, expected in *. cbn. lia.
  - intros e x He. specialize (Is e x He). unfold session_ok in *. destruct (s_pc x) eqn:Hpc; [done|..]; rewrite Hlive; try done.
    + pose proof (session_sends _ _ _ _ He Hpc). lia.
    + pose proof (session_expects _ _ _ _ He (or_introl Hpc)). unfold expected. lia.
    + pose proof (session_expects _ _ _ _ He (or_intror Hpc)). unfold expected. lia.
  - intros w x Hw. specialize (Iw w x Hw). destruct x as [|m' y|m' y st|]; cbn in Iw |- *; try done; rewrite Hlive; try done.
    all: assert (1 ≤ taken m' s) as Ht by (eapply worker_has; [exact Hw|by rewrite ?works_on_self, ?works_on_self']); rewrite It in Ht; unfold expected in *; lia.
  - intros i y Hy. specialize (Iy i y Hy). destruct y as [m' e| | |]; cbn in Iy |- *; try done. rewrite Hlive; [done|].
    pose proof (waiter_has _ _ _ _ Hy). lia.
  - unfold queued_calls. cbn. rewrite (queued_ext (k_msgs s) msgs); [exact Ip|]. intros m' Hm'. apply Hlive.
    pose proof (is_msg_elem _ _ Hm'). specialize (It m'). unfold taken in It. lia.
Qed.
Lemma get_msg_spec from y s m s1 : Inv s → get_msg from y s = Some (m, s1) →
  Inv s1 ∧ expected m s1 + held m s1 = 0 ∧ k_msgs s1 !! m = Some y ∧
  (∃ msgs pool, s1 = with_msgs msgs (with_pool pool s)).
Proof.
  intros Hi. destruct from as [i|]; cbn.
  - destruct (k_pool s !! i) as [m'|] eqn:E; [|done]. cbn. intros [= <- <-].
    pose proof (λ m, sum_delete (is_msg m) _ _ _ E) as Hd. pose proof (i_once _ Hi m') as Ho. pose proof (Hd m') as Hdm.
    unfold is_msg in Hdm at 2. rewrite one_same in Hdm.
    assert (Hlt : m' < length (k_msgs s)).
    { destruct (decide (m' < length (k_msgs s))); [done|]. pose proof (i_msgs _ Hi m' ltac:(lia)). unfold held in *. lia. }
    split_and!; [|unfold expected, held in *; cbn; lia|cbn; by apply list_lookup_insert_eq|by eexists _, _].
    apply (Inv_msgs _ _ _ m'); try done.
    + intros m'' Hne. by apply list_lookup_insert_ne.
    + by rewrite length_insert.
    + unfold held in Ho. lia.
    + unfold held in Ho. lia.
    + intros m''. specialize (Hd m''). lia.
  - intros [= <- <-]. pose proof (i_msgs _ Hi (length (k_msgs s)) ltac:(done)) as Hm.
    split_and!; [|exact Hm|cbn; rewrite lookup_app_r by done; by rewrite Nat.sub_diag|by exists (k_msgs s ++ [y]), (k_pool s)].
    replace (with_msgs (k_msgs s ++ [y]) s) with (with_msgs (k_msgs s ++ [y]) (with_pool (k_pool s) s)) by by destruct s.
    apply (Inv_msgs _ _ _ (length (k_msgs s))); try done.
    + intros m' Hne. destruct (decide (m' < length (k_msgs s))); [by apply lookup_app_l|].
      rewrite !lookup_ge_None_2; [done|lia|rewrite length_app; cbn; lia].
    + rewrite length_app. lia.
    + unfold held in Hm. lia.
    + unfold held in Hm. lia.
Qed.

(** ** Each step keeps the invariant *)
Lemma imap_insert_split {A B} (f : nat → A → B) e x' l : imap f (<[e := x']> l) = match l !! e with Some _ => <[e := f e x']> (imap f l) | None => imap f l end.
Proof.
  apply list_eq. intros i. rewrite list_lookup_imap. destruct (l !! e) as [x|] eqn:He.
  - destruct (decide (i = e)) as [->|Hne].
    + pose proof (lookup_lt_Some _ _ _ He). rewrite !list_lookup_insert_eq; rewrite ?length_imap; done.
    + by rewrite !list_lookup_insert_ne, list_lookup_imap by done.
  - rewrite list_insert_ge by by apply lookup_ge_None. by rewrite list_lookup_imap.
Qed.
Lemma omap_insert_perm {A B} (f : A → option B) l i x y : l !! i = Some x →
  option_list (f x) ++ omap f (<[i := y]> l) ≡ₚ option_list (f y) ++ omap f l.
Proof.
  revert i. induction l as [|z l IH]; intros [|i]; [done..| |].
  - intros [= ->]. change (<[0 := y]> (x :: l)) with (y :: l). cbn. destruct (f x), (f y); cbn; try done. apply perm_swap.
  - intros Hi. specialize (IH _ Hi). change (<[S i := y]> (z :: l)) with (z :: <[i := y]> l). cbn.
    destruct (f z) as [b|]; cbn; [|done]. by rewrite <- !Permutation_middle, IH.
Qed.
Lemma calls_insert (f : nat → session → option call) l e x x' : l !! e = Some x →
  option_list (f e x) ++ omap id (imap f (<[e := x']> l)) ≡ₚ option_list (f e x') ++ omap id (imap f l).
Proof. intros He. rewrite imap_insert_split, He. apply (omap_insert_perm id). by rewrite list_lookup_imap, He. Qed.
Ltac tally_one Hi f i y l :=
  let Hs := fresh "Hs" in
  pose proof (sum_insert f l i _ y Hi) as Hs; cbn in Hs;
  let n := fresh "n" in remember (sum_list_with f (<[i := y]> l)) as n eqn:En; clear En.
Ltac tally := repeat match goal with
  | Hi : ?l !! ?i = Some _ |- context [sum_list_with ?f (<[?i := ?y]> ?l)] => tally_one Hi f i y l
  end.
Ltac cbn_counts := repeat match goal with
  | |- context [is_msg ?a ?b] => change (is_msg a b) with (one (b =? a))
  | |- context [expects_late ?a (wt_waiting ?b ?c)] => change (expects_late a (wt_waiting b c)) with (one (b =? a))
  | |- context [holds_late ?a (wt_waiting ?b ?c)] => change (holds_late a (wt_waiting b c)) with 0
  end.
Ltac split_one := repeat match goal with |- context [one (?a =? ?b)] => destruct (Nat.eqb_spec a b); [subst|]; cbn [one] in * end.
(** The fields of the invariant that count: by the sums of what the step replaced. *)
Ltac counts Hi := let m := fresh "m" in intros m;
  pose proof (i_taken _ Hi m); pose proof (i_once _ Hi m); pose proof (i_msgs _ Hi m);
  unfold taken, expected, held in *; cbn [k_sessions k_workers k_waiters k_conveyor k_pool k_msgs with_pc with_session with_worker with_waiters with_conveyor with_pool with_msgs with_locked with_running log_made log_worked log_reply] in *;
  rewrite ?sum_list_with_app; cbn [sum_list_with foldr] in *; tally; cbn_counts; try lia.
Lemma insert_Forall_lookup {A} (P : nat → A → Prop) (l : list A) i x' : (∀ j x, l !! j = Some x → P j x) → P i x' → ∀ j x, <[i := x']> l !! j = Some x → P j x.
Proof. intros Hl Hx j x [(<-&->&_)|(_&Hj)]%list_lookup_insert_Some; [done|by apply Hl]. Qed.

(** The fields that a step leaves alone. *)
Ltac keeps Hi := first [done | exact (i_sessions _ Hi) | exact (i_workers _ Hi) | exact (i_waiters _ Hi) | exact (i_locked _ Hi)
  | exact (i_replies _ Hi) | exact (i_count _ Hi) | exact (i_made _ Hi) | exact (i_down _ Hi)].
Lemma calls_same f s e x x' : k_sessions s !! e = Some x → f e x = f e x' →
  omap id (imap f (<[e := x']> (k_sessions s))) ≡ₚ calls_of f s.
Proof.
  intros He Hs. pose proof (calls_insert f _ _ _ x' He) as Hp. rewrite Hs in Hp. by apply Permutation_app_inv_l in Hp.
Qed.
(** A session that neither begins to send nor has sent; one that neither calls nor returns; one that returns. *)
Lemma made_session s e x x' : Inv s → k_sessions s !! e = Some x → sent_call e x = sent_call e x' →
  k_made s ≡ₚ k_worked s ++ queued_calls s ++ omap id (imap sent_call (<[e := x']> (k_sessions s))).
Proof. intros Hi He Hs. rewrite (i_made _ Hi). do 2 f_equiv. symmetry. by eapply calls_same. Qed.
Lemma open_session s e x x' : Inv s → k_sessions s !! e = Some x → open_call e x = open_call e x' →
  k_made s ≡ₚ map r_call (k_replies s) ++ omap id (imap open_call (<[e := x']> (k_sessions s))).
Proof. intros Hi He Hs. rewrite (i_count _ Hi). f_equiv. symmetry. by eapply calls_same. Qed.
Lemma open_returns s e x x' a : Inv s → k_sessions s !! e = Some x → s_pc x ≠ s_idle → s_pc x' = s_idle →
  k_made s ≡ₚ map r_call (k_replies s ++ [mkReply (the_call e x) a]) ++ omap id (imap open_call (<[e := x']> (k_sessions s))).
Proof.
  intros Hi He Hx Hx'. rewrite (i_count _ Hi), map_app, <- app_assoc. f_equiv. cbn.
  pose proof (calls_insert open_call _ _ _ x' He) as Hp. unfold open_call in Hp at 1 3. rewrite Hx' in Hp. cbn in Hp. rewrite <- Hp.
  by destruct (s_pc x).
Qed.
Lemma sessions_insert s e x' : Inv s → session_ok (k_msgs s) e x' →
  ∀ i x, <[e := x']> (k_sessions s) !! i = Some x → session_ok (k_msgs s) i x.
Proof. intros Hi Hx. apply (insert_Forall_lookup (session_ok (k_msgs s))); [apply (i_sessions _ Hi)|done]. Qed.
Lemma workers_insert s w x' : Inv s → worker_ok (k_msgs s) x' →
  ∀ i x, <[w := x']> (k_workers s) !! i = Some x → worker_ok (k_msgs s) x.
Proof. intros Hi Hx. apply (insert_Forall_lookup (λ _, worker_ok (k_msgs s))); [apply (i_workers _ Hi)|done]. Qed.
Lemma waiters_insert s w x' : Inv s → waiter_ok (k_msgs s) x' →
  ∀ i x, <[w := x']> (k_waiters s) !! i = Some x → waiter_ok (k_msgs s) x.
Proof. intros Hi Hx. apply (insert_Forall_lookup (λ _, waiter_ok (k_msgs s))); [apply (i_waiters _ Hi)|done]. Qed.
(** A worker that has not stopped: the gateway runs. *)
Lemma down_insert s w x x' : Inv s → k_workers s !! w = Some x → x ≠ w_stopped → k_running s = false → Forall (λ y, y = w_stopped) (<[w := x']> (k_workers s)).
Proof. intros Hi Hw Hx Hr. pose proof (i_down _ Hi Hr) as Hd. rewrite Forall_lookup in Hd. by specialize (Hd _ _ Hw). Qed.

Lemma step_send e s s' : Inv s → advance (c_send e) s = Some s' → Inv s'.
Proof.
  intros Hi. cbn. destruct (k_sessions s !! e) as [[c t pc]|] eqn:He; cbn; [|done].
  destruct pc as [|m|m|m]; try done. case_match; [|done]. intros [= <-].
  constructor; cbn.
  - counts Hi.
  - counts Hi.
  - counts Hi.
  - apply insert_Forall_lookup; [apply (i_sessions _ Hi)|]. by apply (i_sessions _ Hi e _ He).
  - apply (i_workers _ Hi).
  - apply (i_waiters _ Hi).
  - apply (i_locked _ Hi).
  - apply (i_replies _ Hi).
  - by eapply open_session.
  - rewrite (i_made _ Hi). f_equiv. unfold queued_calls, sending_calls, calls_of. cbn. rewrite omap_app. cbn.
    pose proof (i_sessions _ Hi e _ He) as Hm. cbn in Hm. rewrite Hm. cbn. rewrite <- app_assoc. f_equiv.
    by rewrite <- (calls_insert sent_call _ _ _ (mkSession c t (s_waiting m)) He).
  - apply (i_down _ Hi).
Qed.
Lemma step_timeout e s s' : Inv s → advance (c_timeout e) s = Some s' → Inv s'.
Proof.
  intros Hi. cbn. destruct (k_sessions s !! e) as [[c t pc]|] eqn:He; cbn; [|done].
  destruct pc as [|m|m|m]; try done. intros [= <-].
  constructor; cbn; try keeps Hi; try (counts Hi; fail).
  - apply sessions_insert; [done|]. by apply (i_sessions _ Hi e _ He).
  - by eapply open_session.
  - by eapply made_session.
Qed.
Lemma step_next e c' s s' : Inv s → advance (c_next e c') s = Some s' → Inv s'.
Proof.
  intros Hi. cbn. destruct (k_sessions s !! e) as [[c t pc]|] eqn:He; cbn; [|done].
  case_bool_decide as Hpc; [|done]. cbn in Hpc. subst pc. intros [= <-].
  constructor; cbn; try keeps Hi; try (counts Hi; fail).
  - by apply sessions_insert.
  - by eapply open_session.
  - by eapply made_session.
Qed.
Lemma step_finish w st s s' : Inv s → advance (c_finish w st) s = Some s' → Inv s'.
Proof.
  intros Hi. cbn. destruct (k_workers s !! w) as [[|m x| |]|] eqn:Hw; cbn; try done. intros [= <-].
  constructor; cbn; try keeps Hi; try (counts Hi; fail).
  - apply workers_insert; [done|]. by apply (i_workers _ Hi w _ Hw).
  - by eapply down_insert.
Qed.
Lemma step_stop w s s' : Inv s → advance (c_stop w) s = Some s' → Inv s'.
Proof.
  intros Hi. cbn. destruct (k_workers s !! w) as [[| | |]|] eqn:Hw; cbn; try done. intros [= <-].
  constructor; cbn; try keeps Hi; try (counts Hi; fail).
  - by apply workers_insert.
  - by eapply down_insert.
Qed.
Lemma step_shut s s' : Inv s → advance c_shut s = Some s' → Inv s'.
Proof.
  intros Hi. cbn. destruct (forallb _ _) eqn:Hw; [|done]. intros [= <-].
  constructor; cbn; try keeps Hi; try (counts Hi; fail).
  intros _. apply Forall_lookup. intros i w Hiw.
  rewrite forallb_forall in Hw. specialize (Hw w). destruct w; try done; apply list_elem_of_lookup_2, list_elem_of_In in Hiw; by specialize (Hw Hiw).
Qed.
Lemma step_start s s' : Inv s → advance c_start s = Some s' → Inv s'.
Proof.
  intros Hi. cbn. destruct (k_running s) eqn:Hr; [done|]. intros [= <-].
  assert (Hz : ∀ m l, Forall (λ w, w = w_stopped ∨ w = w_idle) l → total (works_on m) l = 0).
  { intros m l. induction 1 as [|? ? [-> | ->]]; done. }
  assert (Hs : ∀ m, total (works_on m) (k_workers s) = 0).
  { intros m. apply Hz. eapply list.Forall_impl; [exact (i_down _ Hi Hr)|]. by left. }
  assert (Hn : ∀ m n, total (works_on m) (replicate n w_idle) = 0).
  { intros m n. apply Hz. apply Forall_replicate. by right. }
  constructor; cbn; try keeps Hi.
  - intros m. pose proof (i_taken _ Hi m). unfold taken, expected in *. cbn. rewrite Hn, <- (Hs m). done.
  - apply (i_once _ Hi).
  - apply (i_msgs _ Hi).
  - intros i x [-> _]%lookup_replicate. done.
Qed.
Lemma step_put i s s' : Inv s → advance (c_put i) s = Some s' → Inv s'.
Proof.
  intros Hi. cbn. destruct (k_waiters s !! i) as [[| |m|]|] eqn:Hy; cbn; try done. intros [= <-].
  constructor; cbn; try keeps Hi; try (counts Hi; fail).
  - by apply waiters_insert.
  - intros e. rewrite <- (i_locked _ Hi e). tally. lia.
Qed.
Lemma step_unlock i s s' : Inv s → advance (c_unlock i) s = Some s' → Inv s'.
Proof.
  intros Hi. cbn. destruct (k_waiters s !! i) as [[|m e| |]|] eqn:Hy; cbn; try done. intros [= <-].
  constructor; cbn; try keeps Hi; try (counts Hi; fail).
  - by apply waiters_insert.
  - intros e'. pose proof (i_locked _ Hi e') as Hl. tally. destruct (Nat.eqb_spec e e') as [<-|Hne]; cbn in *.
    + rewrite (bool_decide_eq_false_2 (e ∈ _ ∖ _)) by set_solver. destruct (bool_decide _); cbn in *; lia.
    + rewrite (bool_decide_ext (e' ∈ _ ∖ _) (e' ∈ k_locked s)) by set_solver. lia.
Qed.
Lemma step_lock e s s' : Inv s → advance (c_lock e) s = Some s' → Inv s'.
Proof.
  intros Hi. cbn. destruct (k_sessions s !! e) as [[c t pc]|] eqn:He; cbn; [|done].
  destruct pc as [|m|m|m]; try done. case_bool_decide as Hlock; [done|]. intros [= <-].
  pose proof (i_sessions _ Hi e _ He) as Hm. cbn in Hm.
  constructor; cbn; try keeps Hi; try (counts Hi; fail).
  - by apply sessions_insert.
  - intros i y [Hy|[_ [_ <-]%list_lookup_singleton_Some]]%lookup_app_Some; [by apply (i_waiters _ Hi i)|].
    cbn. by rewrite Hm.
  - intros e'. pose proof (i_locked _ Hi e') as Hl. rewrite sum_list_with_app. cbn.
    destruct (Nat.eqb_spec e e') as [<-|Hne]; cbn.
    + rewrite bool_decide_eq_false_2 in Hl by done. rewrite bool_decide_eq_true_2 by set_solver. cbn in *. lia.
    + rewrite (bool_decide_ext (e' ∈ _ ∪ _) (e' ∈ k_locked s)) by set_solver. lia.
  - apply Forall_app. split; [apply (i_replies _ Hi)|]. by constructor.
  - by eapply open_returns.
  - by eapply made_session.
Qed.
Lemma step_take w s s' : Inv s → advance (c_take w) s = Some s' → Inv s'.
Proof.
  intros Hi. cbn. destruct (k_workers s !! w) as [[| | |]|] eqn:Hw; cbn; try done.
  destruct (k_conveyor s) as [|m rest] eqn:Hc; [done|]. destruct (k_msgs s !! m) as [y|] eqn:Hm; [|done]. intros [= <-].
  constructor; cbn; try keeps Hi; try (counts Hi; fail).
  - counts Hi. rewrite Hc in H. change (sum_list_with (is_msg m0) (m :: rest)) with (one (m =? m0) + sum_list_with (is_msg m0) rest) in H. lia.
  - by apply workers_insert.
  - rewrite (i_made _ Hi). unfold queued_calls. rewrite Hc. cbn. rewrite Hm. by rewrite <- app_assoc.
  - by eapply down_insert.
Qed.
Lemma step_notify_late w i s s' : Inv s → advance (c_notify_late w i) s = Some s' → Inv s'.
Proof.
  intros Hi. cbn. destruct (k_workers s !! w) as [x|] eqn:Hw; cbn; [|done]. destruct (k_waiters s !! i) as [y|] eqn:Hy; cbn; [|done].
  destruct x as [|m x|m x st|]; try done. destruct y as [m' e| | |]; try done. destruct (Nat.eqb_spec m m') as [<-|]; [|done]. intros [= <-].
  constructor; cbn; try keeps Hi; try (counts Hi; fail).
  - by apply workers_insert.
  - by apply waiters_insert.
  - intros e'. rewrite <- (i_locked _ Hi e'). tally. lia.
  - by eapply down_insert.
Qed.
Lemma step_notify w e s s' : Inv s → advance (c_notify w e) s = Some s' → Inv s'.
Proof.
  intros Hi. cbn. destruct (k_workers s !! w) as [x|] eqn:Hw; cbn; [|done]. destruct (k_sessions s !! e) as [[c t pc]|] eqn:He; cbn; [|done].
  destruct x as [|m x|m x st|]; try done. destruct pc as [|m'|m'|m']; try done. destruct (Nat.eqb_spec m m') as [<-|]; [|done]. intros [= <-].
  pose proof (i_workers _ Hi w _ Hw) as Hx. pose proof (i_sessions _ Hi e _ He) as Hm.
  change (k_msgs s !! m = Some x) in Hx. change (k_msgs s !! m = Some (mkCall e c t)) in Hm.
  assert (Hc : x = mkCall e c t) by congruence.
  destruct t; (constructor; cbn; try keeps Hi; try (counts Hi; fail);
    [by apply sessions_insert|by apply workers_insert| |by eapply open_returns
    |by eapply made_session|by eapply down_insert]).
  all: apply Forall_app; split; [apply (i_replies _ Hi)|]; by constructor.
Qed.
Lemma step_call e task from s s' : Inv s → advance (c_call e task from) s = Some s' → Inv s'.
Proof.
  intros Hi. cbn. destruct (k_sessions s !! e) as [[c t pc]|] eqn:He; cbn; [|done].
  case_bool_decide as Hpc; [|done]. cbn in Hpc. subst pc. destruct (k_running s) eqn:Hr; cbn; [|done].
  destruct (get_msg from _ s) as [[m s1]|] eqn:Hg; [|done]. intros [= <-].
  destruct (get_msg_spec _ _ _ _ _ Hi Hg) as (Hi1&Hfree&Hm&msgs&pool&->).
  change (k_sessions s) with (k_sessions (with_msgs msgs (with_pool pool s))) in He.
  set (s1 := with_msgs msgs (with_pool pool s)) in *. change (k_running s) with (k_running s1) in Hr.
  assert (Hb : m < length (k_msgs s1)) by by eapply lookup_lt_Some.
  clearbody s1. clear Hi Hg msgs pool s.
  constructor; cbn; try keeps Hi1; try (counts Hi1; fail).
  - counts Hi1. unfold expected, held in *. destruct (Nat.eqb_spec m m0) as [<-|]; cbn in *; lia.
  - counts Hi1. destruct (Nat.eqb_spec m m0) as [<-|]; cbn in *; lia.
  - by apply sessions_insert.
  - pose proof (calls_insert open_call _ _ _ (mkSession c task (s_sending m)) He) as Hp. cbn in Hp. rewrite Hp, (i_count _ Hi1).
    rewrite <- app_assoc. apply Permutation_app_head. symmetry. apply Permutation_cons_append.
  - rewrite (i_made _ Hi1). unfold sending_calls, calls_of. cbn.
    pose proof (calls_insert sent_call _ _ _ (mkSession c task (s_sending m)) He) as Hp. cbn in Hp. rewrite Hp.
    rewrite <- !app_assoc. do 2 apply Permutation_app_head. symmetry. apply Permutation_cons_append.
Qed.
Lemma conv_Inv_step s s' : Inv s → step s s' → Inv s'.
Proof.
  intros Hi. destruct 1 as [ch s s' H]. destruct ch; revert H.
  - by apply step_call.
  - by apply step_send.
  - by apply step_timeout.
  - by apply step_lock.
  - by apply step_next.
  - by apply step_take.
  - by apply step_finish.
  - by apply step_notify.
  - by apply step_notify_late.
  - by apply step_unlock.
  - by apply step_put.
  - by apply step_stop.
  - by apply step_shut.
  - by apply step_start.
Qed.
Lemma no_calls (f : nat → session → option call) (clients : list nat) : (∀ e c, f e (mkSession c TaskSaveMail s_idle) = None) →
  omap id (imap f (map (λ c, mkSession c TaskSaveMail s_idle) clients)) = [].
Proof. revert f. induction clients as [|c l IH]; intros f Hf; [done|]. cbn. rewrite Hf. cbn. apply IH. intros; apply Hf. Qed.
Lemma Inv_started size clients : Inv (started size clients).
Proof.
  assert (Hs : ∀ f : session → nat, (∀ c, f (mkSession c TaskSaveMail s_idle) = 0) →
    total f (map (λ c, mkSession c TaskSaveMail s_idle) clients) = 0).
  { intros f Hf. induction clients as [|c l IH]; [done|]. cbn. by rewrite Hf. }
  assert (Hw : ∀ m, total (works_on m) (replicate size w_idle) = 0) by (intros m; induction size; done).
  constructor; cbn; try done.
  - intros m. unfold taken, expected. cbn. rewrite Hw, Hs; done.
  - intros m. unfold held, expected. cbn. rewrite !Hs; [lia|done..].
  - intros m _. unfold held, expected. cbn. rewrite !Hs; done.
  - intros e x Hx. apply list_lookup_fmap_Some in Hx as (c&->&_). done.
  - intros w x [-> _]%lookup_replicate. done.
  - unfold calls_of. cbn. by rewrite (no_calls open_call).
  - unfold sending_calls, calls_of. cbn. by rewrite (no_calls sent_call).
Qed.
Lemma conv_Inv size clients s : reachable size clients s → Inv s.
Proof. revert s. apply rtc_ind_r; [apply Inv_started|]. intros s s' _ Hs Hi. by eapply conv_Inv_step. Qed.

(** ** The conveyor is first in, first out: no call waits for one that is behind it *)
Lemma in_order_weaken s s' : in_order s → k_conveyor s' = k_conveyor s →
  (∀ i m e, k_waiters s' !! i = Some (wt_waiting m e) → ∃ i, k_waiters s !! i = Some (wt_waiting m e)) →
  (∀ e x m, k_sessions s' !! e = Some x → s_pc x = s_waiting m ∨ s_pc x = s_locking m →
     ∃ x, k_sessions s !! e = Some x ∧ (s_pc x = s_waiting m ∨ s_pc x = s_locking m)) → in_order s'.
Proof.
  intros Ho Hc Hw Hs i m' e x m j Hi He Hx. rewrite Hc. destruct (Hw _ _ _ Hi) as [i' Hi']. destruct (Hs _ _ _ He Hx) as (x'&He'&Hx').
  by eapply Ho.
Qed.
Ltac one_session := intros ?e0 ?x0 ?m0; cbn; intros [(<-&<-&_)|(_&?)]%list_lookup_insert_Some [?Hpc|?Hpc]; cbn in *; try done; eauto.
Lemma in_order_send e s s' : Inv s → in_order s → advance (c_send e) s = Some s' → in_order s'.
Proof.
  intros Hi Ho H. cbn in H.
  destruct (k_sessions s !! e) as [x|] eqn:He; cbn in H; [|done]. destruct (s_pc x) eqn:Hpc; try done. case_match; [|done].
  injection H as <-. intros i m' e' x' m0 j; cbn. intros Hw Hx Hm Hj.
  assert (Hold : m' ≠ m ∧ j < length (k_conveyor s)). 
  { assert (Hne : m' ≠ m).
    { intros ->. pose proof (waiter_has _ _ _ _ Hw). pose proof (session_sends _ _ _ _ He Hpc). pose proof (i_once _ Hi m). unfold held in *. lia. }
    split; [done|]. apply lookup_lt_Some in Hj as Hlt. rewrite length_app in Hlt. cbn in Hlt.
    destruct (decide (j = length (k_conveyor s))) as [->|]; [|lia]. rewrite lookup_app_r, Nat.sub_diag in Hj by done. by injection Hj as ->. }
  destruct Hold as [Hne Hlt]. rewrite lookup_app_l in Hj by done.
  apply list_lookup_insert_Some in Hx as [(->&<-&_)|(_&Hx)]; cbn in Hm.
  + destruct Hm as [[= <-]|[=]]. exists (length (k_conveyor s)). split; [done|]. by rewrite lookup_app_r, Nat.sub_diag by done.
  + destruct (Ho _ _ _ _ _ _ Hw Hx Hm Hj) as (j'&?&?). exists j'. split; [done|]. by apply lookup_app_l_Some.
Qed.
Lemma step_in_order s s' : Inv s → in_order s → step s s' → in_order s'.
Proof.
  intros Hi Ho. destruct 1 as [ch s s' H]. destruct ch; cbn in H.
  - (* call *) destruct (k_sessions s !! e) as [x|] eqn:He; cbn in H; [|done]. case_bool_decide; [|done]. destruct (k_running s); [|done].
    destruct (get_msg _ _ _) as [[m s1]|] eqn:Hg; [|done]. injection H as <-. destruct (get_msg_spec _ _ _ _ _ Hi Hg) as (_&_&_&?&?&->).
    eapply in_order_weaken; [done..|by eauto|]. one_session.
  - by eapply in_order_send.
  - (* timeout *) destruct (k_sessions s !! e) as [x|] eqn:He; cbn in H; [|done]. destruct (s_pc x) eqn:Hpc; try done. injection H as <-.
    eapply in_order_weaken; [done..|by eauto|]. intros e0 x0 m0; cbn.
    intros [(<-&<-&_)|(_&?)]%list_lookup_insert_Some Hm; [|by eauto]. cbn in Hm. destruct Hm as [[=]|[= <-]]. eauto.
  - (* lock *) destruct (k_sessions s !! e) as [x|] eqn:He; cbn in H; [|done]. destruct (s_pc x) eqn:Hpc; try done. case_bool_decide; [done|].
    injection H as <-. intros i m' e' x' m0 j; cbn. intros Hw Hx Hm Hj.
    apply list_lookup_insert_Some in Hx as [(<-&<-&_)|(Hne&Hx)]; cbn in Hm; [by destruct Hm|].
    apply lookup_app_Some in Hw as [Hw|[_ [_ [= -> ->]]%list_lookup_singleton_Some]]; [by eapply Ho|done].
  - (* next *) destruct (k_sessions s !! e) as [x|] eqn:He; cbn in H; [|done]. case_bool_decide; [|done]. injection H as <-.
    eapply in_order_weaken; [done..|by eauto|]. one_session.
  - (* take *) destruct (k_workers s !! w) as [[]|]; try done. destruct (k_conveyor s) as [|m0 rest] eqn:Hc; [done|]. cbn in H.
    destruct (k_msgs s !! m0); [|done]. injection H as <-. intros i m' e' x' m1 j; cbn. intros Hw Hx Hm Hj.
    destruct (Ho i m' e' x' m1 (S j)) as (j'&Hlt&Hj'); [done..|by rewrite Hc|]. rewrite Hc in Hj'. destruct j' as [|j']; [lia|].
    exists j'. split; [lia|done].
  - destruct (k_workers s !! w) as [[]|]; try done. injection H as <-. by eapply in_order_weaken; eauto.
  - (* notify *) destruct (k_workers s !! w) as [wx|]; cbn in H; [|done]. destruct (k_sessions s !! e) as [x|] eqn:He; cbn in H; [|done].
    destruct wx as [| |m y st|]; try done. destruct (s_pc x) as [| |m'|]; try done. destruct (m =? m'); [|done]. injection H as <-.
    destruct (s_task x); (eapply in_order_weaken; [done..|by eauto|]; one_session).
  - destruct (k_workers s !! w) as [wx|]; cbn in H; [|done]. destruct (k_waiters s !! i) as [y|] eqn:Hy; cbn in H; [|done].
    destruct wx, y; try done. case_match; [|done]. injection H as <-.
    eapply in_order_weaken; [done..| |by eauto]. cbn. intros i0 m1 e1 [(_&[=]&_)|(_&?)]%list_lookup_insert_Some. by eauto.
  - destruct (k_waiters s !! i) as [[]|] eqn:Hy; try done. injection H as <-.
    eapply in_order_weaken; [done..| |by eauto]. cbn. intros i0 m1 e1 [(_&[=]&_)|(_&?)]%list_lookup_insert_Some. by eauto.
  - destruct (k_waiters s !! i) as [[]|] eqn:Hy; try done. injection H as <-.
    eapply in_order_weaken; [done..| |by eauto]. cbn. intros i0 m1 e1 [(_&[=]&_)|(_&?)]%list_lookup_insert_Some. by eauto.
  - destruct (k_workers s !! w) as [[]|]; try done. injection H as <-. by eapply in_order_weaken; eauto.
  - destruct (forallb _ _); [|done]. injection H as <-. by eapply in_order_weaken; eauto.
  - destruct (k_running s); [done|]. injection H as <-. by eapply in_order_weaken; eauto.
Qed.
Lemma step_size s s' : step s s' → k_size s' = k_size s.
Proof.
  destruct 1 as [ch s s' H]. destruct ch as [? ? [] | | | | | | | | | | | | |]; unfold advance, get_msg in H;
    repeat first [case_match; try done | progress simplify_option_eq]; done.
Qed.
Lemma reachable_in_order size clients s : reachable size clients s → in_order s ∧ k_size s = size.
Proof. 
  revert s. apply rtc_ind_r; [|intros s1 s2 Hr Hs [IH IHs]].
  - by split.
  - split; [eapply step_in_order; [by eapply conv_Inv|done..]|]. rewrite <- IHs. by apply step_size.
Qed.

(** ** The steps of the calls under way come to an end *)
Lemma effort_step ch s s' : internal ch = true → advance ch s = Some s' → effort s' < effort s.
Proof.
  unfold effort. destruct ch; try done; intros _; cbn [advance].
  - destruct (k_sessions s !! e) as [[c t pc]|] eqn:He; cbn; [|done]. destruct pc; try done. case_match; [|done]. intros [= <-]. cbn.
    tally. rewrite length_app. cbn. lia.
  - destruct (k_sessions s !! e) as [[c t pc]|] eqn:He; cbn; [|done]. destruct pc; try done. intros [= <-]. cbn. tally. lia.
  - destruct (k_sessions s !! e) as [[c t pc]|] eqn:He; cbn; [|done]. destruct pc; try done. case_match; [done|]. intros [= <-]. cbn.
    tally. rewrite sum_list_with_app. cbn. lia.
  - destruct (k_workers s !! w) as [[]|] eqn:Hw; cbn; try done. destruct (k_conveyor s) as [|m l]; [done|].
    destruct (k_msgs s !! m); [|done]. intros [= <-]. cbn. tally. lia.
  - destruct (k_workers s !! w) as [[]|] eqn:Hw; cbn; try done. intros [= <-]. cbn. tally. lia.
  - destruct (k_workers s !! w) as [x|] eqn:Hw; cbn; [|done]. destruct (k_sessions s !! e) as [[c t pc]|] eqn:He; cbn; [|done].
    destruct x, pc; try done. case_match; [|done]. intros [= <-]. destruct t; cbn; tally; lia.
  - destruct (k_workers s !! w) as [x|] eqn:Hw; cbn; [|done]. destruct (k_waiters s !! i) as [y|] eqn:Hy; cbn; [|done].
    destruct x, y; try done. case_match; [|done]. intros [= <-]. cbn. tally. lia.
  - destruct (k_waiters s !! i) as [[]|] eqn:Hy; cbn; try done. intros [= <-]. cbn. tally. lia.
  - destruct (k_waiters s !! i) as [[]|] eqn:Hy; cbn; try done. intros [= <-]. cbn. tally. lia.
Qed.
Lemma live_insert s w x' : live s → x' ≠ w_stopped → ∃ v x, <[w := x']> (k_workers s) !! v = Some x ∧ x ≠ w_stopped.
Proof.
  intros (v&x&Hv&Hx) Hx'. destruct (decide (v = w)) as [->|Hne].
  - exists w, x'. split; [|done]. apply list_lookup_insert_eq. by eapply lookup_lt_Some.
  - exists v, x. by rewrite list_lookup_insert_ne.
Qed.
Lemma live_step ch s s' : internal ch = true → advance ch s = Some s' → live s → live s'.
Proof.
  destruct ch; try done; intros _ H Hl; unfold advance in H; repeat first [case_match; try done | progress simplify_option_eq];
    first [exact Hl | by apply live_insert].
Qed.
(** Where a message that is expected can be. *)
Lemma expected_taken s m : Inv s → 1 ≤ expected m s →
  (∃ j, k_conveyor s !! j = Some m) ∨ (∃ w y, k_workers s !! w = Some (w_working m y)) ∨ (∃ w y st, k_workers s !! w = Some (w_notifying m y st)).
Proof.
  intros Hi He. rewrite <- (i_taken _ Hi) in He. unfold taken in He.
  destruct (decide (1 ≤ total (is_msg m) (k_conveyor s))) as [Hc|Hc].
  - left. destruct (sum_exists (is_msg m) _ Hc) as (j&x&Hj&Hx). unfold is_msg in Hx. destruct (Nat.eqb_spec x m) as [->|]; cbn in Hx; [by eexists|lia].
  - right. destruct (sum_exists (works_on m) (k_workers s)) as (w&x&Hw&Hx); [lia|]. destruct x as [|m' y|m' y st|]; cbn in Hx; try lia.
    all: destruct (Nat.eqb_spec m' m) as [->|]; cbn in Hx; [|lia].
    + left. by repeat eexists.
    + right. by repeat eexists.
Qed.
Lemma taken_expected s m : Inv s → 1 ≤ taken m s →
  (∃ e x, k_sessions s !! e = Some x ∧ (s_pc x = s_waiting m ∨ s_pc x = s_locking m)) ∨ (∃ i e, k_waiters s !! i = Some (wt_waiting m e)).
Proof.
  intros Hi Ht. rewrite (i_taken _ Hi) in Ht. unfold expected in Ht.
  destruct (decide (1 ≤ total (expects m) (k_sessions s))) as [Hc|Hc].
  - left. destruct (sum_exists (expects m) _ Hc) as (e&x&He&Hx). exists e, x. split; [done|]. unfold expects in Hx.
    destruct (s_pc x) as [|m'|m'|m']; cbn in Hx; [lia|lia|..]; apply one_pos in Hx as <-; auto.
  - right. destruct (sum_exists (expects_late m) (k_waiters s)) as (i&x&Hw&Hx); [lia|]. destruct x as [m' e| | |]; cbn in Hx; try lia.
    destruct (Nat.eqb_spec m' m) as [->|]; cbn in Hx; [by repeat eexists|lia].
Qed.
Lemma conveyor_taken s m j : k_conveyor s !! j = Some m → 1 ≤ total (is_msg m) (k_conveyor s).
Proof. intros Hj. apply is_msg_elem. by apply list_elem_of_lookup_2 in Hj. Qed.
Lemma conveyor_msg s m : Inv s → m ∈ k_conveyor s → ∃ y, k_msgs s !! m = Some y.
Proof.
  intros Hi Hm. apply is_msg_elem in Hm. destruct (k_msgs s !! m) as [y|] eqn:E; [by eexists|]. apply lookup_ge_None in E.
  pose proof (i_msgs _ Hi m E). pose proof (i_taken _ Hi m). unfold taken in *. lia.
Qed.
Section Stuck.
(** A state in which nothing can go on before a timer fires. *)
Context (s : conv) (Hi : Inv s) (Ho : in_order s) (Hsize : 0 < k_size s) (Hlive : live s).
Context (Hstuck : ∀ ch, internal ch = true → (∀ e, ch ≠ c_timeout e) → advance ch s = None).

Lemma none_working w m y : k_workers s !! w ≠ Some (w_working m y).
Proof. intros Hw. pose proof (Hstuck (c_finish w no_answer) eq_refl ltac:(done)) as Hn. cbn in Hn. by rewrite Hw in Hn. Qed.
Lemma none_unlocking i m e : k_waiters s !! i ≠ Some (wt_unlocking m e).
Proof. intros Hw. pose proof (Hstuck (c_unlock i) eq_refl ltac:(done)) as Hn. cbn in Hn. by rewrite Hw in Hn. Qed.
Lemma none_putting i m : k_waiters s !! i ≠ Some (wt_putting m).
Proof. intros Hw. pose proof (Hstuck (c_put i) eq_refl ltac:(done)) as Hn. cbn in Hn. by rewrite Hw in Hn. Qed.
Lemma none_told w m y st i e : k_workers s !! w = Some (w_notifying m y st) → k_waiters s !! i ≠ Some (wt_waiting m e).
Proof.
  intros Hw Hy. pose proof (Hstuck (c_notify_late w i) eq_refl ltac:(done)) as Hn. cbn in Hn. rewrite Hw, Hy in Hn. cbn in Hn.
  by rewrite Nat.eqb_refl in Hn.
Qed.
Lemma none_answered w m y st e x : k_workers s !! w = Some (w_notifying m y st) → k_sessions s !! e = Some x → s_pc x ≠ s_waiting m.
Proof.
  intros Hw Hx Hpc. pose proof (Hstuck (c_notify w e) eq_refl ltac:(done)) as Hn. cbn in Hn. rewrite Hw, Hx in Hn. cbn in Hn.
  by rewrite Hpc, Nat.eqb_refl in Hn.
Qed.
(** A session that cannot lock its envelope waits for a message that is taken first. *)
Lemma locked_behind e x m : k_sessions s !! e = Some x → s_pc x = s_locking m → ∃ j, k_conveyor s !! j = Some m.
Proof.
  intros Hx Hpc. pose proof (Hstuck (c_lock e) eq_refl ltac:(done)) as Hn. cbn in Hn. rewrite Hx in Hn. cbn in Hn. rewrite Hpc in Hn.
  case_bool_decide as Hlock; [|done]. pose proof (i_locked _ Hi e) as Hl. rewrite bool_decide_eq_true_2 in Hl by done.
  destruct (sum_exists (has_locked e) (k_waiters s)) as (i&y&Hy&He); [rewrite Hl; cbn; lia|].
  destruct y as [m' e'|m' e'| |]; cbn in He; try lia; destruct (Nat.eqb_spec e' e) as [->|]; cbn in He; try lia; [|by apply none_unlocking in Hy].
  destruct (expected_taken s m' Hi) as [[j Hj]|[(w&z&Hw)|(w&z&st&Hw)]]; [by eapply waiter_has| | |].
  - destruct (Ho i m' e x m j) as (j'&_&Hj'); [done|done|by right|done|]. by exists j'.
  - by apply none_working in Hw.
  - by eapply none_told in Hw.
Qed.
Lemma none_notifying w m y st : k_workers s !! w ≠ Some (w_notifying m y st).
Proof.
  intros Hw. assert (Hm : 1 ≤ total (works_on m) (k_workers s)) by (etrans; [|by eapply sum_lookup]; by rewrite works_on_self').
  destruct (taken_expected s m Hi) as [(e&x&Hx&[Hpc|Hpc])|(i&e&Hy)].
  - unfold taken. lia.
  - by eapply none_answered.
  - destruct (locked_behind _ _ _ Hx Hpc) as [j Hj]. pose proof (conveyor_taken _ _ _ Hj).
    pose proof (i_taken _ Hi m). pose proof (i_once _ Hi m). unfold taken in *. lia.
  - by eapply none_told.
Qed.
Lemma workers_rest : Forall (λ w, w = w_idle ∨ w = w_stopped) (k_workers s).
Proof.
  apply Forall_lookup. intros w [|m y|m y st|] Hw; [by left|by apply none_working in Hw|by apply none_notifying in Hw|by right].
Qed.
Lemma conveyor_empty : k_conveyor s = [].
Proof.
  destruct Hlive as (w&x&Hw&Hx). pose proof workers_rest as Hr. rewrite Forall_lookup in Hr. destruct (Hr _ _ Hw) as [-> | ->]; [|done].
  pose proof (Hstuck (c_take w) eq_refl ltac:(done)) as Hn. cbn in Hn. rewrite Hw in Hn. cbn in Hn.
  destruct (k_conveyor s) as [|m rest] eqn:Hc; [done|]. destruct (conveyor_msg s m Hi) as [y Hy]; [rewrite Hc; by left|]. by rewrite Hy in Hn.
Qed.
Lemma none_expected m : expected m s = 0.
Proof.
  destruct (decide (1 ≤ expected m s)) as [He|]; [|lia].
  destruct (expected_taken s m Hi He) as [[j Hj]|[(w&z&Hw)|(w&z&st&Hw)]].
  - by rewrite conveyor_empty in Hj.
  - by apply none_working in Hw.
  - by apply none_notifying in Hw.
Qed.
Lemma stuck_quiet : quiet s.
Proof.
  split_and!; [| exact workers_rest | | exact conveyor_empty].
  - apply Forall_lookup. intros e x Hx. destruct (s_pc x) as [|m|m|m] eqn:Hpc; [done|..].
    + pose proof (Hstuck (c_send e) eq_refl ltac:(done)) as Hn. cbn [advance] in Hn. rewrite Hx in Hn. cbn [mbind option_bind] in Hn.
      rewrite Hpc, conveyor_empty in Hn. change (length []) with 0 in Hn. by rewrite (proj2 (Nat.ltb_lt _ _) Hsize) in Hn.
    + pose proof (session_expects _ _ _ _ Hx (or_introl Hpc)). pose proof (none_expected m). unfold expected in *. lia.
    + pose proof (session_expects _ _ _ _ Hx (or_intror Hpc)). pose proof (none_expected m). unfold expected in *. lia.
  - apply Forall_lookup. intros i [m e|m e|m|] Hy; [|by apply none_unlocking in Hy|by apply none_putting in Hy|done].
    pose proof (waiter_has _ _ _ _ Hy). pose proof (none_expected m). lia.
Qed.
End Stuck.
(** A quiet state: each call has returned, each message was processed. *)
Lemma quiet_calls f s : quiet s → (∀ e x, s_pc x = s_idle → f e x = None) → calls_of f s = [].
Proof.
  intros [Hq _] Hf. unfold calls_of. revert f Hf. induction Hq as [|x l Hx _ IH]; intros f Hf; [done|]. cbn. rewrite Hf by done. cbn.
  apply IH. intros; by apply Hf.
Qed.
Lemma quiet_unlocked s : Inv s → quiet s → k_locked s = ∅.
Proof.
  intros Hi (_&_&Hw&_). apply set_eq. intros e. split; [|set_solver]. intros He. pose proof (i_locked _ Hi e) as Hl.
  rewrite bool_decide_eq_true_2 in Hl by done. destruct (sum_exists (has_locked e) (k_waiters s)) as (i&y&Hy&Hz); [rewrite Hl; cbn; lia|].
  rewrite Forall_lookup in Hw. specialize (Hw _ _ Hy). subst y. cbn in Hz. lia.
Qed.
(** The search for a step. *)
Lemma flat_map_elem {A B} (f : A → list B) l x y : x ∈ l → y ∈ f x → y ∈ flat_map f l.
Proof. rewrite !list_elem_of_In, in_flat_map. by exists x. Qed.
Lemma map_elem {A B} (f : A → B) l x : x ∈ l → f x ∈ map f l.
Proof. rewrite !list_elem_of_In. apply in_map. Qed.
Lemma index_elem {A} (l : list A) i x : l !! i = Some x → i ∈ seq 0 (length l).
Proof. intros Hi%lookup_lt_Some. apply elem_of_seq. lia. Qed.
Ltac found := unfold candidates; rewrite !elem_of_app; first
  [ right; left; eapply flat_map_elem; [by eapply index_elem|]
  | left; eapply flat_map_elem; [by eapply index_elem|]
  | right; right; eapply flat_map_elem; [by eapply index_elem|] ]; rewrite ?elem_of_cons, ?elem_of_app; eauto 8 using map_elem, index_elem.
Lemma candidates_all s : (∀ ch, ch ∈ candidates s → advance ch s = None) →
  ∀ ch, internal ch = true → (∀ e, ch ≠ c_timeout e) → advance ch s = None.
Proof.
  intros Hn ch Hi Ht. destruct ch; try done.
  - destruct (k_sessions s !! e) as [x|] eqn:E; [|cbn; by rewrite E]. apply Hn. found.
  - by destruct (Ht e).
  - destruct (k_sessions s !! e) as [x|] eqn:E; [|cbn; by rewrite E]. apply Hn. found.
  - destruct (k_workers s !! w) as [x|] eqn:E; [|cbn; by rewrite E]. apply Hn. found.
  - destruct (k_workers s !! w) as [x|] eqn:E; [|cbn; by rewrite E].
    assert (H : advance (c_finish w no_answer) s = None) by (apply Hn; found). cbn in H |- *. rewrite E in H |- *. by destruct x.
  - destruct (k_workers s !! w) as [x|] eqn:E; [|cbn; by rewrite E]. destruct (k_sessions s !! e) as [y|] eqn:E2; [|cbn; by rewrite E, E2].
    apply Hn. found.
  - destruct (k_workers s !! w) as [x|] eqn:E; [|cbn; by rewrite E]. destruct (k_waiters s !! i) as [y|] eqn:E2; [|cbn; by rewrite E, E2].
    apply Hn. found.
  - destruct (k_waiters s !! i) as [y|] eqn:E; [|cbn; by rewrite E]. apply Hn. found.
  - destruct (k_waiters s !! i) as [y|] eqn:E; [|cbn; by rewrite E]. apply Hn. found.
Qed.
Lemma candidates_internal s ch : ch ∈ candidates s → internal ch = true ∧ ∀ e, ch ≠ c_timeout e.
Proof.
  unfold candidates. rewrite !elem_of_app, !list_elem_of_In, !in_flat_map.
  intros [(e&_&H)|[(w&_&H)|(i&_&H)]]; cbn in H.
  - by destruct H as [<-|[<-|[]]].
  - rewrite in_app_iff, !in_map_iff in H. by destruct H as [<-|[<-|[(?&<-&_)|(?&<-&_)]]].
  - by destruct H as [<-|[<-|[]]].
Qed.
Lemma conv_progress s : Inv s → in_order s → 0 < k_size s → live s →
  quiet s ∨ ∃ ch s', internal ch = true ∧ (∀ e, ch ≠ c_timeout e) ∧ advance ch s = Some s'.
Proof.
  intros Hi Ho Hk Hl. destruct (decide (Exists (λ ch, is_Some (advance ch s)) (candidates s))) as [He|He].
  - right. apply list.Exists_exists in He as (ch&Hin&s'&Hs). destruct (candidates_internal _ _ Hin). by exists ch, s'.
  - left. apply stuck_quiet; [done..|]. apply candidates_all. intros ch Hin. destruct (advance ch s) eqn:E; [|done].
    destruct He. apply list.Exists_exists. exists ch. by rewrite E.
Qed.
Lemma play_reachable l s s' : play l s = Some s' → rtc step s s'.
Proof.
  revert s. induction l as [|ch l IH]; intros s; cbn; [by intros [= <-]|].
  destruct (advance ch s) as [s1|] eqn:E; cbn; [|done]. intros H. eapply rtc_l; [by eapply step_by|by apply IH].
Qed.

Lemma run_effort l s s' : live s → forallb internal l = true → play l s = Some s' → length l + effort s' ≤ effort s ∧ live s'.
Proof.
  revert s. induction l as [|ch l IH]; intros s Hl; [by intros _ [= <-]|]. cbn [forallb play length].
  intros [Hch Hint]%andb_prop. destruct (advance ch s) as [s1|] eqn:E; [|done]. intros Hp.
  pose proof (effort_step _ _ _ Hch E). destruct (IH s1 (live_step _ _ _ Hch E Hl) Hint Hp) as [? Hl']. split; [lia|done].
Qed.

(** ** The properties *)

(** C10. Whatever the interleaving of the sessions, the workers, the goroutines left waiting after a timeout and Shutdown: the answer
    that Process and ValidateRcpt return is the answer to that very call, though messages are used again; no call gets two replies and no
    message is processed twice; and once nothing is under way each call has had its reply, each message was processed exactly once,
    those of the calls that timed out too, and no envelope is locked. *)
Theorem each_call_once size clients s : reachable size clients s →
  Forall reply_ok (k_replies s) ∧ map r_call (k_replies s) ⊆+ k_made s ∧ k_worked s ⊆+ k_made s
  ∧ (quiet s → k_worked s ≡ₚ k_made s ∧ map r_call (k_replies s) ≡ₚ k_made s ∧ k_locked s = ∅).
Proof.
  intros Hi%conv_Inv. split_and!.
  - apply (i_replies _ Hi).
  - rewrite (i_count _ Hi). apply submseteq_inserts_r. done.
  - rewrite (i_made _ Hi). apply submseteq_inserts_r. done.
  - intros Hq. pose proof (i_made _ Hi) as Hm. pose proof (i_count _ Hi) as Hc.
    unfold sending_calls in Hm. rewrite quiet_calls in Hm, Hc by (done || by intros e x; unfold sent_call, open_call; intros ->).
    unfold queued_calls in Hm. pose proof Hq as (_&_&_&Hk). rewrite Hk in Hm. rewrite !app_nil_r in *.
    split_and!; [done|done|by apply quiet_unlocked].
Qed.

(** C12. What a worker works on, and what waits in the conveyor, is guarded: the session of the envelope is still inside the call that
    sent it, or the envelope is locked; so ResetTransaction, which locks the envelope first, clears it only when no worker has it. *)
Theorem work_is_guarded size clients s y : reachable size clients s → at_work s y →
  (∃ x, k_sessions s !! c_env y = Some x ∧ open_call (c_env y) x = Some y) ∨ c_env y ∈ k_locked s.
Proof.
  intros Hi%conv_Inv Hy.
  assert (Hm : ∃ m, k_msgs s !! m = Some y ∧ 1 ≤ taken m s).
  { destruct Hy as [(w&m&Hw)|(m&Hm&Hy)]; exists m.
    - destruct Hw as [Hw|[st Hw]]; (split; [exact (i_workers _ Hi _ _ Hw)|eapply worker_has; [exact Hw|]]).
      + by rewrite works_on_self.
      + by rewrite works_on_self'.
    - split; [done|]. pose proof (is_msg_elem _ _ Hm). unfold taken. lia. }
  destruct Hm as (m&Hm&Ht). destruct (taken_expected s m Hi Ht) as [(e&x&Hx&Hpc)|(i&e&Hw)].
  - left. pose proof (i_sessions _ Hi _ _ Hx) as Hok. unfold session_ok in Hok.
    assert (Hc : y = the_call e x) by (destruct Hpc as [Hpc|Hpc]; rewrite Hpc in Hok; congruence).
    subst y. exists x. split; [done|]. unfold open_call. by destruct Hpc as [-> | ->].
  - right. pose proof (i_waiters _ Hi _ _ Hw) as Hok. cbn in Hok. rewrite Hm in Hok. injection Hok as ->.
    pose proof (sum_lookup (has_locked e) _ _ _ Hw) as Hl. cbn in Hl. rewrite one_same, (i_locked _ Hi) in Hl.
    by case_bool_decide; [|cbn in Hl; lia].
Qed.


(** C11. The conveyor drains: whatever the order of the steps, the calls under way take at most [effort s] more steps, and as long as a
    worker lives they never get stuck before everything has come to rest, even if no timer ever fires. It needs the conveyor to be
    first in, first out: a session that waits for the lock of its envelope would otherwise block the workers for good. *)
Theorem conveyor_drains size clients s l s' : 0 < size → reachable size clients s → live s →
  forallb internal l = true → play l s = Some s' →
  length l ≤ effort s ∧ (quiet s' ∨ ∃ ch s2, internal ch = true ∧ (∀ e, ch ≠ c_timeout e) ∧ advance ch s' = Some s2).
Proof.
  intros Hsize Hr Hl Hint Hp.
  destruct (run_effort _ _ _ Hl Hint Hp) as [He Hl']. split; [lia|]. assert (Hr' : reachable size clients s') by (unfold reachable in *; etrans; [exact Hr|by eapply play_reachable]).
  destruct (reachable_in_order _ _ _ Hr') as [Ho Hk]. apply conv_Inv in Hr' as Hi.
  apply conv_progress; [done..|by rewrite Hk|done].
Qed.

Example timed_out_runs : ∃ s, play timed_out size_two = Some s ∧ k_replies s =
  [mkReply (mkCall 0 7 TaskSaveMail) None; mkReply (mkCall 0 7 TaskValidateRcpt) (Some (mkCall 0 7 TaskValidateRcpt, answered))]
  ∧ k_worked s = [mkCall 0 7 TaskSaveMail; mkCall 0 7 TaskValidateRcpt] ∧ k_pool s = [0].
Proof. eexists. split; [vm_compute; reflexivity|done]. Qed.
Example two_workers_one_envelope : ∃ s, play two_workers size_two = Some s ∧
  k_workers s = [w_working 0 (mkCall 0 7 TaskValidateRcpt); w_working 1 (mkCall 0 7 TaskValidateRcpt)].
Proof. eexists. split; [vm_compute; reflexivity|done]. Qed.
(** The client of the call leaves: nothing makes mail.Pool wait, and the next client has the envelope while a worker works on it. *)
Example next_client_shares_envelope : ∃ s,
  play [c_call 0 TaskSaveMail None; c_send 0; c_take 0; c_timeout 0; c_lock 0; c_next 0 8] size_two = Some s ∧
  k_workers s !! 0 = Some (w_working 0 (mkCall 0 7 TaskSaveMail)) ∧ s_client <$> k_sessions s !! 0 = Some 8.
Proof. eexists. split; [vm_compute; reflexivity|done]. Qed.
(** A message that Shutdown leaves in the conveyor is processed after the next Start, though its client was told of a timeout. *)
Example processed_after_restart : ∃ s,
  play [c_call 0 TaskSaveMail None; c_send 0; c_timeout 0; c_lock 0; c_stop 0; c_stop 1; c_shut; c_start; c_take 1] size_two = Some s ∧
  k_replies s = [mkReply (mkCall 0 7 TaskSaveMail) None] ∧ k_worked s = [mkCall 0 7 TaskSaveMail].
Proof. eexists. split; [vm_compute; reflexivity|done]. Qed.

(** What a fact of the state a run gives is. *)
Lemma play_fact {A} (f : conv → A) l s s' a : f <$> play l s = Some a → play l s = Some s' → f s' = a.
Proof. intros H E. rewrite E in H. by injection H. Qed.
Lemma each_call_once_witness : ∃ s, reachable 2 [7] s ∧ k_worked s ⊆+ k_made s ∧ length (k_replies s) = 2.
Proof.
  destruct (play timed_out size_two) as [s|] eqn:E; [|vm_compute in E; discriminate E].
  assert (Hr : reachable 2 [7] s) by (exact (play_reachable _ _ _ E)).
  exists s. split; [exact Hr|]. split; [exact (proj1 (proj2 (proj2 (each_call_once 2 [7] s Hr))))|].
  apply (play_fact (λ s, length (k_replies s)) timed_out size_two); [vm_compute; reflexivity|exact E].
Defined.
Lemma work_is_guarded_witness : ∃ s, reachable 2 [7] s ∧ 0 ∈ k_locked s.
Proof.
  destruct (play (take 5 two_workers) size_two) as [s|] eqn:E; [|vm_compute in E; discriminate E].
  assert (Hr : reachable 2 [7] s) by (exact (play_reachable _ _ _ E)). exists s. split; [exact Hr|].
  destruct (work_is_guarded 2 [7] s (mkCall 0 7 TaskValidateRcpt) Hr) as [(x&Hx&Ho)|Hl]; [| |exact Hl].
  - left. exists 0, 0. left. apply (play_fact (λ s, k_workers s !! 0) (take 5 two_workers) size_two); [vm_compute; reflexivity|exact E].
  - exfalso. assert (Hs : k_sessions s !! 0 = Some (mkSession 7 TaskValidateRcpt s_idle)).
    { apply (play_fact (λ s, k_sessions s !! 0) (take 5 two_workers) size_two); [vm_compute; reflexivity|exact E]. }
    rewrite (Hx : k_sessions s !! 0 = Some x) in Hs.
    injection Hs as ->. discriminate Ho.
Defined.
Lemma conveyor_drains_witness : ∃ s, reachable 2 [7] s ∧ effort s = 10 ∧
  ∃ s', play [c_send 0; c_take 0] s = Some s' ∧ (quiet s' ∨ ∃ ch s2, internal ch = true ∧ advance ch s' = Some s2).
Proof.
  destruct (play (take 1 two_workers) size_two) as [s|] eqn:E; [|vm_compute in E; discriminate E].
  assert (Hr : reachable 2 [7] s) by (exact (play_reachable _ _ _ E)). exists s. split; [exact Hr|].
  split; [apply (play_fact effort (take 1 two_workers) size_two); [vm_compute; reflexivity|exact E]|].
  destruct (play [c_send 0; c_take 0] s) as [s'|] eqn:E2.
  2: { assert (Ht : (match play [c_send 0; c_take 0] s with Some _ => true | None => false end) = true).
       { apply (play_fact (λ s, match play [c_send 0; c_take 0] s with Some _ => true | None => false end) (take 1 two_workers) size_two);
           [vm_compute; reflexivity|exact E]. }
       rewrite E2 in Ht. discriminate Ht. }
  exists s'. split; [reflexivity|].
  destruct (conveyor_drains 2 [7] s [c_send 0; c_take 0] s') as [_ [Hq|(ch&s2&Hc&_&Ha)]]; [lia|exact Hr| |reflexivity|exact E2| |].
  - exists 0, w_idle. split; [|discriminate]. apply (play_fact (λ s, k_workers s !! 0) (take 1 two_workers) size_two); [vm_compute; reflexivity|exact E].
  - left. exact Hq.
  - right. exists ch, s2. split; [exact Hc|exact Ha].
Defined.
