(* ===== verification/EmailAddress.v ===== *)
(** * Addresses and message ids of the alias index: backends/email_address.go

    The normal forms under which addresses and message ids are stored and looked up. *)
From S2P Require Import Prelude GoStd Rfc5321 Rfc5322 Shared Envelope.

(** ** UTF-8

    [range] over a string decodes it, and WriteRune encodes it again: bytes that are
    not UTF-8 become U+FFFD. *)
Definition cont (lo hi : Z) (c : ascii) : bool := ((lo <=? code c) && (code c <=? hi))%Z.

(** The length of the character at the front, 0 if it is not a valid one. *)
Definition utf8_len (s : bytes) : nat :=
  match s with
  | [] => 0
  | c0 :: s1 =>
      let b := code c0 in
      if (b <? 0x80)%Z then 1
      else match s1 with
      | [] => 0
      | c1 :: s2 =>
          if cont 0xC2 0xDF c0 then (if cont 0x80 0xBF c1 then 2 else 0)
          else
            let second := if (b =? 0xE0)%Z then cont 0xA0 0xBF c1
                          else if (b =? 0xED)%Z then cont 0x80 0x9F c1
                          else if (b =? 0xF0)%Z then cont 0x90 0xBF c1
                          else if (b =? 0xF4)%Z then cont 0x80 0x8F c1
                          else cont 0x80 0xBF c1 in
            match s2 with
            | c2 :: s3 =>
                if second && cont 0x80 0xBF c2 then
                  if cont 0xE0 0xEF c0 then 3
                  else if cont 0xF0 0xF4 c0 then
                    match s3 with c3 :: _ => if cont 0x80 0xBF c3 then 4 else 0 | [] => 0 end
                  else 0
                else 0
            | [] => 0
            end
      end
  end.
Definition rune_error : bytes := ascii_of_codes [0xEF; 0xBF; 0xBD]%N.
Fixpoint valid_utf8 (fuel : nat) (s : bytes) : bytes :=
  match fuel, s with
  | S f, _ :: s' =>
      match utf8_len s with
      | 0 => rune_error ++ valid_utf8 f s'
      | n => take n s ++ valid_utf8 f (drop n s)
      end
  | _, _ => []
  end.

Section Addresses.
Context {U : Unicode}.

(** The text between the last angle brackets, if they are in order. *)
Definition between_brackets (addr : bytes) : option bytes :=
  match LastIndexByte addr "<", LastIndexByte addr ">" with
  | Some i, Some j => if i <? j then Some (take (j - (i + 1)) (drop (i + 1) addr)) else None
  | _, _ => None
  end.

Definition normalizeEmailAddress (addr : bytes) : outcome unit bytes :=
  let addr := TrimSpace addr in
  match addr with
  | [] => Ok []
  | _ =>
      match NewAddress addr with
      | Ok a => Ok (ToLower (Address_String a))
      | Err _ =>
          match between_brackets addr with
          | Some a => Ok (ToLower (TrimSpace a))
          | None => Ok (ToLower addr)
          end
      | Panic => Panic
      | OutOfFuel => OutOfFuel
      end
  end.

(** ** Message ids *)
Definition normalizeMessageID (id : bytes) : bytes :=
  let id := TrimSpace (Trim (TrimSpace id) "<>") in
  match LastIndexByte id "@" with
  | Some at_ =>
      if (0 <? at_) && (at_ <? length id - 1) then take at_ id ++ "@" ++ ToLower (drop (at_ + 1) id)
      else ToLower id
  | None => ToLower id
  end.

(** The state of the loop: the tokens so far, the builder, and whether a bracket is open. *)
Record tokenizer := mkTokenizer { tk_tokens : list bytes; tk_b : bytes; tk_inAngle : bool }.

(** [tokens = append(tokens, TrimSpace(b)); b.Reset()]. *)
Definition flush_token (t : tokenizer) : tokenizer :=
  mkTokenizer (tk_tokens t ++ [TrimSpace (tk_b t)]) [] (tk_inAngle t).
Definition flush_nonempty (t : tokenizer) : tokenizer :=
  match tk_b t with [] => t | _ => flush_token t end.
Definition write_byte (c : ascii) (t : tokenizer) : tokenizer :=
  mkTokenizer (tk_tokens t) (tk_b t ++ [c]) (tk_inAngle t).
Definition set_inAngle (b : bool) (t : tokenizer) : tokenizer := mkTokenizer (tk_tokens t) (tk_b t) b.

Definition token_step (t : tokenizer) (c : ascii) : tokenizer :=
  if bool_decide (c = "<"%char) then set_inAngle true (flush_nonempty t)
  else if bool_decide (c = ">"%char) then
    if tk_inAngle t then set_inAngle false (flush_token t) else write_byte c t
  else if tk_inAngle t || negb (bool_decide (c ∈ [" "%char; TAB; CR; LF])) then write_byte c t
  else flush_nonempty t.

Definition splitMessageIDTokens (s : bytes) : list bytes :=
  let s := TrimSpace s in
  match s with
  | [] => []
  | _ => tk_tokens (flush_nonempty (foldl token_step (mkTokenizer [] [] false) (valid_utf8 (length s) s)))
  end.

(** Each id once, in the order of the text, none of them empty. *)
Fixpoint distinct_ids (seen : list bytes) (tokens : list bytes) : list bytes :=
  match tokens with
  | [] => []
  | token :: tokens =>
      let norm := normalizeMessageID token in
      if bool_decide (norm = []) || bool_decide (norm ∈ seen) then distinct_ids seen tokens
      else norm :: distinct_ids (norm :: seen) tokens
  end.
Definition parseMessageIDs (headerValue : bytes) : list bytes :=
  match TrimSpace headerValue with
  | [] => []
  | v => distinct_ids [] (splitMessageIDTokens v)
  end.

(** [splitAddresses] of p_ses.go: fields between commas, semicolons and white space. *)
Definition splitAddresses (s : bytes) : list bytes :=
  filter (λ a, a ≠ [])
    (map TrimSpace (FieldsFunc s (λ c, bool_decide (c ∈ [","%char; ";"%char; LF; CR; TAB; " "%char])))).

Fixpoint first_normal (parts : list bytes) : outcome unit bytes :=
  match parts with
  | [] => Ok []
  | p :: parts =>
      match normalizeEmailAddress p with
      | Ok [] => first_normal parts
      | r => r
      end
  end.
Definition extractFirstEmailFromHeader (headerValue : bytes) : outcome unit bytes :=
  let v := TrimSpace headerValue in
  match v with
  | [] => Ok []
  | _ =>
      match NewAddress v with
      | Ok a => Ok (ToLower (Address_String a))
      | Err _ => first_normal (splitAddresses v)
      | Panic => Panic
      | OutOfFuel => OutOfFuel
      end
  end.
End Addresses.

(** * Proofs *)
Section Ids.
Context {U : Unicode}.

Lemma distinct_ids_spec tokens : ∀ seen,
  NoDup (distinct_ids seen tokens) ∧ ([] ∉ distinct_ids seen tokens) ∧
  ∀ id, id ∈ distinct_ids seen tokens → (id ∉ seen) ∧ ∃ token, token ∈ tokens ∧ id = normalizeMessageID token.
Proof.
  induction tokens as [|token tokens IH]; intros seen; cbn [distinct_ids].
  - split_and!; [constructor|by intros ?%elem_of_nil|by intros id ?%elem_of_nil].
  - cbv zeta. destruct (_ || _) eqn:E.
    + destruct (IH seen) as (H1 & H2 & H3). split_and!; [done|done|]. intros id Hid.
      destruct (H3 id Hid) as (Hs & t & Ht & ->). split; [done|]. exists t. by rewrite elem_of_cons; auto.
    + apply orb_false_iff in E as [E1 E2]. apply bool_decide_eq_false in E1, E2.
      destruct (IH (normalizeMessageID token :: seen)) as (H1 & H2 & H3). split_and!.
      * constructor; [|done]. intros Hin. destruct (H3 _ Hin) as [Hs _]. apply Hs, elem_of_cons. by left.
      * rewrite elem_of_cons. intros [E|?]; [by rewrite <- E in E1|done].
      * intros id. rewrite elem_of_cons. intros [->|Hin]; [split; [done|]; exists token; rewrite elem_of_cons; auto|].
        destruct (H3 id Hin) as (Hs & t & Ht & ->). rewrite elem_of_cons in Hs. split; [tauto|].
        exists t. rewrite elem_of_cons. auto.
Qed.
(** The ids of a References header are found once each, in normal form; none is empty. *)
Lemma parseMessageIDs_distinct v :
  NoDup (parseMessageIDs v) ∧ ([] ∉ parseMessageIDs v) ∧
  ∀ id, id ∈ parseMessageIDs v →
    ∃ token, token ∈ splitMessageIDTokens (TrimSpace v) ∧ id = normalizeMessageID token.
Proof.
  unfold parseMessageIDs. destruct (TrimSpace v) as [|c w].
  - split_and!; [constructor|by intros ?%elem_of_nil|by intros id ?%elem_of_nil].
  - destruct (distinct_ids_spec (splitMessageIDTokens (c :: w)) []) as (H1 & H2 & H3). split_and!; [done|done|].
    intros id Hid. by destruct (H3 id Hid).
Qed.
End Ids.

Example parseMessageIDs_references :
  @parseMessageIDs ascii_only "<A@Ex.ORG> <b@x>, <a@ex.org>
 <A@ex.org>" = [bs "A@ex.org"; bs "b@x"; bs ","; bs "a@ex.org"].
Proof. vm_compute. reflexivity. Qed.
(** An address without an at sign, in the header of a message, stops the program. *)
Example normalize_bare_word_hangs : @normalizeEmailAddress ascii_only "root" = OutOfFuel.
Proof. vm_compute. reflexivity. Qed.
