(* ===== verification/AliasStore.v ===== *)
(** * The store of the alias index: backends/alias_store.go

    The tables of the SQLite database are maps from their primary keys. A statement may
    fail, and then changes nothing; a transaction changes the tables when it commits, or
    not at all. The time and the failures are functions of a clock that ticks at every
    statement. The methods are modelled one call at a time: no other goroutine's statements
    come between those of a call. *)
From stdpp Require Import sorting.
From S2P Require Import Prelude GoStd Shared Envelope Tenant EmailAddress.

Definition defaultAliasIndexTTL : Z := (180 * 24 * 60 * minute)%Z.
Definition defaultAliasIndexMaxRows : Z := 100000.
Definition defaultAliasIndexPurge : Z := (60 * minute)%Z.
Definition aliasIndexUIDLBatchSize : nat := Z.to_nat 2000.
Definition aliasIndexSeenMessageBatchSize : nat := Z.to_nat 2000.

Record IMAPCursor := mkIMAPCursor {
  ic_Mailbox : bytes; Folder : bytes; UIDValidity : Z; LastUID : Z; BaselineDone : bool
}.
(** [CreatedAt] is the Unix time; [None] is the zero time. *)
Record AliasThread := mkAliasThread {
  MessageID : bytes; ReplyAs : bytes; OrigFrom : bytes; at_TenantID : bytes; CreatedAt : option Z
}.
Record AliasStoreConfig := mkAliasStoreConfig { DBPath : bytes; TTL : Z; MaxRows : Z; PurgeInterval : Z }.

(** ** The tables *)
Record thread_row := mkRow { reply_as : bytes; orig_from : bytes; tenant_id : bytes; created_at : Z }.
Record database := mkDatabase {
  alias_threads : gmap bytes thread_row;
  alias_index_uidl : gmap (bytes * bytes) Z;
  alias_index_state : gmap bytes bytes;
  alias_index_imap_cursor : gmap (bytes * bytes) (Z * Z * bool);
  alias_index_seen_message : gmap (bytes * bytes) Z
}.
Definition empty_database : database := mkDatabase ∅ ∅ ∅ ∅ ∅.

Inductive store_error : Type :=
| se_path_required
| se_not_open
| se_empty_message_id
| se_addresses_required
| se_sql (m : bytes).
#[export] Instance store_error_eq_dec : EqDecision store_error.
Proof. solve_decision. Defined.

(** The text of an error of the store. *)
Definition store_err_text (e : store_error) : bytes :=
  match e with
  | se_path_required => bs "alias_db_path is required"
  | se_not_open => bs "alias store not open"
  | se_empty_message_id => bs "empty message_id"
  | se_addresses_required => bs "reply_as and orig_from are required"
  | se_sql m => m
  end.

(** The nil store or the nil handle, an open handle, and one that was closed. *)
Inductive db_handle : Type := db_nil | db_open | db_closed.
#[export] Instance db_handle_eq_dec : EqDecision db_handle.
Proof. solve_decision. Defined.
Record AliasStore := mkAliasStore { db : db_handle; config : AliasStoreConfig; data : database; sql_now : nat }.

(** The database: whether the statement at a moment fails, the time in nanoseconds, and the order in
    which ORDER BY lists the rows of one creation time. *)
Class SQL := {
  sql_fails : nat → option bytes;
  nanotime : nat → Z;
  order_by_created_at : nat → list (bytes * thread_row) → list (bytes * thread_row)
}.
Class SQLLaws `{SQL} : Prop := {
  order_permutes t l : order_by_created_at t l ≡ₚ l;
  order_sorts t l : Sorted (λ x y, (created_at (x.2) ≤ created_at (y.2))%Z) (order_by_created_at t l)
}.

Abbreviation Store := (M AliasStore store_error).

Definition set_data (d : database) (s : AliasStore) : AliasStore := mkAliasStore (db s) (config s) d (sql_now s).
Definition set_threads (v : gmap bytes thread_row) (d : database) : database :=
  mkDatabase v (alias_index_uidl d) (alias_index_state d) (alias_index_imap_cursor d) (alias_index_seen_message d).
Definition set_uidl (v : gmap (bytes * bytes) Z) (d : database) : database :=
  mkDatabase (alias_threads d) v (alias_index_state d) (alias_index_imap_cursor d) (alias_index_seen_message d).
Definition set_index_state (v : gmap bytes bytes) (d : database) : database :=
  mkDatabase (alias_threads d) (alias_index_uidl d) v (alias_index_imap_cursor d) (alias_index_seen_message d).
Definition set_cursors (v : gmap (bytes * bytes) (Z * Z * bool)) (d : database) : database :=
  mkDatabase (alias_threads d) (alias_index_uidl d) (alias_index_state d) v (alias_index_seen_message d).
Definition set_seen (v : gmap (bytes * bytes) Z) (d : database) : database :=
  mkDatabase (alias_threads d) (alias_index_uidl d) (alias_index_state d) (alias_index_imap_cursor d) v.

Section Store.
Context {U : Unicode} {Q : SQL} {Du : Durations}.

(** A point at which the database may fail. *)
Definition statement : Store nat := λ s,
  let s' := mkAliasStore (db s) (config s) (data s) (S (sql_now s)) in
  match db s, sql_fails (sql_now s) with
  | db_nil, _ => (Panic, s)
  | db_closed, _ => (Err (se_sql (bs "sql: database is closed")), s')
  | db_open, Some m => (Err (se_sql m), s')
  | db_open, None => (Ok (sql_now s), s')
  end.
Definition Exec (f : database → database) : Store unit :=
  statement;; modify (λ s, set_data (f (data s)) s).
Definition QueryRow {A} (f : database → A) : Store A := statement;; gets (λ s, f (data s)).
Definition Now : Store Z := gets (λ s, (nanotime (sql_now s) / second)%Z).

Definition is_open : Store unit :=
  h ← gets db; if decide (h = db_nil) then fail se_not_open else mret tt.

(** Begin, Prepare, the statements on what the transaction sees, Commit. *)
Fixpoint run_stmts (fs : list (database → database)) (d : database) : Store database :=
  match fs with
  | [] => mret d
  | f :: fs => statement;; run_stmts fs (f d)
  end.
Definition transaction (stmts : Z → list (database → database)) : Store unit :=
  statement;;
  statement;;
  now ← Now;
  d ← gets data;
  d' ← run_stmts (stmts now) d;
  statement;;
  modify (set_data d').

(** INSERT … ON CONFLICT DO NOTHING. *)
Definition insert_new {K V} `{Countable K} (k : K) (v : V) (m : gmap K V) : gmap K V :=
  match m !! k with Some _ => m | None => <[k := v]> m end.

(** The settings of OpenAliasStore. *)
Definition store_config (cfg : AliasStoreConfig) : outcome store_error AliasStoreConfig :=
  match TrimSpace (DBPath cfg) with
  | [] => Err se_path_required
  | path => Ok (mkAliasStoreConfig path
      (if (TTL cfg <=? 0)%Z then defaultAliasIndexTTL else TTL cfg)
      (if (MaxRows cfg <=? 0)%Z then defaultAliasIndexMaxRows else MaxRows cfg)
      (if (PurgeInterval cfg <=? 0)%Z then defaultAliasIndexPurge else PurgeInterval cfg))
  end.

(** ** The migration of the table of POP3 ids

    The table of the first version has the id alone for its key. A table under the two
    names that the migration uses, in either form. *)
Inductive uidl_table : Type :=
| by_uidl (rows : gmap bytes Z)
| by_mailbox (rows : gmap (bytes * bytes) Z).
Record schema := mkSchema { uidl_named : option uidl_table; uidl_v2_named : option uidl_table; sch_now : nat }.
Abbreviation Migration := (M schema store_error).

Definition ddl (f : option uidl_table → option uidl_table → option (option uidl_table * option uidl_table)) :
    Migration unit := λ s,
  match sql_fails (sch_now s) with
  | Some m => (Err (se_sql m), mkSchema (uidl_named s) (uidl_v2_named s) (S (sch_now s)))
  | None =>
      match f (uidl_named s) (uidl_v2_named s) with
      | Some (t, v2) => (Ok tt, mkSchema t v2 (S (sch_now s)))
      | None => (Err (se_sql (bs "SQL logic error")), mkSchema (uidl_named s) (uidl_v2_named s) (S (sch_now s)))
      end
  end.
Definition or_empty (t : option uidl_table) : option uidl_table :=
  match t with None => Some (by_mailbox ∅) | t => t end.
(** CREATE TABLE IF NOT EXISTS of the two names. *)
Definition create_uidl : Migration unit := ddl (λ t v2, Some (or_empty t, v2)).
Definition create_uidl_v2 : Migration unit := ddl (λ t v2, Some (t, or_empty v2)).
(** INSERT OR IGNORE INTO … SELECT: the rows of a table without mailboxes, under the empty mailbox. *)
Definition copy_rows (t v2 : option uidl_table) : option (option uidl_table * option uidl_table) :=
  match t, v2 with
  | Some (by_uidl old), Some (by_mailbox rows) =>
      Some (t, Some (by_mailbox (rows ∪ kmap (λ u, ([] : bytes, u)) old)))
  | _, _ => None
  end.
Definition drop_uidl (t v2 : option uidl_table) : option (option uidl_table * option uidl_table) :=
  match t with Some _ => Some (None, v2) | None => None end.
Definition rename_v2 (t v2 : option uidl_table) : option (option uidl_table * option uidl_table) :=
  match t, v2 with None, Some _ => Some (v2, None) | _, _ => None end.
Definition migrateUIDLTable : Migration unit :=
  ddl (λ t v2, Some (t, v2));;
  t ← gets uidl_named;
  match (t : option uidl_table) with
  | Some (by_mailbox _) => mret tt
  | _ => create_uidl_v2;; ddl copy_rows;; ddl drop_uidl;; ddl rename_v2
  end.
(** What [migrate] does with the table of POP3 ids. *)
Definition migrate : Migration unit := create_uidl;; migrateUIDLTable.

Definition Close : Store unit := modify (λ s,
  if decide (db s = db_nil) then s else mkAliasStore db_closed (config s) (data s) (sql_now s)).

(** ** Threads *)
Definition normal (addr : bytes) : Store bytes :=
  match normalizeEmailAddress addr with
  | Ok a => mret a
  | Err _ | Panic => panic
  | OutOfFuel => out_of_fuel
  end.

Definition UpsertThread (thread : AliasThread) : Store unit :=
  is_open;;
  let messageID := normalizeMessageID (MessageID thread) in
  if bool_decide (messageID = []) then fail se_empty_message_id
  else
    replyAs ← normal (ReplyAs thread);
    origFrom ← normal (OrigFrom thread);
    if bool_decide (replyAs = []) || bool_decide (origFrom = []) then fail se_addresses_required
    else
      now ← Now;
      let created := default now (CreatedAt thread) in
      let tenantID := TrimSpace (at_TenantID thread) in
      Exec (λ d, set_threads (<[messageID := mkRow replyAs origFrom tenantID created]> (alias_threads d)) d).

Definition thread_of (id : bytes) (r : thread_row) : AliasThread :=
  mkAliasThread id (reply_as r) (orig_from r) (tenant_id r) (Some (created_at r)).

Definition LookupThread (messageID : bytes) : Store (option AliasThread) :=
  is_open;;
  let messageID := normalizeMessageID messageID in
  if bool_decide (messageID = []) then mret None
  else
    r ← QueryRow (λ d, alias_threads d !! messageID);
    mret (thread_of messageID <$> r).

Fixpoint LookupAnyThread (messageIDs : list bytes) : Store (option AliasThread * bytes) :=
  match messageIDs with
  | [] => mret (None, [])
  | raw :: messageIDs =>
      t ← LookupThread raw;
      match (t : option AliasThread) with
      | Some t => mret (Some t, normalizeMessageID raw)
      | None => LookupAnyThread messageIDs
      end
  end.


Definition PurgeExpired : Store unit :=
  is_open;;
  now ← gets (λ s, nanotime (sql_now s));
  cfg ← gets config;
  let cutoff := ((now - TTL cfg) / second)%Z in
  Exec (λ d, set_threads (filter (λ kr, ¬ (created_at kr.2 < cutoff)%Z) (alias_threads d)) d);;
  count ← QueryRow (λ d, Z.of_nat (size (alias_threads d)));
  if (count <=? MaxRows cfg)%Z then mret tt
  else
    t ← gets sql_now;
    let excess := Z.to_nat (count - MaxRows cfg) in
    Exec (λ d,
      let oldest := take excess (order_by_created_at t (map_to_list (alias_threads d))) in
      set_threads (filter (λ kr, kr.1 ∉ oldest.*1) (alias_threads d)) d).

(** ** The baseline, POP3 ids, IMAP cursors, and messages that were seen *)
Definition HasBaseline (key : bytes) : Store bool :=
  is_open;;
  v ← QueryRow (λ d, alias_index_state d !! key);
  mret (bool_decide (v = Some (bs "baseline"))).
Definition SetBaseline (key : bytes) : Store unit :=
  is_open;; Exec (λ d, set_index_state (<[key := bs "baseline"]> (alias_index_state d)) d).

Definition IsKnownUIDL (mailbox uidl : bytes) : Store bool :=
  is_open;;
  let mailbox := TrimSpace mailbox in
  let uidl := TrimSpace uidl in
  if bool_decide (uidl = []) then mret false
  else
    v ← QueryRow (λ d, alias_index_uidl d !! (mailbox, uidl));
    mret (if v is Some _ then true else false).
Definition MarkUIDLKnown (mailbox uidl : bytes) : Store unit :=
  is_open;;
  let mailbox := TrimSpace mailbox in
  let uidl := TrimSpace uidl in
  if bool_decide (uidl = []) then mret tt
  else
    now ← Now;
    Exec (λ d, set_uidl (insert_new (mailbox, uidl) now (alias_index_uidl d)) d).

(** The statements of a batch: the values that are not empty. *)
Definition uidl_stmts (mailbox : bytes) (uidls : list bytes) (now : Z) : list (database → database) :=
  map (λ u d, set_uidl (insert_new (mailbox, u) now (alias_index_uidl d)) d)
    (filter (λ u, u ≠ []) (map TrimSpace uidls)).
Definition markUIDLsKnownBatch (mailbox : bytes) (uidls : list bytes) : Store unit :=
  match uidls with [] => mret tt | _ => transaction (uidl_stmts mailbox uidls) end.

(** [for start := 0; start < len(l); start += size]. *)
Fixpoint in_batches {A} (fuel size : nat) (batch : list A → Store unit) (l : list A) : Store unit :=
  match fuel, l with
  | S f, _ :: _ => batch (take size l);; in_batches f size batch (drop size l)
  | _, _ => mret tt
  end.
Definition MarkUIDLsKnown (mailbox : bytes) (uidls : list bytes) : Store unit :=
  in_batches (length uidls) aliasIndexUIDLBatchSize (markUIDLsKnownBatch (TrimSpace mailbox)) uidls.

Definition KnownUIDLsForMailbox (mailbox : bytes) : Store (gset bytes) :=
  is_open;;
  let mailbox := TrimSpace mailbox in
  QueryRow (λ d, list_to_set (omap (λ kv, if bool_decide (kv.1.1 = mailbox) then Some kv.1.2 else None)
    (map_to_list (alias_index_uidl d)))).

Definition GetIMAPCursor (mailbox folder : bytes) : Store (option IMAPCursor) :=
  is_open;;
  let mailbox := TrimSpace mailbox in
  let folder := TrimSpace folder in
  v ← QueryRow (λ d, alias_index_imap_cursor d !! (mailbox, folder));
  mret ((λ '(uidvalidity, last, done_), mkIMAPCursor mailbox folder uidvalidity last done_) <$> v).
Definition SetIMAPCursor (cursor : IMAPCursor) : Store unit :=
  is_open;;
  Exec (λ d, set_cursors (<[(TrimSpace (ic_Mailbox cursor), TrimSpace (Folder cursor)) :=
    (UIDValidity cursor, LastUID cursor, BaselineDone cursor)]> (alias_index_imap_cursor d)) d).
Definition DeleteIMAPCursor (mailbox folder : bytes) : Store unit :=
  is_open;;
  Exec (λ d, set_cursors (delete (TrimSpace mailbox, TrimSpace folder) (alias_index_imap_cursor d)) d).

Definition IsSeenMessage (mailbox messageID : bytes) : Store bool :=
  is_open;;
  let messageID := normalizeMessageID messageID in
  if bool_decide (messageID = []) then mret false
  else
    v ← QueryRow (λ d, alias_index_seen_message d !! (TrimSpace mailbox, messageID));
    mret (if v is Some _ then true else false).
Definition MarkSeenMessage (mailbox messageID : bytes) : Store unit :=
  is_open;;
  let messageID := normalizeMessageID messageID in
  if bool_decide (messageID = []) then mret tt
  else
    now ← Now;
    Exec (λ d, set_seen (insert_new (TrimSpace mailbox, messageID) now (alias_index_seen_message d)) d).

Definition seen_stmts (mailbox : bytes) (ids : list bytes) (now : Z) : list (database → database) :=
  map (λ i d, set_seen (insert_new (mailbox, i) now (alias_index_seen_message d)) d)
    (filter (λ i, i ≠ []) (map normalizeMessageID ids)).
Definition markSeenMessagesBatch (mailbox : bytes) (ids : list bytes) : Store unit :=
  match ids with [] => mret tt | _ => transaction (seen_stmts mailbox ids) end.
Definition MarkSeenMessages (mailbox : bytes) (ids : list bytes) : Store unit :=
  in_batches (length ids) aliasIndexSeenMessageBatchSize (markSeenMessagesBatch (TrimSpace mailbox)) ids.

(** [180d] or a duration of the standard library; the days are multiplied as int64. *)
Definition wrap64 (z : Z) : Z := ((z + 2 ^ 63) mod 2 ^ 64 - 2 ^ 63)%Z.
Definition ParseAliasDuration (s : bytes) : option Z :=
  let s := TrimSpace s in
  match s with
  | [] => Some 0%Z
  | _ =>
      if HasSuffix s "d" then (λ days, wrap64 (days * (24 * 60 * minute))) <$> Atoi (TrimSuffix s "d")
      else parse_duration s
  end.

(** ** Specification: a store after a statement, the rows that a purge leaves if there is room *)
Definition after (s : AliasStore) (d : database) : AliasStore := mkAliasStore (db s) (config s) d (S (sql_now s)).

(** The rows within their time to live, at the time of a purge. *)
Definition unexpired (s : AliasStore) : gmap bytes thread_row :=
  filter (λ kr, ¬ (created_at kr.2 < (nanotime (sql_now s) - TTL (config s)) / second)%Z) (alias_threads (data s)).
(** All statements of a transaction. *)
Definition run_all (fs : list (database → database)) (d : database) : database := foldl (λ d f, f d) d fs.
(** The keys of the ids of a list that are not blank. *)
Definition uidl_keys (mailbox : bytes) (uidls : list bytes) : gset (bytes * bytes) :=
  list_to_set (map (pair mailbox) (filter (λ u, u ≠ []) (map TrimSpace uidls))).
(** The ids [pre] were added to the tables [d]. *)
Definition uidls_added (mb : bytes) (pre : list bytes) (d d' : database) : Prop :=
  set_uidl (alias_index_uidl d') d = d' ∧ alias_index_uidl d ⊆ alias_index_uidl d' ∧
  dom (alias_index_uidl d') = dom (alias_index_uidl d) ∪ uidl_keys mb pre.
End Store.

(** ** Notions used by the statements *)

(** A database that answers until a moment, a clock of one second per statement, and an order by sorting. *)
Definition created_le (x y : bytes * thread_row) : Prop := (created_at (x.2) ≤ created_at (y.2))%Z.

#[local] Instance created_le_dec : RelDecision created_le := λ x y, Z.le_dec _ _.
Definition test_sql (fails_at : nat) : SQL := {|
  sql_fails t := if Nat.eqb t fails_at then Some (bs "disk I/O error") else None;
  nanotime t := ((1000 + Z.of_nat t) * second)%Z;
  order_by_created_at _ l := merge_sort created_le l
|}.

Definition test_store (max : Z) (d : database) : AliasStore :=
  mkAliasStore db_open (mkAliasStoreConfig "alias.db" (100 * second)%Z max second) d 0.

Definition test_thread : AliasThread :=
  mkAliasThread " <Abc@EX.org>" "Sales <SALES@a.example>" "joe@b.example" " acme " None.

Definition row_at (t : Z) : thread_row := mkRow "s@a.example" "j@b.example" "acme" t.

Definition test_rows : database :=
  set_threads (list_to_map [(bs "a@x", row_at 950); (bs "b@x", row_at 920); (bs "c@x", row_at 10); (bs "d@x", row_at 930)])
    empty_database.

Definition old_schema : schema := mkSchema (Some (by_uidl {[ bs "7" := 3%Z ]})) None 0.

(** * Proofs *)

Section Proofs.
Context {U : Unicode} {Q : SQL} {Du : Durations}.
Implicit Types (s : AliasStore) (d : database).

(** What a statement does when the call succeeds. *)
Lemma statement_ok s t s' : statement s = (Ok t, s') →
  db s = db_open ∧ sql_fails (sql_now s) = None ∧ t = sql_now s ∧ s' = after s (data s).
Proof.
  unfold statement. destruct (db s) eqn:Hd, (sql_fails (sql_now s)) eqn:Hf; try discriminate.
  intros [= <- <-]. unfold after. rewrite Hd. done.
Qed.
Lemma statement_runs s : db s = db_open → sql_fails (sql_now s) = None →
  statement s = (Ok (sql_now s), after s (data s)).
Proof. unfold statement, after. by intros -> ->. Qed.
Lemma Exec_ok f s s' : Exec f s = (Ok tt, s') →
  db s = db_open ∧ sql_fails (sql_now s) = None ∧ s' = after s (f (data s)).
Proof.
  unfold Exec, mbind, M_bind. destruct (statement s) as [[] ?] eqn:Hs; try discriminate.
  apply statement_ok in Hs as (?&?&_&->). intros [= <-]. done.
Qed.
Lemma Exec_runs f s : db s = db_open → sql_fails (sql_now s) = None → Exec f s = (Ok tt, after s (f (data s))).
Proof. intros H1 H2. unfold Exec, mbind, M_bind. by rewrite statement_runs. Qed.
Lemma QueryRow_runs {A} (f : database → A) s : db s = db_open → sql_fails (sql_now s) = None →
  QueryRow f s = (Ok (f (data s)), after s (data s)).
Proof. intros H1 H2. unfold QueryRow, mbind, M_bind. by rewrite statement_runs. Qed.
Lemma QueryRow_ok {A} (f : database → A) s a s' : QueryRow f s = (Ok a, s') →
  db s = db_open ∧ sql_fails (sql_now s) = None ∧ a = f (data s) ∧ s' = after s (data s).
Proof.
  unfold QueryRow, mbind, M_bind. destruct (statement s) as [[] ?] eqn:Hs; try discriminate.
  apply statement_ok in Hs as (?&?&_&->). intros [= <- <-]. done.
Qed.
(** What fails changes no table. *)
Lemma statement_err s e s' : statement s = (Err e, s') → data s' = data s.
Proof. unfold statement. destruct (db s), (sql_fails (sql_now s)); try discriminate; by intros [= _ <-]. Qed.
Lemma Exec_err f s e s' : Exec f s = (Err e, s') → data s' = data s.
Proof. by intros [?%statement_err|(?&?&_&[=])]%bind_err. Qed.
Lemma QueryRow_err {A} (f : database → A) s e s' : QueryRow f s = (Err e, s') → data s' = data s.
Proof. by intros [?%statement_err|(?&?&_&[=])]%bind_err. Qed.
Lemma is_open_err s e s' : is_open s = (Err e, s') → s' = s.
Proof. unfold is_open, mbind, M_bind, gets. destruct (decide _); [by intros [= _ <-]|discriminate]. Qed.
Lemma is_open_runs s : db s ≠ db_nil → is_open s = (Ok tt, s).
Proof. intros H. unfold is_open, mbind, M_bind, gets. by rewrite decide_False. Qed.
Lemma is_open_ok s a s' : is_open s = (Ok a, s') → db s ≠ db_nil ∧ s' = s.
Proof. unfold is_open, mbind, M_bind, gets. destruct (decide _); [discriminate|]. intros [= _ <-]. done. Qed.

(** Every outcome of a call of one statement. *)
Lemma Exec_inv f s r s' : Exec f s = (r, s') → data s' = match r with Ok _ => f (data s) | _ => data s end.
Proof.
  unfold Exec, mbind, M_bind, statement.
  destruct (db s), (sql_fails (sql_now s)); intros [= <- <-]; done.
Qed.
Lemma QueryRow_inv {A} (f : database → A) s r s' : QueryRow f s = (r, s') →
  data s' = data s ∧ ∀ a, r = Ok a → a = f (data s) ∧ db s' = db_open.
Proof.
  unfold QueryRow, mbind, M_bind, statement.
  destruct (db s) eqn:?, (sql_fails (sql_now s)); intros [= <- <-]; (split; [done|]); naive_solver.
Qed.
Lemma opened_inv {A} (m : Store A) s r s' : (is_open;; m) s = (r, s') →
  m s = (r, s') ∨ s' = s ∧ ∃ e, r = Err e.
Proof.
  unfold is_open, mbind, M_bind, gets. destruct (decide (db s = db_nil)); [|by left].
  intros [= <- <-]. right. eauto.
Qed.

(** A relation of tables that every statement of a call preserves. *)
Definition on_data (R : database → database → Prop) (s s' : AliasStore) : Prop := R (data s) (data s').
#[export] Instance on_data_pre R `{!PreOrder R} : PreOrder (on_data R).
Proof. split; [by intros s; unfold on_data|intros s1 s2 s3; unfold on_data; apply transitivity]. Qed.
Lemma preserves_statement R `{!PreOrder R} : preserves (on_data R) statement.
Proof. intros s. unfold statement, on_data. by destruct (db s), (sql_fails (sql_now s)). Qed.
Lemma preserves_Exec R `{!PreOrder R} f : (∀ d, R d (f d)) → preserves (on_data R) (Exec f).
Proof. intros Hf. apply preserves_bind; [apply _|by apply preserves_statement|]. intros ?. apply preserves_modify. intros s. apply Hf. Qed.
Lemma preserves_QueryRow R `{!PreOrder R} {A} (f : database → A) : preserves (on_data R) (QueryRow f).
Proof. apply preserves_bind; [apply _|by apply preserves_statement|]. intros ?. apply preserves_gets, _. Qed.
Lemma preserves_is_open R `{!PreOrder R} : preserves (on_data R) is_open.
Proof. intros s. unfold is_open, mbind, M_bind, gets, on_data. by destruct (decide _). Qed.
Lemma preserves_normal R `{!PreOrder R} addr : preserves (on_data R) (normal addr).
Proof. intros s. unfold normal, on_data. by destruct (normalizeEmailAddress addr). Qed.

Lemma normal_ok addr s a s' : normal addr s = (Ok a, s') → normalizeEmailAddress addr = Ok a ∧ s' = s.
Proof. unfold normal. destruct (normalizeEmailAddress addr); [|discriminate..]. intros [= <- <-]. done. Qed.

Lemma UpsertThread_ok t s s' : UpsertThread t s = (Ok tt, s') →
  ∃ reply orig, normalizeEmailAddress (ReplyAs t) = Ok reply ∧ normalizeEmailAddress (OrigFrom t) = Ok orig ∧
    reply ≠ [] ∧ orig ≠ [] ∧ normalizeMessageID (MessageID t) ≠ [] ∧ db s = db_open ∧
    s' = after s (set_threads (<[normalizeMessageID (MessageID t) :=
      mkRow reply orig (TrimSpace (at_TenantID t)) (default (nanotime (sql_now s) / second)%Z (CreatedAt t))]>
        (alias_threads (data s))) (data s)).
Proof.
  intros ([]&s1&H1&H)%bind_ok. apply is_open_ok in H1 as [_ ->].
  cbn zeta in H. case_bool_decide as Hid; [discriminate|].
  apply bind_ok in H as (reply&s2&Hr&H). apply normal_ok in Hr as [Hr ->].
  apply bind_ok in H as (orig&s3&Ho&H). apply normal_ok in Ho as [Ho ->].
  destruct (bool_decide (reply = []) || bool_decide (orig = [])) eqn:Hb; [discriminate|]. bool_hyps.
  apply bind_ok in H as (now&s4&Hn&H). unfold Now, gets in Hn. injection Hn as <- <-.
  apply Exec_ok in H as (?&_&->). by exists reply, orig.
Qed.
Lemma LookupThread_runs id s : db s = db_open → sql_fails (sql_now s) = None → normalizeMessageID id ≠ [] →
  LookupThread id s = (Ok (thread_of (normalizeMessageID id) <$> alias_threads (data s) !! normalizeMessageID id),
    after s (data s)).
Proof.
  intros H1 H2 H3. unfold LookupThread. rewrite (bind_runs _ _ _ tt s) by (apply is_open_runs; by rewrite H1).
  cbn zeta. rewrite bool_decide_eq_false_2 by done. erewrite bind_runs by (by apply QueryRow_runs). done.
Qed.

(** What is stored is found again. After a successful UpsertThread, LookupThread with
    any spelling of the message id (spaces, angle brackets and the case of the domain do
    not matter) returns the normal forms of the addresses, the trimmed tenant and the
    creation time, the present if there was none; a lookup of any other message id returns what
    it would have returned without the insertion. *)
Lemma thread_round_trip t id s s' :
  UpsertThread t s = (Ok tt, s') →
  sql_fails (sql_now s') = None →
  normalizeMessageID id = normalizeMessageID (MessageID t) →
  ∃ reply orig, normalizeEmailAddress (ReplyAs t) = Ok reply ∧ normalizeEmailAddress (OrigFrom t) = Ok orig ∧
    (LookupThread id s').1 = Ok (Some (mkAliasThread (normalizeMessageID id) reply orig (TrimSpace (at_TenantID t))
      (Some (default (nanotime (sql_now s) / second)%Z (CreatedAt t))))) ∧
    ∀ other, normalizeMessageID other ≠ normalizeMessageID id → normalizeMessageID other ≠ [] →
      (LookupThread other s').1 = (LookupThread other (after s (data s))).1.
Proof.
  intros (reply&orig&Hr&Ho&_&_&Hid&Hd&->)%UpsertThread_ok Hf Heq.
  exists reply, orig. split_and!; [done..| |].
  - rewrite LookupThread_runs by (done || by rewrite Heq). cbn. by rewrite Heq, lookup_insert_eq.
  - intros other Hne Hn. rewrite !LookupThread_runs by done. cbn. by rewrite lookup_insert_ne by congruence.
Qed.

(** ** PurgeExpired *)
Lemma after_take {A} (R : A → A → Prop) `{!Transitive R} (l : list A) n x y :
  Sorted R l → x ∈ take n l → y ∈ drop n l → R x y.
Proof.
  intros Hl%Sorted_StronglySorted Hx Hy; [|done].
  apply (StronglySorted_app_1_elem_of R (take n l) (drop n l)); [by rewrite take_drop|done..].
Qed.
(** Without the keys of the first rows of a listing, a table has the rows that follow. *)
Lemma without_first_rows {V} (m : gmap bytes V) (l : list (bytes * V)) n : l ≡ₚ map_to_list m →
  map_to_list (filter (λ kr, kr.1 ∉ (take n l).*1) m) ≡ₚ drop n l.
Proof.
  intros Hl. assert (Hk : NoDup (l.*1)) by (rewrite Hl; apply NoDup_fst_map_to_list).
  assert (Hn : NoDup l) by (by apply NoDup_fmap_1 in Hk).
  rewrite <- (take_drop n l), fmap_app in Hk. apply list.NoDup_app in Hk as (_&Hk&_).
  apply list.NoDup_Permutation; [apply NoDup_map_to_list| |intros [k v]].
  { rewrite <- (take_drop n l) in Hn. by apply list.NoDup_app in Hn as (_&_&?). }
  rewrite elem_of_map_to_list, map_lookup_filter_Some, <- elem_of_map_to_list, <- Hl. cbn. split.
  - intros [Hin Hnot]. rewrite <- (take_drop n l) in Hin. apply elem_of_app in Hin as [Hin|]; [|done].
    destruct Hnot. by apply (list_elem_of_fmap_2 fst) in Hin.
  - intros Hin. split.
    + rewrite <- (take_drop n l). apply elem_of_app. by right.
    + intros Hk'. apply (Hk k Hk'). by apply (list_elem_of_fmap_2 fst) in Hin.
Qed.

Lemma PurgeExpired_ok s s' : PurgeExpired s = (Ok tt, s') →
  let excess := Z.to_nat (Z.of_nat (size (unexpired s)) - MaxRows (config s)) in
  ∃ t, alias_threads (data s') = filter (λ kr,
    kr.1 ∉ (take excess (order_by_created_at t (map_to_list (unexpired s)))).*1) (unexpired s).
Proof.
  intros ([]&s1&H1&H)%bind_ok. apply is_open_ok in H1 as [_ ->].
  apply bind_ok in H as (now&s2&Hn&H). injection Hn as <- <-.
  apply bind_ok in H as (cfg&s3&Hc&H). injection Hc as <- <-. cbn zeta in H.
  apply bind_ok in H as ([]&s4&H1&H). apply Exec_ok in H1 as (_&_&->).
  apply bind_ok in H as (count&s5&Hq&H). apply QueryRow_ok in Hq as (_&_&->&->).
  cbn [after data alias_threads set_threads] in H. fold (unexpired s) in H.
  destruct (Z.leb_spec (Z.of_nat (size (unexpired s))) (MaxRows (config s))).
  - injection H as <-. exists 0. replace (Z.to_nat _) with 0 by lia. cbn.
    symmetry. apply map_filter_id. intros. apply not_elem_of_nil.
  - apply bind_ok in H as (t&s6&Ht&H). injection Ht as <- <-. apply Exec_ok in H as (_&_&->).
    eexists. reflexivity.
Qed.

(** C36. PurgeExpired keeps the index within its bounds and drops the oldest rows only. When
    it succeeds, every row that is left was there and is within its time to live; there are
    as many as the limit allows, no fewer unless there are no more rows; and no row
    that was dropped for want of room is newer than a row that was kept. *)
Theorem PurgeExpired_bounds `{!SQLLaws} s s' :
  PurgeExpired s = (Ok tt, s') →
  (0 ≤ MaxRows (config s))%Z →
  let kept := alias_threads (data s') in
  kept ⊆ unexpired s ∧
  Z.of_nat (size kept) = Z.min (Z.of_nat (size (unexpired s))) (MaxRows (config s)) ∧
  ∀ id r id' r', unexpired s !! id = Some r → kept !! id = None → kept !! id' = Some r' →
    (created_at r ≤ created_at r')%Z.
Proof.
  intros [t Ht]%PurgeExpired_ok Hm. cbn zeta in *. rewrite Ht. clear Ht.
  set (n := Z.to_nat _). set (l := order_by_created_at t _).
  assert (Hl : l ≡ₚ map_to_list (unexpired s)) by apply order_permutes.
  pose proof (without_first_rows _ _ n Hl) as Hk. split_and!.
  - apply map_filter_subseteq.
  - rewrite <- (length_map_to_list (filter _ _)), Hk, length_drop, Hl, length_map_to_list. unfold n. lia.
  - intros id r id' r' Hr Hdropped%map_lookup_filter_None Hkept%elem_of_map_to_list.
    rewrite Hk in Hkept. assert (Hin : (id, r) ∈ l) by by rewrite Hl, elem_of_map_to_list.
    assert (Htrans : Transitive (λ x y : bytes * thread_row, created_at x.2 ≤ created_at y.2)%Z)
      by (intros ???; lia).
    apply (after_take _ l n (id, r) (id', r') (order_sorts t _)); [|done].
    rewrite <- (take_drop n l) in Hin. apply elem_of_app in Hin as [|Hin]; [done|].
    rewrite <- Hk in Hin. apply elem_of_map_to_list, map_lookup_filter_Some in Hin as [_ Hin].
    destruct Hdropped as [|Hdropped]; [congruence|]. by destruct (Hdropped r Hr).
Qed.

(** ** Batches *)
Lemma run_stmts_returns fs : ∀ d s, db s = db_open →
  wp (run_stmts fs d) (λ d' s', d' = run_all fs d ∧ data s' = data s ∧ db s' = db_open)
    (λ _ s', data s' = data s ∧ db s' = db_open) s.
Proof.
  induction fs as [|f fs IH]; intros d s Hd; [done|]. cbn [run_stmts]. wp_step.
  unfold wp at 1, statement. rewrite Hd. destruct (sql_fails _); [done|].
  by apply (IH (f d) (mkAliasStore db_open (config s) (data s) (S (sql_now s)))).
Qed.
Lemma transaction_returns stmts s : db s = db_open →
  wp (transaction stmts) (λ _ s', (∃ now, data s' = run_all (stmts now) (data s)) ∧ db s' = db_open)
    (λ _ s', data s' = data s ∧ db s' = db_open) s.
Proof.
  assert (Hst : ∀ s0 Q, db s0 = db_open → (∀ s1, data s1 = data s0 → db s1 = db_open → Q s1) →
    wp statement (λ _ s', Q s') (λ _ s', data s' = data s0 ∧ db s' = db_open) s0).
  { intros s0 Q' H0 HQ. unfold wp, statement. rewrite H0. destruct (sql_fails _); [done|]. by apply HQ. }
  intros Hd. unfold transaction, Now. wp_step. apply Hst; [done|]. intros s1 <- H1.
  wp_step. apply Hst; [done|]. intros s2 <- H2. do 5 wp_step.
  eapply wp_mono; [by apply run_stmts_returns| |done]. intros d' s3 (->&Hd3&H3).
  wp_step. rewrite <- Hd3. apply Hst; [done|]. intros s4 _ H4. wp_step. cbn. eauto.
Qed.

(** Every outcome of a transaction, on a database that may be closed. *)
Lemma transaction_inv stmts s r s' : transaction stmts s = (r, s') →
  data s' = data s ∨ is_ok r = true ∧ ∃ now, data s' = run_all (stmts now) (data s).
Proof.
  intros H. destruct (decide (db s = db_open)) as [Ho|Ho].
  - pose proof (transaction_returns stmts s Ho) as Hw. unfold wp in Hw. rewrite H in Hw.
    destruct r as [[]|e| |]; [|by destruct Hw; left|done..]. destruct Hw as [Hn _]. by right.
  - left. unfold transaction in H. apply bind_inv in H as [(t&s1&Hs&_)|(_&r0&Hs&_)].
    + by apply statement_ok in Hs as [? _].
    + revert Hs. unfold statement. destruct (db s), (sql_fails (sql_now s)); by intros [= _ <-].
Qed.
Lemma preserves_transaction R `{!PreOrder R} stmts : (∀ now d, R d (run_all (stmts now) d)) →
  preserves (on_data R) (transaction stmts).
Proof.
  intros HR s. destruct (transaction stmts s) as [r s'] eqn:E. unfold on_data. cbn.
  apply transaction_inv in E as [->|(_&now&->)]; [done|apply HR].
Qed.
Lemma preserves_in_batches R `{!PreOrder R} {A} (batch : list A → Store unit) size :
  (∀ l, preserves (on_data R) (batch l)) → ∀ fuel l, preserves (on_data R) (in_batches fuel size batch l).
Proof. intros Hb. induction fuel as [|fuel IH]; intros l; cbn [in_batches]; preserved. Qed.
Lemma run_seen_stmts mb ids now : ∀ d,
  let d' := run_all (seen_stmts mb ids now) d in
  set_seen (alias_index_seen_message d') d = d' ∧ alias_index_seen_message d ⊆ alias_index_seen_message d'.
Proof.
  unfold seen_stmts, run_all. induction (filter _ (map normalizeMessageID ids)) as [|i more IH]; intros d; cbn [map foldl].
  - by destruct d.
  - specialize (IH (set_seen (insert_new (mb, i) now (alias_index_seen_message d)) d)). cbn zeta in IH |- *.
    revert IH. generalize (foldl (λ d f, f d) (set_seen (insert_new (mb, i) now (alias_index_seen_message d)) d)
      (map (λ i d, set_seen (insert_new (mb, i) now (alias_index_seen_message d)) d) more)). intros d' [H1 H2].
    split; [exact H1|]. etrans; [|exact H2]. cbn. unfold insert_new. destruct (_ !! _) eqn:E; [done|by apply insert_subseteq].
Qed.

(** Batches keep an invariant of the elements that were done; when one fails, whole batches
    were done. *)
Lemma in_batches_returns {A} size (stmts : list A → Z → list (database → database)) (P : list A → database → Prop) :
  0 < size →
  (∀ pre chunk now d, P pre d → P (pre ++ chunk) (run_all (stmts chunk now) d)) →
  ∀ fuel l pre s, length l ≤ fuel → db s = db_open → P pre (data s) →
  wp (in_batches fuel size (λ c, match c with [] => mret tt | _ => transaction (stmts c) end) l)
    (λ _ s', P (pre ++ l) (data s'))
    (λ _ s', ∃ k, k * size < length l ∧ P (pre ++ take (k * size) l) (data s')) s.
Proof.
  intros Hsize HP. induction fuel as [|fuel IH]; intros l pre s Hf Hd H0.
  { destruct l; [|cbn in Hf; lia]. cbn [in_batches]. wp_step. by rewrite app_nil_r. }
  cbn [in_batches]. destruct l as [|x l]; [wp_step; by rewrite app_nil_r|]. wp_step.
  set (chunk := take size (x :: l)). set (more := drop size (x :: l)).
  assert (Hl : x :: l = chunk ++ more) by (symmetry; apply take_drop).
  assert (Hc : length chunk = Nat.min size (length (x :: l))) by apply length_take.
  assert (Hm : length more = length (x :: l) - size) by apply length_drop.
  replace (match chunk with [] => mret tt | _ => transaction (stmts chunk) end) with (transaction (stmts chunk))
    by (destruct chunk; [cbn in Hc; lia|done]).
  eapply wp_mono; [by apply transaction_returns| |].
  - intros [] s1 ([now Hnow]&H1).
    eapply wp_mono; [apply (IH more (pre ++ chunk)); [cbn in *; lia|done|rewrite Hnow; by apply HP]| |].
    + intros ? s2. by rewrite <- app_assoc, <- Hl.
    + intros ? s2 (k&Hk&H2). exists (S k). split; [lia|].
      rewrite Hl, (take_app_ge chunk) by lia.
      by replace (S k * size - length chunk) with (k * size) by (cbn in *; lia); rewrite app_assoc.
  - intros ? s1 [-> _]. exists 0. split; [cbn; lia|]. by rewrite app_nil_r.
Qed.

Lemma uidl_keys_app mailbox l1 l2 : uidl_keys mailbox (l1 ++ l2) = uidl_keys mailbox l1 ∪ uidl_keys mailbox l2.
Proof. unfold uidl_keys. by rewrite map_app, list.filter_app, map_app, list_to_set_app_L. Qed.
Lemma run_uidl_stmts mailbox uidls now : ∀ d,
  let d' := run_all (uidl_stmts mailbox uidls now) d in
  set_uidl (alias_index_uidl d') d = d' ∧ alias_index_uidl d ⊆ alias_index_uidl d' ∧
  dom (alias_index_uidl d') = dom (alias_index_uidl d) ∪ uidl_keys mailbox uidls.
Proof.
  unfold uidl_stmts, uidl_keys. induction (filter _ (map TrimSpace uidls)) as [|u us IH]; intros d.
  - cbn. split_and!; [by destruct d|done|set_solver].
  - unfold run_all in *. cbn [map foldl] in *.
    specialize (IH (set_uidl (insert_new (mailbox, u) now (alias_index_uidl d)) d)). cbn zeta in IH |- *.
    revert IH. generalize (foldl (λ d f, f d) (set_uidl (insert_new (mailbox, u) now (alias_index_uidl d)) d)
      (map (λ u d, set_uidl (insert_new (mailbox, u) now (alias_index_uidl d)) d) us)). intros d' (H1&H2&H3).
    cbn [alias_index_uidl set_uidl] in H2, H3. unfold insert_new in *. split_and!; [exact H1| |].
    + etrans; [|exact H2]. destruct (_ !! _) eqn:E; [done|by apply insert_subseteq].
    + rewrite H3. cbn. destruct (_ !! _) eqn:E; [|rewrite dom_insert_L; set_solver].
      apply elem_of_dom_2 in E. set_solver.
Qed.

Lemma uidls_added_nil mb d : uidls_added mb [] d d.
Proof. unfold uidls_added. destruct d. split_and!; [done|done|]. unfold uidl_keys. cbn. set_solver. Qed.
Lemma MarkUIDLsKnown_returns mailbox uidls s : db s = db_open →
  wp (MarkUIDLsKnown mailbox uidls) (λ _ s', uidls_added (TrimSpace mailbox) uidls (data s) (data s'))
    (λ _ s', ∃ k, k * 2000 < length uidls ∧
      uidls_added (TrimSpace mailbox) (take (k * 2000) uidls) (data s) (data s')) s.
Proof.
  intros Hd. set (mb := TrimSpace mailbox).
  assert (HP : ∀ pre chunk now d, uidls_added mb pre (data s) d →
    uidls_added mb (pre ++ chunk) (data s) (run_all (uidl_stmts mb chunk now) d)).
  { intros pre chunk now d (H1&H2&H3). destruct (run_uidl_stmts mb chunk now d) as (G1&G2&G3).
    revert G1 G2 G3. generalize (run_all (uidl_stmts mb chunk now) d). intros d' G1 G2 G3. unfold uidls_added.
    rewrite uidl_keys_app, G3, H3. split_and!; [by rewrite <- G1, <- H1|by etrans|set_solver]. }
  assert (Hsize : aliasIndexUIDLBatchSize = 2000) by by vm_compute.
  pose proof (in_batches_returns aliasIndexUIDLBatchSize (uidl_stmts mb) (λ pre, uidls_added mb pre (data s)) ltac:(lia) HP
    (length uidls) uidls [] s ltac:(lia) Hd (uidls_added_nil mb (data s))) as H.
  rewrite Hsize in H. eapply wp_mono; [unfold MarkUIDLsKnown; rewrite Hsize; exact H|done|done].
Qed.

(** Recording a list of POP3 ids is atomic by batches of 2000. MarkUIDLsKnown on an open
    database returns for every list; it changes the table of ids only, forgets none,
    and does not touch the time at which an id was first seen. When it succeeds exactly the ids of
    the list that are not blank were added for this mailbox; when it fails, those of the
    first batches, all of each of them. *)
Theorem MarkUIDLsKnown_by_batches mailbox uidls s : db s = db_open →
  ∃ n s', let d := data s in let d' := data s' in
    (MarkUIDLsKnown mailbox uidls s = (Ok tt, s') ∧ n = length uidls ∨
     ∃ e, MarkUIDLsKnown mailbox uidls s = (Err e, s') ∧ n < length uidls ∧ n mod 2000 = 0) ∧
    set_uidl (alias_index_uidl d') d = d' ∧
    alias_index_uidl d ⊆ alias_index_uidl d' ∧
    dom (alias_index_uidl d') = dom (alias_index_uidl d) ∪ uidl_keys (TrimSpace mailbox) (take n uidls).
Proof.
  intros Hd. pose proof (MarkUIDLsKnown_returns mailbox uidls s Hd) as H. unfold wp in H.
  destruct (MarkUIDLsKnown mailbox uidls s) as [[[]|e| |] s']; [| |done..].
  - exists (length uidls), s'. split; [by left|]. by rewrite firstn_all.
  - destruct H as (k&Hk&H). exists (k * 2000), s'.
    split; [right; exists e; split_and!; [done|done|apply Nat.Div0.mod_mul]|exact H].
Qed.
End Proofs.

#[export] Hint Extern 1 (preserves _ statement) => apply preserves_statement : preserves.
#[export] Hint Extern 1 (preserves _ (Exec _)) => apply preserves_Exec : preserves.
#[export] Hint Extern 1 (preserves _ (QueryRow _)) => apply preserves_QueryRow : preserves.
#[export] Hint Extern 1 (preserves _ is_open) => apply preserves_is_open : preserves.
#[export] Hint Extern 1 (preserves _ (normal _)) => apply preserves_normal : preserves.

(** ** Witnesses *)
#[local] Instance created_le_total : Total created_le.
Proof. intros x y. unfold created_le. lia. Qed.
#[local] Instance created_le_trans : Transitive created_le.
Proof. intros x y z. unfold created_le. lia. Qed.
#[local] Instance test_sql_laws n : @SQLLaws (test_sql n).
Proof.
  split.
  - intros t l. apply merge_sort_Permutation.
  - intros t l. apply (Sorted_merge_sort created_le).
Qed.

Lemma thread_round_trip_witness : ∃ s',
  @UpsertThread ascii_only (test_sql 9) test_thread (test_store 5 empty_database) = (Ok tt, s') ∧
  (@LookupThread ascii_only (test_sql 9) "Abc@ex.ORG" s').1 =
    Ok (Some (mkAliasThread "Abc@ex.org" "sales@a.example" "joe@b.example" "acme" (Some 1000%Z))).
Proof.
  eexists. split; [vm_compute; reflexivity|].
  destruct (@thread_round_trip ascii_only (test_sql 9) test_thread "Abc@ex.ORG" (test_store 5 empty_database) _
    ltac:(vm_compute; reflexivity) ltac:(vm_compute; reflexivity) ltac:(vm_compute; reflexivity))
    as (reply&orig&Hr&Ho&H&_).
  replace (@normalizeEmailAddress ascii_only (ReplyAs test_thread)) with (@Ok unit bytes "sales@a.example") in Hr
    by (vm_compute; reflexivity).
  replace (@normalizeEmailAddress ascii_only (OrigFrom test_thread)) with (@Ok unit bytes "joe@b.example") in Ho
    by (vm_compute; reflexivity).
  injection Hr as <-. injection Ho as <-. exact H.
Defined.

Lemma PurgeExpired_bounds_witness : ∃ s',
  @PurgeExpired (test_sql 9) (test_store 2 test_rows) = (Ok tt, s') ∧
  map_to_list (alias_threads (data s')) ≡ₚ [(bs "a@x", row_at 950); (bs "d@x", row_at 930)] ∧
  Z.of_nat (size (alias_threads (data s'))) =
    Z.min (Z.of_nat (size (@unexpired (test_sql 9) (test_store 2 test_rows)))) 2.
Proof.
  eexists. split; [vm_compute; reflexivity|]. split.
  - vm_compute. apply Permutation_swap || reflexivity.
  - apply (@PurgeExpired_bounds (test_sql 9) _ (test_store 2 test_rows)); [vm_compute; reflexivity|done].
Defined.
Lemma MarkUIDLsKnown_by_batches_witness :
  db (test_store 2 empty_database) = db_open ∧
  ∃ s', @MarkUIDLsKnown (test_sql 9) "me@a.example " [bs " 7"; bs ""; bs "8"] (test_store 2 empty_database) =
    (Ok tt, s') ∧
    dom (alias_index_uidl (data s')) = dom (∅ : gmap (bytes * bytes) Z) ∪ uidl_keys "me@a.example" [bs " 7"; bs ""; bs "8"].
Proof.
  split; [done|].
  destruct (@MarkUIDLsKnown_by_batches (test_sql 9) "me@a.example " [bs " 7"; bs ""; bs "8"]
    (test_store 2 empty_database) eq_refl) as (n&s'&[[H1 Hn]|(e&H1&_)]&_&_&H2).
  - exists s'. split; [exact H1|]. rewrite Hn in H2. exact H2.
  - exfalso. revert H1. vm_compute. discriminate.
Defined.

(** A failure between the batches keeps the first one; one inside a batch leaves nothing of it. *)
Example failed_batch_leaves_nothing :
  map_to_list (alias_index_uidl (data (@MarkUIDLsKnown (test_sql 3) "me" [bs "7"; bs "8"]
    (test_store 2 empty_database)).2)) = [].
Proof. vm_compute. reflexivity. Qed.
(** The migration copies the ids of an old table. A failure of its last statement loses
    them: the next start finds no table, creates an empty one, and takes it for the new form. *)
Example migration_copies :
  uidl_named (@migrate (test_sql 9) old_schema).2 = Some (by_mailbox {[ (bs "", bs "7") := 3%Z ]}).
Proof. vm_compute. reflexivity. Qed.
Example interrupted_migration_loses_ids :
  let s := (@migrate (test_sql 5) old_schema).2 in
  is_ok (@migrate (test_sql 5) s).1 = true ∧
  uidl_named (@migrate (test_sql 5) s).2 = Some (by_mailbox ∅).
Proof. vm_compute. auto. Qed.
