(* ===== verification/AliasMessage.v ===== *)
(** * A message in the alias index: backends/alias_message_index.go, and the headers of
    backends/alias_indexer.go

    What is taken from the header of a message, the alias that its replies go out as, and the
    recording of the message in the store. *)
From S2P Require Import Prelude GoStd Shared Envelope Tenant EmailAddress AliasStore.

(** [Date] is the Unix time; [None] is the zero time. *)
Record parsedMailHeaders := mkParsedMailHeaders {
  h_MessageID : bytes; h_From : bytes; h_To : bytes; h_Cc : bytes;
  h_DeliveredTo : bytes; h_XOriginalTo : bytes; h_Date : option Z
}.
Definition no_mail_headers : parsedMailHeaders := mkParsedMailHeaders [] [] [] [] [] [] None.

(** Package net/mail: the header of a message under its canonical names, and the Unix time
    of a date; no date that can be read is the zero time. *)
Class NetMail := {
  ReadMessage : bytes → option header;
  ParseDate : bytes → option Z
}.

Record indexMessageOpts := mkIndexMessageOpts {
  mailboxKey : bytes; mailboxUser : bytes; opts_tenantID : bytes; since : option Z; opts_folder : bytes
}.
Inductive indexMessageOutcome : Type :=
| outcomeIndexed
| outcomeSkippedSeen
| outcomeSkippedDate
| outcomeNotIndexable.
#[export] Instance indexMessageOutcome_eq_dec : EqDecision indexMessageOutcome.
Proof. solve_decision. Defined.

Section Messages.
Context {U : Unicode} {Q : SQL} {Nm : NetMail}.

(** Up to the first empty line, the one with CR LF if there is one. *)
Definition header_bytes (raw : bytes) : bytes :=
  match Index raw [CR; LF; CR; LF] with
  | Some idx => take (idx + 4) raw
  | None =>
      match Index raw [LF; LF] with
      | Some idx => take (idx + 2) raw
      | None => raw
      end
  end.
(** [strings.TrimSpace(msg.Header.Get(name))]. *)
Definition header_get (h : header) (name : bytes) : bytes :=
  match h !! name with Some (v :: _) => TrimSpace v | _ => [] end.
Definition parseMailHeaders (raw : bytes) : option parsedMailHeaders :=
  match ReadMessage (header_bytes raw) with
  | None => None
  | Some h =>
      let get := header_get h in
      Some (mkParsedMailHeaders (get "Message-Id") (get "From") (get "To") (get "Cc")
        (get "Delivered-To") (get "X-Original-To")
        (match get "Date" with [] => None | d => ParseDate d end))
  end.

(** The addresses that are not taken: the mailbox, and the postmaster of its host. *)
Definition skipped_addresses (mailbox : bytes) : list bytes :=
  mailbox ::
  match mailbox, LastIndexByte mailbox "@" with
  | _ :: _, Some (S at_) => [bs "postmaster" ++ drop (S at_) mailbox]
  | _, _ => []
  end.
Definition not_taken (skip : list bytes) (addr : bytes) : bool :=
  bool_decide (addr = []) || bool_decide (addr ∈ skip) || HasPrefix addr "null@" || HasPrefix addr "noreply@".
Fixpoint first_taken (skip : list bytes) (parts : list bytes) : outcome unit bytes :=
  match parts with
  | [] => Ok []
  | part :: parts =>
      match normalizeEmailAddress part with
      | Ok addr => if not_taken skip addr then first_taken skip parts else Ok addr
      | r => r
      end
  end.
Definition extractReplyAsAddress (h : parsedMailHeaders) (mailbox : bytes) : outcome unit bytes :=
  match normalizeEmailAddress mailbox with
  | Ok mailbox =>
      first_taken (skipped_addresses mailbox)
        (concat (map splitAddresses [h_To h; h_Cc h; h_DeliveredTo h; h_XOriginalTo h]))
  | r => r
  end.

(** A function that has no error to return. *)
Definition computed {A} (r : outcome unit A) : Store A :=
  match r with
  | Ok a => mret a
  | Err _ | Panic => panic
  | OutOfFuel => out_of_fuel
  end.

(** [headers.Date.Before(opts.since)], unless one of them is the zero time. *)
Definition too_old (since date : option Z) : bool :=
  match since, date with Some s, Some d => (d <? s)%Z | _, _ => false end.

Definition indexMessageFromHeaders (headers : parsedMailHeaders) (opts : indexMessageOpts) :
    Store indexMessageOutcome :=
  let messageID := normalizeMessageID (h_MessageID headers) in
  let mark : Store unit :=
    if bool_decide (messageID = []) then mret tt else MarkSeenMessage (mailboxKey opts) messageID in
  seen ← (if bool_decide (messageID = []) then mret false else IsSeenMessage (mailboxKey opts) messageID);
  if (seen : bool) then mret outcomeSkippedSeen
  else if too_old (since opts) (h_Date headers) then mark;; mret outcomeSkippedDate
  else
    replyAs ← computed (extractReplyAsAddress headers (mailboxUser opts));
    origFrom ← computed (extractFirstEmailFromHeader (h_From headers));
    if bool_decide (messageID = []) || bool_decide (replyAs = []) || bool_decide (origFrom = []) then
      mark;; mret outcomeNotIndexable
    else
      now ← Now;
      UpsertThread (mkAliasThread messageID replyAs origFrom (opts_tenantID opts) (Some now));;
      mark;;
      mret outcomeIndexed.
End Messages.

(** ** Notions used by the statements *)

(** The key of a message in the table of the messages that were seen: both functions that touch
    the table normalize the id that was normalized before. *)
Definition seen_key `{Unicode} (mailbox : bytes) (h : parsedMailHeaders) : bytes * bytes :=
  (TrimSpace mailbox, normalizeMessageID (normalizeMessageID (h_MessageID h))).
(** The database with other threads and other messages that were seen. *)
Definition with_message (threads : gmap bytes thread_row) (seen : gmap (bytes * bytes) Z) (d : database) : database :=
  set_seen seen (set_threads threads d).

(** What a successful indexing did to the tables [d], by its outcome. *)
Definition message_recorded `{Unicode} (h : parsedMailHeaders) (opts : indexMessageOpts) (o : indexMessageOutcome)
    (d : database) (threads : gmap bytes thread_row) : Prop :=
  let id := normalizeMessageID (h_MessageID h) in
  match o with
  | outcomeIndexed => ∃ replyAs origFrom reply orig t,
      alias_index_seen_message d !! seen_key (mailboxKey opts) h = None ∧
      extractReplyAsAddress h (mailboxUser opts) = Ok replyAs ∧ extractFirstEmailFromHeader (h_From h) = Ok origFrom ∧
      normalizeEmailAddress replyAs = Ok reply ∧ normalizeEmailAddress origFrom = Ok orig ∧
      threads = <[normalizeMessageID id := mkRow reply orig (TrimSpace (opts_tenantID opts)) t]> (alias_threads d)
  | outcomeSkippedSeen => threads = alias_threads d ∧
      (normalizeMessageID id ≠ [] → is_Some (alias_index_seen_message d !! seen_key (mailboxKey opts) h))
  | outcomeSkippedDate => threads = alias_threads d ∧ too_old (since opts) (h_Date h) = true
  | outcomeNotIndexable => threads = alias_threads d ∧
      (id = [] ∨ extractReplyAsAddress h (mailboxUser opts) = Ok [] ∨ extractFirstEmailFromHeader (h_From h) = Ok [])
  end.

(** The tables of the accounts stay, and what was seen stays seen. *)
Definition keeps_accounts (d d' : database) : Prop :=
  alias_index_uidl d' = alias_index_uidl d ∧ alias_index_state d' = alias_index_state d ∧
  alias_index_imap_cursor d' = alias_index_imap_cursor d ∧
  alias_index_seen_message d ⊆ alias_index_seen_message d'.
#[export] Instance keeps_accounts_pre : PreOrder keeps_accounts.
Proof.
  split; [by intros d|]. intros d1 d2 d3 (?&?&?&?) (?&?&?&?). split_and!; [congruence..|]. by etrans.
Qed.

(** A header reader that splits lines at the colon, for the witnesses. *)
Definition test_fields (raw : bytes) : header :=
  list_to_map (omap (λ l, match Index l ":" with
    | Some i => Some (take i l, [drop (i + 1) l]) | None => None end) (split_byte LF raw)).
Definition test_netmail : NetMail := {|
  ReadMessage raw := if bool_decide (raw = []) then None else Some (test_fields raw);
  ParseDate d := Atoi d
|}.
Definition test_mail (id from to : string) : parsedMailHeaders :=
  mkParsedMailHeaders id from to [] [] [] None.
Definition test_opts (key user tenant : string) : indexMessageOpts := mkIndexMessageOpts key user tenant None [].

(** * Proofs *)
Section Proofs.
Context {U : Unicode} {Q : SQL} {Nm : NetMail}.
Implicit Types (s : AliasStore) (d : database).

Lemma computed_ok {A} (r : outcome unit A) s a s' : computed r s = (Ok a, s') → r = Ok a ∧ s' = s.
Proof. destruct r; [|discriminate..]. intros [= <- <-]. done. Qed.
Lemma insert_new_is_Some {K V} `{Countable K} (k : K) (v : V) (m : gmap K V) : is_Some (insert_new k v m !! k).
Proof. unfold insert_new. destruct (m !! k) eqn:E; [by rewrite E|]. by rewrite lookup_insert_eq. Qed.
Lemma insert_new_mono {K V} `{Countable K} (k : K) (v : V) (m : gmap K V) : m ⊆ insert_new k v m.
Proof. unfold insert_new. destruct (m !! k) eqn:E; [done|by apply insert_subseteq]. Qed.

(** Indexing a message touches the tables of threads and of seen messages only, whatever comes of it. *)
Lemma preserves_computed R `{!PreOrder R} {A} (r : outcome unit A) : preserves (on_data R) (computed r).
Proof. unfold computed. preserved. Qed.
Hint Extern 1 (preserves _ (computed _)) => apply preserves_computed : preserves.
Lemma indexMessage_keeps_accounts h opts : preserves (on_data keeps_accounts) (indexMessageFromHeaders h opts).
Proof.
  assert (H : ∀ f, (∀ d, keeps_accounts d (f d)) → preserves (on_data keeps_accounts) (Exec f))
    by (intros; by apply preserves_Exec; [apply _|]).
  assert (Hmark : ∀ mb id, preserves (on_data keeps_accounts) (MarkSeenMessage mb id)).
  { intros. unfold MarkSeenMessage, Now. preserved. apply H. intros d. split_and!; try done. apply insert_new_mono. }
  unfold indexMessageFromHeaders, UpsertThread, IsSeenMessage, Now. preserved.
  by apply H.
Qed.
Lemma MarkSeenMessage_ok mb id s s' : MarkSeenMessage mb id s = (Ok tt, s') →
  ∃ t, data s' = (if bool_decide (normalizeMessageID id = []) then data s
    else set_seen (insert_new (TrimSpace mb, normalizeMessageID id) t (alias_index_seen_message (data s))) (data s)).
Proof.
  intros ([]&s1&H1&H)%bind_ok. apply is_open_ok in H1 as [_ ->]. cbn zeta in H.
  case_bool_decide; [injection H as <-; by exists 0%Z|].
  apply bind_ok in H as (t&s2&Ht&H). injection Ht as <- <-. apply Exec_ok in H as (_&_&->). by eexists.
Qed.
Lemma IsSeenMessage_ok mb id b s s' : IsSeenMessage mb id s = (Ok b, s') →
  data s' = data s ∧ (normalizeMessageID id ≠ [] →
    b = bool_decide (is_Some (alias_index_seen_message (data s) !! (TrimSpace mb, normalizeMessageID id)))).
Proof.
  intros ([]&s1&H1&H)%bind_ok. apply is_open_ok in H1 as [_ ->]. cbn zeta in H.
  case_bool_decide; [by injection H as _ <-|].
  apply bind_ok in H as (v&s2&Hv&H). apply QueryRow_ok in Hv as (_&_&->&->). injection H as <- <-.
  split; [done|]. intros _. destruct (_ !! _); [rewrite bool_decide_eq_true_2|rewrite bool_decide_eq_false_2];
    rewrite ?is_Some_alt; naive_solver.
Qed.

(** The optional marking of a message: it succeeds and the message is seen, or nothing changes. *)
Definition mark (mb id : bytes) : Store unit := if bool_decide (id = []) then mret tt else MarkSeenMessage mb id.
Lemma mark_ok mb id s s' : mark mb id s = (Ok tt, s') →
  ∃ seen, data s' = set_seen seen (data s) ∧ alias_index_seen_message (data s) ⊆ seen ∧
    (normalizeMessageID id ≠ [] → is_Some (seen !! (TrimSpace mb, normalizeMessageID id))).
Proof.
  unfold mark. case_bool_decide as H0.
  - intros [= <-]. subst. exists (alias_index_seen_message (data s)).
    split_and!; [by destruct (data s)|done|intros H; by destruct H].
  - intros [t Ht]%MarkSeenMessage_ok. rewrite Ht. case_bool_decide.
    + exists (alias_index_seen_message (data s)). split_and!; [by destruct (data s)|done|done].
    + eexists. split_and!; [done|apply insert_new_mono|intros _; apply insert_new_is_Some].
Qed.
Lemma MarkSeenMessage_err mb id s e s' : MarkSeenMessage mb id s = (Err e, s') → data s' = data s.
Proof.
  intros [H%is_open_err|([]&s1&[_ ->]%is_open_ok&H)]%bind_err; [by subst|]. cbn zeta in H.
  case_bool_decide; [discriminate|].
  apply bind_err in H as [[=]|(t&s1&[= <- <-]&H)]. by apply Exec_err in H.
Qed.
Lemma mark_err mb id s e s' : mark mb id s = (Err e, s') → data s' = data s.
Proof. unfold mark. case_bool_decide; [discriminate|]. apply MarkSeenMessage_err. Qed.
Lemma IsSeenMessage_err mb id s e s' : IsSeenMessage mb id s = (Err e, s') → data s' = data s.
Proof.
  intros [H%is_open_err|([]&s1&[_ ->]%is_open_ok&H)]%bind_err; [by subst|]. cbn zeta in H.
  case_bool_decide; [discriminate|].
  by apply bind_err in H as [H%QueryRow_err|(v&s1&_&[=])].
Qed.
Lemma UpsertThread_err t s e s' : UpsertThread t s = (Err e, s') → data s' = data s.
Proof.
  intros [H%is_open_err|([]&s1&[_ ->]%is_open_ok&H)]%bind_err; [by subst|]. cbn zeta in H.
  case_bool_decide; [by injection H as _ <-|].
  apply bind_err in H as [H|(r&s1&[_ ->]%normal_ok&H)]; [revert H; unfold normal; by destruct (normalizeEmailAddress _)|].
  apply bind_err in H as [H|(o&s1&[_ ->]%normal_ok&H)]; [revert H; unfold normal; by destruct (normalizeEmailAddress _)|].
  destruct (_ || _); [by injection H as _ <-|].
  apply bind_err in H as [[=]|(now&s1&[= <- <-]&H)]. by apply Exec_err in H.
Qed.

(** The first query. *)
Definition seen_before (mb id : bytes) : Store bool :=
  if bool_decide (id = []) then mret false else IsSeenMessage mb id.
Lemma seen_before_ok mb id b s s' : seen_before mb id s = (Ok b, s') → data s' = data s ∧
  (normalizeMessageID id ≠ [] →
    b = bool_decide (is_Some (alias_index_seen_message (data s) !! (TrimSpace mb, normalizeMessageID id)))) ∧
  (id = [] → b = false).
Proof.
  unfold seen_before. case_bool_decide as H0.
  - intros [= <- <-]. subst. split_and!; [done| |done]. intros H. by destruct H.
  - intros [H1 H2]%IsSeenMessage_ok. done.
Qed.
Lemma seen_before_err mb id s e s' : seen_before mb id s = (Err e, s') → data s' = data s.
Proof. unfold seen_before. case_bool_decide; [discriminate|]. apply IsSeenMessage_err. Qed.

Lemma not_indexed_ok (r : indexMessageOutcome) mb id o s s' :
  (mark mb id;; mret r) s = (Ok o, s') →
  o = r ∧ ∃ seen, data s' = with_message (alias_threads (data s)) seen (data s) ∧
    alias_index_seen_message (data s) ⊆ seen ∧
    (normalizeMessageID id ≠ [] → is_Some (seen !! (TrimSpace mb, normalizeMessageID id))).
Proof.
  intros ([]&s1&(seen&Hs&H1&H2)%mark_ok&[= <- <-])%bind_ok. split; [done|]. exists seen.
  split_and!; [|done..]. rewrite Hs. by destruct (data s).
Qed.

Lemma indexMessage_ok h opts o s s' : indexMessageFromHeaders h opts s = (Ok o, s') →
  ∃ threads seen, data s' = with_message threads seen (data s) ∧
    alias_index_seen_message (data s) ⊆ seen ∧
    (normalizeMessageID (normalizeMessageID (h_MessageID h)) ≠ [] → is_Some (seen !! seen_key (mailboxKey opts) h)) ∧
    message_recorded h opts o (data s) threads.
Proof.
  unfold indexMessageFromHeaders, seen_key. set (id := normalizeMessageID (h_MessageID h)). cbn zeta.
  fold (mark (mailboxKey opts) id) (seen_before (mailboxKey opts) id).
  intros (b&s1&(Hd&Hb&Hb0)%seen_before_ok&H)%bind_ok. destruct b.
  - injection H as <- <-. exists (alias_threads (data s)), (alias_index_seen_message (data s)).
    rewrite Hd. split_and!; [by destruct (data s)|done| |split; [done|]].
    all: intros Hn; specialize (Hb Hn); symmetry in Hb; by apply bool_decide_eq_true in Hb.
  - destruct (too_old _ _) eqn:Hold.
    { apply not_indexed_ok in H as (->&seen&H1&H2&H3). rewrite Hd in *. by exists (alias_threads (data s)), seen. }
    apply bind_ok in H as (replyAs&s2&[Hr ->]%computed_ok&H).
    apply bind_ok in H as (origFrom&s2&[Ho ->]%computed_ok&H).
    destruct (_ || _) eqn:Hempty.
    { apply not_indexed_ok in H as (->&seen&H1&H2&H3). rewrite Hd in *. exists (alias_threads (data s)), seen.
      split_and!; [done..|]. split; [done|]. fold id. apply orb_true_iff in Hempty as [He|He].
      - apply orb_true_iff in He as [He|He]; apply bool_decide_eq_true in He; subst; auto.
      - apply bool_decide_eq_true in He. subst. auto. }
    apply bind_ok in H as (now&s2&[= <- <-]&H).
    apply bind_ok in H as ([]&s2&(reply&orig&Hreply&Horig&_&_&Hid&_&Hs2)%UpsertThread_ok&H).
    apply not_indexed_ok in H as (->&seen&H1&H2&H3). rewrite Hs2 in H1, H2. cbn in H1, H2, Hid.
    rewrite Hd in H1, H2. eexists _, seen. split; [rewrite H1; reflexivity|]. split_and!; [done..|].
    exists replyAs, origFrom, reply, orig. eexists. split_and!; [|done..].
    specialize (Hb Hid). symmetry in Hb. apply bool_decide_eq_false in Hb. by apply eq_None_not_Some.
Qed.

(** An error leaves no trace of the message among those that were seen. *)
Lemma indexMessage_err h opts e s s' : indexMessageFromHeaders h opts s = (Err e, s') →
  ∃ threads, data s' = set_threads threads (data s).
Proof.
  assert (Hd : ∀ s1, data s1 = data s → ∃ threads, data s1 = set_threads threads (data s))
    by (intros s1 ->; exists (alias_threads (data s)); by destruct (data s)).
  unfold indexMessageFromHeaders. set (id := normalizeMessageID (h_MessageID h)). cbn zeta.
  fold (mark (mailboxKey opts) id) (seen_before (mailboxKey opts) id).
  intros [H%seen_before_err|(b&s1&(H1&_&_)%seen_before_ok&H)]%bind_err; [by apply Hd|]. destruct b; [discriminate|].
  destruct (too_old _ _).
  { apply bind_err in H as [H%mark_err|(?&?&_&[=])]. apply Hd. congruence. }
  apply bind_err in H as [H|(replyAs&s2&[_ ->]%computed_ok&H)]; [by destruct (extractReplyAsAddress _ _) as [|[]| |]|].
  apply bind_err in H as [H|(origFrom&s2&[_ ->]%computed_ok&H)]; [by destruct (extractFirstEmailFromHeader _) as [|[]| |]|].
  destruct (_ || _).
  { apply bind_err in H as [H%mark_err|(?&?&_&[=])]. apply Hd. congruence. }
  apply bind_err in H as [[=]|(now&s2&[= <- <-]&H)].
  apply bind_err in H as [H%UpsertThread_err|([]&s2&(reply&orig&_&_&_&_&_&_&->)%UpsertThread_ok&H)].
  { apply Hd. congruence. }
  apply bind_err in H as [H%mark_err|(?&?&_&[=])]. eexists. rewrite H. cbn. by rewrite H1.
Qed.

(** A message is recorded once, and for the tenant of its account. When
    indexMessageFromHeaders succeeds, no table has changed but those of the threads and of the messages that
    were seen. The message was indexed only if it was not seen before, and then
    exactly its own thread is new or replaced: the alias that extractReplyAsAddress chose, the
    sender of the From header, and the tenant of the account. With every other outcome no thread
    changes, and the outcome says why: it was seen before, it is older than the date
    of the configuration, or a header is missing. Whatever the outcome, the message now counts as seen, if it has
    an id, and indexing it again under any options for the mailbox skips it. *)
Lemma indexMessage_once h opts o s s' :
  indexMessageFromHeaders h opts s = (Ok o, s') →
  (∃ threads seen, data s' = with_message threads seen (data s) ∧
    alias_index_seen_message (data s) ⊆ seen ∧
    message_recorded h opts o (data s) threads) ∧
  ∀ opts', mailboxKey opts' = mailboxKey opts →
    normalizeMessageID (normalizeMessageID (h_MessageID h)) ≠ [] →
    db s' = db_open → sql_fails (sql_now s') = None →
    indexMessageFromHeaders h opts' s' = (Ok outcomeSkippedSeen, after s' (data s')).
Proof.
  intros (threads&seen&Hd&Hs&Hk&Hrec)%indexMessage_ok. split; [by exists threads, seen|].
  intros opts' Hm Hid Hopen Hsql. specialize (Hk Hid) as [t Ht].
  unfold indexMessageFromHeaders. cbn zeta.
  rewrite bool_decide_eq_false_2 by (intros Hn; rewrite Hn in Hid; by destruct Hid).
  rewrite (bind_runs _ _ _ true (after s' (data s'))); [reflexivity|]. unfold IsSeenMessage.
  erewrite bind_runs by (apply is_open_runs; by rewrite Hopen). cbn zeta. rewrite bool_decide_eq_false_2 by done.
  erewrite bind_runs by (by apply QueryRow_runs). rewrite Hd. cbn.
  unfold seen_key in Ht. by rewrite Hm, Ht.
Qed.
End Proofs.

(** ** Witnesses *)
Lemma indexMessage_once_witness : ∃ s',
  @indexMessageFromHeaders ascii_only (test_sql 9) (test_mail "<1@x.example>" "Joe <joe@b.example>" "me@a.example, Sales@a.example")
    (test_opts "pop3:me" "me@a.example" "acme") (test_store 9 empty_database) = (Ok outcomeIndexed, s') ∧
  map_to_list (alias_threads (data s')) =
    [(bs "1@x.example", mkRow "sales@a.example" "joe@b.example" "acme" 1001)] ∧
  @indexMessageFromHeaders ascii_only (test_sql 9) (test_mail "<1@x.example>" "Joe <joe@b.example>" "me@a.example, Sales@a.example")
    (test_opts "pop3:me" "other@a.example" "evil") s' = (Ok outcomeSkippedSeen, after s' (data s')).
Proof.
  eexists. split; [vm_compute; reflexivity|]. split; [vm_compute; reflexivity|].
  refine (proj2 (@indexMessage_once ascii_only (test_sql 9)
    (test_mail "<1@x.example>" "Joe <joe@b.example>" "me@a.example, Sales@a.example")
    (test_opts "pop3:me" "me@a.example" "acme") outcomeIndexed (test_store 9 empty_database) _ _)
    (test_opts "pop3:me" "other@a.example" "evil") _ _ _ _);
    vm_compute; first [reflexivity|discriminate].
Defined.

(** An account whose user is no address, as the accounts of many servers, stops the
    indexer at the first message that is not seen: the user is read as an address. *)
Example bare_user_hangs :
  (@indexMessageFromHeaders ascii_only (test_sql 9) (test_mail "<1@x.example>" "joe@b.example" "s@a.example")
    (test_opts "pop3:bob" "bob" "acme") (test_store 9 empty_database)).1 = OutOfFuel.
Proof. vm_compute. reflexivity. Qed.
Example parseMailHeaders_example :
  @parseMailHeaders test_netmail "Message-Id: <1@x>
From: joe@b
To:  s@a
Date: 77

To: not@this" = Some (mkParsedMailHeaders "<1@x>" "joe@b" "s@a" [] [] [] (Some 77%Z)).
Proof. vm_compute. reflexivity. Qed.
