(* ===== verification/Pop3.v ===== *)
(** * The POP3 client of the indexer: backends/pop3_client.go

    A server is what it sends: the bytes that arrive after the lines that were written so
    far, or nothing if a write fails. The reader of lines is that of net/textproto on the bytes that have
    arrived; what it returns at their end is the error of the connection, closed or past its
    deadline. *)
From S2P Require Import Prelude GoStd.

(** The bytes that the server sends when it has received some lines, the greeting for none. *)
Definition server : Type := list bytes → option bytes.
Record pop3Client := mkPop3 { pc_server : server; pc_in : bytes; pc_out : list bytes }.

Inductive pop3_error : Type :=
| pop3_dial
| pop3_io
| pop3_refused (line : bytes)
| pop3_unexpected (line : bytes)
| pop3_credentials.

Abbreviation POP3 := (M pop3Client pop3_error).

(** The connection to a host and port, with TLS or without, at a moment. *)
Class POP3Net := connect : bytes → Z → bool → nat → option server.

(** ** Lines *)

(** The text before the first line feed, without the CR before it, and what follows the line feed;
    all of the text if there is none. *)
Definition strip_cr (line : bytes) : bytes := match rev line with c :: r => if bool_decide (c = CR) then rev r else line | [] => line end.
Fixpoint cut_line (s : bytes) (cur : bytes) : bytes * bytes :=
  match s with
  | [] => (cur, [])
  | c :: s => if bool_decide (c = LF) then (strip_cr cur, s) else cut_line s (cur ++ [c])
  end.
Definition ReadLine : POP3 bytes := λ c,
  match pc_in c with
  | [] => (Err pop3_io, c)
  | s => let '(line, rest) := cut_line s [] in (Ok line, mkPop3 (pc_server c) rest (pc_out c))
  end.
(** [PrintfLine]: the line and CR LF, flushed. *)
Definition PrintfLine (line : bytes) : POP3 unit := λ c,
  match pc_server c (pc_out c ++ [line]) with
  | None => (Err pop3_io, c)
  | Some answer => (Ok tt, mkPop3 (pc_server c) (pc_in c ++ answer) (pc_out c ++ [line]))
  end.

(** [strings.TrimSpace(line[3:])] if there is more. *)
Definition after_status (line : bytes) : bytes := if 3 <? length line then TrimSpace (drop 3 line) else [].
Definition readResponse : POP3 bytes :=
  line ← ReadLine;
  if HasPrefix line "+OK" then mret (after_status line)
  else if HasPrefix line "-ERR" then fail (pop3_refused line)
  else fail (pop3_unexpected line).
Definition readPositive : POP3 bytes :=
  line ← ReadLine;
  if HasPrefix line "+OK" then mret (after_status line) else fail (pop3_refused line).
Definition cmd (line : bytes) : POP3 bytes := PrintfLine line;; readResponse.

(** The loop takes a byte at least in every turn. *)
Fixpoint multiline_loop (fuel : nat) (lines : list bytes) : POP3 (list bytes) :=
  match fuel with
  | 0 => out_of_fuel
  | S fuel =>
      line ← ReadLine;
      if bool_decide (line = bs ".") then mret lines
      else multiline_loop fuel (lines ++ [if HasPrefix line ".." then drop 1 line else line])
  end.
Definition readMultiline : POP3 (list bytes) := λ c, multiline_loop (S (length (pc_in c))) [] c.

(** ** Commands *)
Definition dialPOP3 `{POP3Net} (host : bytes) (port : Z) (useTLS : bool) (now : nat) : outcome pop3_error pop3Client :=
  match connect host port useTLS now with
  | None => Err pop3_dial
  | Some srv =>
      match readPositive (mkPop3 srv (default [] (srv [])) []) with
      | (Ok _, c) => Ok c
      | (Err e, _) => Err e
      | (Panic, _) => Panic
      | (OutOfFuel, _) => OutOfFuel
      end
  end.
(** The connection is closed whatever the answer. *)
Definition pop3_Close : POP3 unit := try_ (cmd "QUIT");; mret tt.

Definition has_line_end (s : bytes) : bool := existsb (λ c, bool_decide (c = CR) || bool_decide (c = LF)) s.
Definition Auth (user password : bytes) : POP3 unit :=
  if has_line_end user || has_line_end password then fail pop3_credentials
  else cmd (bs "USER " ++ user);; cmd (bs "PASS " ++ password);; mret tt.

Definition uidl_line (line : bytes) : option (Z * bytes) :=
  match Fields line with
  | num :: uidl :: _ => (λ n, (n, uidl)) <$> Atoi num
  | _ => None
  end.
Definition UIDL : POP3 (list (Z * bytes)) :=
  cmd "UIDL";; raw ← readMultiline; mret (omap uidl_line raw).
Definition Retr (num : Z) : POP3 bytes :=
  cmd (bs "RETR " ++ Itoa num);; lines ← readMultiline; mret (Join lines [LF]).
Definition Top (num lines : Z) : POP3 bytes :=
  let lines := (if (lines <=? 0)%Z then 128 else lines)%Z in
  cmd (bs "TOP " ++ Itoa num ++ bs " " ++ Itoa lines);; raw ← readMultiline; mret (Join raw [LF]).

(** ** Notions used by the statements *)

(** A line as a server writes it in a listing: a dot in front of one that begins with a dot. *)
Definition stuffed (line : bytes) : bytes := if HasPrefix line "." then "."%char :: line else line.
Definition listing (lines : list bytes) : bytes :=
  concat (map (λ l, stuffed l ++ [CR; LF]) lines) ++ bs "." ++ [CR; LF].

(** A command that the server accepts. *)
Definition accepted (status : bytes) : bytes := bs "+OK" ++ status ++ [CR; LF].
(** The items of a listing, each on its line. *)
Definition uidl_item (it : Z * bytes) : Prop := (0 ≤ it.1 ≤ int_max)%Z ∧ it.2 ≠ [] ∧ Forall solid it.2.
(** A server with two messages. *)
Definition test_header_lines : list bytes := [bs "Message-Id: <1@x.example>"; bs "From: joe@b.example"; bs "To: s@a.example"; bs ".dots"; bs ""].
Definition test_pop3_server : server := λ lines,
  match rev lines with
  | [] => Some (accepted " ready")
  | line :: _ =>
      if bool_decide (line = bs "UIDL") then Some (accepted " 2 messages" ++ listing [bs "1 aa"; bs "2 bb"])
      else if HasPrefix line "TOP" || HasPrefix line "RETR" then Some (accepted [] ++ listing test_header_lines)
      else Some (accepted [])
  end.

(** * Proofs *)
Section Proofs.
Implicit Types (c : pop3Client).

(** ** Lines *)
Lemma cut_line_LF l rest : ∀ cur, LF ∉ l → cut_line (l ++ LF :: rest) cur = (strip_cr (cur ++ l), rest).
Proof.
  induction l as [|a l IH]; intros cur Hl; cbn [cut_line app].
  - rewrite bool_decide_eq_true_2 by done. by rewrite app_nil_r.
  - rewrite not_elem_of_cons in Hl. destruct Hl. rewrite bool_decide_eq_false_2 by congruence.
    rewrite IH by done. by rewrite <- app_assoc.
Qed.
Lemma cut_line_shorter s : ∀ cur line rest, s ≠ [] → cut_line s cur = (line, rest) → length rest < length s.
Proof.
  induction s as [|a s IH]; intros cur line rest Hs; [done|]. cbn [cut_line length].
  case_bool_decide; [intros [= _ <-]; lia|]. destruct s as [|b s]; [intros [= _ <-]; cbn; lia|].
  intros Hcut%IH; [|done]. cbn in *. lia.
Qed.
Lemma strip_cr_CR l : strip_cr (l ++ [CR]) = l.
Proof. unfold strip_cr. by rewrite rev_app_distr; cbn; rewrite rev_involutive. Qed.
(** A line and what follows it. *)
Lemma ReadLine_line l rest srv out : LF ∉ l →
  ReadLine (mkPop3 srv (l ++ [CR; LF] ++ rest) out) = (Ok l, mkPop3 srv rest out).
Proof.
  intros Hl. unfold ReadLine. cbn [pc_in]. replace (l ++ [CR; LF] ++ rest) with ((l ++ [CR]) ++ LF :: rest) by
    by rewrite <- app_assoc.
  destruct ((l ++ [CR]) ++ LF :: rest) eqn:E; [by destruct l|]. rewrite <- E, cut_line_LF.
  - cbn. by rewrite strip_cr_CR.
  - by rewrite elem_of_app, list_elem_of_singleton; intros [?|?].
Qed.
Lemma ReadLine_wp c Q R :
  (pc_in c = [] → R pop3_io c) →
  (∀ line rest, length rest < length (pc_in c) → Q line (mkPop3 (pc_server c) rest (pc_out c))) →
  wp ReadLine Q R c.
Proof.
  intros HR HQ. unfold wp, ReadLine. destruct (pc_in c) as [|a s] eqn:E; [by apply HR|].
  destruct (cut_line (a :: s) []) as [line rest] eqn:Hc. apply HQ. by eapply cut_line_shorter.
Qed.

Lemma stuffed_LF l : (LF ∉ l) → (LF ∉ stuffed l).
Proof. unfold stuffed. destruct (HasPrefix l "."); [|done]. rewrite not_elem_of_cons. by split. Qed.
Lemma unstuffed l : stuffed l ≠ bs "." ∧ (if HasPrefix (stuffed l) ".." then drop 1 (stuffed l) else stuffed l) = l.
Proof.
  unfold stuffed. destruct l as [|c l]; [done|]. cbn [HasPrefix bs String.list_ascii_of_string].
  destruct (decide ("."%char = c)) as [<-|Hc].
  - rewrite bool_decide_eq_true_2 by done. cbn [andb]. destruct l; done.
  - rewrite !bool_decide_eq_false_2 by congruence. cbn. split; [congruence|].
    by rewrite bool_decide_eq_false_2.
Qed.

Lemma multiline_listing srv rest out lines : ∀ fuel acc, length lines < fuel → Forall (λ l, LF ∉ l) lines →
  multiline_loop fuel acc (mkPop3 srv (listing lines ++ rest) out) = (Ok (acc ++ lines), mkPop3 srv rest out).
Proof.
  unfold listing. induction lines as [|l lines IH]; intros fuel acc Hf Hl; (destruct fuel as [|fuel]; [lia|]).
  - cbn [map concat app multiline_loop]. rewrite <- app_assoc.
    erewrite bind_runs by (apply ReadLine_line; by apply (bool_decide_unpack _)).
    rewrite bool_decide_eq_true_2 by done. by rewrite app_nil_r.
  - apply list.Forall_cons in Hl as [Hl Hls]. cbn [map concat multiline_loop]. rewrite <- !app_assoc.
    erewrite bind_runs by (apply (ReadLine_line (stuffed l)); apply stuffed_LF; exact Hl).
    destruct (unstuffed l) as [H1 H2]. rewrite bool_decide_eq_false_2, H2 by done.
    replace (acc ++ l :: lines) with ((acc ++ [l]) ++ lines) by by rewrite <- app_assoc.
    etrans; [|apply (IH fuel (acc ++ [l])); [cbn in Hf; lia|done]]. by rewrite <- (app_assoc _ _ rest).
Qed.
Lemma readMultiline_listing srv rest out lines : Forall (λ l, LF ∉ l) lines →
  readMultiline (mkPop3 srv (listing lines ++ rest) out) = (Ok lines, mkPop3 srv rest out).
Proof.
  intros Hl. unfold readMultiline. apply (multiline_listing srv rest out lines _ []); [|done]. cbn [pc_in].
  unfold listing. rewrite !length_app. apply Nat.lt_succ_r. clear Hl.
  induction lines as [|l lines IH]; cbn [map concat length]; [lia|]. rewrite !length_app in *. cbn in *. lia.
Qed.

Lemma cmd_accepted srv out line status answer : (LF ∉ status) → srv (out ++ [line]) = Some (accepted status ++ answer) →
  ∃ r, cmd line (mkPop3 srv [] out) = (Ok r, mkPop3 srv answer (out ++ [line])).
Proof.
  intros Hs Ha. exists (after_status (bs "+OK" ++ status)). unfold cmd.
  rewrite (bind_runs _ _ _ tt (mkPop3 srv (accepted status ++ answer) (out ++ [line]))) by
    (unfold PrintfLine; cbn; by rewrite Ha).
  unfold readResponse, accepted. rewrite <- !app_assoc.
  erewrite bind_runs; [|rewrite app_assoc; apply ReadLine_line].
  - by replace (HasPrefix (bs "+OK" ++ status) "+OK") with true by by destruct status.
  - rewrite elem_of_app. intros [H|H]; [|done]. revert H. by apply (bool_decide_unpack _).
Qed.

Lemma solid_no_LF s : Forall solid s → LF ∉ s.
Proof. intros Hs H. rewrite list.Forall_forall in Hs. by apply Hs in H. Qed.
Lemma Itoa_nonempty z : (0 ≤ z)%Z → Itoa z ≠ [].
Proof. intros Hz E. destruct (Itoa_digits z Hz) as (?&?&?&_). congruence. Qed.
Lemma uidl_line_item it : uidl_item it → uidl_line (Itoa it.1 ++ bs " " ++ it.2) = Some it ∧ LF ∉ Itoa it.1 ++ bs " " ++ it.2.
Proof.
  destruct it as [i u]. intros (H1&H2&H3). cbn [fst snd] in *. assert (Hs : Forall solid (Itoa i)) by (apply Itoa_solid; lia).
  split.
  - unfold uidl_line. rewrite Fields_two by (done || apply Itoa_nonempty; lia). by rewrite Atoi_Itoa.
  - rewrite !elem_of_app. apply solid_no_LF in Hs, H3. intros [?|[H|?]]; [by apply Hs| |by apply H3]. revert H. by apply (bool_decide_unpack _).
Qed.

(** What a server lists is what the client reads. When the server accepts UIDL and lists its
    messages, each with its number and an id that has no white space, UIDL returns exactly these, in order,
    and nothing is left to read; when it accepts TOP or RETR and sends any lines, dot-stuffed, the client gets
    these lines back, dots at the front included. *)
Lemma listings_round_trip srv out status items lines num n :
  (LF ∉ status) → Forall (λ l, LF ∉ l) lines →
  Forall uidl_item items →
  (0 < n)%Z →
  (srv (out ++ [bs "UIDL"]) = Some (accepted status ++ listing (map (λ it, Itoa it.1 ++ bs " " ++ it.2) items)) →
   UIDL (mkPop3 srv [] out) = (Ok items, mkPop3 srv [] (out ++ [bs "UIDL"]))) ∧
  (let line := bs "TOP " ++ Itoa num ++ bs " " ++ Itoa n in
   srv (out ++ [line]) = Some (accepted status ++ listing lines) →
   Top num n (mkPop3 srv [] out) = (Ok (Join lines [LF]), mkPop3 srv [] (out ++ [line]))) ∧
  (let line := bs "RETR " ++ Itoa num in
   srv (out ++ [line]) = Some (accepted status ++ listing lines) →
   Retr num (mkPop3 srv [] out) = (Ok (Join lines [LF]), mkPop3 srv [] (out ++ [line]))).
Proof.
  intros Hs Hl Hi Hn.
  assert (Hr : ∀ ls o, Forall (λ l, LF ∉ l) ls → readMultiline (mkPop3 srv (listing ls) o) = (Ok ls, mkPop3 srv [] o)).
  { intros ls o H. rewrite <- (app_nil_r (listing ls)). by apply readMultiline_listing. }
  split_and!.
  - intros [r Hr0]%cmd_accepted; [|done]. unfold UIDL. erewrite bind_runs by exact Hr0.
    erewrite bind_runs; [unfold mret, M_ret; do 2 f_equal|apply Hr].
    + clear Hr0. induction Hi as [|it items [H1 _]%uidl_line_item Hi IH]; [done|]. cbn [map omap list_omap]. by rewrite H1, IH.
    + apply list.Forall_fmap. eapply list.Forall_impl; [exact Hi|]. intros it [_ H]%uidl_line_item. exact H.
  - intros line [r Hr0]%cmd_accepted; [|done]. unfold Top. cbn zeta. rewrite (proj2 (Z.leb_gt n 0)) by done.
    erewrite bind_runs by exact Hr0. by rewrite (bind_runs _ _ _ _ _ (Hr lines _ Hl)).
  - intros line [r Hr0]%cmd_accepted; [|done]. unfold Retr.
    erewrite bind_runs by exact Hr0. by rewrite (bind_runs _ _ _ _ _ (Hr lines _ Hl)).
Qed.

(** ** The end of a listing

    The loop returns for every server: each turn takes a byte at least. *)
Lemma multiline_wp fuel : ∀ acc c (Q : list bytes → pop3Client → Prop) R, length (pc_in c) < fuel →
  (∀ x c', pc_out c' = pc_out c → Q x c') → (∀ e c', pc_out c' = pc_out c → R e c') →
  wp (multiline_loop fuel acc) Q R c.
Proof.
  induction fuel as [|fuel IH]; intros acc c Q R Hf HQ HR; [lia|]. cbn [multiline_loop]. wp_step.
  apply ReadLine_wp; [by intros; apply HR|]. intros line rest Hlen.
  wp_step; [wp_step; by apply HQ|]. apply IH; cbn; [lia|auto..].
Qed.
Lemma readMultiline_wp c (Q : list bytes → pop3Client → Prop) R :
  (∀ x c', pc_out c' = pc_out c → Q x c') → (∀ e c', pc_out c' = pc_out c → R e c') → wp readMultiline Q R c.
Proof. intros HQ HR. apply (multiline_wp _ [] c); [lia|done..]. Qed.
End Proofs.

(** ** Witness *)

Lemma listings_round_trip_witness :
  UIDL (mkPop3 test_pop3_server [] []) = (Ok [(1%Z, bs "aa"); (2%Z, bs "bb")], mkPop3 test_pop3_server [] [bs "UIDL"]) ∧
  Top 1 128 (mkPop3 test_pop3_server [] []) =
    (Ok (Join test_header_lines [LF]), mkPop3 test_pop3_server [] [bs "TOP 1 128"]).
Proof.
  split.
  - eapply (listings_round_trip test_pop3_server [] " 2 messages" [(1%Z, bs "aa"); (2%Z, bs "bb")] test_header_lines 1 128).
    all: first [by apply (bool_decide_unpack _)|vm_compute; repeat constructor; done|done].
  - eapply (listings_round_trip test_pop3_server [] [] [(1%Z, bs "aa"); (2%Z, bs "bb")] test_header_lines 1 128).
    all: first [by apply (bool_decide_unpack _)|vm_compute; repeat constructor; done|done].
Defined.
