(* ===== verification/AliasIndexer.v ===== *)
(** * The indexer of aliases: backends/alias_indexer.go

    Its configuration, the accounts that it polls, one poll of a POP3 mailbox, and the loop of
    Run. pollAll polls its accounts in goroutines and waits for them; here they follow one another.
    The watchers of IMAP accounts, which Run starts, are in Imap.v. *)
From S2P Require Import Prelude GoStd Shared Envelope Config Tenant Processor EmailAddress AliasStore AliasMessage Pop3.

(** ** Configuration *)
Definition defaultIMAPIdleRefresh : Z := (28 * minute)%Z.
Definition defaultIMAPResyncInterval : Z := (5 * minute)%Z.
Definition defaultIMAPSearchBatch : Z := 500.
Definition defaultBaselineHeaderLimit : Z := 200.

Record IMAPWatcherConfig := mkIMAPWatcherConfig {
  IdleRefresh : Z; ResyncInterval : Z; SearchBatch : Z; BaselineHeaderLimit : Z; ExcludeFolders : gset bytes
}.
Definition or_default (v d : Z) : Z := if (v <=? 0)%Z then d else v.
Definition normalize (c : IMAPWatcherConfig) : IMAPWatcherConfig :=
  mkIMAPWatcherConfig (or_default (IdleRefresh c) defaultIMAPIdleRefresh)
    (or_default (ResyncInterval c) defaultIMAPResyncInterval)
    (or_default (SearchBatch c) defaultIMAPSearchBatch)
    (or_default (BaselineHeaderLimit c) defaultBaselineHeaderLimit) (ExcludeFolders c).

(** [Since] is the Unix time; [None] is the zero time. *)
Record AliasIndexerConfig := mkAliasIndexerConfig {
  ix_DBPath : bytes;
  Accounts : list AliasPOP3Account;
  IMAPAccounts : list AliasIMAPAccount;
  IMAP : IMAPWatcherConfig;
  ix_PollInterval : Z;
  ix_PurgeInterval : Z;
  SkipExistingOnStart : bool;
  Since : option Z;
  StoreCfg : AliasStoreConfig;
  Registry : option registry
}.
(** The watchers are the accounts that Run started one for. *)
Record AliasIndexer := mkAliasIndexer { ix_cfg : AliasIndexerConfig; store : AliasStore; watchers : list AliasIMAPAccount }.

Definition POP3_MailboxKey (a : AliasPOP3Account) : bytes :=
  bs "pop3:" ++ TrimSpace (pop_User a) ++ bs "@" ++ TrimSpace (pop_Host a).
Definition IMAP_MailboxKey (a : AliasIMAPAccount) : bytes :=
  bs "imap:" ++ TrimSpace (imap_User a) ++ bs "@" ++ TrimSpace (imap_Host a).

(** The text of the error, if there is one. *)
Definition POP3_validate (a : AliasPOP3Account) : option bytes :=
  if bool_decide (TrimSpace (pop_Host a) = []) then Some (bs "alias_index pop3 host is required")
  else if bool_decide (TrimSpace (pop_User a) = []) then
    Some (bs "alias_index pop3 user is required for host " ++ pop_Host a)
  else None.
Definition IMAP_validate (a : AliasIMAPAccount) : option bytes :=
  if bool_decide (TrimSpace (imap_Host a) = []) then Some (bs "alias_index imap host is required")
  else if bool_decide (TrimSpace (imap_User a) = []) then
    Some (bs "alias_index imap user is required for host " ++ imap_Host a)
  else None.

Definition set_port_POP3 (a : AliasPOP3Account) : AliasPOP3Account :=
  mkAliasPOP3Account (pop_Host a) (or_default (pop_Port a) 995) (pop_TLS a) (pop_User a) (pop_Password a) (pop_TenantID a).
Definition set_port_IMAP (a : AliasIMAPAccount) : AliasIMAPAccount :=
  mkAliasIMAPAccount (imap_Host a) (or_default (imap_Port a) 993) (imap_TLS a) (imap_User a) (imap_Password a) (imap_TenantID a).

(** [fmt.Errorf("name[%d]: %w", i, err)]. *)
Definition at_index (name : string) (i : nat) (err : bytes) : bytes :=
  bs name ++ bs "[" ++ Itoa (Z.of_nat i) ++ bs "]: " ++ err.
(** The accounts with their ports, or the first error. *)
Fixpoint checked {A : Type} (name : string) (port : A → A) (validate : A → option bytes) (i : nat) (l : list A) :
    outcome bytes (list A) :=
  match l with
  | [] => Ok []
  | a :: l =>
      ok_unless (at_index name i <$> validate (port a));;
      l ← checked name port validate (S i) l;
      mret (port a :: l)
  end.

(** The database in a file, opened and migrated, or the error. *)
Class DBFiles := open_file : bytes → database + bytes.

(** JSON arrays and objects by their text, and [time.Parse] of a day as its Unix time ([None] inside
    is the zero time). *)
Class JSONText := {
  json_items : bytes → option (list cfgval);
  json_fields : bytes → option (gmap bytes cfgval)
}.
Class Calendar := parse_day : bytes → option (option Z).

Section Setup.
Context {U : Unicode} {Du : Durations} {F : DBFiles}.

Definition OpenAliasStore (cfg : AliasStoreConfig) (now : nat) : outcome store_error AliasStore :=
  cfg ← store_config cfg;
  match open_file (DBPath cfg) with
  | inl d => Ok (mkAliasStore db_open cfg d now)
  | inr m => Err (se_sql m)
  end.

Definition NewAliasIndexer (cfg : AliasIndexerConfig) (now : nat) : outcome bytes AliasIndexer :=
  '(accounts, imapAccounts) ← (match Registry cfg, Accounts cfg, IMAPAccounts cfg with
    | Some _, _, _ => Ok ([], [])
    | None, [], [] => Err (bs "at least one alias_index mail account or tenant_registry is required")
    | None, p, i => Ok (p, i)
    end);
  accounts ← checked "alias_index_pop3_accounts" set_port_POP3 POP3_validate 0 accounts;
  imapAccounts ← checked "alias_index_imap_accounts" set_port_IMAP IMAP_validate 0 imapAccounts;
  let path := TrimSpace (ix_DBPath cfg) in
  if bool_decide (path = []) then Err (bs "alias_db_path is required")
  else
    let sc := StoreCfg cfg in
    let storeCfg := mkAliasStoreConfig path (or_default (TTL sc) defaultAliasIndexTTL)
      (or_default (MaxRows sc) defaultAliasIndexMaxRows) (PurgeInterval sc) in
    store ← map_error store_err_text (OpenAliasStore storeCfg now);
    mret (mkAliasIndexer
      (mkAliasIndexerConfig (ix_DBPath cfg) accounts imapAccounts (normalize (IMAP cfg))
        (or_default (ix_PollInterval cfg) (60 * second)%Z) (or_default (ix_PurgeInterval cfg) defaultAliasIndexPurge)
        (SkipExistingOnStart cfg) (Since cfg) storeCfg (Registry cfg)) store []).

(** ** The configuration of a backend

    The text of an error that is wrapped is left out where nothing looks at it. *)
Context {J : JSONText} {Ca : Calendar}.

(** A field that is there and not null; its items, and the fields of an item. *)
Definition given (m : gmap bytes cfgval) (name : bytes) : option cfgval :=
  match m !! name with
  | Some v => if bool_decide (v = COther "null") then None else Some v
  | None => None
  end.
Definition as_array (v : cfgval) : option (list cfgval) := match v with COther t => json_items t | _ => None end.
Definition as_object (v : cfgval) : option (gmap bytes cfgval) := match v with COther t => json_fields t | _ => None end.
Definition str_field (m : gmap bytes cfgval) (name : bytes) : option bytes :=
  match m !! name with Some (CString v) => Some v | _ => None end.
Definition bool_field (m : gmap bytes cfgval) (name : bytes) (d : bool) : bool :=
  match m !! name with Some (CBool v) => v | _ => d end.
(** [v.(float64)] with [int(v) > 0]. *)
Definition positive_field (m : gmap bytes cfgval) (name : bytes) (d : Z) : Z :=
  match m !! name with
  | Some (CFloat mantissa exponent) =>
      if (0 <? int_of_float mantissa exponent)%Z then int_of_float mantissa exponent else d
  | _ => d
  end.
(** A string that is not blank, parsed. *)
Definition parsed_field {A : Type} (m : gmap bytes cfgval) (name : string) (parse : bytes → option A) (d : A) : outcome bytes A :=
  match str_field m name with
  | Some raw =>
      if bool_decide (TrimSpace raw = []) then Ok d
      else match parse raw with Some v => Ok v | None => Err (bs "invalid " ++ bs name) end
  | None => Ok d
  end.
Definition duration_field (m : gmap bytes cfgval) (name : string) : outcome bytes Z :=
  parsed_field m name (λ raw, parse_duration (TrimSpace raw)) 0%Z.

Definition parseAliasPOP3AccountMap (m : gmap bytes cfgval) : outcome bytes AliasPOP3Account :=
  let account := mkAliasPOP3Account (TrimSpace (default [] (str_field m "host"))) (positive_field m "port" 995)
    (bool_field m "tls" true) (TrimSpace (default [] (str_field m "user"))) (default [] (str_field m "password")) [] in
  ok_unless (POP3_validate account);; mret account.
Definition parseAliasIMAPAccountMap (m : gmap bytes cfgval) : outcome bytes AliasIMAPAccount :=
  let account := mkAliasIMAPAccount (TrimSpace (default [] (str_field m "host"))) (positive_field m "port" 993)
    (bool_field m "tls" true) (TrimSpace (default [] (str_field m "user"))) (default [] (str_field m "password")) [] in
  ok_unless (IMAP_validate account);; mret account.

Fixpoint parse_items {A : Type} (name : string) (parse : gmap bytes cfgval → outcome bytes A) (i : nat) (items : list cfgval) :
    outcome bytes (list A) :=
  match items with
  | [] => Ok []
  | item :: items =>
      match as_object item with
      | None => Err (bs name ++ bs "[" ++ Itoa (Z.of_nat i) ++ bs "] must be an object")
      | Some m =>
          account ← map_error (at_index name i) (parse m);
          accounts ← parse_items name parse (S i) items;
          mret (account :: accounts)
      end
  end.
Definition parse_list {A : Type} (name : string) (parse : gmap bytes cfgval → outcome bytes A) (raw : cfgval) :
    outcome bytes (list A) :=
  match as_array raw with
  | None => Err (bs name ++ bs " must be an array")
  | Some items => parse_items name parse 0 items
  end.
Definition parseAliasPOP3AccountsList (raw : cfgval) : outcome bytes (list AliasPOP3Account) :=
  parse_list "alias_index_pop3_accounts" parseAliasPOP3AccountMap raw.

Definition parseLegacyAliasPOP3Account (c : BackendConfig) : option AliasPOP3Account :=
  let host := TrimSpace (default [] (str_field c "alias_index_pop3_host")) in
  let user := TrimSpace (default [] (str_field c "alias_index_pop3_user")) in
  if bool_decide (host = []) && bool_decide (user = []) then None
  else Some (mkAliasPOP3Account host (positive_field c "alias_index_pop3_port" 995)
    (bool_field c "alias_index_pop3_tls" true) user (default [] (str_field c "alias_index_pop3_password")) []).

Definition parseAliasPOP3Accounts (c : BackendConfig) : outcome bytes (list AliasPOP3Account) :=
  accounts ← match given c "alias_index_pop3_accounts" with
    | Some raw => parseAliasPOP3AccountsList raw
    | None => Ok []
    end;
  match accounts, parseLegacyAliasPOP3Account c with
  | _ :: _, _ => Ok accounts
  | [], Some legacy => Ok [legacy]
  | [], None => Err (bs "alias_index_pop3_accounts or alias_index_pop3_host/user is required")
  end.
Definition parseAliasIMAPAccounts (c : BackendConfig) : outcome bytes (list AliasIMAPAccount) :=
  accounts ← match given c "alias_index_imap_accounts" with
    | Some raw => parse_list "alias_index_imap_accounts" parseAliasIMAPAccountMap raw
    | None => Ok []
    end;
  match accounts with
  | _ :: _ => Ok accounts
  | [] => Err (bs "alias_index_imap_accounts is required")
  end.
(** An error that says that something is required counts as no accounts. *)
Definition optional_accounts {A : Type} (r : outcome bytes (list A)) : outcome bytes (list A) :=
  match r with
  | Err err => if Contains err "is required" then Ok [] else Err err
  | r => r
  end.

Fixpoint folder_names (i : nat) (items : list cfgval) : outcome bytes (gset bytes) :=
  match items with
  | [] => Ok ∅
  | CString name :: items =>
      names ← folder_names (S i) items;
      mret (match TrimSpace name with [] => names | name => {[ name ]} ∪ names end)
  | _ :: _ => Err (bs "alias_index_imap_exclude_folders[" ++ Itoa (Z.of_nat i) ++ bs "] must be a string")
  end.
Definition exclude_folders (c : BackendConfig) : outcome bytes (gset bytes) :=
  match given c "alias_index_imap_exclude_folders" with
  | None => Ok ∅
  | Some raw =>
      match as_array raw with
      | None => Err (bs "alias_index_imap_exclude_folders must be an array")
      | Some items => folder_names 0 items
      end
  end.

Definition AliasIndexerConfigFromBackend (c : BackendConfig) : outcome bytes AliasIndexerConfig :=
  let path := TrimSpace (default [] (str_field c "alias_db_path")) in
  poll ← duration_field c "alias_index_poll_interval";
  purge ← duration_field c "alias_index_purge_interval";
  ttl ← parsed_field c "alias_index_ttl" ParseAliasDuration 0%Z;
  since ← parsed_field c "alias_index_since" (λ raw, parse_day (TrimSpace raw)) None;
  accounts ← optional_accounts (parseAliasPOP3Accounts c);
  imapAccounts ← optional_accounts (parseAliasIMAPAccounts c);
  idle ← duration_field c "alias_index_imap_idle_refresh";
  resync ← duration_field c "alias_index_imap_resync_interval";
  excluded ← exclude_folders c;
  let imap := mkIMAPWatcherConfig idle resync (positive_field c "alias_index_imap_search_batch" 0)
    (positive_field c "alias_index_imap_baseline_header_limit" 0) excluded in
  mret (mkAliasIndexerConfig path accounts imapAccounts (normalize imap) poll purge
    (bool_field c "alias_index_skip_existing_on_start" true) since
    (mkAliasStoreConfig path ttl (positive_field c "alias_index_max_rows" 0) 0) None).
End Setup.

(** ** One poll of a mailbox *)
Inductive poll_error : Type :=
| pe_pop3 (e : pop3_error)
| pe_store (e : store_error).
Record session := mkSession { s_client : pop3Client; s_store : AliasStore }.
Abbreviation Poll := (M session poll_error).

Definition on_client {A : Type} (m : POP3 A) : Poll A := λ s,
  let '(r, c) := m (s_client s) in (map_error pe_pop3 r, mkSession c (s_store s)).
Definition on_store {A : Type} (m : Store A) : Poll A := λ s,
  let '(r, st) := m (s_store s) in (map_error pe_store r, mkSession (s_client s) st).

Section Poll.
Context {U : Unicode} {Q : SQL} {Nm : NetMail} {N : POP3Net} {Dec : TenantDecoder}.

(** The options of [indexMessageFromHeaders] for a mailbox. *)
Definition poll_opts (cfg : AliasIndexerConfig) (account : AliasPOP3Account) : indexMessageOpts :=
  mkIndexMessageOpts (POP3_MailboxKey account) (pop_User account) (pop_TenantID account) (Since cfg) [].

(** The body of the loop over the listing. *)
Definition poll_item (cfg : AliasIndexerConfig) (account : AliasPOP3Account) (knownUIDLs : gset bytes)
    (item : Z * bytes) : Poll unit :=
  if bool_decide (item.2 ∈ knownUIDLs) then mret tt
  else
    raw ← on_client (Top item.1 128);
    match parseMailHeaders raw with
    | None => on_store (MarkUIDLKnown (POP3_MailboxKey account) item.2)
    | Some headers =>
        on_store (indexMessageFromHeaders headers (poll_opts cfg account));;
        on_store (MarkUIDLKnown (POP3_MailboxKey account) item.2)
    end.
Fixpoint poll_items (cfg : AliasIndexerConfig) (account : AliasPOP3Account) (knownUIDLs : gset bytes)
    (items : list (Z * bytes)) : Poll unit :=
  match items with
  | [] => mret tt
  | item :: items => poll_item cfg account knownUIDLs item;; poll_items cfg account knownUIDLs items
  end.

(** What follows the listing. *)
Definition poll_listing (cfg : AliasIndexerConfig) (account : AliasPOP3Account) (uidls : list (Z * bytes)) : Poll unit :=
  let key := POP3_MailboxKey account in
  hasBaseline ← on_store (HasBaseline key);
  if SkipExistingOnStart cfg && negb hasBaseline then
    on_store (MarkUIDLsKnown key (map snd uidls));;
    on_store (SetBaseline key)
  else
    knownUIDLs ← on_store (KnownUIDLsForMailbox key);
    poll_items cfg account knownUIDLs uidls.
Definition poll_session (cfg : AliasIndexerConfig) (account : AliasPOP3Account) : Poll unit :=
  on_client (Auth (pop_User account) (pop_Password account));;
  uidls ← on_client UIDL;
  poll_listing cfg account uidls.

(** The session and the deferred Close of the client; what was written stays visible. *)
Definition pollMailbox (account : AliasPOP3Account) (i : AliasIndexer) : outcome poll_error unit * AliasIndexer * list bytes :=
  let with_store st := mkAliasIndexer (ix_cfg i) st (watchers i) in
  match dialPOP3 (pop_Host account) (pop_Port account) (pop_TLS account) (sql_now (store i)) with
  | Ok client =>
      let '(r, s) := poll_session (ix_cfg i) account (mkSession client (store i)) in
      let '(_, c) := pop3_Close (s_client s) in
      (r, with_store (s_store s), pc_out c)
  | Err e => (Err (pe_pop3 e), i, [])
  | Panic => (Panic, i, [])
  | OutOfFuel => (OutOfFuel, i, [])
  end.

(** ** The accounts *)
Definition currentAccounts (cfg : AliasIndexerConfig) : list AliasPOP3Account :=
  match Registry cfg with
  | Some r => map tagp_Account (reg_POP3Accounts r)
  | None => Accounts cfg
  end.
Definition currentIMAPAccounts (cfg : AliasIndexerConfig) : list AliasIMAPAccount :=
  match Registry cfg with
  | Some r => map tagi_Account (reg_IMAPAccounts r)
  | None => IMAPAccounts cfg
  end.
Definition set_cfg (cfg : AliasIndexerConfig) (i : AliasIndexer) : AliasIndexer := mkAliasIndexer cfg (store i) (watchers i).
Definition refreshAccountsFromRegistry (i : AliasIndexer) : AliasIndexer :=
  let cfg := ix_cfg i in
  match Registry cfg with
  | None => i
  | Some r =>
      set_cfg (mkAliasIndexerConfig (ix_DBPath cfg) (map tagp_Account (reg_POP3Accounts r))
        (map tagi_Account (reg_IMAPAccounts r)) (IMAP cfg) (ix_PollInterval cfg) (ix_PurgeInterval cfg)
        (SkipExistingOnStart cfg) (Since cfg) (StoreCfg cfg) (Registry cfg)) i
  end.
Definition startIMAPWatchers (i : AliasIndexer) : AliasIndexer :=
  mkAliasIndexer (ix_cfg i) (store i) (watchers i ++ currentIMAPAccounts (ix_cfg i)).

(** ** Run

    The polls of pollAll, one account after the other; an error is logged only, and a poll that panics or does not
    return keeps all that follows from happening. *)
Fixpoint poll_accounts (accounts : list AliasPOP3Account) : M AliasIndexer Empty_set unit :=
  match accounts with
  | [] => mret tt
  | account :: accounts =>
      (λ i, match pollMailbox account i with
            | (Ok _, i, _) | (Err _, i, _) => (Ok tt, i)
            | (Panic, i, _) => (Panic, i)
            | (OutOfFuel, i, _) => (OutOfFuel, i)
            end);;
      poll_accounts accounts
  end.
Definition pollAll : M AliasIndexer Empty_set unit :=
  accounts ← gets (λ i, currentAccounts (ix_cfg i));
  poll_accounts accounts.

(** A refresh of the registry, with the answer of its server. *)
Definition refresh_registry (answer : http_answer) : M AliasIndexer Empty_set unit := modify (λ i,
  match Registry (ix_cfg i) with
  | None => i
  | Some r =>
      let '(err, r) := Refresh answer r in
      let cfg := ix_cfg i in
      let i := set_cfg (mkAliasIndexerConfig (ix_DBPath cfg) (Accounts cfg) (IMAPAccounts cfg) (IMAP cfg)
        (ix_PollInterval cfg) (ix_PurgeInterval cfg) (SkipExistingOnStart cfg) (Since cfg) (StoreCfg cfg) (Some r)) i in
      if err is None then refreshAccountsFromRegistry i else i
  end).
Inductive tick_event : Type := purge_tick | registry_tick (answer : http_answer) | poll_tick.
Definition has_registry_ticker (cfg : AliasIndexerConfig) : bool :=
  match Registry cfg with Some r => (0 <? reg_PollInterval r)%Z | None => false end.
Definition run_tick (e : tick_event) : M AliasIndexer Empty_set unit :=
  match e with
  | purge_tick => modify (λ i, mkAliasIndexer (ix_cfg i) (PurgeExpired (store i)).2 (watchers i))
  | registry_tick answer =>
      b ← gets (λ i, has_registry_ticker (ix_cfg i));
      if (b : bool) then refresh_registry answer else mret tt
  | poll_tick => pollAll
  end.
Fixpoint run_ticks (es : list tick_event) : M AliasIndexer Empty_set unit :=
  match es with
  | [] => mret tt
  | e :: es => run_tick e;; run_ticks es
  end.
(** Run, with the ticks that come before [done] is closed. *)
Definition Run (first : http_answer) (es : list tick_event) : M AliasIndexer Empty_set unit :=
  modify startIMAPWatchers;;
  b ← gets (λ i, has_registry_ticker (ix_cfg i));
  (if (b : bool) then refresh_registry first else mret tt);;
  pollAll;;
  run_ticks es.
(** Close waits for the watchers that Run started. *)
Definition Indexer_Close (i : AliasIndexer) : AliasIndexer := mkAliasIndexer (ix_cfg i) (Close (store i)).2 [].
End Poll.

(** ** Notions used by the statements *)

(** What a session does on its connection: it writes lines and reads lines. *)
Definition wire_step (c c' : pop3Client) : Prop := (ReadLine c).2 = c' ∨ ∃ line, (PrintfLine line c).2 = c'.
Definition exchanges : pop3Client → pop3Client → Prop := rtc wire_step.
(** The call was made, and answered so, on the connection of the session that began with [c0] and
    ended with [cf]. *)
Definition asked {A : Type} (c0 cf : pop3Client) (m : POP3 A) (a : A) : Prop :=
  ∃ c c', exchanges c0 c ∧ m c = (Ok a, c') ∧ exchanges c' cf.
(** A message that was dealt with: its header cannot be parsed, or it counts as seen, if it has an id. *)
Definition handled `{Unicode} `{NetMail} (account : AliasPOP3Account) (d : database) (raw : bytes) : Prop :=
  match parseMailHeaders raw with
  | None => True
  | Some h => normalizeMessageID (normalizeMessageID (h_MessageID h)) ≠ [] →
      is_Some (alias_index_seen_message d !! seen_key (POP3_MailboxKey account) h)
  end.
(** Item by item: known before, or fetched and dealt with. *)
Definition dealt_with `{Unicode} `{NetMail} (account : AliasPOP3Account) (known : gset bytes) (c0 cf : pop3Client)
    (d : database) (items : list (Z * bytes)) : Prop :=
  Forall (λ it, it.2 ∈ known ∨ ∃ raw, asked c0 cf (Top it.1 128) raw ∧ handled account d raw) items.
Definition known_ids (mailbox : bytes) (d : database) : gset bytes :=
  list_to_set (omap (λ kv, if bool_decide (kv.1.1 = mailbox) then Some kv.1.2 else None) (map_to_list (alias_index_uidl d))).
(** The keys of the items that were not known. *)
Definition new_keys (account : AliasPOP3Account) (known : gset bytes) (items : list (Z * bytes)) : gset (bytes * bytes) :=
  uidl_keys (TrimSpace (POP3_MailboxKey account)) (map snd (filter (λ it, it.2 ∉ known) items)).
Definition item_dealt_with `{Unicode} `{NetMail} (account : AliasPOP3Account) (item : Z * bytes) (c0 cf : pop3Client)
    (d d' : database) : Prop :=
  dom (alias_index_uidl d') = dom (alias_index_uidl d) ∪ uidl_keys (TrimSpace (POP3_MailboxKey account)) [item.2] ∧
  ∃ raw, asked c0 cf (Top item.1 128) raw ∧ handled account d' raw.
(** What a poll left of a listing: the baseline of the mailbox, or a first part that was dealt with; all of it if
    the poll succeeded. *)
Definition baseline_recorded (cfg : AliasIndexerConfig) (account : AliasPOP3Account) (listing : list (Z * bytes))
    (ok : bool) (d d' : database) : Prop :=
  let key := POP3_MailboxKey account in
  SkipExistingOnStart cfg = true ∧ alias_index_state d !! key ≠ Some (bs "baseline") ∧
  alias_threads d' = alias_threads d ∧ alias_index_seen_message d' = alias_index_seen_message d ∧
  ∃ n, dom (alias_index_uidl d') = dom (alias_index_uidl d) ∪ uidl_keys (TrimSpace key) (take n (map snd listing)) ∧
    (ok = true → n = length listing ∧ alias_index_state d' !! key = Some (bs "baseline")).
Definition mail_dealt_with `{Unicode} `{NetMail} (account : AliasPOP3Account) (c0 cf : pop3Client)
    (listing : list (Z * bytes)) (ok : bool) (d d' : database) : Prop :=
  let known := known_ids (TrimSpace (POP3_MailboxKey account)) d in
  ∃ n, (ok = true → n = length listing) ∧
    dom (alias_index_uidl d') = dom (alias_index_uidl d) ∪ new_keys account known (take n listing) ∧
    dealt_with account known c0 cf d' (take n listing).
(** The commands of a poll. *)
Definition pop3_command (account : AliasPOP3Account) (line : bytes) : Prop :=
  line = bs "UIDL" ∨ line = bs "QUIT" ∨ (∃ n, line = bs "TOP " ++ Itoa n ++ bs " 128") ∨
  one_line (pop_User account) ∧ line = bs "USER " ++ pop_User account ∨
  one_line (pop_Password account) ∧ line = bs "PASS " ++ pop_Password account.
(** More lines were written, all of a kind. *)
Definition wrote (P : bytes → Prop) (c c' : pop3Client) : Prop :=
  ∃ more, pc_out c' = pc_out c ++ more ∧ Forall P more.
#[export] Instance wrote_pre P : PreOrder (wrote P).
Proof.
  split.
  - intros c. exists []. by rewrite app_nil_r.
  - intros c1 c2 c3 (m1&H1&F1) (m2&H2&F2). exists (m1 ++ m2). split; [by rewrite H2, H1, app_assoc|by apply Forall_app_2].
Qed.
Definition on_conn (P : bytes → Prop) (s s' : session) : Prop := wrote P (s_client s) (s_client s').
#[export] Instance on_conn_pre P : PreOrder (on_conn P).
Proof. split; [by intros s; unfold on_conn|intros s1 s2 s3; unfold on_conn; apply transitivity]. Qed.
Definition on_line (s s' : session) : Prop := exchanges (s_client s) (s_client s').
#[export] Instance on_line_pre : PreOrder on_line.
Proof. split; [by intros s; unfold on_line, exchanges|intros s1 s2 s3; unfold on_line, exchanges; apply transitivity]. Qed.
(** An account, an indexer with an empty index, and a registry whose server names one tenant. *)
Definition test_account : AliasPOP3Account := mkAliasPOP3Account "mail.example" 995 true "me@a.example" "secret" "acme".
Definition test_indexer_cfg (skip : bool) (reg : option registry) : AliasIndexerConfig :=
  mkAliasIndexerConfig "alias.db" [test_account] [] (normalize (mkIMAPWatcherConfig 0 0 0 0 ∅)) minute minute skip None
    (mkAliasStoreConfig "alias.db" (100 * second)%Z 9 second) reg.
Definition test_indexer (skip : bool) : AliasIndexer :=
  mkAliasIndexer (test_indexer_cfg skip None) (test_store 9 empty_database) [].
Definition test_indexer_with (reg : option registry) : AliasIndexer :=
  mkAliasIndexer (test_indexer_cfg false reg) (test_store 9 empty_database) [].
Definition test_net : POP3Net := λ _ _ _ _, Some test_pop3_server.
Definition test_poll : outcome poll_error unit * AliasIndexer * list bytes :=
  @pollMailbox ascii_only (test_sql 99) test_netmail test_net test_account (test_indexer false).
Definition test_reg : registry := mkRegistry (mkRegistryConfig "http://tenants" minute minute ∅) ∅ [] [].
Definition test_tenants : TenantDecoder := {|
  decode_tenant _ := None;
  decode_tenants _ := Some [mkTenantJSON "acme" "ses" (Some (mkTenantSES "r" [] [])) None
    [mkTenantPOP3 "mail.example" 995 true "me@a.example" "secret"] [mkTenantIMAP "mail.example" 993 true "me@a.example" "secret"] true]
|}.
Definition parse_nothing : Durations := λ _, None.
Definition test_json : JSONText := {|
  json_items _ := Some [COther "good"; COther "bad"];
  json_fields t := Some (if bool_decide (t = bs "good") then {[ bs "host" := CString "h"; bs "user" := CString "u" ]} else ∅)
|}.

(** * Proofs *)
Section Proofs.
Context {U : Unicode} {Q : SQL} {Nm : NetMail}.
Implicit Types (d : database) (st : AliasStore).

Lemma on_client_ok {A} (m : POP3 A) s a s' : on_client m s = (Ok a, s') →
  ∃ c, m (s_client s) = (Ok a, c) ∧ s' = mkSession c (s_store s).
Proof. unfold on_client. destruct (m (s_client s)) as [[] c] eqn:E; try discriminate. intros [= <- <-]. by exists c. Qed.
Lemma on_client_store {A} (m : POP3 A) s r s' : on_client m s = (r, s') → s_store s' = s_store s.
Proof. unfold on_client. destruct (m (s_client s)). by intros [= _ <-]. Qed.
Lemma on_store_ok {A} (m : Store A) s a s' : on_store m s = (Ok a, s') →
  ∃ st, m (s_store s) = (Ok a, st) ∧ s' = mkSession (s_client s) st.
Proof. unfold on_store. destruct (m (s_store s)) as [[] st] eqn:E; try discriminate. intros [= <- <-]. by exists st. Qed.
Lemma on_store_inv {A} (m : Store A) s r s' : on_store m s = (r, s') →
  ∃ r0 st, m (s_store s) = (r0, st) ∧ r = map_error pe_store r0 ∧ s' = mkSession (s_client s) st.
Proof. unfold on_store. destruct (m (s_store s)) as [r0 st] eqn:E. intros [= <- <-]. by exists r0, st. Qed.

Lemma handled_mono account d d' raw : alias_index_seen_message d ⊆ alias_index_seen_message d' →
  handled account d raw → handled account d' raw.
Proof.
  unfold handled. destruct (parseMailHeaders raw); [|done]. intros Hs H Hid. specialize (H Hid) as [t Ht].
  exists t. by eapply lookup_weaken.
Qed.

(** ** The connection of a session *)
Lemma exchanges_ReadLine : preserves exchanges ReadLine.
Proof. intros c. apply rtc_once. by left. Qed.
Lemma exchanges_PrintfLine line : preserves exchanges (PrintfLine line).
Proof. intros c. apply rtc_once. right. by exists line. Qed.
#[local] Instance exchanges_pre : PreOrder exchanges.
Proof. apply rtc_po. Qed.
Hint Resolve exchanges_ReadLine exchanges_PrintfLine : preserves.
Lemma exchanges_readResponse : preserves exchanges readResponse.
Proof. unfold readResponse. preserved. Qed.
Hint Resolve exchanges_readResponse : preserves.
Lemma exchanges_cmd line : preserves exchanges (cmd line).
Proof. unfold cmd. preserved. Qed.
Lemma exchanges_readMultiline : preserves exchanges readMultiline.
Proof.
  assert (H : ∀ fuel acc, preserves exchanges (multiline_loop fuel acc)).
  { induction fuel as [|fuel IH]; intros acc; cbn [multiline_loop]; preserved. }
  intros c. apply H.
Qed.
Hint Resolve exchanges_cmd exchanges_readMultiline : preserves.
Lemma exchanges_Auth user password : preserves exchanges (Auth user password).
Proof. unfold Auth. preserved. Qed.
Lemma exchanges_UIDL : preserves exchanges UIDL.
Proof. unfold UIDL. preserved. Qed.
Lemma exchanges_Top num n : preserves exchanges (Top num n).
Proof. unfold Top. preserved. Qed.
Lemma exchanges_Close : preserves exchanges pop3_Close.
Proof.
  unfold pop3_Close. preserved. intros c. pose proof (exchanges_cmd "QUIT" c) as H. unfold try_.
  by destruct (cmd "QUIT" c) as [[] ?].
Qed.
Lemma on_line_client {A} (m : POP3 A) : preserves exchanges m → preserves on_line (on_client m).
Proof. intros H s. specialize (H (s_client s)). unfold on_client, on_line. by destruct (m (s_client s)). Qed.
Lemma on_line_store {A} (m : Store A) : preserves on_line (on_store m).
Proof. intros s. unfold on_store, on_line. destruct (m (s_store s)). apply rtc_refl. Qed.
Hint Resolve exchanges_Auth exchanges_UIDL exchanges_Top on_line_client on_line_store : preserves.
Lemma on_line_poll_item cfg account known item : preserves on_line (poll_item cfg account known item).
Proof. unfold poll_item. preserved. Qed.
Hint Resolve on_line_poll_item : preserves.
Lemma on_line_poll_items cfg account known items : preserves on_line (poll_items cfg account known items).
Proof. induction items as [|item items IH]; cbn [poll_items]; preserved. Qed.
Hint Resolve on_line_poll_items : preserves.
Lemma on_line_poll_listing cfg account listing : preserves on_line (poll_listing cfg account listing).
Proof. unfold poll_listing. preserved. Qed.
Lemma asked_wider {A} c0 c0' cf cf' (m : POP3 A) a : exchanges c0' c0 → exchanges cf cf' →
  asked c0 cf m a → asked c0' cf' m a.
Proof. intros H1 H2 (c&c'&H3&H4&H5). exists c, c'. split_and!; [by etrans|done|by etrans]. Qed.

Lemma MarkUIDLKnown_inv mb u st r st' : MarkUIDLKnown mb u st = (r, st') →
  alias_index_seen_message (data st') = alias_index_seen_message (data st) ∧
  match r with
  | Ok _ => dom (alias_index_uidl (data st')) = dom (alias_index_uidl (data st)) ∪ uidl_keys (TrimSpace mb) [u]
  | _ => data st' = data st
  end.
Proof.
  intros [H|(->&e&->)]%opened_inv; [|done]. cbn zeta in H. unfold uidl_keys. cbn [map].
  case_bool_decide as Hu.
  - injection H as <- <-. rewrite filter_cons_False by (intros Hn; by destruct Hn). split; [done|]. cbn. set_solver.
  - rewrite filter_cons_True by done. unfold Now, mbind, M_bind, gets in H. apply Exec_inv in H. rewrite H.
    destruct r; split; try done. cbn. unfold insert_new.
    destruct (_ !! _) eqn:E; [apply elem_of_dom_2 in E; set_solver|]. rewrite dom_insert_L. set_solver.
Qed.
(** The last call on an item, when what it is called for was done. *)
Lemma mark_item account item raw d c0 s r s' :
  on_store (MarkUIDLKnown (POP3_MailboxKey account) item.2) s = (r, s') →
  asked c0 (s_client s) (Top item.1 128) raw → handled account (data (s_store s)) raw →
  alias_index_seen_message d ⊆ alias_index_seen_message (data (s_store s)) →
  alias_index_uidl (data (s_store s)) = alias_index_uidl d →
  alias_index_seen_message d ⊆ alias_index_seen_message (data (s_store s')) ∧
  match r with Ok _ => item_dealt_with account item c0 (s_client s') d (data (s_store s'))
  | _ => alias_index_uidl (data (s_store s')) = alias_index_uidl d end.
Proof.
  intros (r0&st&[Hs Hu]%MarkUIDLKnown_inv&->&->)%on_store_inv Hf Hh Hd Hd'. cbn [s_store]. rewrite Hs. split; [done|].
  destruct r0; cbn [map_error]; [|by rewrite Hu..]. split; [by rewrite Hu, Hd'|]. exists raw. split; [done|].
  eapply handled_mono; [|exact Hh]. by rewrite Hs.
Qed.
(** One item: known, or fetched and dealt with; whatever stops it leaves the known ids as they were. *)
Lemma poll_item_spec cfg account known item s r s' : poll_item cfg account known item s = (r, s') →
  let d := data (s_store s) in let d' := data (s_store s') in
  alias_index_seen_message d ⊆ alias_index_seen_message d' ∧
  match r with
  | Ok _ => item.2 ∈ known ∧ alias_index_uidl d' = alias_index_uidl d ∨ (item.2 ∉ known) ∧ item_dealt_with account item (s_client s) (s_client s') d d'
  | _ => alias_index_uidl d' = alias_index_uidl d
  end.
Proof.
  unfold poll_item. case_bool_decide as Hk; [intros [= <- <-]; auto|]. cbn zeta.
  intros [(raw&s1&(c&Htop&->)%on_client_ok&H)|(Hr&r0&Hst%on_client_store&_)]%bind_inv; [|rewrite Hst; by destruct r].
  assert (Hf : asked (s_client s) c (Top item.1 128) raw) by (exists (s_client s), c; by split_and!; try apply rtc_refl).
  destruct (parseMailHeaders raw) as [h|] eqn:Hp.
  - apply bind_inv in H as [(o&s2&(st&Hi&->)%on_store_ok&H)|(Hr&r0&(r1&st&Hi&_&->)%on_store_inv&_)]; cbn [s_store s_client] in *.
    + pose proof (indexMessage_keeps_accounts h (poll_opts cfg account) (s_store s)) as (Hu&_&_&Hs). rewrite Hi in Hu, Hs. cbn in Hu, Hs.
      apply indexMessage_ok in Hi as (threads&seen&Hd&_&Hseen&_).
      destruct (mark_item account item raw (data (s_store s)) _ _ _ _ H Hf) as [H1 H2]; cbn [s_store]; [|done..|].
      * unfold handled. rewrite Hp. intros Hid. specialize (Hseen Hid). by rewrite Hd.
      * split; [done|]. destruct r; auto.
    + pose proof (indexMessage_keeps_accounts h (poll_opts cfg account) (s_store s)) as (Hu&_&_&Hs). rewrite Hi in Hu, Hs.
      split; [done|]. by destruct r.
  - destruct (mark_item account item raw (data (s_store s)) _ _ _ _ H Hf) as [H1 H2]; cbn [s_store]; [|done..|].
    + unfold handled. by rewrite Hp.
    + split; [done|]. destruct r; auto.
Qed.
Lemma dealt_with_wider account known c0 c0' cf d items : exchanges c0' c0 →
  dealt_with account known c0 cf d items → dealt_with account known c0' cf d items.
Proof.
  intros Hs H. eapply list.Forall_impl; [exact H|]. intros it [|(raw&Hf&Hh)]; [by left|right]. exists raw. split; [|done].
  by eapply asked_wider.
Qed.
Lemma uidl_keys_nil mb : uidl_keys mb [] = ∅.
Proof. done. Qed.
Lemma uidl_keys_cons mb u l : uidl_keys mb (u :: l) = uidl_keys mb [u] ∪ uidl_keys mb l.
Proof. apply (uidl_keys_app mb [u] l). Qed.
Lemma poll_items_spec cfg account known items : ∀ s r s', poll_items cfg account known items s = (r, s') →
  let d := data (s_store s) in let d' := data (s_store s') in
  ∃ n, (is_ok r = true → n = length items) ∧ alias_index_seen_message d ⊆ alias_index_seen_message d' ∧
    dom (alias_index_uidl d') = dom (alias_index_uidl d) ∪ new_keys account known (take n items) ∧
    dealt_with account known (s_client s) (s_client s') d' (take n items).
Proof.
  unfold new_keys. induction items as [|item items IH]; intros s r s'; cbn [poll_items].
  - intros [= <- <-]. exists 0. cbn [take map filter list_filter]. split_and!; [done|done| |constructor].
    by rewrite uidl_keys_nil, (right_id_L ∅ (∪)).
  - pose proof (on_line_poll_item cfg account known item s) as Hl1.
    intros [([]&s1&Hi&H)|(Hr&r0&[Hs1 H1]%poll_item_spec&Hr0)]%bind_inv; cbn zeta in *;
      [rewrite Hi in Hl1; cbn [snd] in Hl1; apply poll_item_spec in Hi as [Hs1 H1]; cbn zeta in *|].
    + pose proof (on_line_poll_items cfg account known items s1) as Hl2. rewrite H in Hl2. cbn [snd] in Hl2.
      apply IH in H as (n&Hn&Hs2&Hd&Hf). exists (S n). cbn [take length]. split_and!.
      * intros ?. by rewrite Hn.
      * by etrans.
      * rewrite Hd. destruct H1 as [[Hk ->]|(Hk&->&_)].
        -- by rewrite filter_cons_False by (intros Hn'; by apply Hn').
        -- rewrite filter_cons_True by done. cbn [map].
           by rewrite (uidl_keys_cons _ item.2 (map _ _)), (assoc_L (∪)).
      * apply list.Forall_cons. split; [|by eapply dealt_with_wider].
        destruct H1 as [[Hk _]|(_&_&raw&Hraw&Hh)]; [by left|right]. exists raw. split; [|by eapply handled_mono].
        eapply asked_wider; [apply rtc_refl|exact Hl2|done].
    + exists 0. cbn [take map filter list_filter]. split_and!; [by rewrite Hr|done| |constructor].
      rewrite uidl_keys_nil, (right_id_L ∅ (∪)). destruct r0; [done|by rewrite H1..].
Qed.

(** ** The listing *)
Lemma HasBaseline_inv key st r st' : HasBaseline key st = (r, st') →
  data st' = data st ∧ ∀ b, r = Ok b →
    b = bool_decide (alias_index_state (data st) !! key = Some (bs "baseline")) ∧ db st' = db_open.
Proof.
  intros [H|(->&e&->)]%opened_inv; [|done].
  apply bind_inv in H as [(v&s2&[Hd Hv]%QueryRow_inv&[= <- <-])|(Hr&r0&[Hd _]%QueryRow_inv&_)].
  - destruct (Hv v eq_refl) as [-> Ho]. split; [done|]. by intros b [= <-].
  - split; [done|]. by intros b ->.
Qed.
Lemma KnownUIDLs_inv key st r st' : KnownUIDLsForMailbox key st = (r, st') →
  data st' = data st ∧ ∀ known, r = Ok known → known = known_ids (TrimSpace key) (data st).
Proof.
  intros [[Hd Hv]%QueryRow_inv|(->&e&->)]%opened_inv; [|done]. split; [done|].
  intros known Hk. by destruct (Hv known Hk) as [-> _].
Qed.
Lemma SetBaseline_inv key st r st' : SetBaseline key st = (r, st') →
  data st' = match r with Ok _ => set_index_state (<[key := bs "baseline"]> (alias_index_state (data st))) (data st) | _ => data st end.
Proof. intros [H%Exec_inv|(->&e&->)]%opened_inv; done. Qed.

Lemma poll_baseline cfg account listing s r s' :
  SkipExistingOnStart cfg = true → db (s_store s) = db_open →
  alias_index_state (data (s_store s)) !! POP3_MailboxKey account ≠ Some (bs "baseline") →
  (on_store (MarkUIDLsKnown (POP3_MailboxKey account) (map snd listing));; on_store (SetBaseline (POP3_MailboxKey account))) s = (r, s') →
  baseline_recorded cfg account listing (is_ok r) (data (s_store s)) (data (s_store s')).
Proof.
  intros Hskip Hopen Hbase H. set (key := POP3_MailboxKey account) in *.
  pose proof (MarkUIDLsKnown_returns key (map snd listing) (s_store s) Hopen) as Hm. unfold wp in Hm.
  assert (Hd : ∀ n d', uidls_added (TrimSpace key) (take n (map snd listing)) (data (s_store s)) d' → is_ok r = false →
    baseline_recorded cfg account listing (is_ok r) (data (s_store s)) d').
  { intros n d' (H1&_&H3) ->. split_and!; [done..|rewrite <- H1; by destruct (data (s_store s))|rewrite <- H1; by destruct (data (s_store s))|].
    by exists n. }
  apply bind_inv in H as [([]&s1&(st&Hst&->)%on_store_ok&H)|(Hr&r0&(r1&st&Hst&->&->)%on_store_inv&Hr0)]; cbn [s_store].
  - rewrite Hst in Hm. apply on_store_inv in H as (r1&st'&Hst'%SetBaseline_inv&->&->). cbn [s_store] in *.
    destruct r1 as [[]|e| |]; cbn [map_error is_ok] in *;
      [|apply (Hd (length listing)); [by rewrite <- (length_map snd), firstn_all, Hst'|done]..].
    destruct Hm as (H1&_&H3). rewrite Hst'.
    split_and!; [done..|cbn; rewrite <- H1; by destruct (data (s_store s))|cbn; rewrite <- H1; by destruct (data (s_store s))|].
    exists (length listing). rewrite <- (length_map snd listing), firstn_all. split; [exact H3|]. intros _. split; [done|].
    cbn. by rewrite lookup_insert_eq.
  - rewrite Hst in Hm. destruct r1 as [|e| |]; [done| |done..]. destruct Hm as (k&_&Hm). by eapply Hd.
Qed.
Lemma no_mail_dealt_with account c0 cf d d' listing ok : d' = d → ok = false → mail_dealt_with account c0 cf listing ok d d'.
Proof.
  intros -> ->. exists 0. split_and!; [done| |constructor]. unfold new_keys. cbn [take map filter list_filter].
  by rewrite uidl_keys_nil, (right_id_L ∅ (∪)).
Qed.
Lemma poll_listing_spec cfg account listing s r s' : poll_listing cfg account listing s = (r, s') →
  let d := data (s_store s) in let d' := data (s_store s') in
  baseline_recorded cfg account listing (is_ok r) d d' ∨
  mail_dealt_with account (s_client s) (s_client s') listing (is_ok r) d d'.
Proof.
  intros H. cbn zeta. unfold poll_listing in H. cbn zeta in H.
  apply bind_inv in H as [(b&s1&(st&[Hd Hb]%HasBaseline_inv&->)%on_store_ok&H)|(Hr&r0&(r1&st&[Hd _]%HasBaseline_inv&_&->)%on_store_inv&_)];
    [|right; by apply no_mail_dealt_with].
  destruct (Hb b eq_refl) as [-> Hopen]. case_bool_decide as Hbase; rewrite ?andb_false_r in H.
  2: destruct (SkipExistingOnStart cfg) eqn:Hskip; cbn [andb negb] in H.
  2: { left. rewrite <- Hd. apply (poll_baseline cfg account listing (mkSession (s_client s) st) r s'); [done..|cbn; by rewrite Hd|exact H]. }
  all: right; cbn [s_store s_client] in *.
  all: apply bind_inv in H as [(known&s1&(st1&[Hd1 Hk]%KnownUIDLs_inv&->)%on_store_ok&H)|(Hr&r0&(r1&st1&[Hd1 _]%KnownUIDLs_inv&_&->)%on_store_inv&_)];
    [|apply no_mail_dealt_with; [cbn in *; congruence|done]].
  all: apply poll_items_spec in H as (n&Hn&_&Hdom&Hf); cbn [s_store s_client] in *.
  all: rewrite (Hk known eq_refl), Hd1, Hd in *; exists n; done.
Qed.

(** The rest of a session after the listing, and its end. *)
Lemma poll_session_spec cfg account s r s' : poll_session cfg account s = (r, s') →
  exchanges (s_client s) (s_client s') ∧
  ((∃ listing, asked (s_client s) (s_client s') UIDL listing ∧
      (baseline_recorded cfg account listing (is_ok r) (data (s_store s)) (data (s_store s')) ∨
       mail_dealt_with account (s_client s) (s_client s') listing (is_ok r) (data (s_store s)) (data (s_store s')))) ∨
   is_ok r = false ∧ data (s_store s') = data (s_store s)).
Proof.
  intros Hs. split.
  { pose proof (λ l, on_line_poll_listing cfg account l) as Hl.
    assert (preserves on_line (poll_session cfg account)) as Hp by (unfold poll_session; preserved).
    specialize (Hp s). by rewrite Hs in Hp. }
  unfold poll_session in Hs. pose proof (exchanges_Auth (pop_User account) (pop_Password account) (s_client s)) as Ha.
  apply bind_inv in Hs as [([]&s1&(c1&Hc1&->)%on_client_ok&Hs)|(Hr&r1&Hst%on_client_store&_)].
  2: { right. by rewrite Hr, Hst. }
  rewrite Hc1 in Ha. cbn [snd] in Ha.
  apply bind_inv in Hs as [(listing&s2&(c2&Hu&->)%on_client_ok&Hs)|(Hr&r1&Hst%on_client_store&_)].
  2: { right. by rewrite Hr, Hst. }
  left. exists listing. cbn [s_client s_store] in *. pose proof (exchanges_UIDL c1) as Hx. rewrite Hu in Hx. cbn [snd] in Hx.
  pose proof (on_line_poll_listing cfg account listing (mkSession c2 (s_store s))) as Hl. rewrite Hs in Hl.
  assert (asked (s_client s) (s_client s') UIDL listing) as Hask by (by exists c1, c2).
  split; [done|]. apply poll_listing_spec in Hs as [Hb|(n&Hn&Hd&Hf)]; [by left|right].
  exists n. split_and!; [done..|]. eapply dealt_with_wider; [|exact Hf]. by etrans.
Qed.

(** C24. No message is lost. A poll of a mailbox, whatever the server and the database do, that gets no
    connection changes nothing; on a connection it ends in one of three ways, and whatever it asked was
    asked and answered on this very connection. It recorded the baseline: the mailbox had none, the
    configuration says to skip what exists, only ids of the listing became known, no thread was
    touched, and if it succeeded all of them are known and the baseline is set. Or it went through a first part of
    the listing that the server sent in answer to UIDL, all of it if it succeeded: the ids that became
    known are exactly those of this part that were not known before, and for each of them the header of the message
    of that number was sent in answer to TOP and now counts as seen, indexed or skipped for a
    reason, unless it cannot be parsed. Or it failed and changed nothing. An id never becomes known before its
    message was dealt with, so that an error makes the next poll fetch it again. *)
Theorem poll_loses_nothing `{POP3Net} account i r i' out :
  pollMailbox account i = (r, i', out) →
  match dialPOP3 (pop_Host account) (pop_Port account) (pop_TLS account) (sql_now (store i)) with
  | Ok c0 =>
      ∃ cf, exchanges c0 cf ∧ pc_out cf = out ∧
        ((∃ listing, asked c0 cf UIDL listing ∧
            (baseline_recorded (ix_cfg i) account listing (is_ok r) (data (store i)) (data (store i')) ∨
             mail_dealt_with account c0 cf listing (is_ok r) (data (store i)) (data (store i')))) ∨
         is_ok r = false ∧ data (store i') = data (store i))
  | _ => is_ok r = false ∧ i' = i ∧ out = []
  end.
Proof.
  unfold pollMailbox. destruct (dialPOP3 _ _ _ _) as [client|e| |]; [|by intros [= <- <- <-]..].
  destruct (poll_session _ _ _) as [r0 s] eqn:Hs. pose proof (exchanges_Close (s_client s)) as Hx.
  destruct (pop3_Close _) as [rc c]. intros [= <- <- <-]. cbn [store snd] in *.
  apply poll_session_spec in Hs as [Hx0 Hs]. cbn [s_client s_store] in *. exists c. split_and!; [by etrans|done|].
  destruct Hs as [(listing&Ha&Hs)|Hs]; [left; exists listing|by right].
  split; [eapply asked_wider; [apply rtc_refl|exact Hx|exact Ha]|].
  destruct Hs as [Hb|(n&Hn&Hd&Hf)]; [by left|right; exists n]. split_and!; [done..|].
  eapply list.Forall_impl; [exact Hf|]. intros it [Hk|(raw&Hr&Hh)]; [by left|right; exists raw]. split; [|done].
  by eapply asked_wider; [apply rtc_refl|..].
Qed.

(** ** What a poll writes to the server *)
Lemma wrote_nothing P c c' : pc_out c' = pc_out c → wrote P c c'.
Proof. intros H. exists []. by rewrite H, app_nil_r. Qed.
Lemma preserves_ReadLine P : preserves (wrote P) ReadLine.
Proof.
  intros c. unfold ReadLine. destruct (pc_in c) eqn:E; [by apply wrote_nothing|].
  destruct (cut_line _ _). by apply wrote_nothing.
Qed.
Hint Resolve preserves_ReadLine : preserves.
Lemma preserves_readResponse P : preserves (wrote P) readResponse.
Proof. unfold readResponse. preserved. Qed.
Hint Resolve preserves_readResponse : preserves.
Lemma preserves_cmd (P : bytes → Prop) line : P line → preserves (wrote P) (cmd line).
Proof.
  intros HP. unfold cmd. preserved. intros c. unfold PrintfLine. destruct (pc_server c _); [|by apply wrote_nothing].
  exists [line]. split; [done|by repeat constructor].
Qed.
Hint Resolve preserves_cmd : preserves.
Lemma preserves_readMultiline P : preserves (wrote P) readMultiline.
Proof.
  assert (H : ∀ fuel acc, preserves (wrote P) (multiline_loop fuel acc)).
  { induction fuel as [|fuel IH]; intros acc; cbn [multiline_loop]; preserved. }
  intros c. apply H.
Qed.
Hint Resolve preserves_readMultiline : preserves.

Lemma has_line_end_spec s : has_line_end s = false → one_line s.
Proof.
  unfold has_line_end. intros H. split; intros Hin; apply not_true_iff_false in H; apply H, existsb_exists;
    (eexists; split; [by apply list_elem_of_In|reflexivity]).
Qed.
Lemma preserves_Auth account : preserves (wrote (pop3_command account)) (Auth (pop_User account) (pop_Password account)).
Proof.
  unfold Auth. destruct (has_line_end (pop_User account) || _) eqn:E; preserved.
  all: apply orb_false_iff in E as [Hu%has_line_end_spec Hp%has_line_end_spec]; apply preserves_cmd; unfold pop3_command; auto 6.
Qed.
Lemma preserves_UIDL account : preserves (wrote (pop3_command account)) UIDL.
Proof. unfold UIDL. preserved. apply preserves_cmd. by left. Qed.
Lemma preserves_Top account num : preserves (wrote (pop3_command account)) (Top num 128).
Proof. unfold Top. preserved. apply preserves_cmd. unfold pop3_command. eauto. Qed.
Lemma preserves_on_client {A} P (m : POP3 A) : preserves (wrote P) m → preserves (on_conn P) (on_client m).
Proof. intros H s. specialize (H (s_client s)). unfold on_client, on_conn. by destruct (m (s_client s)). Qed.
Lemma preserves_on_store {A} P (m : Store A) : preserves (on_conn P) (on_store m).
Proof. intros s. unfold on_store, on_conn. by destruct (m (s_store s)). Qed.
Hint Resolve preserves_Auth preserves_UIDL preserves_Top preserves_on_client preserves_on_store : preserves.
Lemma preserves_poll_session cfg account : preserves (on_conn (pop3_command account)) (poll_session cfg account).
Proof.
  assert (H : ∀ known items, preserves (on_conn (pop3_command account)) (poll_items cfg account known items)).
  { intros known. induction items as [|item items IH]; cbn [poll_items]; unfold poll_item; preserved. }
  unfold poll_session, poll_listing. preserved.
Qed.
Lemma pop3_command_line account line : pop3_command account line → one_line line.
Proof.
  assert (Hc : ∀ s : bytes, bool_decide (one_line s) = true → one_line s) by (intros s; apply bool_decide_eq_true).
  intros [->|[->|[[n ->]|[[H ->]|[H ->]]]]]; repeat apply one_line_app; try done; try (by apply Hc).
  apply Printable_one_line, Itoa_printable.
Qed.

(** A mailbox account cannot smuggle commands. Whatever user and password the tenant registry hands
    out, and whatever the POP3 server sends, each line that a poll writes to the server is one of USER and PASS with
    the credentials of the account, UIDL, TOP with a number, and QUIT, and is one line: it has no line end
    inside it. *)
Lemma poll_writes_commands `{POP3Net} account i r i' out :
  pollMailbox account i = (r, i', out) →
  Forall (λ line, pop3_command account line ∧ one_line line) out.
Proof.
  unfold pollMailbox, dialPOP3. destruct (connect _ _ _ _) as [srv|]; [|by intros [= _ _ <-]].
  set (P := pop3_command account).
  assert (Hpos : preserves (wrote P) readPositive) by (unfold readPositive; preserved).
  specialize (Hpos (mkPop3 srv (default [] (srv [])) [])).
  destruct (readPositive _) as [[x|e| |] client]; [|by intros [= _ _ <-]..]. cbn [snd] in Hpos.
  pose proof (preserves_poll_session (ix_cfg i) account (mkSession client (store i))) as Hs.
  destruct (poll_session _ _ _) as [r0 s]. unfold on_conn in Hs. cbn [snd s_client] in Hs.
  assert (Hc : preserves (wrote P) pop3_Close).
  { unfold pop3_Close. preserved. intros c. unfold try_.
    assert (Hq : preserves (wrote P) (cmd "QUIT")) by (apply preserves_cmd; right; by left).
    specialize (Hq c). by destruct (cmd "QUIT" c) as [[] ?]. }
  specialize (Hc (s_client s)). destruct (pop3_Close _) as [rc c]. intros [= _ _ <-]. cbn [snd] in Hc.
  destruct (transitivity (transitivity Hpos Hs) Hc) as (more&H1&H2). rewrite H1. cbn [pc_out app].
  eapply list.Forall_impl; [exact H2|]. intros line Hl. split; [done|by eapply pop3_command_line].
Qed.
End Proofs.

(** ** Witnesses *)
Lemma poll_loses_nothing_witness :
  let '(r, i', out) := test_poll in
  (is_ok r, map_to_list (alias_threads (data (store i')))) =
    (true, [(bs "1@x.example", mkRow "s@a.example" "joe@b.example" "acme" 1003)]) ∧
  ∃ c0 cf, @dialPOP3 test_net "mail.example" 995 true 0 = Ok c0 ∧ exchanges c0 cf ∧ pc_out cf = out ∧
    ((∃ listing, asked c0 cf UIDL listing ∧
        (baseline_recorded (test_indexer_cfg false None) test_account listing (is_ok r) empty_database (data (store i')) ∨
         @mail_dealt_with ascii_only test_netmail test_account c0 cf listing (is_ok r) empty_database (data (store i')))) ∨
     is_ok r = false ∧ data (store i') = empty_database).
Proof.
  assert (H : (λ '(r, i', _), (is_ok r, map_to_list (alias_threads (data (store i'))))) test_poll =
    (true, [(bs "1@x.example", mkRow "s@a.example" "joe@b.example" "acme" 1003)])) by (vm_compute; reflexivity).
  destruct test_poll as [[r i'] out] eqn:E. split; [exact H|].
  destruct (@poll_loses_nothing ascii_only (test_sql 99) test_netmail test_net test_account (test_indexer false) r i' out E)
    as (cf&Hcf). eexists _, cf. split; [reflexivity|exact Hcf].
Defined.
Lemma poll_writes_commands_witness :
  let '(_, _, out) := test_poll in
  out = [bs "USER me@a.example"; bs "PASS secret"; bs "UIDL"; bs "TOP 1 128"; bs "TOP 2 128"; bs "QUIT"] ∧
  Forall (λ line, pop3_command test_account line ∧ one_line line) out.
Proof.
  assert (H : test_poll.2 = [bs "USER me@a.example"; bs "PASS secret"; bs "UIDL"; bs "TOP 1 128"; bs "TOP 2 128"; bs "QUIT"])
    by (vm_compute; reflexivity).
  destruct test_poll as [[r i'] out] eqn:E. split; [exact H|].
  exact (@poll_writes_commands ascii_only (test_sql 99) test_netmail test_net test_account (test_indexer false) r i' out E).
Defined.
(** The first poll skips what exists. *)
Example first_poll_skips :
  let '(_, i, out) := @pollMailbox ascii_only (test_sql 99) test_netmail test_net test_account (test_indexer true) in
  (size (alias_threads (data (store i))), size (alias_index_uidl (data (store i))), out) =
  (0, 2, [bs "USER me@a.example"; bs "PASS secret"; bs "UIDL"; bs "QUIT"]).
Proof. vm_compute. reflexivity. Qed.

(** A tenant that is new in a refresh has its POP3 account polled, but nothing watches its IMAP account, and the
    watcher of a tenant that is gone goes on: Run starts the watchers once. *)
Example new_tenants_are_not_watched :
  let i0 := test_indexer_with (Some (applyTenants [] test_reg)) in
  let i := (@Run ascii_only (test_sql 99) test_netmail (λ _ _ _ _, None) test_tenants (Some (200, []))%Z [] i0).2 in
  (length (currentAccounts (ix_cfg i)), length (currentIMAPAccounts (ix_cfg i)), watchers i) = (1, 1, []).
Proof. vm_compute. reflexivity. Qed.

(** An account without a host in the list makes the whole list count as no accounts: the text of
    its error says that something is required. *)
Example bad_account_drops_all :
  match @AliasIndexerConfigFromBackend parse_nothing test_json (λ _, None)
    {[ bs "alias_index_pop3_accounts" := COther "[good, bad]" ]} with
  | Ok cfg => Some (length (Accounts cfg))
  | _ => None
  end = Some 0.
Proof. vm_compute. reflexivity. Qed.
