(* ===== verification/Imap.v ===== *)
(** * The watcher of an IMAP account: backends/imap_watcher.go, imap_client.go

    What a watcher does with its folders between two waits: the listing of folders, the baseline of a folder, the
    range of its new UIDs, the headers fetched in batches, and the cursor. The IMAP server, the
    clock and the cancelled context are functions of a clock that ticks at every look at them; a
    call that a timeout abandons counts as made, with the answers of its closed connection, and
    then as failed. Waiting in IDLE, which decides when the next round starts, is in IdleWatch.v. *)
From S2P Require Import Prelude GoStd Shared Envelope Tenant EmailAddress AliasStore AliasMessage AliasIndexer.

Definition imapEmptyHeaderMaxRetries : nat := 3.
Definition imapFolderOpTimeout : Z := (45 * second)%Z.
Definition imapSessionTimeoutCap : Z := (3 * minute)%Z.

(** A [uint32]. *)
Definition wrap32 (z : Z) : Z := (z mod 2 ^ 32)%Z.
Definition uint32 (z : Z) : Prop := (0 ≤ z < 2 ^ 32)%Z.

Record imapSelectResult := mkSelectResult { sel_UIDValidity : Z; NumMessages : Z; UIDNext : Z }.
Record imapFetchedMessage := mkFetched { UID : Z; Headers : parsedMailHeaders }.
(** A mailbox of a LIST: its name, and whether it cannot be selected. *)
Record imap_mailbox := mkMailbox { mbox_name : bytes; mbox_NoSelect : bool }.

Inductive imap_error : Type :=
| ie_context
| ie_timeout
| ie_imap (m : bytes)
| ie_store (e : store_error)
| ie_wrapped (phase : bytes) (e : imap_error)
| ie_no_cursor
| ie_failed (failed total : nat).

(** What a server answers to a command at a moment, and whether the context is cancelled then; [late] says
    that the time of an operation has run out when it returns. A message of a FETCH is its UID, 0 if
    it came without one, and its header. *)
Class IMAPWorld := {
  imap_dial : bytes → Z → bool → nat → option bytes;
  imap_login : bytes → bytes → nat → option bytes;
  imap_list : nat → list imap_mailbox + bytes;
  imap_select : bytes → nat → imapSelectResult + bytes;
  imap_search_all : nat → list Z + bytes;
  imap_fetch : list Z → nat → list (Z * bytes) + bytes;
  ctx_cancelled : nat → bool;
  late : nat → bool;
  byUID_order : nat → list imapFetchedMessage → list imapFetchedMessage
}.

Record imap_state := mkImapState { im_store : AliasStore; im_now : nat }.
Abbreviation Imap := (M imap_state imap_error).

Definition imap_on_store {A : Type} (m : Store A) : Imap A := λ s,
  let '(r, st) := m (im_store s) in (map_error ie_store r, mkImapState st (im_now s)).
(** A look at the world. *)
Definition look {A : Type} (f : nat → A) : Imap A := λ s, (Ok (f (im_now s)), mkImapState (im_store s) (S (im_now s))).
Definition answer {A : Type} (f : nat → A + bytes) : Imap A :=
  r ← look f;
  match (r : A + bytes) with inl a => mret a | inr m => fail (ie_imap m) end.
Definition accept (f : nat → option bytes) : Imap unit :=
  r ← look f;
  match (r : option bytes) with None => mret tt | Some m => fail (ie_imap m) end.
(** [fmt.Errorf("phase: %w", err)]. *)
Definition wrapped {A : Type} (phase : string) (m : Imap A) : Imap A := λ s,
  let '(r, s') := m s in (map_error (λ e, ie_wrapped (bs phase) e) r, s').

Record imapIndexStats := mkStats { indexed : nat; skippedSeen : nat; skippedOther : nat }.
Definition count_outcome (o : indexMessageOutcome) (st : imapIndexStats) : imapIndexStats :=
  match o with
  | outcomeIndexed => mkStats (S (indexed st)) (skippedSeen st) (skippedOther st)
  | outcomeSkippedSeen => mkStats (indexed st) (S (skippedSeen st)) (skippedOther st)
  | _ => mkStats (indexed st) (skippedSeen st) (S (skippedOther st))
  end.

(** The configuration of a watcher. *)
Definition newIMAPAccountWatcher (cfg : AliasIndexerConfig) : IMAPWatcherConfig := normalize (IMAP cfg).

(** ** Folders *)
Definition filterFolders (exclude : gset bytes) (folders : list bytes) : list bytes :=
  filter (λ f, f ∉ exclude) folders.
Definition is_inbox (folder : bytes) : bool := EqualFold (TrimSpace folder) "INBOX".
Definition prioritizeIMAPFolders (folders : list bytes) : list bytes :=
  match folders with
  | [] | [_] => folders
  | _ => filter (λ f, is_inbox f = true) folders ++ filter (λ f, is_inbox f = false) folders
  end.
(** The names of ListFolders. *)
Definition folder_name (m : imap_mailbox) : option bytes :=
  if mbox_NoSelect m then None else match TrimSpace (mbox_name m) with [] => None | name => Some name end.

(** ** Ranges of UIDs *)
Definition maxIMAPUID (uids : list Z) : Z := foldl Z.max 0%Z uids.
(** The first and the last UID of the new mail, and whether there is any. *)
Definition newMailUIDRange (lastUID uidNext : Z) : Z * Z * bool :=
  let fromUID := wrap32 (lastUID + 1) in
  if (uidNext =? 0)%Z || (wrap32 (uidNext - 1) <? fromUID)%Z then (fromUID, 0%Z, false)
  else (fromUID, wrap32 (uidNext - 1), true).
(** [for uid := start; uid <= end; uid++]. *)
Fixpoint uid_list (fuel : nat) (uid end_ : Z) (batch : list Z) : option (list Z) :=
  if (uid <=? end_)%Z then
    match fuel with
    | 0 => None
    | S fuel => uid_list fuel (wrap32 (uid + 1)) end_ (batch ++ [uid])
    end
  else Some batch.
(** The last UID of the batch that begins at [start]. *)
Definition batch_end (batchSize start toUID : Z) : Z :=
  let end_ := wrap32 (start + batchSize - 1) in
  if (toUID <? end_)%Z || (end_ <? start)%Z then toUID else end_.

Definition headerBlockLooksEmpty (h : parsedMailHeaders) : bool :=
  bool_decide (h_MessageID h = []) && bool_decide (h_From h = []) && bool_decide (h_To h = []).

(** ** Operations of the client and the watcher *)
Section Watcher.
Context {U : Unicode} {Q : SQL} {Nm : NetMail} {W : IMAPWorld}.

Definition check_ctx : Imap unit := b ← look ctx_cancelled; if (b : bool) then fail ie_context else mret tt.
(** Whether the time passed without the context being cancelled. *)
Definition sleepContext : Imap bool := b ← look ctx_cancelled; mret (negb b).

Definition SelectFolder (folder : bytes) : Imap imapSelectResult := answer (imap_select folder).
Definition UIDSearchAll : Imap (list Z) := answer imap_search_all.
Definition ListFolders : Imap (list bytes) := l ← answer imap_list; mret (omap folder_name l).
(** A message without UID, or whose header cannot be parsed, is left out. *)
Definition fetched_message (m : Z * bytes) : option imapFetchedMessage :=
  if (m.1 =? 0)%Z then None else mkFetched m.1 <$> parseMailHeaders m.2.
Definition FetchHeaderFields (uids : list Z) : Imap (list imapFetchedMessage) :=
  match uids with
  | [] => mret []
  | _ => l ← answer (imap_fetch uids); mret (omap fetched_message l)
  end.

(** The map from UIDs to messages: the last message of a UID. *)
Definition by_uid (messages : list imapFetchedMessage) : gmap Z imapFetchedMessage :=
  foldl (λ m msg, <[UID msg := msg]> m) ∅ messages.
(** One UID of a retry: still empty, gone, or here. *)
Definition retry_uid (refetched : gmap Z imapFetchedMessage) (st : list Z * gmap Z imapFetchedMessage) (uid : Z) :
    list Z * gmap Z imapFetchedMessage :=
  match refetched !! uid with
  | None => st
  | Some msg => if headerBlockLooksEmpty (Headers msg) then (st.1 ++ [uid], st.2) else (st.1, <[uid := msg]> st.2)
  end.
Fixpoint retries (attempts : nat) (pending : list Z) (byUID : gmap Z imapFetchedMessage) :
    Imap (gmap Z imapFetchedMessage) :=
  match attempts, pending with
  | 0, _ | _, [] => mret byUID
  | S attempts, _ =>
      slept ← sleepContext;
      if negb slept then mret byUID
      else
        refetched ← wrapped "retry fetch headers" (FetchHeaderFields pending);
        let '(next, byUID) := foldl (retry_uid (by_uid refetched)) ([], byUID) pending in
        retries attempts next byUID
  end.
Definition retryEmptyHeaderFetches (messages : list imapFetchedMessage) : Imap (list imapFetchedMessage) :=
  let pending := map UID (filter (λ m, headerBlockLooksEmpty (Headers m) = true) messages) in
  match pending with
  | [] => mret messages
  | _ =>
      byUID ← retries imapEmptyHeaderMaxRetries pending (by_uid messages);
      look (λ t, byUID_order t (map snd (map_to_list byUID)))
  end.

Definition imap_opts (cfg : AliasIndexerConfig) (account : AliasIMAPAccount) (key folder : bytes) : indexMessageOpts :=
  mkIndexMessageOpts key (imap_User account) (imap_TenantID account) (Since cfg) folder.
Fixpoint index_messages (opts : indexMessageOpts) (messages : list imapFetchedMessage) (stats : imapIndexStats) :
    Imap imapIndexStats :=
  match messages with
  | [] => mret stats
  | msg :: messages =>
      o ← imap_on_store (indexMessageFromHeaders (Headers msg) opts);
      index_messages opts messages (count_outcome o stats)
  end.
(** One turn of the loop of indexUIDRange, for a batch. *)
Definition index_batch (opts : indexMessageOpts) (batch : list Z) (stats : imapIndexStats) : Imap imapIndexStats :=
  messages ← wrapped "fetch headers" (FetchHeaderFields batch);
  messages ← retryEmptyHeaderFetches messages;
  index_messages opts messages stats.
Fixpoint range_loop (fuel : nat) (opts : indexMessageOpts) (batchSize start toUID : Z) (stats : imapIndexStats) :
    Imap imapIndexStats :=
  if (start <=? toUID)%Z then
    match fuel with
    | 0 => out_of_fuel
    | S fuel =>
        check_ctx;;
        let end_ := batch_end batchSize start toUID in
        match uid_list (Z.to_nat (end_ - start + 1)) start end_ [] with
        | None => out_of_fuel
        | Some batch =>
            stats ← index_batch opts batch stats;
            if (end_ =? toUID)%Z then mret stats
            else range_loop fuel opts batchSize (wrap32 (end_ + 1)) toUID stats
        end
    end
  else mret stats.
Definition indexUIDRange (opts : indexMessageOpts) (searchBatch fromUID toUID : Z) : Imap imapIndexStats :=
  range_loop (Z.to_nat (toUID - fromUID + 1)) opts (wrap32 searchBatch) fromUID toUID (mkStats 0 0 0).

(** ** The baseline and the cursor *)
Definition baselineFolderCursorOnly (key folder : bytes) (uidValidity maxUID : Z) : Imap unit :=
  imap_on_store (SetIMAPCursor (mkIMAPCursor key folder uidValidity maxUID true)).
(** The greatest UID of the messages, and the ids of those up to [preMaxUID]. *)
Definition baseline_message (preMaxUID : Z) (st : Z * list bytes) (msg : imapFetchedMessage) : Z * list bytes :=
  (Z.max st.1 (UID msg),
   if (preMaxUID <? UID msg)%Z then st.2
   else match normalizeMessageID (h_MessageID (Headers msg)) with [] => st.2 | id => st.2 ++ [id] end).
Fixpoint baseline_batches (fuel : nat) (size : nat) (preMaxUID : Z) (uids : list Z) (st : Z * list bytes) :
    Imap (Z * list bytes) :=
  match fuel, uids with
  | S fuel, _ :: _ =>
      check_ctx;;
      messages ← FetchHeaderFields (take size uids);
      baseline_batches fuel size preMaxUID (drop size uids) (foldl (baseline_message preMaxUID) st messages)
  | _, _ => mret st
  end.
Definition baselineFolder (cfg : IMAPWatcherConfig) (key folder : bytes) (uidValidity : Z) : Imap unit :=
  check_ctx;;
  uids ← UIDSearchAll;
  let maxUID := maxIMAPUID uids in
  if (BaselineHeaderLimit cfg <? Z.of_nat (length uids))%Z then baselineFolderCursorOnly key folder uidValidity maxUID
  else
    '(fetchedMaxUID, messageIDs) ← baseline_batches (length uids) (Z.to_nat (SearchBatch cfg)) maxUID uids (0%Z, []);
    imap_on_store (MarkSeenMessages key messageIDs);;
    imap_on_store (SetIMAPCursor (mkIMAPCursor key folder uidValidity (Z.max maxUID fetchedMaxUID) true)).

Definition syncFolderUIDs (cfg : AliasIndexerConfig) (account : AliasIMAPAccount) (key folder : bytes)
    (selected : imapSelectResult) (cursor : option IMAPCursor) : Imap (nat * Z) :=
  check_ctx;;
  let lastUID := match cursor with Some c => LastUID c | None => 0%Z end in
  let '(fromUID, toUID, hasNew) := newMailUIDRange lastUID (UIDNext selected) in
  if negb hasNew then mret (0, lastUID)
  else
    stats ← indexUIDRange (imap_opts cfg account key folder) (SearchBatch (newIMAPAccountWatcher cfg)) fromUID toUID;
    let baselineDone := match cursor with Some c => BaselineDone c | None => true end in
    imap_on_store (SetIMAPCursor (mkIMAPCursor key folder (sel_UIDValidity selected) toUID baselineDone));;
    mret (indexed stats, toUID).

(** The cursor of another UIDVALIDITY is deleted, and the error of that ignored. *)
Definition current_cursor (key folder : bytes) (selected : imapSelectResult) : Imap (option IMAPCursor) :=
  cursor ← wrapped "cursor" (imap_on_store (GetIMAPCursor key folder));
  match (cursor : option IMAPCursor) with
  | Some c =>
      if negb (UIDValidity c =? 0)%Z && negb (UIDValidity c =? sel_UIDValidity selected)%Z then
        try_ (imap_on_store (DeleteIMAPCursor key folder));; mret None
      else mret (Some c)
  | None => mret None
  end.
Definition syncFolderOnClient (cfg : AliasIndexerConfig) (account : AliasIMAPAccount) (folder : bytes) : Imap unit :=
  let key := IMAP_MailboxKey account in
  selected ← wrapped "select" (SelectFolder folder);
  cursor ← current_cursor key folder selected;
  let needsBaseline := SkipExistingOnStart cfg &&
    match (cursor : option IMAPCursor) with None => true | Some c => negb (BaselineDone c) end in
  '(selected, cursor) ← (if needsBaseline then
      wrapped "baseline" (baselineFolder (newIMAPAccountWatcher cfg) key folder (sel_UIDValidity selected));;
      selected ← wrapped "re-select after baseline" (SelectFolder folder);
      cursor ← wrapped "cursor after baseline" (imap_on_store (GetIMAPCursor key folder));
      match (cursor : option IMAPCursor) with
      | None => fail ie_no_cursor
      | Some c => mret (selected, Some c)
      end
    else mret (selected, cursor));
  wrapped "sync" (syncFolderUIDs cfg account key folder selected cursor);;
  mret tt.

(** ** A round over all folders *)
Fixpoint sync_folders (cfg : AliasIndexerConfig) (account : AliasIMAPAccount) (folders : list bytes) (failed : nat) : Imap nat :=
  match folders with
  | [] => mret failed
  | folder :: folders =>
      r ← try_ (syncFolderOnClient cfg account folder);
      sync_folders cfg account folders (if r is inl _ then failed else S failed)
  end.
Definition runWithIMAPTimeout {A : Type} (d : Z) (fn : Imap A) : Imap A :=
  if (d <=? 0)%Z then fn
  else
    r ← try_ fn;
    b ← look late;
    c ← look ctx_cancelled;
    if (c : bool) then fail ie_context
    else if (b : bool) then fail ie_timeout
    else match (r : A + imap_error) with inl a => mret a | inr e => fail e end.
Definition session_timeout (folders : nat) : Z :=
  let t := (imapFolderOpTimeout * Z.of_nat folders)%Z in
  if (imapSessionTimeoutCap <? t)%Z then imapSessionTimeoutCap else t.
(** The errors are logged; then the watcher sleeps. *)
Definition syncAllFolders (cfg : AliasIndexerConfig) (account : AliasIMAPAccount) (folders : list bytes) : Imap unit :=
  r ← try_ (
    accept (imap_dial (imap_Host account) (imap_Port account) (imap_TLS account));;
    runWithIMAPTimeout (session_timeout (length folders)) (
      wrapped "login" (accept (imap_login (imap_User account) (imap_Password account)));;
      failed ← sync_folders cfg account folders 0;
      if 0 <? failed then fail (ie_failed failed (length folders)) else mret tt));
  match (r : unit + imap_error) with inl _ => mret tt | inr _ => sleepContext;; mret tt end.

(** The folders that the watcher of an account finds when it connects. *)
Definition watched_folders (cfg : AliasIndexerConfig) (account : AliasIMAPAccount) : Imap (list bytes) :=
  accept (imap_dial (imap_Host account) (imap_Port account) (imap_TLS account));;
  folders ← runWithIMAPTimeout imapFolderOpTimeout (
    wrapped "login" (accept (imap_login (imap_User account) (imap_Password account)));;
    wrapped "list folders" ListFolders);
  mret (prioritizeIMAPFolders (filterFolders (ExcludeFolders (newIMAPAccountWatcher cfg)) folders)).
(** Rounds of watchAccount, until the context is cancelled. *)
Fixpoint watchAccount (rounds : nat) (cfg : AliasIndexerConfig) (account : AliasIMAPAccount) (folders : list bytes) : Imap unit :=
  match rounds with
  | 0 => mret tt
  | S rounds =>
      b ← look ctx_cancelled;
      if (b : bool) then mret tt
      else syncAllFolders cfg account folders;; watchAccount rounds cfg account folders
  end.
End Watcher.

(** ** Notions used by the statements *)

(** A list in parts of a size. *)
Fixpoint chunks {A : Type} (fuel size : nat) (l : list A) : list (list A) :=
  match fuel, l with
  | S fuel, _ :: _ => take size l :: chunks fuel size (drop size l)
  | _, _ => []
  end.
(** The batches, one after the other. *)
Fixpoint for_batches `{IMAPWorld} (f : list Z → imapIndexStats → Imap imapIndexStats) (batches : list (list Z))
    (stats : imapIndexStats) : Imap imapIndexStats :=
  match batches with
  | [] => mret stats
  | batch :: batches => check_ctx;; stats ← f batch stats; for_batches f batches stats
  end.
(** The UIDs between two, in parts. *)
Definition uid_batches (size fromUID toUID : Z) : list (list Z) :=
  chunks (Z.to_nat (toUID - fromUID + 1)) (Z.to_nat size) (seqZ fromUID (toUID - fromUID + 1)).
(** A relation of the tables before and after. *)
Definition on_tables (R : database → database → Prop) (s s' : imap_state) : Prop :=
  R (data (im_store s)) (data (im_store s')).
#[export] Instance on_tables_pre R `{!PreOrder R} : PreOrder (on_tables R).
Proof. split; [by intros s; unfold on_tables|intros s1 s2 s3; unfold on_tables; apply transitivity]. Qed.
Definition same_cursors (d d' : database) : Prop := alias_index_imap_cursor d' = alias_index_imap_cursor d.
#[export] Instance same_cursors_pre : PreOrder same_cursors.
Proof. split; [by intros d|intros d1 d2 d3; unfold same_cursors; congruence]. Qed.
(** A UID is below UIDNEXT, which is a 32-bit number. *)
Definition is_uid (z : Z) : Prop := (0 ≤ z < 2 ^ 32 - 1)%Z.
(** Cursors as a watcher writes them: 32-bit numbers, the baseline done. *)
Definition cursors_ok (cursors : gmap (bytes * bytes) (Z * Z * bool)) : Prop :=
  map_Forall (λ _ row, uint32 row.1.1 ∧ is_uid row.1.2 ∧ row.2 = true) cursors.
(** What the world answers is what IMAP and maps promise: 32-bit numbers, and all messages of a map. *)
Class IMAPLaws `{IMAPWorld} : Prop := {
  select_numbers f t sel : imap_select f t = inl sel → uint32 (sel_UIDValidity sel) ∧ uint32 (UIDNext sel);
  search_numbers t uids : imap_search_all t = inl uids → Forall is_uid uids;
  fetch_numbers uids t l : imap_fetch uids t = inl l → Forall (λ m, is_uid m.1) l;
  order_permutes t l : byUID_order t l ≡ₚ l
}.
(** The cursor where a synchronization starts. *)
Definition cursor_last (cursor : option IMAPCursor) : Z := match cursor with Some c => LastUID c | None => 0%Z end.
Definition cursor_done (cursor : option IMAPCursor) : bool := match cursor with Some c => BaselineDone c | None => true end.
(** A message that counts as seen, if it has an id. *)
Definition counted `{Unicode} (mailbox : bytes) (d : database) (m : imapFetchedMessage) : Prop :=
  normalizeMessageID (normalizeMessageID (h_MessageID (Headers m))) ≠ [] →
  is_Some (alias_index_seen_message d !! seen_key mailbox (Headers m)).
(** A batch that was fetched between two moments, empty headers again, with every message of the answer counted. *)
Definition batch_done `{Unicode} `{NetMail} `{IMAPWorld} (mailbox : bytes) (since upto : nat) (d : database) (batch : list Z) : Prop :=
  ∃ s s1 s2 messages messages', FetchHeaderFields batch s = (Ok messages, s1) ∧
    retryEmptyHeaderFetches messages s1 = (Ok messages', s2) ∧ since ≤ im_now s ∧ im_now s2 ≤ upto ∧
    (∀ m, m ∈ messages → ∃ m', m' ∈ messages' ∧ UID m' = UID m) ∧ Forall (counted mailbox d) messages'.
(** Moments only pass. *)
Definition not_before (s s' : imap_state) : Prop := im_now s ≤ im_now s'.
#[export] Instance not_before_pre : PreOrder not_before.
Proof. split; [by intros s; unfold not_before|intros s1 s2 s3; unfold not_before; lia]. Qed.

(** The key of a UID is that of its message. *)
Definition uid_map (m : gmap Z imapFetchedMessage) : Prop := map_Forall (λ u msg, UID msg = u) m.
(** A call from a state: what holds of each kind of return. *)
Definition post {A} (m : Imap A) (P : A → imap_state → Prop) (N : imap_state → Prop) (s : imap_state) : Prop :=
  match m s with (Ok a, s') => P a s' | (_, s') => N s' end.
(** Cursors in order, of which only that of the folder changed. *)
Definition in_order (mailbox folder : bytes) (cursors0 : gmap (bytes * bytes) (Z * Z * bool)) (s : imap_state) : Prop :=
  let cursors := alias_index_imap_cursor (data (im_store s)) in
  cursors_ok cursors ∧ ∀ k, k ≠ (TrimSpace mailbox, TrimSpace folder) → cursors !! k = cursors0 !! k.
Definition row_cursor (mailbox folder : bytes) (row : Z * Z * bool) : IMAPCursor :=
  mkIMAPCursor (TrimSpace mailbox) (TrimSpace folder) row.1.1 row.1.2 row.2.
(** The cursor where it was or further, unless the server announced another UIDVALIDITY. *)
Definition announced `{IMAPWorld} (folder : bytes) (v : Z) : Prop := v ≠ 0%Z ∧ ∃ t sel, imap_select folder t = inl sel ∧ sel_UIDValidity sel ≠ v.
Definition advanced `{IMAPWorld} (mailbox folder : bytes) (s0 s : imap_state) : Prop :=
  let cursors s := alias_index_imap_cursor (data (im_store s)) in
  let key := (TrimSpace mailbox, TrimSpace folder) in
  in_order mailbox folder (cursors s0) s ∧
  ∀ v last b, cursors s0 !! key = Some (v, last, b) →
    (∃ v' last', cursors s !! key = Some (v', last', true) ∧ (last ≤ last')%Z) ∨ announced folder v.

(** A folder where a round goes on from its cursor: there is nothing to baseline, and the server does not
    announce another UIDVALIDITY than that of the cursor. *)
Definition row_last (row : option (Z * Z * bool)) : Z := match row with Some (_, last, _) => last | None => 0%Z end.
Definition row_done (row : option (Z * Z * bool)) : bool := match row with Some (_, _, done) => done | None => true end.
Definition goes_on `{IMAPWorld} (cfg : AliasIndexerConfig) (folder : bytes) (row : option (Z * Z * bool)) : Prop :=
  match row with
  | Some (v, last, done) => (done = true ∨ SkipExistingOnStart cfg = false) ∧ uint32 last ∧ (last + 1 < 2 ^ 32)%Z ∧
      ∀ t sel, imap_select folder t = inl sel → v = 0%Z ∨ sel_UIDValidity sel = v
  | None => SkipExistingOnStart cfg = false
  end.
(** Every UID above the cursor and below the UIDNEXT of the selection was dealt with, and the cursor is there. *)
Definition caught_up `{Unicode} `{NetMail} `{IMAPWorld} (mailbox folder : bytes) (s s' : imap_state) : Prop :=
  let key := (TrimSpace mailbox, TrimSpace folder) in
  let cursors := alias_index_imap_cursor (data (im_store s)) in
  let last := row_last (cursors !! key) in
  ∃ selected, imap_select folder (im_now s) = inl selected ∧
    let last' := Z.max last (UIDNext selected - 1) in
    (∃ batches, concat batches = seqZ (last + 1) (last' - last) ∧
      Forall (batch_done mailbox (im_now s) (im_now s') (data (im_store s'))) batches) ∧
    alias_index_imap_cursor (data (im_store s')) =
      if (last <? last')%Z then <[key := (sel_UIDValidity selected, last', row_done (cursors !! key))]> cursors else cursors.
(** A folder whose messages have the UIDs below [next] and a header each, under a UIDVALIDITY; a FETCH also
    returns the messages [extra]. *)
Definition test_header_of (u : Z) : bytes :=
  bs "Message-Id: <" ++ Itoa u ++ bs "@x.example>" ++ [LF] ++ bs "From: joe@b.example" ++ [LF] ++ bs "To: s@a.example".
Definition test_imap (validity next : Z) (extra : list Z) : IMAPWorld := {|
  imap_dial _ _ _ _ := None;
  imap_login _ _ _ := None;
  imap_list _ := inl [mkMailbox "Sent" false; mkMailbox " inbox" false; mkMailbox "[All]" true];
  imap_select _ _ := inl (mkSelectResult validity 1 next);
  imap_search_all _ := inl (seqZ 1 (next - 1));
  imap_fetch uids _ := inl (map (λ u, (u, test_header_of u)) (filter (λ u, (0 ≤ u < 2 ^ 32 - 1)%Z) (uids ++ extra)));
  ctx_cancelled _ := false;
  late _ := false;
  byUID_order _ l := l
|}.
Definition test_imap_account : AliasIMAPAccount := mkAliasIMAPAccount "mail.example" 993 true "me@a.example" "secret" "acme".
Definition imap_key : bytes := IMAP_MailboxKey test_imap_account.
(** An index with a cursor of the folder, or none. *)
Definition test_imap_state (cursor : option (Z * Z * bool)) : imap_state := mkImapState
  (test_store 9 (set_cursors (match cursor with Some row => {[ (TrimSpace imap_key, bs "INBOX") := row ]} | None => ∅ end) empty_database)) 0.
Definition test_round (w : IMAPWorld) (skip : bool) (s : imap_state) : outcome imap_error unit * imap_state :=
  @syncFolderOnClient ascii_only (test_sql 99) test_netmail w (test_indexer_cfg skip None) test_imap_account "INBOX" s.
Definition cursor_of (s : imap_state) : option (Z * Z * bool) :=
  alias_index_imap_cursor (data (im_store s)) !! (TrimSpace imap_key, bs "INBOX").
Definition threads_of (s : imap_state) : nat := size (alias_threads (data (im_store s))).

(** * Proofs *)
Section Proofs.
Context {U : Unicode} {Q : SQL} {Nm : NetMail} {W : IMAPWorld}.

(** ** Ranges *)
Lemma wrap32_small z : uint32 z → wrap32 z = z.
Proof. apply Z.mod_small. Qed.
Lemma newMailUIDRange_spec lastUID uidNext : uint32 lastUID → uint32 uidNext → (lastUID + 1 < 2 ^ 32)%Z →
  newMailUIDRange lastUID uidNext =
    if (lastUID + 1 <? uidNext)%Z then (lastUID + 1, uidNext - 1, true)%Z else (lastUID + 1, 0, false)%Z.
Proof.
  unfold uint32. intros Hl Hn Hlt. unfold newMailUIDRange. rewrite (wrap32_small (lastUID + 1)) by (unfold uint32; lia).
  destruct (Z.eqb_spec uidNext 0) as [->|H0].
  { cbn [orb]. by rewrite (proj2 (Z.ltb_ge (lastUID + 1) 0)) by lia. }
  rewrite (wrap32_small (uidNext - 1)) by (unfold uint32; lia). cbn [orb].
  destruct (Z.ltb_spec (uidNext - 1) (lastUID + 1)), (Z.ltb_spec (lastUID + 1) uidNext); (done || lia).
Qed.
Lemma uid_list_spec fuel : ∀ uid end_ batch, (0 ≤ uid)%Z → (end_ < 2 ^ 32 - 1)%Z → Z.of_nat fuel = Z.max 0 (end_ - uid + 1) →
  uid_list fuel uid end_ batch = Some (batch ++ seqZ uid (end_ - uid + 1)).
Proof.
  induction fuel as [|fuel IH]; intros uid end_ batch H0 H1 Hf; cbn [uid_list].
  - rewrite (proj2 (Z.leb_gt uid end_)) by lia. rewrite seqZ_nil by lia. by rewrite app_nil_r.
  - rewrite (proj2 (Z.leb_le uid end_)) by lia. rewrite wrap32_small by (unfold uint32; lia).
    rewrite IH by lia. rewrite (seqZ_cons uid) by lia. rewrite <- app_assoc. cbn.
    by replace (Z.pred (end_ - uid + 1)) with (end_ - (uid + 1) + 1)%Z by lia.
Qed.
Lemma batch_end_spec size start toUID : (1 ≤ size < 2 ^ 32)%Z → (0 ≤ start ≤ toUID)%Z → (toUID < 2 ^ 32 - 1)%Z →
  batch_end size start toUID = Z.min (start + size - 1) toUID.
Proof.
  intros Hs Hst Ht. unfold batch_end, wrap32. cbn zeta.
  destruct (Z.lt_ge_cases (start + size - 1) (2 ^ 32)) as [Hlt|Hge].
  - rewrite Z.mod_small by lia.
    destruct (Z.ltb_spec toUID (start + size - 1)), (Z.ltb_spec (start + size - 1) start); cbn [orb]; lia.
  - replace ((start + size - 1) mod 2 ^ 32)%Z with (start + size - 1 - 2 ^ 32)%Z.
    + destruct (Z.ltb_spec toUID (start + size - 1 - 2 ^ 32)), (Z.ltb_spec (start + size - 1 - 2 ^ 32) start); cbn [orb]; lia.
    + apply (Z.mod_unique_pos _ _ 1); lia.
Qed.

Lemma bind_ext {A B} (m : Imap A) (k k' : A → Imap B) s : (∀ a s1, k a s1 = k' a s1) → (m ≫= k) s = (m ≫= k') s.
Proof. intros H. unfold mbind, M_bind. by destruct (m s) as [[] ?]. Qed.
Lemma take_seqZ n a m : (0 ≤ m)%Z → take n (seqZ a m) = seqZ a (Z.min (Z.of_nat n) m).
Proof.
  intros Hm. apply list_eq. intros i. rewrite list.lookup_take. case_decide; rewrite ?lookup_seqZ;
  rewrite option_eq; intros x; rewrite ?lookup_seqZ; naive_solver lia.
Qed.
Lemma drop_seqZ n a m : (0 ≤ m)%Z → drop n (seqZ a m) = seqZ (a + Z.of_nat n) (m - Z.of_nat n).
Proof.
  intros Hm. apply list_eq. intros i. rewrite list.lookup_drop, option_eq. intros x. rewrite !lookup_seqZ. lia.
Qed.
Lemma chunks_cons {A} fuel size (l : list A) : l ≠ [] → chunks (S fuel) size l = take size l :: chunks fuel size (drop size l).
Proof. by destruct l. Qed.
Lemma seqZ_nonempty a m : (0 < m)%Z → seqZ a m ≠ [].
Proof. intros Hm. by rewrite seqZ_cons by done. Qed.
Lemma range_loop_spec opts size toUID : (1 ≤ size < 2 ^ 32)%Z → (toUID < 2 ^ 32 - 1)%Z →
  ∀ fuel fuel' start stats s, (0 ≤ start ≤ toUID)%Z →
  (toUID - start + 1 ≤ Z.of_nat fuel)%Z → (toUID - start + 1 ≤ Z.of_nat fuel')%Z →
  range_loop fuel opts size start toUID stats s =
  for_batches (index_batch opts) (chunks fuel' (Z.to_nat size) (seqZ start (toUID - start + 1))) stats s.
Proof.
  intros Hs Ht. induction fuel as [|fuel IH]; intros fuel' start stats s Hst Hf Hf'; [lia|].
  destruct fuel' as [|fuel']; [lia|]. cbn [range_loop]. rewrite (proj2 (Z.leb_le start toUID)) by lia.
  rewrite chunks_cons by (apply seqZ_nonempty; lia). cbn [for_batches]. cbv zeta.
  rewrite batch_end_spec by lia. set (end_ := Z.min (start + size - 1) toUID).
  apply bind_ext. intros [] s1. rewrite (uid_list_spec _ start end_ []) by lia. cbn [app].
  rewrite take_seqZ by lia. replace (Z.min (Z.of_nat (Z.to_nat size)) (toUID - start + 1)) with (end_ - start + 1)%Z by lia.
  apply bind_ext. intros stats' s2. rewrite drop_seqZ by lia. destruct (Z.eqb_spec end_ toUID) as [He|He].
  - rewrite (seqZ_nil (start + _)) by lia. by destruct fuel'.
  - rewrite wrap32_small by (unfold uint32; lia).
    replace (start + Z.of_nat (Z.to_nat size))%Z with (end_ + 1)%Z by lia.
    replace (toUID - start + 1 - Z.of_nat (Z.to_nat size))%Z with (toUID - (end_ + 1) + 1)%Z by lia.
    apply IH; lia.
Qed.
Lemma chunks_spec {A} size : 0 < size → ∀ fuel (l : list A), length l ≤ fuel →
  concat (chunks fuel size l) = l ∧ Forall (λ b, 1 ≤ length b ≤ size) (chunks fuel size l).
Proof.
  intros Hs. induction fuel as [|fuel IH]; intros l Hl.
  - destruct l; [by split|cbn in Hl; lia].
  - destruct l as [|x l]; [by split|]. rewrite chunks_cons by done.
    destruct (IH (drop size (x :: l))) as [H1 H2]; [rewrite length_drop; cbn [length] in *; lia|].
    split; [cbn [concat]; by rewrite H1, take_drop|]. constructor; [|done]. rewrite length_take. cbn [length]. lia.
Qed.

Lemma indexUIDRange_spec opts searchBatch fromUID toUID :
  (0 ≤ fromUID ≤ toUID)%Z → (toUID < 2 ^ 32 - 1)%Z → (1 ≤ searchBatch < 2 ^ 32)%Z →
  let batches := uid_batches searchBatch fromUID toUID in
  (∀ s, indexUIDRange opts searchBatch fromUID toUID s = for_batches (index_batch opts) batches (mkStats 0 0 0) s) ∧
  concat batches = seqZ fromUID (toUID - fromUID + 1) ∧
  Forall (λ b, 1 ≤ Z.of_nat (length b) ≤ searchBatch)%Z batches.
Proof.
  intros Hf Ht Hs. cbv zeta. unfold uid_batches.
  destruct (chunks_spec (Z.to_nat searchBatch) ltac:(lia) (Z.to_nat (toUID - fromUID + 1))
    (seqZ fromUID (toUID - fromUID + 1))) as [H1 H2]; [rewrite length_seqZ; lia|].
  split_and!; [|exact H1|eapply list.Forall_impl; [exact H2|]; cbn; intros; lia].
  intros s. unfold indexUIDRange. rewrite (wrap32_small searchBatch) by (unfold uint32; lia).
  apply range_loop_spec; lia.
Qed.

(** New mail is fetched exactly once, in batches. For a cursor below the last UID and any UIDNEXT of the server,
    all 32-bit numbers, newMailUIDRange finds new mail exactly when there are UIDs above the cursor and below
    UIDNEXT; indexUIDRange then returns after it has handled, one after the other, the batches whose
    concatenation is the list of exactly these UIDs, in order; none of them is empty or longer than the
    configured size. In particular no 32-bit addition of the loops wraps around. *)
Lemma indexUIDRange_batches opts searchBatch lastUID uidNext :
  uint32 lastUID → uint32 uidNext → (lastUID + 1 < 2 ^ 32)%Z → (1 ≤ searchBatch < 2 ^ 32)%Z →
  let '(fromUID, toUID, hasNew) := newMailUIDRange lastUID uidNext in
  (hasNew = true ↔ (lastUID + 1 < uidNext)%Z) ∧
  (hasNew = true →
    let batches := uid_batches searchBatch fromUID toUID in
    (∀ s, indexUIDRange opts searchBatch fromUID toUID s = for_batches (index_batch opts) batches (mkStats 0 0 0) s) ∧
    concat batches = seqZ (lastUID + 1) (uidNext - lastUID - 1) ∧
    Forall (λ b, 1 ≤ Z.of_nat (length b) ≤ searchBatch)%Z batches).
Proof.
  intros Hl Hn Hlt Hs. rewrite newMailUIDRange_spec by done. unfold uint32 in *.
  destruct (Z.ltb_spec (lastUID + 1) uidNext) as [H|H]; (split; [naive_solver lia|]); [|done]. intros _.
  replace (uidNext - lastUID - 1)%Z with (uidNext - 1 - (lastUID + 1) + 1)%Z by lia.
  apply indexUIDRange_spec; lia.
Qed.

(** ** What the parts of a round preserve *)
Section Preserves.
Context (R : database → database → Prop) `{!PreOrder R}.
Lemma preserves_same_store {A} (m : Imap A) : (∀ s, im_store (m s).2 = im_store s) → preserves (on_tables R) m.
Proof. intros H s. unfold on_tables. by rewrite H. Qed.
Lemma preserves_look {A} (f : nat → A) : preserves (on_tables R) (look f).
Proof. by apply preserves_same_store. Qed.
Lemma preserves_imap_store {A} (m : Store A) : preserves (on_data R) m → preserves (on_tables R) (imap_on_store m).
Proof. intros H s. specialize (H (im_store s)). unfold imap_on_store, on_tables. by destruct (m (im_store s)). Qed.
Lemma preserves_wrapped {A} phase (m : Imap A) : preserves (on_tables R) m → preserves (on_tables R) (wrapped phase m).
Proof. intros H s. specialize (H s). unfold wrapped. by destruct (m s). Qed.
Lemma preserves_try {A} (m : Imap A) : preserves (on_tables R) m → preserves (on_tables R) (try_ m).
Proof. intros H s. specialize (H s). unfold try_. by destruct (m s) as [[] ?]. Qed.
End Preserves.
Hint Extern 1 (preserves _ (look _)) => apply preserves_look : preserves.
Hint Extern 1 (preserves _ (imap_on_store _)) => apply preserves_imap_store : preserves.
Hint Extern 1 (preserves _ (wrapped _ _)) => apply preserves_wrapped : preserves.
Hint Extern 1 (preserves _ (try_ _)) => apply preserves_try : preserves.
Lemma preserves_answer R `{!PreOrder R} {A} (f : nat → A + bytes) : preserves (on_tables R) (answer f).
Proof. unfold answer. preserved. Qed.
Lemma preserves_check_ctx R `{!PreOrder R} : preserves (on_tables R) check_ctx.
Proof. unfold check_ctx. preserved. Qed.
Lemma preserves_sleepContext R `{!PreOrder R} : preserves (on_tables R) sleepContext.
Proof. unfold sleepContext. preserved. Qed.
Hint Extern 1 (preserves _ (answer _)) => apply preserves_answer : preserves.
Hint Extern 1 (preserves _ check_ctx) => apply preserves_check_ctx : preserves.
Hint Extern 1 (preserves _ sleepContext) => apply preserves_sleepContext : preserves.
Lemma preserves_Fetch R `{!PreOrder R} uids : preserves (on_tables R) (FetchHeaderFields uids).
Proof. unfold FetchHeaderFields. preserved. Qed.
Hint Extern 1 (preserves _ (FetchHeaderFields _)) => apply preserves_Fetch : preserves.
Lemma preserves_retry R `{!PreOrder R} messages : preserves (on_tables R) (retryEmptyHeaderFetches messages).
Proof.
  assert (H : ∀ n pending m, preserves (on_tables R) (retries n pending m)).
  { induction n as [|n IH]; intros pending m; cbn [retries]; preserved. }
  unfold retryEmptyHeaderFetches. preserved.
Qed.
Hint Extern 1 (preserves _ (retryEmptyHeaderFetches _)) => apply preserves_retry : preserves.
Lemma preserves_index_messages opts messages : ∀ stats, preserves (on_tables keeps_accounts) (index_messages opts messages stats).
Proof.
  induction messages as [|msg messages IH]; intros stats; cbn [index_messages]; preserved.
  apply preserves_imap_store, indexMessage_keeps_accounts.
Qed.
Lemma preserves_index_batch opts batch stats : preserves (on_tables keeps_accounts) (index_batch opts batch stats).
Proof. unfold index_batch. preserved. apply preserves_index_messages. Qed.
Lemma preserves_for_batches opts batches : ∀ stats, preserves (on_tables keeps_accounts) (for_batches (index_batch opts) batches stats).
Proof.
  induction batches as [|b batches IH]; intros stats; cbn [for_batches]; preserved. apply preserves_index_batch.
Qed.

(** *** Time *)
Lemma passes {A} {m : Imap A} {s r s'} : m s = (r, s') → preserves not_before m → im_now s ≤ im_now s'.
Proof. intros E Hm. specialize (Hm s). by rewrite E in Hm. Qed.
Lemma later_look {A} (f : nat → A) : preserves not_before (look f).
Proof. intros s. unfold not_before. cbn. lia. Qed.
Lemma later_store {A} (m : Store A) : preserves not_before (imap_on_store m).
Proof. intros s. unfold imap_on_store, not_before. by destruct (m (im_store s)). Qed.
Lemma later_wrapped {A} phase (m : Imap A) : preserves not_before m → preserves not_before (wrapped phase m).
Proof. intros H s. specialize (H s). unfold wrapped. by destruct (m s). Qed.
Hint Extern 1 (preserves not_before (look _)) => apply later_look : preserves.
Hint Extern 1 (preserves not_before (imap_on_store _)) => apply later_store : preserves.
Hint Extern 1 (preserves not_before (wrapped _ _)) => apply later_wrapped : preserves.
Lemma later_check_ctx : preserves not_before check_ctx.
Proof. unfold check_ctx. preserved. Qed.
Lemma later_Fetch uids : preserves not_before (FetchHeaderFields uids).
Proof. unfold FetchHeaderFields, answer. preserved. Qed.
Hint Resolve later_check_ctx later_Fetch : preserves.
Lemma later_retry messages : preserves not_before (retryEmptyHeaderFetches messages).
Proof.
  assert (H : ∀ n pending m, preserves not_before (retries n pending m)).
  { induction n as [|n IH]; intros pending m; cbn [retries]; unfold sleepContext; preserved. }
  unfold retryEmptyHeaderFetches. preserved.
Qed.
Lemma later_index_messages opts messages : ∀ stats, preserves not_before (index_messages opts messages stats).
Proof. induction messages as [|msg messages IH]; intros stats; cbn [index_messages]; preserved. Qed.
Hint Resolve later_retry later_index_messages : preserves.
Lemma later_index_batch opts batch stats : preserves not_before (index_batch opts batch stats).
Proof. unfold index_batch. preserved. Qed.
Hint Resolve later_index_batch : preserves.
Lemma later_for_batches opts batches : ∀ stats, preserves not_before (for_batches (index_batch opts) batches stats).
Proof. induction batches as [|b batches IH]; intros stats; cbn [for_batches]; preserved. Qed.

(** ** A retry keeps the messages *)
Lemma by_uid_spec messages : uid_map (by_uid messages) ∧ ∀ msg, msg ∈ messages → is_Some (by_uid messages !! UID msg).
Proof.
  unfold by_uid. induction messages as [|x messages [H1 H2]] using rev_ind.
  - split; [apply map_Forall_empty|by intros msg ?%elem_of_nil].
  - rewrite foldl_app. cbn. split; [by apply map_Forall_insert_2|].
    intros msg [H|H%list_elem_of_singleton]%elem_of_app.
    + rewrite lookup_insert. case_decide; [by eexists|by apply H2].
    + subst. rewrite lookup_insert_eq. by eexists.
Qed.
Lemma retry_fold refetched pending : ∀ next m, uid_map refetched → uid_map m →
  let st := foldl (retry_uid refetched) (next, m) pending in uid_map st.2 ∧ dom m ⊆ dom st.2.
Proof.
  induction pending as [|u pending IH]; intros next m Hr Hm; [done|]. cbn [foldl]. unfold retry_uid at 2 4. cbn [fst snd].
  destruct (refetched !! u) as [msg|] eqn:E; [|by apply IH].
  destruct (headerBlockLooksEmpty _); [by apply IH|].
  assert (Hm' : uid_map (<[u:=msg]> m)) by (apply map_Forall_insert_2; [by apply (Hr u)|done]).
  destruct (IH next (<[u:=msg]> m) Hr Hm') as [H1 H2]. split; [exact H1|].
  etrans; [|exact H2]. rewrite dom_insert_L. apply union_subseteq_r.
Qed.
Lemma retries_ok n : ∀ pending m s m' s', uid_map m → retries n pending m s = (Ok m', s') → uid_map m' ∧ dom m ⊆ dom m'.
Proof.
  induction n as [|n IH]; intros pending m s m' s' Hm; cbn [retries]; [by intros [= <- <-]|].
  destruct pending as [|u pending]; [by intros [= <- <-]|].
  intros (b&s1&_&H)%bind_ok. destruct b; cbn [negb] in H; [|by injection H as <- <-].
  apply bind_ok in H as (refetched&s2&_&H).
  destruct (by_uid_spec refetched) as [Hr _].
  pose proof (retry_fold (by_uid refetched) (u :: pending) [] m Hr Hm) as [H1 H2]. cbn zeta in H1, H2.
  destruct (foldl _ _ _) as [next m1]. cbn [fst snd] in *.
  apply IH in H as [H3 H4]; [|done]. split; [done|]. by etrans.
Qed.
Lemma retry_keeps_messages {IL : IMAPLaws} messages s messages' s' : retryEmptyHeaderFetches messages s = (Ok messages', s') →
  ∀ m, m ∈ messages → ∃ m', m' ∈ messages' ∧ UID m' = UID m.
Proof.
  unfold retryEmptyHeaderFetches. cbn zeta. destruct (map UID _) as [|u pending].
  { intros [= <- <-] m Hm. by exists m. }
  destruct (by_uid_spec messages) as [H1 H2]. intros (m1&s1&Hr&[= <- <-])%bind_ok m Hm.
  apply retries_ok in Hr as [H3 H4]; [|exact H1].
  assert (Hd : UID m ∈ dom m1) by (apply H4, elem_of_dom; by apply H2). apply elem_of_dom in Hd as [m' Hm'].
  exists m'. split; [|by apply (H3 (UID m))]. rewrite order_permutes.
  apply (list_elem_of_fmap_2' snd _ (UID m, m')); [by apply elem_of_map_to_list|done].
Qed.

(** ** Nothing is lost *)
Lemma counted_mono mb d d' m : alias_index_seen_message d ⊆ alias_index_seen_message d' → counted mb d m → counted mb d' m.
Proof. intros Hs H Hid. destruct (H Hid) as [t Ht]. exists t. by eapply lookup_weaken. Qed.
Lemma batch_done_mono mb t0 t1 t0' t1' d d' b : alias_index_seen_message d ⊆ alias_index_seen_message d' → t0' ≤ t0 → t1 ≤ t1' →
  batch_done mb t0 t1 d b → batch_done mb t0' t1' d' b.
Proof.
  intros Hs H0 H1 (s&s1&s2&ms&ms'&Hf&Hr&Ht0&Ht1&Hm&Hc). exists s, s1, s2, ms, ms'. split_and!; [done|done|lia|lia|done|].
  eapply list.Forall_impl; [exact Hc|]. intros m. by apply counted_mono.
Qed.
Lemma imap_on_store_ok {A} (m : Store A) s a s' : imap_on_store m s = (Ok a, s') →
  ∃ st, m (im_store s) = (Ok a, st) ∧ s' = mkImapState st (im_now s).
Proof. unfold imap_on_store. destruct (m (im_store s)) as [[] st] eqn:E; try discriminate. intros [= <- <-]. by exists st. Qed.
Lemma wrapped_ok {A} phase (m : Imap A) s a s' : wrapped phase m s = (Ok a, s') → m s = (Ok a, s').
Proof. unfold wrapped. destruct (m s) as [[] s1]; try discriminate. by intros [= <- <-]. Qed.
Lemma index_messages_ok opts messages : ∀ stats s stats' s', index_messages opts messages stats s = (Ok stats', s') →
  Forall (counted (mailboxKey opts) (data (im_store s'))) messages.
Proof.
  induction messages as [|m messages IH]; intros stats s stats' s'; cbn [index_messages]; [constructor|].
  intros (o&s1&(st&Hi&->)%imap_on_store_ok&H)%bind_ok. apply indexMessage_ok in Hi as (threads&seen&Hd&_&Hseen&_).
  pose proof (preserves_index_messages opts messages (count_outcome o stats) (mkImapState st (im_now s))) as (_&_&_&Hs).
  rewrite H in Hs. constructor; [|by eapply IH]. eapply counted_mono; [exact Hs|]. intros Hid. cbn. rewrite Hd. by apply Hseen.
Qed.
Lemma for_batches_ok {IL : IMAPLaws} opts batches : ∀ stats s stats' s', for_batches (index_batch opts) batches stats s = (Ok stats', s') →
  Forall (batch_done (mailboxKey opts) (im_now s) (im_now s') (data (im_store s'))) batches.
Proof.
  induction batches as [|b batches IH]; intros stats s stats' s'; cbn [for_batches]; [constructor|].
  intros ([]&s1&Hc&H)%bind_ok. apply bind_ok in H as (stats1&s2&H1&H).
  pose proof (passes Hc later_check_ctx) as T1. pose proof (passes H1 (later_index_batch _ _ _)) as T2.
  pose proof (passes H (later_for_batches _ _ _)) as T3.
  pose proof (preserves_for_batches opts batches stats1 s2) as (_&_&_&Hs). rewrite H in Hs. constructor.
  - apply (batch_done_mono _ (im_now s1) (im_now s2) _ _ (data (im_store s2))); [exact Hs|lia|lia|].
    unfold index_batch in H1. apply bind_ok in H1 as (ms&s3&Hf%wrapped_ok&H1). apply bind_ok in H1 as (ms'&s4&Hr&H1).
    pose proof (passes H1 (later_index_messages _ _ _)) as T4.
    exists s1, s3, s4, ms, ms'. split_and!; [done|done|done|done|by eapply retry_keeps_messages|by eapply index_messages_ok].
  - eapply list.Forall_impl; [by eapply IH|]. intros b'. by apply batch_done_mono; [|lia|].
Qed.
Lemma SetIMAPCursor_inv c st r st' : SetIMAPCursor c st = (r, st') →
  data st' = match r with
    | Ok _ => set_cursors (<[(TrimSpace (ic_Mailbox c), TrimSpace (Folder c)) := (UIDValidity c, LastUID c, BaselineDone c)]>
        (alias_index_imap_cursor (data st))) (data st)
    | _ => data st
    end.
Proof. intros [H%Exec_inv|(->&e&->)]%opened_inv; done. Qed.
Lemma imap_on_store_inv {A} (m : Store A) s r s' : imap_on_store m s = (r, s') →
  ∃ r0 st, m (im_store s) = (r0, st) ∧ r = map_error ie_store r0 ∧ s' = mkImapState st (im_now s).
Proof. unfold imap_on_store. destruct (m (im_store s)) as [r0 st] eqn:E. intros [= <- <-]. by exists r0, st. Qed.
Lemma look_inv {A} (f : nat → A) s a s' : look f s = (Ok a, s') → a = f (im_now s) ∧ im_store s' = im_store s.
Proof. by intros [= <- <-]. Qed.
Lemma check_ctx_store s r s' : check_ctx s = (r, s') → im_store s' = im_store s.
Proof. unfold check_ctx, look, mbind, M_bind. destruct (ctx_cancelled _); by intros [= _ <-]. Qed.
Lemma preserved_cursors {A} (m : Imap A) s r s' : preserves (on_tables keeps_accounts) m → m s = (r, s') →
  alias_index_imap_cursor (data (im_store s')) = alias_index_imap_cursor (data (im_store s)).
Proof. intros Hm H. destruct (Hm s) as (_&_&Hc&_). by rewrite H in Hc. Qed.

Lemma SearchBatch_positive cfg : (1 ≤ SearchBatch (newIMAPAccountWatcher cfg))%Z.
Proof. cbn. unfold or_default, defaultIMAPSearchBatch. destruct (Z.leb_spec (SearchBatch (IMAP cfg)) 0); lia. Qed.
(** A synchronization that finds new mail goes through its batches and stores the cursor. *)
Lemma sync_inv cfg account key folder selected cursor s r s' :
  let last := cursor_last cursor in
  uint32 last → (last + 1 < 2 ^ 32)%Z → uint32 (UIDNext selected) → (SearchBatch (newIMAPAccountWatcher cfg) < 2 ^ 32)%Z →
  syncFolderUIDs cfg account key folder selected cursor s = (r, s') →
  let cursors := alias_index_imap_cursor (data (im_store s)) in
  match r with
  | Ok (_, last') => last' = Z.max last (UIDNext selected - 1) ∧
      (last' = last ∧ im_store s' = im_store s ∨
       ∃ stats s1 s2 st, (last < last')%Z ∧
         for_batches (index_batch (imap_opts cfg account key folder))
           (uid_batches (SearchBatch (newIMAPAccountWatcher cfg)) (last + 1) last') (mkStats 0 0 0) s1 = (Ok stats, s2) ∧
         im_now s ≤ im_now s1 ∧ im_now s2 ≤ im_now s' ∧
         im_store s' = st ∧ data st = set_cursors (<[(TrimSpace key, TrimSpace folder) :=
           (sel_UIDValidity selected, last', cursor_done cursor)]> cursors) (data (im_store s2)))
  | _ => alias_index_imap_cursor (data (im_store s')) = cursors
  end.
Proof.
  cbv zeta. intros Hl Hlt Hn Hb H. pose proof (SearchBatch_positive cfg) as Hbatch.
  unfold syncFolderUIDs in H. fold (cursor_last cursor) (cursor_done cursor) in H.
  apply bind_inv in H as [([]&s1&Hctx&H)|(Hr&r0&Hs%check_ctx_store&_)]; [|by rewrite Hs; destruct r].
  pose proof (passes Hctx later_check_ctx) as Ht. apply check_ctx_store in Hctx as Hs. rewrite <- Hs.
  rewrite newMailUIDRange_spec in H by done. unfold uint32 in *.
  destruct (Z.ltb_spec (cursor_last cursor + 1) (UIDNext selected)) as [Hnew|Hnew]; cbn [negb] in H;
    [|injection H as <- <-; split; [lia|by left]].
  destruct (indexUIDRange_spec (imap_opts cfg account key folder) (SearchBatch (newIMAPAccountWatcher cfg))
    (cursor_last cursor + 1) (UIDNext selected - 1) ltac:(lia) ltac:(lia) ltac:(lia)) as (Hloop&_&_).
  apply bind_inv in H as [(stats&s2&Hi&H)|(Hr&r0&Hi&_)]; rewrite Hloop in Hi;
    pose proof (preserved_cursors _ _ _ _ (preserves_for_batches _ _ _) Hi) as Hc; [|by destruct r].
  apply bind_inv in H as [([]&s3&(st&Hset&->)%imap_on_store_ok&[= <- <-])|(Hr&r0&(r1&st&Hset&->&->)%imap_on_store_inv&Hr0)];
    apply SetIMAPCursor_inv in Hset; cbn [im_store].
  - split; [lia|right]. exists stats, s1, s2, st. split_and!; [lia|done|done|done|done|]. rewrite Hset. cbn. by rewrite Hc.
  - rewrite Hset. destruct r1; [done|by destruct r..].
Qed.

(** A synchronization from a cursor: on success every UID up to the last below UIDNEXT was in one batch. *)
Lemma syncFolderUIDs_spec {IL : IMAPLaws} cfg account key folder selected cursor s r s' :
  let last := cursor_last cursor in
  let cursors := alias_index_imap_cursor (data (im_store s)) in
  let cursors' := alias_index_imap_cursor (data (im_store s')) in
  uint32 last → (last + 1 < 2 ^ 32)%Z → uint32 (UIDNext selected) →
  (SearchBatch (newIMAPAccountWatcher cfg) < 2 ^ 32)%Z →
  syncFolderUIDs cfg account key folder selected cursor s = (r, s') →
  match r with
  | Ok (_, last') =>
      last' = Z.max last (UIDNext selected - 1) ∧
      (∃ batches, concat batches = seqZ (last + 1) (last' - last) ∧
        Forall (batch_done key (im_now s) (im_now s') (data (im_store s'))) batches) ∧
      cursors' = if (last <? last')%Z then
          <[(TrimSpace key, TrimSpace folder) :=
            (sel_UIDValidity selected, last', cursor_done cursor)]> cursors
        else cursors
  | _ => cursors' = cursors
  end.
Proof.
  cbv zeta. intros Hl Hlt Hn Hb H. pose proof (SearchBatch_positive cfg) as Hbatch.
  pose proof (sync_inv _ _ _ _ _ _ _ _ _ Hl Hlt Hn Hb H) as Hinv. destruct r as [[n last']|e| |]; [|done..].
  unfold uint32 in *. destruct Hinv as (Hmax&[[-> Hs]|(stats&s1&s2&st&Hlast&Hloop&T1&T2&Hst&Hset)]); (split; [done|]).
  - split; [exists []; split; [by rewrite seqZ_nil by lia|constructor]|]. by rewrite Z.ltb_irrefl, Hs.
  - rewrite (proj2 (Z.ltb_lt _ _) Hlast), Hst, Hset. split; [|done].
    destruct (indexUIDRange_spec (imap_opts cfg account key folder) (SearchBatch (newIMAPAccountWatcher cfg))
      (cursor_last cursor + 1) last' ltac:(lia) ltac:(lia) ltac:(lia)) as (_&Hconcat&_).
    eexists. split; [rewrite Hconcat; f_equal; lia|]. eapply list.Forall_impl; [by eapply for_batches_ok|].
    intros b. by apply batch_done_mono.
Qed.

(** ** The cursors of a round *)

Lemma post_bind {A B} (m : Imap A) (k : A → Imap B) P N s :
  post m (λ a s', post (k a) P N s') N s → post (m ≫= k) P N s.
Proof. unfold post, mbind, M_bind. by destruct (m s) as [[] ?]. Qed.
Lemma post_mono {A} (m : Imap A) (P P' : A → imap_state → Prop) (N N' : imap_state → Prop) s :
  post m P N s → (∀ a s', P a s' → P' a s') → (∀ s', N s' → N' s') → post m P' N' s.
Proof. unfold post. destruct (m s) as [[] ?]; naive_solver. Qed.
Lemma post_wrapped {A} phase (m : Imap A) P N s : post m P N s → post (wrapped phase m) P N s.
Proof. unfold post, wrapped. by destruct (m s) as [[] ?]. Qed.
Lemma post_try {A} (m : Imap A) (P : A + imap_error → imap_state → Prop) N s :
  post m (λ a, P (inl a)) N s → (∀ e s', N s' → P (inr e) s') → post (try_ m) P N s.
Proof. unfold post, try_. destruct (m s) as [[] ?]; auto. Qed.
Lemma post_same {A} (m : Imap A) (I : imap_state → Prop) s :
  preserves (on_tables same_cursors) m → I s →
  (∀ s', alias_index_imap_cursor (data (im_store s')) = alias_index_imap_cursor (data (im_store s)) → I s') →
  post m (λ _, I) I s.
Proof.
  intros Hm _ HI. specialize (Hm s). unfold post. destruct (m s) as [[] s']; apply HI; exact Hm.
Qed.
Lemma keeps_same d d' : keeps_accounts d d' → same_cursors d d'.
Proof. by intros (_&_&?&_). Qed.
Lemma preserves_MarkSeen mb ids : preserves (on_tables same_cursors) (imap_on_store (MarkSeenMessages mb ids)).
Proof.
  apply preserves_imap_store, preserves_in_batches; [apply _|]. intros l. unfold markSeenMessagesBatch.
  destruct l as [|i l]; [apply preserves_ret, _|]. apply preserves_transaction; [apply _|]. intros now d.
  destruct (run_seen_stmts (TrimSpace mb) (i :: l) now d) as [H _]. rewrite <- H. by destruct d.
Qed.

Section Cursor.
Context {IL : IMAPLaws} (mailbox folder : bytes) (cursors0 : gmap (bytes * bytes) (Z * Z * bool)).
Notation key := (TrimSpace mailbox, TrimSpace folder).
Notation in_order := (in_order mailbox folder cursors0).
Lemma in_order_insert s c v last : alias_index_imap_cursor (data (im_store s)) = <[key := (v, last, true)]> c →
  cursors_ok c → (∀ k, k ≠ key → c !! k = cursors0 !! k) → uint32 v → is_uid last → in_order s.
Proof.
  intros Hs Hok Hf Hv Hl. unfold in_order. rewrite Hs. split; [by apply map_Forall_insert_2|].
  intros k Hk. by rewrite lookup_insert_ne, Hf by done.
Qed.
Lemma set_cursor_in_order v last s : in_order s → uint32 v → is_uid last →
  post (imap_on_store (SetIMAPCursor (mkIMAPCursor mailbox folder v last true))) (λ _, in_order) in_order s.
Proof.
  intros [Hok Hf] Hv Hl. unfold post. destruct (imap_on_store _ s) as [r s'] eqn:E.
  apply imap_on_store_inv in E as (r0&st&Hset%SetIMAPCursor_inv&->&->).
  destruct r0; cbn [map_error]; [|unfold in_order; cbn [im_store]; by rewrite Hset..].
  eapply in_order_insert; [cbn [im_store]; by rewrite Hset|done..].
Qed.
Lemma maxIMAPUID_uid uids : Forall is_uid uids → is_uid (maxIMAPUID uids).
Proof.
  unfold maxIMAPUID. assert (H : is_uid 0%Z) by (unfold is_uid; lia). revert H. generalize 0%Z.
  induction uids as [|u uids IH]; intros m Hm Hu; [done|]. apply list.Forall_cons in Hu as [Hu Hus].
  cbn. apply IH; [unfold is_uid in *; lia|done].
Qed.
End Cursor.
Lemma Fetch_uids {IL : IMAPLaws} uids s messages s' : FetchHeaderFields uids s = (Ok messages, s') →
  Forall (λ m, is_uid (UID m)) messages.
Proof.
  unfold FetchHeaderFields. destruct uids as [|u uids]; [intros [= <- _]; constructor|].
  intros (l&s1&Hl&[= <- _])%bind_ok. unfold answer, look, mbind, M_bind in Hl.
  destruct (imap_fetch _ _) as [l0|] eqn:E; [|done]. injection Hl as -> _. apply fetch_numbers in E.
  induction E as [|[u0 raw] l Hu Hl IH]; [constructor|]. cbn [omap list_omap]. unfold fetched_message at 1.
  destruct (_ =? 0)%Z; [done|]. destruct (parseMailHeaders _); [|done]. by constructor.
Qed.
Lemma baseline_batches_uid {IL : IMAPLaws} fuel size pre : ∀ uids st s st' s',
  baseline_batches fuel size pre uids st s = (Ok st', s') → is_uid st.1 → is_uid st'.1.
Proof.
  induction fuel as [|fuel IH]; intros uids st s st' s'; cbn [baseline_batches]; [by intros [= <- _]|].
  destruct uids as [|u uids]; [by intros [= <- _]|]. intros ([]&s1&_&H)%bind_ok Hst.
  apply bind_ok in H as (messages&s2&Hm%Fetch_uids&H). eapply IH; [exact H|]. clear -Hm Hst. revert st Hst.
  induction Hm as [|m messages Hm Hms IH]; intros st Hst; [done|]. cbn [foldl]. apply IH. cbn.
  unfold is_uid in *. lia.
Qed.
Lemma preserves_baseline_batches fuel size pre : ∀ uids st, preserves (on_tables same_cursors) (baseline_batches fuel size pre uids st).
Proof. induction fuel as [|fuel IH]; intros uids st; cbn [baseline_batches]; preserved. Qed.
Section Round.
Context {IL : IMAPLaws} (mailbox folder : bytes) (cursors0 : gmap (bytes * bytes) (Z * Z * bool)).
Notation key := (TrimSpace mailbox, TrimSpace folder).
Notation In := (in_order mailbox folder cursors0).
Lemma in_order_same s s' : alias_index_imap_cursor (data (im_store s')) = alias_index_imap_cursor (data (im_store s)) → In s → In s'.
Proof. unfold in_order. by intros ->. Qed.
(** A part that does not touch the cursors, and what is known of its result. *)
Lemma post_kept {A} (m : Imap A) (P : A → Prop) s : preserves (on_tables same_cursors) m → In s →
  (∀ a s', m s = (Ok a, s') → P a) → post m (λ a s', P a ∧ In s') In s.
Proof.
  intros Hm HI HP. specialize (Hm s). unfold post. destruct (m s) as [[a|e| |] s'] eqn:E; cbn in Hm.
  - split; [by eapply HP|by eapply in_order_same].
  - by eapply in_order_same.
  - by eapply in_order_same.
  - by eapply in_order_same.
Qed.
Lemma baseline_in_order cfg uidValidity s : In s → uint32 uidValidity →
  post (baselineFolder cfg mailbox folder uidValidity) (λ _, In) In s.
Proof.
  intros HI Hv. unfold baselineFolder. apply post_bind.
  eapply post_mono; [apply (post_kept check_ctx (λ _, True)); [apply preserves_check_ctx, _|done|done]| |done].
  intros [] s1 [_ H1]. apply post_bind. unfold UIDSearchAll.
  eapply post_mono; [apply (post_kept _ (λ uids, Forall is_uid uids)); [apply preserves_answer, _|done|]| |done].
  { intros uids s' H. unfold answer, look, mbind, M_bind in H. destruct (imap_search_all _) eqn:E; [|done].
    injection H as -> _. by eapply search_numbers. }
  intros uids s2 [Hu H2]. cbv zeta. pose proof (maxIMAPUID_uid uids Hu) as Hmax.
  destruct (_ <? _)%Z; [by apply set_cursor_in_order|]. apply post_bind.
  eapply post_mono; [apply (post_kept _ (λ st : Z * list bytes, is_uid st.1));
    [apply preserves_baseline_batches|done|]| |done].
  { intros st s' H%baseline_batches_uid; [done|unfold is_uid; cbn; lia]. }
  intros [fetched ids] s3 [Hf H3]. cbn [fst] in Hf. apply post_bind.
  eapply post_mono; [apply (post_kept _ (λ _, True)); [apply preserves_MarkSeen|done|done]| |done].
  intros [] s4 [_ H4]. apply set_cursor_in_order; [done|done|]. unfold is_uid in *. lia.
Qed.
Lemma select_number s sel s' : SelectFolder folder s = (Ok sel, s') →
  uint32 (sel_UIDValidity sel) ∧ uint32 (UIDNext sel) ∧ ∃ t, imap_select folder t = inl sel.
Proof.
  unfold SelectFolder, answer, look, mbind, M_bind. destruct (imap_select _ _) eqn:E; [|done]. intros [= -> _].
  destruct (select_numbers _ _ _ E). eauto.
Qed.
Lemma sync_in_order cfg account selected cursor s : In s →
  is_uid (cursor_last cursor) → cursor_done cursor = true → uint32 (sel_UIDValidity selected) → uint32 (UIDNext selected) →
  (SearchBatch (newIMAPAccountWatcher cfg) < 2 ^ 32)%Z →
  let c := alias_index_imap_cursor (data (im_store s)) in
  let later s' := In s' ∧ let c' := alias_index_imap_cursor (data (im_store s')) in c' = c ∨
    ∃ last', (cursor_last cursor ≤ last')%Z ∧ c' = <[key := (sel_UIDValidity selected, last', true)]> c in
  post (syncFolderUIDs cfg account mailbox folder selected cursor) (λ _, later) later s.
Proof.
  intros HI Hl Hd Hv Hn Hb. cbv zeta. unfold post. destruct (syncFolderUIDs _ _ _ _ _ _ _) as [r s'] eqn:E.
  apply sync_inv in E; [|unfold uint32, is_uid in *; lia|unfold is_uid in *; lia|done..]. cbv zeta in E.
  destruct r as [[n last']|e| |]; [|split; [by eapply in_order_same|by left]..].
  destruct E as (Hmax&[[-> Hs]|(stats&s1&s2&st&Hlast&_&_&_&Hst&Hset)]).
  - rewrite Hs. split; [|by left]. eapply in_order_same; [|exact HI]. by rewrite Hs.
  - rewrite Hd in Hset. destruct HI as [Hok Hf]. split.
    + eapply in_order_insert; [by rewrite Hst, Hset|done..|]. unfold is_uid, uint32 in *. lia.
    + right. exists last'. split; [lia|]. by rewrite Hst, Hset.
Qed.
End Round.
Lemma GetIMAPCursor_inv mb f st r st' : GetIMAPCursor mb f st = (r, st') →
  data st' = data st ∧ ∀ c, r = Ok c → c = row_cursor mb f <$> alias_index_imap_cursor (data st) !! (TrimSpace mb, TrimSpace f).
Proof.
  intros [H|(->&e&->)]%opened_inv; [|done]. cbv zeta in H.
  apply bind_inv in H as [(v&s1&[Hd Hv]%QueryRow_inv&[= <- <-])|(Hr&r0&[Hd _]%QueryRow_inv&_)].
  - split; [done|]. intros c [= <-]. destruct (Hv v eq_refl) as [-> _]. by destruct (_ !! _) as [[[? ?] ?]|].
  - split; [done|]. by intros c ->.
Qed.
Lemma DeleteIMAPCursor_inv mb f st r st' : DeleteIMAPCursor mb f st = (r, st') →
  data st' = match r with
    | Ok _ => set_cursors (delete (TrimSpace mb, TrimSpace f) (alias_index_imap_cursor (data st))) (data st)
    | _ => data st end.
Proof. intros [H%Exec_inv|(->&e&->)]%opened_inv; done. Qed.

Section Folder.
Context {IL : IMAPLaws} (mailbox folder : bytes) (s0 : imap_state).
Notation cursors s := (alias_index_imap_cursor (data (im_store s))).
Notation key := (TrimSpace mailbox, TrimSpace folder).
Notation In := (in_order mailbox folder (cursors s0)).
Notation announced := (announced folder).
Notation advanced := (advanced mailbox folder s0).
Lemma advanced_same s s' : cursors s' = cursors s → advanced s → advanced s'.
Proof. unfold advanced, in_order. by intros ->. Qed.
Lemma advanced_start : cursors_ok (cursors s0) → advanced s0.
Proof.
  intros H. split; [by split|]. intros v last b Hrow. left. exists v, last.
  destruct (H _ _ Hrow) as (_&_&Hb). cbn in Hb. subst. split; [done|lia].
Qed.
Lemma advanced_reset s : In s → (∀ v last b, cursors s0 !! key = Some (v, last, b) → announced v) → advanced s.
Proof. intros H1 H2. split; [done|]. intros v last b H. right. by eapply H2. Qed.

Lemma current_cursor_post selected s t : cursors s = cursors s0 → cursors_ok (cursors s0) →
  imap_select folder t = inl selected →
  post (current_cursor mailbox folder selected)
    (λ c s', cursors s' = cursors s0 ∧ c = row_cursor mailbox folder <$> cursors s0 !! key ∨
      c = None ∧ In s' ∧ ∀ v last b, cursors s0 !! key = Some (v, last, b) → announced v)
    (λ s', cursors s' = cursors s0) s.
Proof.
  intros Hs Hok Ht. unfold current_cursor. apply post_bind, post_wrapped. unfold post at 1.
  destruct (imap_on_store _ s) as [r s1] eqn:E. apply imap_on_store_inv in E as (r0&st&[Hd Hc]%GetIMAPCursor_inv&->&->).
  destruct r0 as [c|e| |]; cbn [map_error]; [|cbn; by rewrite Hd..]. rewrite (Hc c eq_refl), Hs.
  destruct (cursors s0 !! key) as [[[v last] b]|] eqn:Hrow; cbn -[alias_index_imap_cursor];
    [|left; cbn; by rewrite Hd].
  destruct (negb (v =? 0)%Z && _) eqn:Hreset; [|left; cbn; by rewrite Hd].
  apply andb_true_iff in Hreset as [Hv%negb_true_iff%Z.eqb_neq Hsel%negb_true_iff%Z.eqb_neq].
  assert (Ha : ∀ v0 last0 b0, Some (v, last, b) = Some (v0, last0, b0) → announced v0).
  { intros v0 last0 b0 [= <- <- <-]. split; [done|]. exists t, selected. by split; [|congruence]. }
  assert (Hin : ∀ s', cursors s' = cursors s0 ∨ cursors s' = delete key (cursors s0) → In s').
  { intros s' [H|H]; unfold in_order; rewrite H; (split; [|intros k Hk]).
    - done.
    - done.
    - by apply map_Forall_delete.
    - by apply lookup_delete_ne. }
  unfold post, mbind, M_bind, try_. destruct (imap_on_store (DeleteIMAPCursor _ _) _) as [r2 s2] eqn:E2.
  apply imap_on_store_inv in E2 as (r1&st1&Hdel%DeleteIMAPCursor_inv&->&->). cbn [im_store] in Hdel. rewrite Hd, Hs in Hdel.
  destruct r1 as [[]|e| |]; cbn -[alias_index_imap_cursor]; [right|right|by rewrite Hdel, Hs..].
  - split_and!; [done| |done]. apply Hin. right. cbn. by rewrite Hdel.
  - split_and!; [done| |done]. apply Hin. left. cbn. by rewrite Hdel, Hs.
Qed.
(** A selection changes no cursor; its numbers are 32-bit numbers of the server. *)
Lemma post_select P s : P s → (∀ s', cursors s' = cursors s → P s → P s') → ∀ phase,
  post (wrapped phase (SelectFolder folder)) (λ sel s', P s' ∧ cursors s' = cursors s ∧
    uint32 (sel_UIDValidity sel) ∧ uint32 (UIDNext sel) ∧ ∃ t, imap_select folder t = inl sel) P s.
Proof.
  intros HP Hsame phase. apply post_wrapped. pose proof (preserves_answer same_cursors (imap_select folder) s) as Hs.
  unfold post. destruct (SelectFolder folder s) as [[sel|e| |] s'] eqn:E; unfold SelectFolder in E; rewrite E in Hs; cbn in Hs.
  - split_and!; [by apply Hsame|done|apply (select_number folder _ _ _ E)..].
  - by apply Hsame.
  - by apply Hsame.
  - by apply Hsame.
Qed.
Lemma sync_advanced cfg account selected cursor phase s : advanced s →
  is_uid (cursor_last cursor) → cursor_done cursor = true → uint32 (sel_UIDValidity selected) → uint32 (UIDNext selected) →
  (SearchBatch (newIMAPAccountWatcher cfg) < 2 ^ 32)%Z →
  (∀ v last b, cursors s0 !! key = Some (v, last, b) → (last ≤ cursor_last cursor)%Z ∨ announced v) →
  post (wrapped phase (syncFolderUIDs cfg account mailbox folder selected cursor);; mret tt) (λ _, advanced) advanced s.
Proof.
  intros Hs Hl Hd Hv Hn Hb Hle. apply post_bind, post_wrapped.
  assert (Hmono : ∀ s', In s' ∧ (let c' := cursors s' in c' = cursors s ∨
    ∃ last', (cursor_last cursor ≤ last')%Z ∧ c' = <[key := (sel_UIDValidity selected, last', true)]> (cursors s)) → advanced s').
  { intros s' [Hin [Hc|(last'&Hlast&Hc)]]; cbv zeta in *; [by apply (advanced_same s)|]. split; [done|].
    intros v last b Hrow. destruct (Hle _ _ _ Hrow) as [H|H]; [left|by right]. rewrite Hc, lookup_insert_eq.
    eexists _, _. split; [done|lia]. }
  eapply post_mono; [apply (sync_in_order mailbox folder (cursors s0)); try done; apply Hs| |]; auto.
Qed.
Lemma syncFolderOnClient_advanced cfg account s : mailbox = IMAP_MailboxKey account → cursors s = cursors s0 →
  cursors_ok (cursors s0) → (SearchBatch (newIMAPAccountWatcher cfg) < 2 ^ 32)%Z →
  post (syncFolderOnClient cfg account folder) (λ _, advanced) advanced s.
Proof.
  intros Hm Hs Hok Hb. unfold syncFolderOnClient. cbv zeta. rewrite <- Hm.
  assert (Hstart : ∀ s', cursors s' = cursors s0 → advanced s').
  { intros s' H. apply (advanced_same s0); [done|by apply advanced_start]. }
  apply post_bind. eapply post_mono; [apply (post_select (λ s', cursors s' = cursors s0)); [done|congruence]| |done].
  intros selected s1 (H1&_&Hv&Hn&t&Ht). apply post_bind.
  eapply post_mono; [by eapply current_cursor_post| |done].
  intros c s2 H2. apply post_bind. destruct c as [c|].
  - (* the cursor is current *)
    destruct H2 as [[H2 Hc]|[? _]]; [|done]. destruct (cursors s0 !! key) as [[[v last] b]|] eqn:Hrow; [|done].
    destruct (Hok _ _ Hrow) as (_&Hlast&Hb0). cbn in Hc, Hlast, Hb0. injection Hc as ->. subst b. cbn [BaselineDone row_cursor snd].
    rewrite andb_false_r. unfold post at 1. cbn. apply sync_advanced; [by apply Hstart|done..|].
    intros v0 last0 b0. rewrite Hrow. intros [= <- <- <-]. left. cbn. lia.
  - assert (Hadv : ∀ s', In s' → advanced s').
    { intros s' Hin. apply advanced_reset; [done|]. intros v last b Hrow. destruct H2 as [[_ Hc]|(_&_&Ha)]; [|by eapply Ha].
      by rewrite Hrow in Hc. }
    assert (Hin2 : In s2).
    { destruct H2 as [[H2 _]|(_&?&_)]; [|done]. unfold in_order. by rewrite H2. }
    assert (Hle : ∀ cursor v last b, cursors s0 !! key = Some (v, last, b) → (last ≤ cursor_last cursor)%Z ∨ announced v).
    { intros cursor v last b Hrow. right. destruct H2 as [[_ Hc]|(_&_&Ha)]; [|by eapply Ha]. by rewrite Hrow in Hc. }
    rewrite andb_true_r. destruct (SkipExistingOnStart cfg).
    + apply post_bind, post_wrapped. eapply post_mono; [by apply baseline_in_order| |done]. intros [] s3 H3.
      apply post_bind. eapply post_mono; [apply (post_select In); [done|by intros; eapply in_order_same]| |done].
      intros sel2 s4 (H4&_&Hv2&Hn2&_). apply post_bind, post_wrapped. unfold post at 1.
      destruct (imap_on_store _ s4) as [r s5] eqn:E. apply imap_on_store_inv in E as (r0&st&[Hd Hg]%GetIMAPCursor_inv&->&->).
      assert (H5 : In (mkImapState st (im_now s4))) by (eapply in_order_same; [cbn; by rewrite Hd|done]).
      destruct r0 as [c|e| |]; cbn [map_error]; [|by apply Hadv..]. specialize (Hg c eq_refl).
      destruct c as [c|]; [|by apply Hadv]. unfold post at 1. cbn.
      destruct (cursors s4 !! key) as [[[v last] b]|] eqn:Hrow; [|done]. injection Hg as ->.
      destruct H4 as [Hok4 _]. destruct (Hok4 _ _ Hrow) as (_&Hlast&Hb0). cbn in Hlast, Hb0. subst b.
      apply sync_advanced; [by apply Hadv|done..|apply Hle].
    + unfold post at 1. cbn. apply sync_advanced; [by apply Hadv|unfold is_uid; cbn; lia|done..|apply Hle].
Qed.
End Folder.

(** The cursor of a folder never goes back. Whatever a round over a folder does, with every
    server and database and whether it fails or not: the cursors stay in order (32-bit numbers, the baseline
    done), no other folder's cursor changes, and the folder that had a cursor still has one that is as far or
    further, unless the server announced, in answer to SELECT, a UIDVALIDITY other than that of the cursor. *)
Lemma cursor_never_goes_back {IL : IMAPLaws} cfg account folder s r s' :
  let key := (TrimSpace (IMAP_MailboxKey account), TrimSpace folder) in
  let cursors := alias_index_imap_cursor (data (im_store s)) in
  let cursors' := alias_index_imap_cursor (data (im_store s')) in
  cursors_ok cursors → (SearchBatch (newIMAPAccountWatcher cfg) < 2 ^ 32)%Z →
  syncFolderOnClient cfg account folder s = (r, s') →
  cursors_ok cursors' ∧ (∀ k, k ≠ key → cursors' !! k = cursors !! k) ∧
  ∀ v last b, cursors !! key = Some (v, last, b) →
    (∃ v' last', cursors' !! key = Some (v', last', true) ∧ (last ≤ last')%Z) ∨
    v ≠ 0%Z ∧ ∃ t sel, imap_select folder t = inl sel ∧ sel_UIDValidity sel ≠ v.
Proof.
  cbv zeta. intros Hok Hb H.
  pose proof (syncFolderOnClient_advanced (IMAP_MailboxKey account) folder s cfg account s eq_refl eq_refl Hok Hb) as Hp.
  unfold post in Hp. rewrite H in Hp. by destruct r; destruct Hp as [[H1 H2] H3].
Qed.
(** ** A round from the cursor of a folder *)
Section GoesOn.
Context {IL : IMAPLaws} (mailbox folder : bytes) (s0 : imap_state).
Notation cursors s := (alias_index_imap_cursor (data (im_store s))).
Notation row := (cursors s0 !! (TrimSpace mailbox, TrimSpace folder)).
Lemma current_cursor_same cfg selected t s : cursors s = cursors s0 → goes_on cfg folder row →
  imap_select folder t = inl selected →
  post (current_cursor mailbox folder selected)
    (λ c s', cursors s' = cursors s0 ∧ im_now s' = im_now s ∧ c = row_cursor mailbox folder <$> row) (λ s', cursors s' = cursors s0) s.
Proof.
  intros Hs Hgo Ht. unfold current_cursor. apply post_bind, post_wrapped. unfold post at 1.
  destruct (imap_on_store _ s) as [r s1] eqn:E. apply imap_on_store_inv in E as (r0&st&[Hd Hc]%GetIMAPCursor_inv&->&->).
  destruct r0 as [c|e| |]; cbn [map_error]; [|cbn; by rewrite Hd..]. rewrite (Hc c eq_refl), Hs.
  destruct row as [[[v last] b]|]; cbn -[alias_index_imap_cursor]; [|unfold post; cbn; by rewrite Hd].
  destruct Hgo as (_&_&_&Hv).
  assert (negb (v =? 0)%Z && negb (v =? sel_UIDValidity selected)%Z = false) as ->
    by (destruct (Hv _ _ Ht) as [->| ->]; [done|]; rewrite Z.eqb_refl; apply andb_false_r).
  unfold post. cbn. by rewrite Hd.
Qed.
Lemma goes_on_baseline cfg : goes_on cfg folder row →
  SkipExistingOnStart cfg && match row_cursor mailbox folder <$> row with None => true | Some c => negb (BaselineDone c) end = false.
Proof. destruct row as [[[v last] b]|]; cbn; [intros ([->| ->]&_)|intros ->]; by rewrite ?andb_false_r. Qed.
End GoesOn.
Lemma syncFolderOnClient_goes_on {IL : IMAPLaws} folder cfg account s :
  let mailbox := IMAP_MailboxKey account in
  let cursors s := alias_index_imap_cursor (data (im_store s)) in
  let key := (TrimSpace mailbox, TrimSpace folder) in
  goes_on cfg folder (cursors s !! key) → (SearchBatch (newIMAPAccountWatcher cfg) < 2 ^ 32)%Z →
  post (syncFolderOnClient cfg account folder) (λ _, caught_up mailbox folder s) (λ s', cursors s' = cursors s) s.
Proof.
  cbv zeta. intros Hgo Hb. unfold syncFolderOnClient. cbv zeta. set (mailbox := IMAP_MailboxKey account) in *.
  apply post_bind, post_wrapped. unfold post at 1.
  pose proof (preserves_answer same_cursors (imap_select folder) s) as Hs1.
  destruct (SelectFolder folder s) as [[selected|e| |] s1] eqn:E1; pose proof E1 as E1'; unfold SelectFolder in E1';
    rewrite E1' in Hs1; cbn in Hs1; [|exact Hs1..].
  assert (Ht : imap_select folder (im_now s) = inl selected).
  { unfold answer, look, mbind, M_bind in E1'. destruct (imap_select folder (im_now s)); [by injection E1' as ->|done]. }
  destruct (select_number _ _ _ _ E1) as (_&Hn&_).
  apply post_bind. eapply post_mono; [by apply (current_cursor_same mailbox folder s cfg selected (im_now s))| |done].
  intros c s2 (H2&T2&->). rewrite (goes_on_baseline mailbox folder s cfg Hgo). apply post_bind. unfold post at 1. cbn [mret M_ret].
  apply post_bind, post_wrapped. unfold post. destruct (syncFolderUIDs _ _ _ _ _ _ s2) as [r s3] eqn:E3.
  set (row := alias_index_imap_cursor (data (im_store s)) !! (TrimSpace mailbox, TrimSpace folder)) in *.
  assert (cursor_last (row_cursor mailbox folder <$> row) = row_last row) as Hl by (by destruct row as [[[v l] b]|]).
  assert (cursor_done (row_cursor mailbox folder <$> row) = row_done row) as Hd by (by destruct row as [[[v l] b]|]).
  assert (uint32 (row_last row) ∧ (row_last row + 1 < 2 ^ 32)%Z) as [Hu Hm]
    by (destruct row as [[[v l] b]|]; cbn in *; unfold uint32; [naive_solver|lia]).
  apply syncFolderUIDs_spec in E3; [|by rewrite ?Hl..|done|done]. cbv zeta in E3. rewrite Hl, Hd, H2 in E3.
  destruct r as [[n last']|e| |]; [|exact E3..]. destruct E3 as (->&(batches&Hconcat&Hb3)&Hc). exists selected. split; [done|]. split; [|done].
  exists batches. split; [done|]. eapply list.Forall_impl; [exact Hb3|]. intros b. apply batch_done_mono; [done| |done].
  pose proof (passes E1' ltac:(unfold answer; preserved)) as T1. lia.
Qed.
End Proofs.

(** ** Witnesses *)
#[local] Instance test_imap_laws v n extra : uint32 v → uint32 n → @IMAPLaws (test_imap v n extra).
Proof.
  unfold uint32. intros Hv Hn. split.
  - intros f t sel [= <-]. done.
  - intros t uids [= <-]. apply list.Forall_forall. intros u [H1 H2]%elem_of_seqZ. unfold is_uid. lia.
  - intros uids t l [= <-]. apply list.Forall_forall. intros [u raw] H. apply list_elem_of_In, in_map_iff in H as (u'&[= <- _]&H).
    apply list_elem_of_In, list_elem_of_filter in H as [H _]. exact H.
  - done.
Qed.
Lemma indexUIDRange_batches_witness :
  newMailUIDRange 1 6 = (2, 5, true)%Z ∧ uid_batches 3 2 5 = [[2; 3; 4]; [5]]%Z ∧
  concat (uid_batches 3 2 5) = seqZ 2 4.
Proof.
  split; [reflexivity|]. split; [vm_compute; reflexivity|].
  pose proof (@indexUIDRange_batches ascii_only (test_sql 99) test_netmail (test_imap 7 6 [])
    (imap_opts (test_indexer_cfg false None) test_imap_account imap_key "INBOX") 3 1 6
    ltac:(unfold uint32; lia) ltac:(unfold uint32; lia) ltac:(lia) ltac:(lia)) as [_ H].
  exact (proj1 (proj2 (H eq_refl))).
Defined.
Lemma cursor_never_goes_back_witness :
  let '(r, s') := test_round (test_imap 7 6 []) true (test_imap_state (Some (7, 2, true)%Z)) in
  cursors_ok (alias_index_imap_cursor (data (im_store s'))) ∧
  ((∃ v' last', cursor_of s' = Some (v', last', true) ∧ (2 ≤ last')%Z) ∨
    7%Z ≠ 0%Z ∧ ∃ t sel, @imap_select (test_imap 7 6 []) "INBOX" t = inl sel ∧ sel_UIDValidity sel ≠ 7%Z).
Proof.
  destruct (test_round (test_imap 7 6 []) true (test_imap_state (Some (7, 2, true)%Z))) as [r s'] eqn:E.
  destruct (@cursor_never_goes_back ascii_only (test_sql 99) test_netmail (test_imap 7 6 [])
    (test_imap_laws 7 6 [] ltac:(unfold uint32; lia) ltac:(unfold uint32; lia)) (test_indexer_cfg true None) test_imap_account
    "INBOX" (test_imap_state (Some (7, 2, true)%Z)) r s') as (H1&_&H2); [| |exact E|].
  - apply map_Forall_singleton. unfold uint32, is_uid. cbn. lia.
  - reflexivity.
  - split; [exact H1|]. apply (H2 7%Z 2%Z true). vm_compute. reflexivity.
Defined.

Example folders_in_order :
  prioritizeIMAPFolders [bs "Sent"; bs " inbox"; bs "Junk"] = [bs " inbox"; bs "Sent"; bs "Junk"].
Proof. vm_compute. reflexivity. Qed.
(** The first round records the baseline, the second one indexes what is new. *)
Example baseline_then_new :
  let '(r1, s1) := test_round (test_imap 7 3 []) true (test_imap_state None) in
  let '(r2, s2) := test_round (test_imap 7 5 []) true s1 in
  (threads_of s1, cursor_of s1, threads_of s2, cursor_of s2) = (0, Some (7, 2, true)%Z, 2, Some (7, 4, true)%Z).
Proof. vm_compute. reflexivity. Qed.
(** A message that arrives while the baseline is fetched, and that the server reports too, is not marked as seen; but
    the cursor passes it, so that it is never indexed. *)
Example arrival_during_baseline_is_lost :
  let '(r1, s1) := test_round (test_imap 7 3 [3%Z]) true (test_imap_state None) in
  let '(r2, s2) := test_round (test_imap 7 4 []) true s1 in
  (cursor_of s1, size (alias_index_seen_message (data (im_store s1))), threads_of s2) = (Some (7, 3, true)%Z, 2, 0).
Proof. vm_compute. reflexivity. Qed.
(** After a change of UIDVALIDITY the whole folder counts as existing mail, the messages that arrived since the last
    round too. *)
Example new_validity_skips_mail :
  let '(r, s) := test_round (test_imap 8 6 []) true (test_imap_state (Some (7, 2, true)%Z)) in
  (is_ok r, threads_of s, cursor_of s) = (true, 0, Some (8, 5, true)%Z).
Proof. vm_compute. reflexivity. Qed.
(** A server that does not announce UIDNEXT, which is not required to, never has new mail. *)
Example no_UIDNEXT_no_mail :
  let '(r, s) := test_round (test_imap 7 0 []) true (test_imap_state (Some (7, 2, true)%Z)) in
  (is_ok r, cursor_of s) = (true, Some (7, 2, true)%Z).
Proof. vm_compute. reflexivity. Qed.
(** A cursor at the last 32-bit number makes the range start again at 0. *)
Example range_wraps : newMailUIDRange (2 ^ 32 - 1) 9 = (0, 8, true)%Z.
Proof. reflexivity. Qed.
