(* ===== verification/IdleWatch.v ===== *)
(** * Waiting for mail: the goroutines of one watcher of backends/imap_watcher.go

    Imap.v has what one round does with its folders. Here is when a round starts: the loop of a watcher, its
    IDLE sessions, each in a goroutine with a channel for its notifications and one for its end, the ticker, the
    context and the mail that arrives, in any order. An operation on a channel, a test of the context, or an
    answer of the network is one step. *)
From S2P Require Import Prelude GoStd.

(** An IDLE session; [i_reporting] is about to send its error, or nil, on idleDone. *)
Inductive idle_pc : Type :=
| i_start | i_dialing | i_login | i_command | i_idling | i_closing | i_reporting (err : bool) | i_gone.
(** [i_cancelled] is its own context; [i_notify] and [i_done] are the channels, of one place each; the server has
    something to report on the connection when [i_pending], and the connection works while [i_connected]; [i_base] is the
    mail of the folder when SELECT was answered. *)
Record idle := mkIdle {
  i_pc : idle_pc;
  i_cancelled : bool;
  i_notify : bool;
  i_done : option bool;
  i_connected : bool;
  i_pending : bool;
  i_base : nat
}.
Definition new_idle : idle := mkIdle i_start false false None true false 0.

(** The loop of [run] and that of [watchAccount]; [m_wait] is waitIdleDone, which is followed by a return or by the
    next turn. *)
Inductive main_pc : Type :=
| m_top | m_dialing | m_listing | m_sleep
| m_loop | m_syncing | m_sleep_sync | m_synced | m_spawn | m_select | m_wait (leave : bool) | m_sleep_idle
| m_left | m_done.
#[export] Instance main_pc_eq_dec : EqDecision main_pc.
Proof. solve_decision. Defined.

(** [w_idles] are the sessions that were ever started, the last one is that of the loop. Of the mail of the
    folder that is watched, [w_arrived] counts what came, [w_started] what had come when the last round started;
    [w_listed] counts how often the folders were listed. *)
Record watch := mkWatch {
  w_pc : main_pc;
  w_cancelled : bool;
  w_tick : bool;
  w_idles : list idle;
  w_arrived : nat;
  w_started : nat;
  w_listed : nat
}.
Definition start_watch : watch := mkWatch m_top false false [] 0 0 0.

Definition set_pc (p : main_pc) (s : watch) : watch :=
  mkWatch p (w_cancelled s) (w_tick s) (w_idles s) (w_arrived s) (w_started s) (w_listed s).
Definition set_idles (l : list idle) (s : watch) : watch :=
  mkWatch (w_pc s) (w_cancelled s) (w_tick s) l (w_arrived s) (w_started s) (w_listed s).
Definition set_tick (b : bool) (s : watch) : watch :=
  mkWatch (w_pc s) (w_cancelled s) b (w_idles s) (w_arrived s) (w_started s) (w_listed s).
Definition set_started (n : nat) (s : watch) : watch :=
  mkWatch (w_pc s) (w_cancelled s) (w_tick s) (w_idles s) (w_arrived s) n (w_listed s).
Definition set_ipc (p : idle_pc) (x : idle) : idle :=
  mkIdle p (i_cancelled x) (i_notify x) (i_done x) (i_connected x) (i_pending x) (i_base x).
Definition set_done (d : option bool) (x : idle) : idle :=
  mkIdle (i_pc x) (i_cancelled x) (i_notify x) d (i_connected x) (i_pending x) (i_base x).
Definition set_notify (b : bool) (x : idle) : idle :=
  mkIdle (i_pc x) (i_cancelled x) b (i_done x) (i_connected x) (i_pending x) (i_base x).
(** [cancelIdle()]. *)
Definition cancel_idle (x : idle) : idle :=
  mkIdle (i_pc x) true (i_notify x) (i_done x) (i_connected x) (i_pending x) (i_base x).
(** SELECT has been answered, and the connection is open. *)
Definition selected (x : idle) : bool := match i_pc x with i_command | i_idling | i_closing => true | _ => false end.

(** The next step, and what it chooses. *)
Inductive choice : Type :=
(* the watcher: ctx.Err(); a goroutine for a session; the cases of its select, of sleepContext and of waitIdleDone *)
| p_check
| p_spawn
| p_cancelled
| p_notified
| p_tick
| p_idle_done
| p_closed
| p_gave_up
| p_slept
(* the network answers it: dialling, listing the folders, a round *)
| p_dialed (ok : bool)
| p_listed (folders : option nat)
| p_round_refused
| p_round (ok : bool)
(* session i: it begins, sees its context, reports its end *)
| s_begin (i : nat)
| s_wake (i : nat)
| s_report (i : nat)
(* the network answers it, its timer fires, it is told of a change *)
| s_dialed (i : nat) (ok : bool)
| s_logged_in (i : nat) (ok : bool)
| s_commanded (i : nat) (ok : bool)
| s_refresh (i : nat)
| s_closed (i : nat) (err : bool)
| s_told (i : nat)
(* outside *)
| e_arrive
| e_drop (i : nat)
| e_tick
| e_cancel.

Definition current (s : watch) : option idle := w_idles s !! (length (w_idles s) - 1).
(** The session of the loop, and the program counter, change. *)
Definition with_current (f : idle → idle) (p : main_pc) (s : watch) : watch :=
  set_pc p (set_idles (alter f (length (w_idles s) - 1) (w_idles s)) s).
Definition watching (p : main_pc) : bool :=
  match p with m_top | m_dialing | m_listing | m_sleep | m_left | m_done => false | _ => true end.

(** The steps of the watcher. *)
Definition advance_main (ch : choice) (s : watch) : option watch :=
  let cancelled := w_cancelled s in
  match ch, w_pc s with
  | p_check, m_top => Some (set_pc (if cancelled then m_done else m_dialing) s)
  | p_check, m_loop => Some (if cancelled then set_pc m_left s else set_pc m_syncing (set_started (w_arrived s) s))
  | p_check, m_synced => Some (set_pc (if cancelled then m_left else m_spawn) s)
  | p_check, m_left => Some (set_pc (if cancelled then m_done else m_sleep) s)
  | p_spawn, m_spawn => Some (set_pc m_select (set_idles (w_idles s ++ [new_idle]) s))
  | p_cancelled, m_select => if cancelled then Some (with_current cancel_idle (m_wait true) s) else None
  | p_cancelled, m_sleep => if cancelled then Some (set_pc m_done s) else None
  | p_cancelled, m_sleep_sync => if cancelled then Some (set_pc m_synced s) else None
  | p_cancelled, m_sleep_idle => if cancelled then Some (set_pc m_loop s) else None
  | p_notified, m_select =>
      x ← current s;
      if i_notify x then Some (with_current (cancel_idle ∘ set_notify false) (m_wait false) s) else None
  | p_tick, m_select => if w_tick s then Some (with_current cancel_idle (m_wait false) (set_tick false s)) else None
  | p_idle_done, m_select =>
      x ← current s;
      err ← i_done x;
      Some (with_current (cancel_idle ∘ set_done None) (if (err : bool) && negb cancelled then m_sleep_idle else m_loop) s)
  | p_closed, m_wait leave =>
      x ← current s;
      _ ← i_done x;
      Some (with_current (set_done None) (if leave then m_left else m_loop) s)
  | p_gave_up, m_wait leave => Some (set_pc (if leave then m_left else m_loop) s)
  | p_slept, m_sleep => Some (set_pc m_top s)
  | p_slept, m_sleep_sync => Some (set_pc m_synced s)
  | p_slept, m_sleep_idle => Some (set_pc m_loop s)
  | p_dialed ok, m_dialing => Some (set_pc (if ok then m_listing else m_sleep) s)
  | p_listed r, m_listing =>
      match r with
      | Some (S _) => Some (mkWatch m_loop cancelled false (w_idles s) (w_arrived s) (w_started s) (S (w_listed s)))
      | _ => Some (set_pc m_sleep s)
      end
  | p_round_refused, m_syncing => Some (set_pc m_sleep_sync s)
  | p_round ok, m_syncing => Some (set_pc (if ok || cancelled then m_synced else m_sleep_sync) s)
  | _, _ => None
  end.

(** The client's Idle: the command, the wait, DONE and the answer to it; [ctx] says that the context is cancelled. *)
Definition Idle (ctx : bool) (ch : choice) (x : idle) : option idle :=
  match ch, i_pc x with
  | s_commanded _ ok, i_command => Some (set_ipc (if ok then i_idling else i_reporting true) x)
  | s_wake _, i_idling => if ctx then Some (set_ipc i_closing x) else None
  | s_refresh _, i_idling => Some (set_ipc i_closing x)
  | s_closed _ err, i_closing => Some (set_ipc (i_reporting err) x)
  | _, _ => None
  end.
(** The steps of a session; [cancelled] is the context of the watcher. *)
Definition advance_idle (cancelled : bool) (arrived : nat) (ch : choice) (x : idle) : option idle :=
  let ctx := cancelled || i_cancelled x in
  match ch, i_pc x with
  | s_begin _, i_start => Some (set_ipc (if ctx then i_reporting true else i_dialing) x)
  | s_wake _, i_login => if ctx then Some (set_ipc (i_reporting true) x) else None
  | s_report _, i_reporting err => Some (set_ipc i_gone (set_done (Some err) x))
  | s_dialed _ ok, i_dialing => Some (set_ipc (if ok then i_login else i_reporting true) x)
  | s_logged_in _ ok, i_login =>
      Some (if ok then mkIdle i_command (i_cancelled x) (i_notify x) (i_done x) (i_connected x) false arrived
            else set_ipc (i_reporting true) x)
  | s_told _, _ =>
      if selected x && i_connected x && i_pending x then
        Some (mkIdle (i_pc x) (i_cancelled x) true (i_done x) (i_connected x) false (i_base x))
      else None
  | e_drop _, _ => Some (mkIdle (i_pc x) (i_cancelled x) (i_notify x) (i_done x) false false (i_base x))
  | _, _ => Idle ctx ch x
  end.
(** The server has something to report to every session that has selected the folder. *)
Definition announce (x : idle) : idle :=
  mkIdle (i_pc x) (i_cancelled x) (i_notify x) (i_done x) (i_connected x) (i_pending x || selected x) (i_base x).

Definition session_of (ch : choice) : option nat :=
  match ch with
  | s_begin i | s_wake i | s_report i | s_dialed i _ | s_logged_in i _ | s_commanded i _ | s_refresh i | s_closed i _ | s_told i
  | e_drop i => Some i
  | _ => None
  end.
(** One step; [None] is an operation that blocks. *)
Definition advance (ch : choice) (s : watch) : option watch :=
  match session_of ch with
  | Some i =>
      x ← w_idles s !! i;
      y ← advance_idle (w_cancelled s) (w_arrived s) ch x;
      Some (set_idles (<[i := y]> (w_idles s)) s)
  | None =>
      match ch with
      | e_arrive => Some (mkWatch (w_pc s) (w_cancelled s) (w_tick s) (map announce (w_idles s)) (S (w_arrived s)) (w_started s) (w_listed s))
      | e_tick => if watching (w_pc s) then Some (set_tick true s) else None
      | e_cancel => Some (mkWatch (w_pc s) true (w_tick s) (w_idles s) (w_arrived s) (w_started s) (w_listed s))
      | _ => advance_main ch s
      end
  end.
Fixpoint play (l : list choice) (s : watch) : option watch :=
  match l with [] => Some s | ch :: l => s ← advance ch s; play l s end.

(** ** Notions used by the statements *)

(** A step of the program by itself: no answer of the network, no timer, nothing from outside. *)
Definition internal (ch : choice) : bool :=
  match ch with
  | p_check | p_spawn | p_cancelled | p_notified | p_tick | p_idle_done | p_closed | s_begin _ | s_wake _ | s_report _ => true
  | _ => false
  end.
(** A step of the watcher itself, as opposed to its sessions and the outside. *)
Definition of_main (ch : choice) : bool :=
  match ch, session_of ch with
  | (e_arrive | e_tick | e_cancel), _ | _, Some _ => false
  | _, None => true
  end.
Definition count (f : choice → bool) (l : list choice) : nat := length (filter (λ ch, f ch = true) l).
Definition reachable (s : watch) : Prop := ∃ l, play l start_watch = Some s.

(** A step that nothing outside can prevent: one of the program, a report of the server, or the end of the
    waiting for a session that does not end. *)
Definition told (ch : choice) : bool := match ch with s_told _ => true | _ => false end.
Definition gives_up (ch : choice) : bool := match ch with p_gave_up => true | _ => false end.
Definition prompt (ch : choice) : bool := internal ch || told ch || gives_up ch.
(** A round is due: it has started since there were [n] messages, or the watcher is on its way to it. *)
Definition due (n : nat) (s : watch) : Prop :=
  n ≤ w_started s ∨ (w_cancelled s = false ∧ w_arrived s = n ∧
    (w_pc s = m_wait false ∨ w_pc s = m_loop ∨ (w_pc s = m_select ∧ ∃ x, current s = Some x ∧ i_cancelled x = false ∧
       selected x = true ∧ i_connected x = true ∧ (i_pending x = true ∨ i_notify x = true)))).

(** The steps that the watcher can take before it waits for the outside, or is done. *)
Definition session_work (x : idle) : nat :=
  match i_pc x with i_start => 3 | i_login => 2 | i_idling => 1 | i_reporting _ => 1 | _ => 0 end.
Definition main_work (p : main_pc) : nat :=
  match p with
  | m_done | m_syncing | m_dialing | m_listing => 0
  | m_top | m_sleep => 1
  | m_left => 2
  | m_loop => 3
  | m_wait _ | m_sleep_idle => 4
  | m_select => 5
  | m_spawn => 9
  | m_synced => 10
  | m_sleep_sync => 11
  end.
Definition work_left (s : watch) : nat := main_work (w_pc s) + sum_list_with session_work (w_idles s).
Definition reports_left (s : watch) : nat := sum_list_with (λ x, if i_pending x then 1 else 0) (w_idles s).
(** How far a watcher whose context is cancelled is from its end. *)
Definition to_the_end (p : main_pc) : nat :=
  match p with
  | m_done => 0 | m_top => 1 | m_sleep => 2 | m_left => 3 | m_loop => 4 | m_listing | m_sleep_idle | m_wait _ => 5
  | m_dialing | m_select => 6 | m_spawn => 7 | m_synced => 8 | m_sleep_sync => 9 | m_syncing => 10
  end.

(** What holds of a session, with the mail that has come and that of the last round. *)
Record idle_ok (arrived started : nat) (x : idle) : Prop := mkIdleOk {
  io_base : i_base x ≤ arrived;
  io_done : is_Some (i_done x) → i_pc x = i_gone;
  io_mail : i_cancelled x = false → selected x = true →
    started ≤ i_base x ∧ (i_connected x = true → i_base x < arrived → i_pending x = true ∨ i_notify x = true)
}.
(** What the watcher may change of a session that it leaves. *)
Definition follows (x y : idle) : Prop :=
  i_base y = i_base x ∧ i_pc y = i_pc x ∧ (i_done y = None ∨ i_done y = i_done x).
Record watch_ok (s : watch) : Prop := mkWatchOk {
  wo_idles : ∀ i x, w_idles s !! i = Some x → idle_ok (w_arrived s) (w_started s) x ∧
    (i_cancelled x = false → S i = length (w_idles s) ∧ w_pc s = m_select);
  wo_current : w_pc s = m_select → ∃ x, current s = Some x ∧ i_cancelled x = false;
  wo_started : w_started s ≤ w_arrived s;
  wo_left : w_pc s = m_left ∨ w_pc s = m_wait true → w_cancelled s = true;
  wo_listed : match w_pc s with
              | m_top | m_dialing | m_listing | m_sleep => w_listed s = 0
              | m_done => w_listed s ≤ 1
              | _ => w_listed s = 1
              end
}.

(** A watcher that waits, its session in IDLE. *)
Definition waiting : list choice :=
  [p_check; p_dialed true; p_listed (Some 2); p_check; p_round true; p_check; p_spawn;
   s_begin 0; s_dialed 0 true; s_logged_in 0 true; s_commanded 0 true].

(** * Proofs *)

(** ** The invariant *)
Lemma idle_ok_cancelled arrived started started' x y :
  idle_ok arrived started x → follows x y → i_cancelled y = true → idle_ok arrived started' y.
Proof.
  intros [H1 H2 H3] (Hb & Hp & Hd) Hc. constructor; [by rewrite Hb| |congruence].
  rewrite Hp. destruct Hd as [-> | ->]; [by intros []|done].
Qed.
Lemma advance_idle_ok cancelled arrived started ch x y : started ≤ arrived → idle_ok arrived started x →
  advance_idle cancelled arrived ch x = Some y → idle_ok arrived started y ∧ i_cancelled y = i_cancelled x.
Proof.
  intros Hs [Hb Hd Hm] H. unfold advance_idle, Idle in H.
  destruct ch; try discriminate H; destruct (i_pc x) eqn:Ep; try discriminate H;
    repeat case_match; simplify_eq; (split; [constructor; cbn|done]); try done; try (by intros Hx%Hd; congruence); intros Hc; unfold selected in *; cbn in *;
    try rewrite Ep in *; try discriminate; intros _; try (split; [lia|]; intros; lia);
    (destruct (Hm Hc eq_refl) as [H1 H2]; split; [done|]); auto; discriminate.
Qed.
Lemma announce_ok arrived started x : idle_ok arrived started x → idle_ok (S arrived) started (announce x).
Proof.
  intros [Hb Hd Hm]. constructor; cbn; [lia|done|]. intros Hc Hs. change (selected (announce x)) with (selected x) in Hs.
  destruct (Hm Hc Hs) as [H1 H2]. split; [done|]. intros _ _. left. by rewrite Hs, orb_true_r.
Qed.

Lemma all_cancelled s i x : watch_ok s → w_pc s ≠ m_select → w_idles s !! i = Some x → i_cancelled x = true.
Proof. intros Ho Hp Hi. destruct (wo_idles _ Ho _ _ Hi) as [_ H]. destruct (i_cancelled x); [done|]. by destruct (H eq_refl). Qed.
(** A state of the loop in which no session has its context. *)
Lemma watch_ok_moved s p cancelled tick l started listed : watch_ok s →
  (∀ i y, l !! i = Some y → i_cancelled y = true ∧ ∃ x, w_idles s !! i = Some x ∧ follows x y) →
  p ≠ m_select → started ≤ w_arrived s → (p = m_left ∨ p = m_wait true → cancelled = true) →
  match p with
  | m_top | m_dialing | m_listing | m_sleep => listed = 0
  | m_done => listed ≤ 1
  | _ => listed = 1
  end →
  watch_ok (mkWatch p cancelled tick l (w_arrived s) started listed).
Proof.
  intros Ho Hl Hp Hs Hleft Hlist. constructor; cbn; try done.
  intros i y Hi. destruct (Hl _ _ Hi) as (Hc & x & Hx & Hb). destruct (wo_idles _ Ho _ _ Hx) as [Hok _].
  split; [by eapply idle_ok_cancelled|congruence].
Qed.
Lemma same_idles s : watch_ok s → w_pc s ≠ m_select →
  ∀ i y, w_idles s !! i = Some y → i_cancelled y = true ∧ ∃ x, w_idles s !! i = Some x ∧ follows x y.
Proof. intros Ho Hp i y Hi. split; [by eapply all_cancelled|]. exists y. split; [done|]. split_and!; auto. Qed.
Lemma current_changed s f : watch_ok s → (∀ x, i_cancelled (f x) = true ∨ (w_pc s ≠ m_select ∧ i_cancelled (f x) = i_cancelled x)) →
  (∀ x, follows x (f x)) → ∀ i y, alter f (length (w_idles s) - 1) (w_idles s) !! i = Some y →
  i_cancelled y = true ∧ ∃ x, w_idles s !! i = Some x ∧ follows x y.
Proof.
  intros Ho Hc Hb i y Hi. destruct (decide (i = length (w_idles s) - 1)) as [->|Hn].
  - rewrite list_lookup_alter, decide_True in Hi by done. apply fmap_Some in Hi as (x & Hx & ->). split; [|by exists x].
    destruct (Hc x) as [?|[Hp ->]]; [done|]. by eapply all_cancelled.
  - rewrite list_lookup_alter, decide_False in Hi by done. split; [|exists y; split; [done|]; split_and!; auto].
    destruct (wo_idles _ Ho _ _ Hi) as [_ H]. destruct (i_cancelled y); [done|]. destruct (H eq_refl). lia.
Qed.

Lemma advance_main_ok ch s s' : watch_ok s → advance_main ch s = Some s' → watch_ok s'.
Proof.
  intros Ho H. pose proof (wo_started _ Ho). pose proof (wo_left _ Ho) as Hl. pose proof (wo_listed _ Ho) as Hli.
  unfold advance_main in H.
  destruct ch; try discriminate H; destruct (w_pc s) eqn:Ep; try discriminate H.
  all: simpl in H; repeat (case_match; try discriminate H); try (apply bind_Some in H as (x & Hx & H));
    repeat (case_match; try discriminate H); try (apply bind_Some in H as (b & Hb & H)); repeat case_match; simplify_eq;
    try (apply (watch_ok_moved s); cbn; solve
      [ done | lia | congruence | intuition congruence | apply same_idles; [done|congruence]
      | apply current_changed; [done| |intros y; split_and!; cbn; auto]; intros y; cbn; solve [by left|right; split; [congruence|done]] ]).
  constructor; cbn.
  - intros i x Hi. apply lookup_app_Some in Hi as [Hi|[Hle Hi]].
    + assert (Hc : i_cancelled x = true) by (eapply all_cancelled; [done|congruence|done]).
      split; [apply (wo_idles _ Ho _ _ Hi)|congruence].
    + apply list_lookup_singleton_Some in Hi as [Hi <-]. rewrite length_app. cbn.
      split; [constructor; cbn; [lia|by intros []|done]|]. intros _. split; [lia|done].
  - intros _. exists new_idle. split; [|done]. unfold current. cbn. rewrite length_app. cbn.
    by rewrite lookup_app_r, Nat.add_sub, Nat.sub_diag by lia.
  - done.
  - by intros [?|?].
  - done.
Qed.

Lemma advance_ok ch s s' : watch_ok s → advance ch s = Some s' → watch_ok s'.
Proof.
  intros Ho H. unfold advance in H. destruct (session_of ch) as [i|] eqn:Ei.
  - apply bind_Some in H as (x & Hx & H). apply bind_Some in H as (y & Hy & H). injection H as <-.
    destruct (wo_idles _ Ho _ _ Hx) as [Hok Hc]. destruct (advance_idle_ok _ _ _ _ _ _ (wo_started _ Ho) Hok Hy) as [Hok' Hc'].
    constructor; cbn; [| |apply Ho..].
    + intros j z Hz. apply list_lookup_insert_Some in Hz as [(-> & <- & _)|[_ Hz]]; rewrite length_insert.
      * split; [done|]. rewrite Hc'. exact Hc.
      * by apply Ho.
    + intros Hp. destruct (wo_current _ Ho Hp) as (z & Hz & Hzc). unfold current in *. cbn. rewrite length_insert.
      destruct (decide (i = length (w_idles s) - 1)) as [->|Hn].
      * rewrite list_lookup_insert_eq by (by eapply lookup_lt_Some). exists y. split; [done|]. congruence.
      * rewrite list_lookup_insert_ne by done. by exists z.
  - destruct ch; try discriminate Ei; try (by eapply advance_main_ok).
    + injection H as <-. constructor; cbn; [| |pose proof (wo_started _ Ho); lia|apply Ho..].
      * intros j z Hz. rewrite length_map. apply list_lookup_fmap_Some in Hz as (x & -> & Hx).
        destruct (wo_idles _ Ho _ _ Hx) as [Hok Hc]. split; [by apply announce_ok|exact Hc].
      * intros Hp. destruct (wo_current _ Ho Hp) as (z & Hz & Hzc). exists (announce z). split; [|done].
        unfold current in *. cbn. rewrite length_map. change (map announce) with (fmap (M:=list) announce). by rewrite list_lookup_fmap, Hz.
    + destruct (watching _); [|done]. injection H as <-. constructor; apply Ho.
    + injection H as <-. constructor; cbn; [apply Ho..| |apply Ho]. done.
Qed.
Lemma play_ok l : ∀ s s', watch_ok s → play l s = Some s' → watch_ok s'.
Proof.
  induction l as [|ch l IH]; intros s s' Ho H; [by injection H as <-|].
  cbn in H. apply bind_Some in H as (s1 & H1 & H). eapply IH; [|exact H]. by eapply advance_ok.
Qed.
Lemma reachable_ok s : reachable s → watch_ok s.
Proof. intros [l H]. eapply play_ok; [|exact H]. constructor; cbn; try done. by intros [?|?]. Qed.

(** ** Work *)
Lemma sum_alter (g : idle → nat) f i l : (∀ x, g (f x) = g x) → sum_list_with g (alter f i l) = sum_list_with g l.
Proof. intros H. revert i. induction l as [|x l IH]; intros [|i]; cbn; [done..|by rewrite H|]. by f_equal. Qed.
Lemma sum_announce l : sum_list_with session_work (map announce l) = sum_list_with session_work l.
Proof. induction l as [|x l IH]; cbn; [done|]. by rewrite IH. Qed.

(** A step of a session lowers what it has to do, unless it was for the outside. *)
Lemma advance_idle_work cancelled arrived ch x y : advance_idle cancelled arrived ch x = Some y →
  (if internal ch then session_work y < session_work x ∧ i_pending y = i_pending x
   else session_work y ≤ session_work x + 2) ∧
  (told ch = true → session_work y = session_work x ∧ i_pending x = true ∧ i_pending y = false).
Proof.
  intros H. unfold advance_idle, Idle in H. unfold session_work.
  destruct ch; try discriminate H; destruct (i_pc x) eqn:Ep; try discriminate H;
    repeat case_match; simplify_eq; cbn in *; try rewrite Ep; (split; [repeat split; try lia|]); try done;
    intros _; (split; [done|]); match goal with H : _ && i_pending _ = true |- _ => by apply andb_prop in H as [_ ?] end.
Qed.
Lemma advance_main_work ch s s' : advance_main ch s = Some s' →
  (if internal ch || gives_up ch then work_left s' < work_left s else work_left s' ≤ work_left s + 11) ∧
  (internal ch = true ∨ gives_up ch = true → reports_left s' = reports_left s).
Proof.
  intros H. unfold advance_main in H. unfold work_left, reports_left.
  destruct ch; try discriminate H; destruct (w_pc s) eqn:Ep; try discriminate H.
  all: simpl in H; repeat (case_match; try discriminate H); try (apply bind_Some in H as (x & Hx & H));
    repeat (case_match; try discriminate H); try (apply bind_Some in H as (b & Hb & H)); repeat case_match; simplify_eq;
    cbn; rewrite ?sum_list_with_app, ?sum_alter by done; cbn; try (split; [|intros [?|?]]; done || lia).
Qed.
Lemma advance_work ch s s' : advance ch s = Some s' →
  work_left s' ≤ work_left s + 11 ∧
  (internal ch = true ∨ gives_up ch = true → work_left s' < work_left s ∧ reports_left s' = reports_left s) ∧
  (told ch = true → work_left s' = work_left s ∧ reports_left s' < reports_left s).
Proof.
  intros H. unfold advance in H. destruct (session_of ch) as [i|] eqn:Ei.
  - apply bind_Some in H as (x & Hx & H). apply bind_Some in H as (y & Hy & H). injection H as <-.
    pose proof (sum_insert session_work _ _ _ y Hx) as Hw.
    pose proof (sum_insert (λ x, if i_pending x then 1 else 0) _ _ _ y Hx) as Hr. cbn beta in Hr.
    destruct (advance_idle_work _ _ _ _ _ Hy) as [H1 H2]. unfold work_left, reports_left. cbn.
    assert (Hg : gives_up ch = false) by (by destruct ch). rewrite Hg.
    destruct (internal ch) eqn:Ech; (split; [lia|split]).
    + intros _. destruct H1 as [H1 Hp]. rewrite Hp in Hr. lia.
    + by destruct ch.
    + by intros [?|?].
    + intros Ht. destruct (H2 Ht) as (E1 & E2 & E3). rewrite E2, E3 in Hr. lia.
  - assert (Ht : told ch = false) by (by destruct ch). rewrite Ht.
    destruct ch; try discriminate Ei; try (by destruct (advance_main_work _ _ _ H) as [H1 H2]; cbn in H1, H2; (split; [lia|split; [|done]]);
      intros [?|?]; (try done); (split; [lia|]); apply H2; auto).
    + injection H as <-. unfold work_left. cbn. rewrite sum_announce. split; [lia|]. split; [by intros [?|?]|done].
    + destruct (watching _); [|done]. injection H as <-. unfold work_left. cbn. split; [lia|]. split; [by intros [?|?]|done].
    + injection H as <-. unfold work_left. cbn. split; [lia|]. split; [by intros [?|?]|done].
Qed.

Lemma count_cons f ch l : count f (ch :: l) = (if f ch then 1 else 0) + count f l.
Proof. unfold count. rewrite filter_cons. by destruct (f ch) eqn:E; rewrite ?decide_True, ?decide_False by congruence. Qed.
Lemma play_work l : ∀ s s', play l s = Some s' →
  count internal l + work_left s' ≤ work_left s + 11 * count (λ ch, negb (internal ch)) l.
Proof.
  induction l as [|ch l IH]; intros s s' H; [injection H as <-; cbn; lia|].
  cbn in H. apply bind_Some in H as (s1 & H1 & H). apply IH in H. destruct (advance_work _ _ _ H1) as (Ha & Hb & _).
  rewrite !count_cons. destruct (internal ch); cbn; [destruct (Hb (or_introl eq_refl)); lia|lia].
Qed.

(** ** The end *)
Lemma advance_cancelled ch s s' : advance ch s = Some s' → w_cancelled s = true → w_cancelled s' = true.
Proof.
  intros H Hc. unfold advance in H. destruct (session_of ch) as [i|] eqn:Ei.
  { apply bind_Some in H as (x & Hx & H). apply bind_Some in H as (y & Hy & H). by injection H as <-. }
  destruct ch; try discriminate Ei; try (by injection H as <-); try (by destruct (watching _); [injection H as <-|]).
  all: unfold advance_main in H; destruct (w_pc s); try discriminate H; simpl in H; rewrite ?Hc in H;
    repeat (case_match; try discriminate H); try (apply bind_Some in H as (x & Hx & H));
    repeat (case_match; try discriminate H); try (apply bind_Some in H as (b & Hb & H)); by simplify_eq.
Qed.
Lemma advance_to_the_end ch s s' : advance ch s = Some s' → w_cancelled s = true →
  if of_main ch then to_the_end (w_pc s') < to_the_end (w_pc s) else w_pc s' = w_pc s.
Proof.
  intros H Hc. unfold advance in H. unfold of_main. destruct (session_of ch) as [i|] eqn:Ei.
  { apply bind_Some in H as (x & Hx & H). apply bind_Some in H as (y & Hy & H). injection H as <-. by destruct ch. }
  destruct ch; try discriminate Ei; try (by injection H as <-); try (by destruct (watching _); [injection H as <-|]).
  all: unfold advance_main in H; destruct (w_pc s) eqn:Ep; try discriminate H; simpl in H; rewrite ?Hc in H;
    repeat (case_match; try discriminate H); try (apply bind_Some in H as (x & Hx & H));
    repeat (case_match; try discriminate H); try (apply bind_Some in H as (b & Hb & H)); repeat case_match; simplify_eq; cbn; try lia.
Qed.

Lemma play_to_the_end l : ∀ s s', play l s = Some s' → w_cancelled s = true →
  count of_main l + to_the_end (w_pc s') ≤ to_the_end (w_pc s) ∧ w_cancelled s' = true.
Proof.
  induction l as [|ch l IH]; intros s s' H Hc; [injection H as <-; by split; [cbn; lia|]|].
  cbn in H. apply bind_Some in H as (s1 & H1 & H).
  pose proof (advance_to_the_end _ _ _ H1 Hc) as He. pose proof (advance_cancelled _ _ _ H1 Hc) as Hc1.
  destruct (IH _ _ H Hc1) as [Hi Hc']. split; [|done]. rewrite count_cons. destruct (of_main ch); [lia|]. rewrite He in Hi. lia.
Qed.

(** ** Rounds that are due *)
Lemma advance_started ch s s' : watch_ok s → advance ch s = Some s' → w_started s ≤ w_started s'.
Proof.
  intros Ho H. pose proof (wo_started _ Ho). unfold advance in H. destruct (session_of ch) as [i|] eqn:Ei.
  { apply bind_Some in H as (x & Hx & H). apply bind_Some in H as (y & Hy & H). by injection H as <-. }
  destruct ch; try discriminate Ei; try (by injection H as <-); try (by destruct (watching _); [injection H as <-|]).
  all: unfold advance_main in H; destruct (w_pc s); try discriminate H; simpl in H;
    repeat (case_match; try discriminate H); try (apply bind_Some in H as (x & Hx & H));
    repeat (case_match; try discriminate H); try (apply bind_Some in H as (b & Hb & H)); by simplify_eq.
Qed.
(** A session whose context holds stays where it is, and keeps what it has to report. *)
Lemma advance_idle_due ch x y arrived : prompt ch = true → i_cancelled x = false → selected x = true → i_connected x = true →
  i_pending x = true ∨ i_notify x = true → advance_idle false arrived ch x = Some y →
  i_cancelled y = false ∧ selected y = true ∧ i_connected y = true ∧ (i_pending y = true ∨ i_notify y = true).
Proof.
  intros Hp Hc Hs Hcon Hm H. unfold advance_idle, Idle in H. rewrite Hc in H. unfold selected in *.
  destruct ch; try discriminate Hp; destruct (i_pc x) eqn:Ep; try discriminate;
    repeat (case_match; try discriminate H); simplify_eq; cbn; rewrite ?Ep; auto.
Qed.
Lemma advance_due n ch s s' : watch_ok s → due n s → prompt ch = true → advance ch s = Some s' → due n s'.
Proof.
  intros Ho [Hd|(Hc & Ha & Hd)] Hp H.
  { left. etrans; [exact Hd|]. by eapply advance_started. }
  unfold advance in H. destruct (session_of ch) as [i|] eqn:Ei.
  - apply bind_Some in H as (x & Hx & H). apply bind_Some in H as (y & Hy & H). injection H as <-. right.
    split; [done|]. split; [done|]. destruct Hd as [Hd|[Hd|(Hd & z & Hz & Hzc & Hs & Hcon & Hm)]]; [by left|by right; left|].
    right. right. split; [done|]. unfold current in *. cbn. rewrite length_insert.
    destruct (decide (i = length (w_idles s) - 1)) as [->|Hn].
    + rewrite list_lookup_insert_eq by (by eapply lookup_lt_Some). rewrite Hz in Hx. injection Hx as ->. rewrite Hc in Hy.
      exists y. split; [done|]. by eapply advance_idle_due.
    + rewrite list_lookup_insert_ne by done. by exists z.
  - assert (Hm : advance_main ch s = Some s') by (by destruct ch). clear H. unfold advance_main in Hm. rewrite Hc in Hm.
    destruct Hd as [Hd|[Hd|(Hd & z & Hz & Hzc & Hs & Hcon & Hr)]]; rewrite Hd in Hm;
      destruct ch; try discriminate Hp; try discriminate Hm; simpl in Hm.
    + apply bind_Some in Hm as (x & Hx & Hm). apply bind_Some in Hm as (b & Hb & Hm). injection Hm as <-. right. split_and!; auto.
    + injection Hm as <-. right. split_and!; auto.
    + injection Hm as <-. left. cbn. lia.
    + rewrite Hz in Hm. simpl in Hm. destruct (i_notify z); [|discriminate Hm]. injection Hm as <-. right. split_and!; auto.
    + destruct (w_tick s); [|discriminate Hm]. injection Hm as <-. right. split_and!; auto.
    + rewrite Hz in Hm. simpl in Hm. exfalso. unfold current in Hz. destruct (wo_idles _ Ho _ _ Hz) as [Hok _].
      apply bind_Some in Hm as (b & Hb & _). unfold selected in Hs. rewrite (io_done _ _ _ Hok) in Hs; [discriminate Hs|by exists b].
Qed.
Lemma due_moves n s : due n s → n ≤ w_started s ∨ ∃ ch s', prompt ch = true ∧ advance ch s = Some s'.
Proof.
  intros [Hd|(Hc & Ha & Hd)]; [by left|right]. destruct Hd as [Hd|[Hd|(Hd & x & Hx & Hxc & Hs & Hcon & Hm)]].
  - exists p_gave_up. eexists. split; [done|]. cbn. by rewrite Hd.
  - exists p_check. eexists. split; [done|]. cbn. by rewrite Hd.
  - destruct Hm as [Hm|Hm].
    + exists (s_told (length (w_idles s) - 1)). eexists. split; [done|]. unfold current in Hx. cbn. rewrite Hx. cbn. by rewrite Hs, Hcon, Hm.
    + exists p_notified. eexists. split; [done|]. cbn. rewrite Hd. cbn. rewrite Hx. cbn. by rewrite Hm.
Qed.

(** ** The properties *)

(** C22. Mail starts a round. When a message has arrived in the folder that the watcher waits for, since the
    server answered the SELECT of its session, and the connection holds, a new round starts without any timer of
    the watcher's own, whatever the order in which its goroutines, the server's reports and the ticker take their turns: such
    steps can go on only for a bounded time, and as long as no round has started since that message came, there is one
    that can be taken. (The bound on the wait for a session that does not end counts as a step that can be taken.) *)
Theorem mail_starts_a_round s x l s' : reachable s → w_pc s = m_select → w_cancelled s = false →
  current s = Some x → selected x = true → i_connected x = true → i_base x < w_arrived s →
  forallb prompt l = true → play l s = Some s' →
  length l ≤ work_left s + reports_left s ∧
  (w_arrived s ≤ w_started s' ∨ ∃ ch s2, prompt ch = true ∧ advance ch s' = Some s2).
Proof.
  intros Hr Hp Hc Hx Hs Hcon Hb Hl H. apply reachable_ok in Hr as Ho.
  assert (Hd : due (w_arrived s) s).
  { right. split_and!; [done..|]. right. right. split; [done|]. exists x. split_and!; try done.
    - destruct (wo_current _ Ho Hp) as (z & Hz & Hzc). congruence.
    - unfold current in Hx. destruct (wo_idles _ Ho _ _ Hx) as [[_ _ Hok] _].
      destruct (wo_current _ Ho Hp) as (z & Hz & Hzc). unfold current in Hz. rewrite Hx in Hz. injection Hz as <-.
      destruct (Hok Hzc Hs) as [_ Hm]. by apply Hm. }
  clear -Hd Ho Hl H. set (n := w_arrived s) in *. clearbody n. revert s Ho Hd H.
  induction l as [|ch l IH]; intros s Ho Hd H; cbn in H.
  - injection H as <-. split; [cbn; lia|]. by apply due_moves.
  - cbn in Hl. apply andb_prop in Hl as [Hch Hl]. apply bind_Some in H as (s1 & H1 & H).
    destruct (IH Hl s1) as [IHl IHd]; [by eapply advance_ok|by eapply advance_due|done|]. split; [|done]. cbn [length].
    destruct (advance_work _ _ _ H1) as (_ & Hi & Ht). unfold prompt in Hch. apply orb_prop in Hch as [Hch|Hg].
    + apply orb_prop in Hch as [Hch|Hch]; [destruct (Hi (or_introl Hch)); lia|destruct (Ht Hch); lia].
    + destruct (Hi (or_intror Hg)). lia.
Qed.

(** C23. The watcher does not spin. In every run, whatever fails and in whatever order, the program takes at most
    eleven steps for each event that it waits for (an answer of the network, a timer, a tick, a message, the end of its
    context), and one more. *)
Theorem watcher_never_spins l s : play l start_watch = Some s →
  count internal l ≤ 11 * count (λ ch, negb (internal ch)) l + 1.
Proof. intros H%play_work. cbn in H. lia. Qed.

(** The watcher stops. Once its context is cancelled it takes at most ten more steps, network and timers
    included, in any state and whatever its sessions do; it never waits for something that may not come, and so it reaches
    its end. *)
Lemma watcher_stops s : reachable s → w_cancelled s = true →
  (∀ l s', play l s = Some s' → count of_main l ≤ 10) ∧
  (w_pc s ≠ m_done → ∃ ch s', of_main ch = true ∧ advance ch s = Some s').
Proof.
  intros Hr Hc. split.
  - intros l s' H. destruct (play_to_the_end _ _ _ H Hc). assert (to_the_end (w_pc s) ≤ 10) by (destruct (w_pc s); cbn; lia). lia.
  - apply reachable_ok in Hr as Ho. intros Hp. destruct (w_pc s) eqn:Ep; try done.
    all: try (exists p_check; cbn; rewrite Ep; eauto; fail).
    all: try (exists p_slept; cbn; rewrite Ep; eauto; fail).
    all: try (exists p_gave_up; cbn; rewrite Ep; eauto; fail).
    + exists (p_dialed false). cbn. rewrite Ep. eauto.
    + exists (p_listed None). cbn. rewrite Ep. eauto.
    + exists (p_round false). cbn. rewrite Ep. eauto.
    + exists p_spawn. cbn. rewrite Ep. eauto.
    + exists p_cancelled. cbn. rewrite Ep, Hc. eauto.
Qed.

(** The folders are listed once: the rest of [run] after watchAccount is never reached with a context that holds. *)
Lemma folders_listed_once s : reachable s → w_listed s ≤ 1 ∧ (w_pc s = m_left → w_cancelled s = true).
Proof.
  intros Hr%reachable_ok. split; [|intros Hp; apply (wo_left _ Hr); by left]. pose proof (wo_listed _ Hr) as H. destruct (w_pc s); lia.
Qed.
(** Of the sessions only that of the loop has a context that holds, while the loop waits for it. *)
Lemma one_session s i x : reachable s → w_idles s !! i = Some x → i_cancelled x = false →
  S i = length (w_idles s) ∧ w_pc s = m_select.
Proof. intros Hr%reachable_ok Hi. by apply (wo_idles _ Hr). Qed.

(** ** Concrete runs *)
Lemma mail_starts_a_round_witness :
  ∃ s s', play (waiting ++ [e_arrive]) start_watch = Some s ∧ play [s_told 0; p_notified; s_wake 0] s = Some s' ∧
    work_left s + reports_left s = 7 ∧ (w_arrived s ≤ w_started s' ∨ ∃ ch s2, prompt ch = true ∧ advance ch s' = Some s2).
Proof.
  eexists _, _. split; [vm_compute; reflexivity|]. split; [vm_compute; reflexivity|]. split; [vm_compute; reflexivity|].
  eapply (mail_starts_a_round _ _ [s_told 0; p_notified; s_wake 0]); [exists (waiting ++ [e_arrive]); vm_compute; reflexivity|vm_compute; reflexivity..| |vm_compute; reflexivity|vm_compute; reflexivity].
  vm_compute. lia.
Defined.
Lemma watcher_never_spins_witness :
  ∃ s, play waiting start_watch = Some s ∧ w_pc s = m_select ∧
    count internal waiting ≤ 11 * count (λ ch, negb (internal ch)) waiting + 1 ∧ count internal waiting = 5.
Proof.
  eexists. split; [vm_compute; reflexivity|]. split; [reflexivity|]. split; [|vm_compute; reflexivity].
  eapply (watcher_never_spins waiting). vm_compute. reflexivity.
Defined.
Lemma watcher_stops_witness :
  ∃ s s', play (waiting ++ [e_cancel]) start_watch = Some s ∧
    play [p_cancelled; p_gave_up; p_check] s = Some s' ∧ w_pc s' = m_done ∧
    count of_main [p_cancelled; p_gave_up; p_check] ≤ 10.
Proof.
  eexists _, _. split; [vm_compute; reflexivity|]. split; [vm_compute; reflexivity|]. split; [reflexivity|].
  eapply (watcher_stops _); [exists (waiting ++ [e_cancel]); vm_compute; reflexivity|reflexivity|vm_compute; reflexivity].
Defined.

(** A message that arrives after a round began and before the session has selected the folder starts no
    round: the server has nothing to report. It waits for the ticker. *)
Example arrival_before_SELECT_waits :
  ∃ s, play (take 6 waiting ++ [e_arrive] ++ drop 6 waiting) start_watch = Some s ∧
    w_started s < w_arrived s ∧ reports_left s = 0 ∧ w_pc s = m_select ∧
    (∀ ch, prompt ch = true → advance ch s = None).
Proof.
  eexists. split; [vm_compute; reflexivity|]. split; [cbn; lia|]. split; [reflexivity|]. split; [reflexivity|].
  intros ch Hch. destruct ch; try discriminate Hch; try reflexivity; by destruct i as [|[|i]].
Qed.
(** A connection that breaks in IDLE is not noticed before the ticker or the refresh: the session waits for
    its context and its timer only. *)
Example broken_connection_waits :
  ∃ s, play (waiting ++ [e_drop 0; e_arrive]) start_watch = Some s ∧ w_started s < w_arrived s ∧
    (∀ ch, prompt ch = true → advance ch s = None).
Proof.
  eexists. split; [vm_compute; reflexivity|]. split; [cbn; lia|].
  intros ch Hch. destruct ch; try discriminate Hch; try reflexivity; by destruct i as [|[|i]].
Qed.
(** A tick always starts a round. *)
Example tick_starts_a_round :
  ∃ s, play (waiting ++ [e_drop 0; e_arrive; e_tick; p_tick; p_gave_up; p_check]) start_watch = Some s ∧
    w_pc s = m_syncing ∧ w_started s = w_arrived s.
Proof. eexists. split; [vm_compute; reflexivity|]. by split. Qed.
