(* ===== verification/IndexCmd.v ===== *)
(** * The command that indexes: src/cmd/guerrillad/alias_index.go

    The process reads its file, makes an indexer of it, with a registry of tenants or with the accounts of the file,
    refreshes the registry once, and runs the indexer until a signal. Its logs, and the second signal, which ends it at
    once, are left out. *)
From S2P Require Import Prelude GoStd Shared Config Tenant AliasStore AliasMessage Pop3 AliasIndexer.

Inductive index_error : Type :=
| xe_read (m : bytes)
| xe_json (m : bytes)
| xe_no_backend (path : bytes)
| xe_config (m : bytes)
| xe_registry (e : tenant_error)
| xe_no_accounts
| xe_indexer (m : bytes).

(** What os.ReadFile and json.Unmarshal give; whether the text has a backend_config that is not null. *)
Class IndexFile := {
  index_read : bytes → bytes + bytes;
  index_unmarshal : bytes → AppConfig + bytes;
  has_backend : bytes → bool
}.

Section Command.
Context {U : Unicode} {Q : SQL} {Nm : NetMail} {N : POP3Net} {TD : TenantDecoder}.
Context {Du : Durations} {F : DBFiles} {J : JSONText} {Ca : Calendar} {X : IndexFile}.

Definition loadAppAndBackendConfig (path : bytes) : outcome index_error (AppConfig * BackendConfig) :=
  match index_read path with
  | inr m => Err (xe_read m)
  | inl data =>
      match index_unmarshal data with
      | inr m => Err (xe_json m)
      | inl app => if has_backend data then Ok (app, app_BackendConfig app) else Err (xe_no_backend path)
      end
  end.
Definition loadBackendConfig (path : bytes) : outcome index_error BackendConfig :=
  '(_, backend) ← loadAppAndBackendConfig path; mret backend.

(** With an URL, the accounts of the file are dropped; NewTenantRegistryFromConfig gives no registry for a blank one. *)
Definition with_registry (app : AppConfig) (cfg : AliasIndexerConfig) : outcome index_error AliasIndexerConfig :=
  if bool_decide (reg_URL (TenantRegistry app) ≠ []) then
    registry ← map_error xe_registry (NewTenantRegistryFromConfig (TenantRegistry app));
    mret (mkAliasIndexerConfig (ix_DBPath cfg) [] [] (IMAP cfg) (ix_PollInterval cfg) (ix_PurgeInterval cfg)
      (SkipExistingOnStart cfg) (Since cfg) (StoreCfg cfg) registry)
  else match Accounts cfg, IMAPAccounts cfg with
       | [], [] => Err xe_no_accounts
       | _, _ => mret cfg
       end.
(** The refresh before Run: the registry is shared with the indexer, whose accounts are not copied from it yet. *)
Definition first_refresh (answer : http_answer) (i : AliasIndexer) : AliasIndexer :=
  let cfg := ix_cfg i in
  match Registry cfg with
  | None => i
  | Some r =>
      set_cfg (mkAliasIndexerConfig (ix_DBPath cfg) (Accounts cfg) (IMAPAccounts cfg) (IMAP cfg) (ix_PollInterval cfg)
        (ix_PurgeInterval cfg) (SkipExistingOnStart cfg) (Since cfg) (StoreCfg cfg) (Some (Refresh answer r).2)) i
  end.
Definition new_indexer (path : bytes) (now : nat) : outcome index_error AliasIndexer :=
  '(app, backend) ← loadAppAndBackendConfig path;
  cfg ← map_error xe_config (AliasIndexerConfigFromBackend backend);
  cfg ← with_registry app cfg;
  map_error xe_indexer (NewAliasIndexer cfg now).
(** The error is what the process says before it ends with status 1; otherwise the indexer, closed after a signal, and how its
    Run came to an end. The answers are those of the server of tenants to the first two refreshes. *)
Definition runAliasIndex (path : bytes) (now : nat) (first second : http_answer) (es : list tick_event) :
    outcome index_error (outcome Empty_set unit * AliasIndexer) :=
  i ← new_indexer path now;
  let '(r, i) := Run second es (first_refresh first i) in
  mret (r, if r is Ok _ then Indexer_Close i else i).
End Command.

(** ** Notions used by the statements *)
Definition same_watchers (i i' : AliasIndexer) : Prop := watchers i' = watchers i.

(** * Proofs *)
#[local] Instance same_watchers_pre : PreOrder same_watchers.
Proof. split; [by intros i|]. intros i j k H1 H2. unfold same_watchers in *. congruence. Qed.

Section Proofs.
Context {U : Unicode} {Q : SQL} {Nm : NetMail} {N : POP3Net} {TD : TenantDecoder}.

Lemma pollMailbox_watchers account i : watchers (pollMailbox account i).1.2 = watchers i.
Proof. unfold pollMailbox. by repeat case_match. Qed.
Lemma poll_accounts_watchers accounts : preserves same_watchers (poll_accounts accounts).
Proof.
  induction accounts as [|a l IH]; cbn [poll_accounts]; [apply preserves_ret; apply _|].
  apply preserves_bind; [apply _| |done]. intros i. unfold same_watchers. rewrite <- (pollMailbox_watchers a i).
  by destruct (pollMailbox a i) as [[[] ?] ?].
Qed.
Lemma refresh_registry_watchers answer : preserves same_watchers (refresh_registry answer).
Proof.
  apply preserves_modify. intros i. destruct (Registry (ix_cfg i)) as [r|]; [|done]. destruct (Refresh answer r) as [[e|] r']; done.
Qed.
Lemma run_ticks_watchers es : preserves same_watchers (run_ticks es).
Proof.
  induction es as [|e es IH]; cbn [run_ticks]; [apply preserves_ret; apply _|].
  apply preserves_bind; [apply _| |done]. destruct e; cbn [run_tick].
  - by apply preserves_modify.
  - apply preserves_bind; [apply _|by apply preserves_gets; apply _|]. intros []; [apply refresh_registry_watchers|apply preserves_ret; apply _].
  - apply preserves_bind; [apply _|by apply preserves_gets; apply _|]. intros l. apply poll_accounts_watchers.
Qed.
Lemma Run_watchers first es i : watchers (Run first es i).2 = watchers i ++ currentIMAPAccounts (ix_cfg i).
Proof.
  assert (preserves same_watchers (b ← gets (λ i, has_registry_ticker (ix_cfg i));
    (if (b : bool) then refresh_registry first else mret tt);; pollAll;; run_ticks es)) as H.
  { apply preserves_bind; [apply _|by apply preserves_gets; apply _|]. intros b.
    apply preserves_bind; [apply _|destruct b; [apply refresh_registry_watchers|apply preserves_ret; apply _]|]. intros _.
    apply preserves_bind; [apply _| |intros _; apply run_ticks_watchers].
    apply preserves_bind; [apply _|by apply preserves_gets; apply _|]. intros l. apply poll_accounts_watchers. }
  exact (H (startIMAPWatchers i)).
Qed.
End Proofs.

Section Modes.
Context {U : Unicode} {Q : SQL} {Nm : NetMail} {N : POP3Net} {TD : TenantDecoder}.
Context {Du : Durations} {F : DBFiles} {J : JSONText} {Ca : Calendar} {X : IndexFile}.

Lemma NewAliasIndexer_registry cfg now i r : NewAliasIndexer cfg now = Ok i → Registry cfg = Some r →
  Registry (ix_cfg i) = Some r ∧ Accounts (ix_cfg i) = [] ∧ IMAPAccounts (ix_cfg i) = [] ∧ watchers i = [].
Proof.
  unfold NewAliasIndexer. intros H Hr. rewrite Hr in H. cbn in H. case_bool_decide; [done|].
  destruct (map_error _ _); try done. by injection H as <-.
Qed.
(** With a registry of tenants the accounts of the file are never used; the IMAP accounts that are watched are those
    of the first refresh, for good: when it fails there are none, whatever later refreshes say. *)
Lemma registry_mode path now first second es app backend i : loadAppAndBackendConfig path = Ok (app, backend) →
  TrimSpace (reg_URL (TenantRegistry app)) ≠ [] → new_indexer path now = Ok i →
  ∃ r, NewTenantRegistryFromConfig (TenantRegistry app) = Ok (Some r) ∧ Accounts (ix_cfg i) = [] ∧ IMAPAccounts (ix_cfg i) = [] ∧
    watchers (Run second es (first_refresh first i)).2 = map tagi_Account (reg_IMAPAccounts (Refresh first r).2).
Proof.
  intros Hl Hu H. unfold new_indexer in H. rewrite Hl in H. simpl in H.
  destruct (AliasIndexerConfigFromBackend backend) as [cfg| | |]; try done. simpl in H. unfold with_registry in H.
  rewrite bool_decide_eq_true_2 in H by (by intros E; rewrite E in Hu).
  destruct (NewTenantRegistryFromConfig (TenantRegistry app)) as [reg| | |] eqn:Er; try done. simpl in H.
  assert (∃ r, reg = Some r) as [r ->].
  { unfold NewTenantRegistryFromConfig in Er. rewrite bool_decide_eq_false_2 in Er by done. repeat case_match; simplify_eq; eauto. }
  destruct (NewAliasIndexer _ now) as [i'| | |] eqn:Ei; try done. simpl in H. injection H as ->.
  destruct (NewAliasIndexer_registry _ _ _ r Ei eq_refl) as (Hr & Ha & Hi & Hw).
  exists r. split_and!; [done..|]. rewrite Run_watchers. unfold first_refresh. rewrite Hr. cbn. by rewrite Hw.
Qed.
(** Without an URL the accounts of the file are used, and there must be one. *)
Lemma file_mode app cfg cfg' : reg_URL (TenantRegistry app) = [] → with_registry app cfg = Ok cfg' →
  cfg' = cfg ∧ (Accounts cfg ≠ [] ∨ IMAPAccounts cfg ≠ []).
Proof.
  unfold with_registry. intros ->. rewrite bool_decide_eq_false_2 by auto.
  destruct (Accounts cfg) as [|a l]; [destruct (IMAPAccounts cfg) as [|b l]|]; [done|..]; intros [= <-]; (split; [done|]); auto.
Qed.
(** A blank URL is neither: the accounts of the file are dropped, and there is no registry. *)
Lemma blank_URL_drops_accounts app cfg cfg' : reg_URL (TenantRegistry app) ≠ [] → TrimSpace (reg_URL (TenantRegistry app)) = [] →
  with_registry app cfg = Ok cfg' → ∀ now, NewAliasIndexer cfg' now = Err (bs "at least one alias_index mail account or tenant_registry is required").
Proof.
  unfold with_registry. intros Hu Ht H now. rewrite bool_decide_eq_true_2 in H by done.
  unfold NewTenantRegistryFromConfig in H. rewrite bool_decide_eq_true_2 in H by done. injection H as <-. done.
Qed.
End Modes.
