(* ===== verification/AliasResolve.v ===== *)
(** * Replies under an alias: backends/p_alias_resolve.go

    The processor looks up the thread that a message replies to, and sends the reply with
    the credentials of the tenant that the thread belongs to. *)
From S2P Require Import Prelude GoStd Response Shared Envelope Tenant Backend Processor EmailAddress AliasStore.

Definition aliasReplyAsHeader : bytes := "X-Guerrilla-Reply-As".

Record aliasResolveConfig := mkAliasResolveConfig { ar_FailHard : bool; ar_StoreCfg : AliasStoreConfig }.

(** The database and the registry as the processor finds them at a moment: the indexer
    writes the one, the poller replaces the other. *)
Class AliasWorld := {
  store_at : nat → AliasStore;
  registry_at : nat → option registry
}.

(** [%q] of package fmt. *)
Class Quoting := Quote : bytes → bytes.

(** The variables of the closure: the configuration, and whether the store is there. *)
Record alias_closure := mkAliasClosure { ar_cfg : option aliasResolveConfig; ar_store : bool }.

Section AliasResolve.
Context {U : Unicode} {Q : SQL} {Du : Durations} {WD : WordDecoder} {MR : MIMEReader} {W : AliasWorld} {Qu : Quoting}.

(** ** The initialiser, up to the opening of the store

    The text of a wrapped error is left out. *)
Definition alias_ttl (c : BackendConfig) : outcome bytes Z :=
  match c !! bs "alias_index_ttl" with
  | Some (CString raw) =>
      if bool_decide (TrimSpace raw = []) then Ok defaultAliasIndexTTL
      else match ParseAliasDuration raw with
           | Some d => Ok (if (0 <? d)%Z then d else defaultAliasIndexTTL)
           | None => Err (bs "invalid alias_index_ttl")
           end
  | _ => Ok defaultAliasIndexTTL
  end.
Definition alias_max_rows (c : BackendConfig) : Z :=
  match c !! bs "alias_index_max_rows" with
  | Some (CFloat m x) => if (0 <? int_of_float m x)%Z then int_of_float m x else defaultAliasIndexMaxRows
  | Some (CInt v) => if (0 <? v)%Z then v else defaultAliasIndexMaxRows
  | _ => defaultAliasIndexMaxRows
  end.
Definition alias_config (c : BackendConfig) : outcome bytes aliasResolveConfig :=
  match TrimSpace (string_of c "alias_db_path") with
  | [] => Err (bs "alias_db_path is required when using aliasresolve processor")
  | dbPath =>
      let failHard := match c !! bs "alias_fail_hard" with Some (CBool v) => v | _ => true end in
      match alias_ttl c with
      | Ok ttl => Ok (mkAliasResolveConfig failHard (mkAliasStoreConfig dbPath ttl (alias_max_rows c) 0))
      | Err e => Err e
      | Panic => Panic
      | OutOfFuel => OutOfFuel
      end
  end.

(** ** The headers of a reply *)
Definition headerFirst (e : Envelope) (name : bytes) : bytes :=
  match Envelope.Header e with
  | Some h => match h !! name with Some (v :: _) => TrimSpace v | _ => [] end
  | None => []
  end.
Definition isReplyEnvelope (e : Envelope) : bool :=
  bool_decide (headerFirst e "In-Reply-To" ≠ []) || bool_decide (headerFirst e "References" ≠ []).

(** Each id once, those of In-Reply-To first. *)
Fixpoint add_ids (ids more : list bytes) : list bytes :=
  match more with
  | [] => ids
  | i :: more => if bool_decide (i ∈ ids) then add_ids ids more else add_ids (ids ++ [i]) more
  end.
Definition collectReplyMessageIDs (e : Envelope) : list bytes :=
  add_ids (add_ids [] (parseMessageIDs (headerFirst e "In-Reply-To"))) (parseMessageIDs (headerFirst e "References")).

(** [NewResult(response.Canned.FailBackendTransaction, response.SP, err), err]. *)
Definition transaction_failed (err : bytes) : Work (option Result * option bytes) :=
  mret (Some (NewResult [text Canned.FailBackendTransaction; SP; err]), Some err).

Definition aliasResolveFail (failHard : bool) (err : bytes) (p : Processor) (task : SelectTask)
    : Work (option Result * option bytes) :=
  if failHard then transaction_failed err else p task.

(** A nil header is parsed; the error is ignored. *)
Definition parse_if_needed : Work unit :=
  e ← env id;
  match Envelope.Header e with
  | Some _ => mret tt
  | None =>
      match ParseHeaders e with
      | Ok (_, e') => set_env (λ _, e')
      | Err _ | Panic => panic
      | OutOfFuel => out_of_fuel
      end
  end.
Definition SetHeader (name v : bytes) (e : Envelope) : Envelope :=
  set_Header (Some (<[name := [v]]> (default ∅ (Envelope.Header e)))) (Subject e) e.

(** The credentials of the reply: those of the tenant of the thread, if there is a
    registry; a refusal says whether it is a hard one whatever the configuration. *)
Definition reply_credentials (thread : AliasThread) (t : nat) (e : Envelope)
    : (bool * bytes) + option TenantSendConfig :=
  match registry_at t with
  | None => inr None
  | Some reg =>
      if bool_decide (TrimSpace (at_TenantID thread) = []) then
        inl (false, bs "alias thread missing tenant_id while tenant_registry is configured")
      else
        let other := match GetEnvelopeTenantSend e with
          | Some a => bool_decide (tsc_TenantID a ≠ []) && bool_decide (tsc_TenantID a ≠ at_TenantID thread)
          | None => false
          end in
        if other then
          let authTenantID := match GetEnvelopeTenantSend e with Some a => tsc_TenantID a | None => [] end in
          inl (true, bs "reply-as thread belongs to tenant " ++ Quote (at_TenantID thread) ++
            bs " but authenticated tenant is " ++ Quote authTenantID ++ bs "; refusing to switch send credentials")
        else
          match Get (at_TenantID thread) reg with
          | None => inl (false, bs "tenant " ++ Quote (at_TenantID thread) ++ bs " not found in tenant_registry")
          | Some tenant => inr (TenantSendFromTenant (Some tenant))
          end
  end.

Definition AliasResolve (cl : alias_closure) : Decorator := λ p task,
  match task with
  | TaskValidateRcpt => p task
  | TaskSaveMail =>
      match ar_cfg cl, ar_store cl with
      | Some cfg, true =>
          let refuse hard err := aliasResolveFail (hard || ar_FailHard cfg) err p task in
          parse_if_needed;;
          e ← env id;
          if negb (isReplyEnvelope e) then p task
          else
            match collectReplyMessageIDs e with
            | [] => refuse false (bs "reply message missing parseable In-Reply-To/References Message-ID")
            | messageIDs =>
                t ← tick;
                match fst (LookupAnyThread messageIDs (store_at t)) with
                | Panic => panic
                | OutOfFuel => out_of_fuel
                | Err err => refuse false (store_err_text err)
                | Ok (None, _) =>
                    refuse false (bs "alias not found for In-Reply-To " ++ headerFirst e "In-Reply-To" ++
                      bs "; cannot determine reply-as address (index expired or mail predates alias-index)")
                | Ok (Some thread, matchedID) =>
                    set_env (λ e, set_Values (<[bs "alias_reply_as" := any_string (ReplyAs thread)]> (Values e)) e);;
                    t ← tick;
                    e ← env id;
                    match reply_credentials thread t e with
                    | inl (hard, err) => refuse hard err
                    | inr tenant =>
                        set_env (λ e, SetEnvelopeTenantSend e tenant);;
                        set_env (SetHeader aliasReplyAsHeader (ReplyAs thread));;
                        p task
                    end
                end
            end
      | Some cfg, false => if ar_FailHard cfg then transaction_failed (bs "aliasresolve processor not initialized") else p task
      | None, _ => transaction_failed (bs "aliasresolve processor not initialized")
      end
  end.

(** ** Notions used by the statements *)

(** Each tenant is under its own id, as [applyTenants] makes it. *)
Definition keyed (reg : registry) : Prop := ∀ id tenant, tenants reg !! id = Some tenant → TenantID tenant = id.
(** The tenant that an envelope sends for has not changed. *)
Definition same_tenant (e e' : Envelope) : Prop :=
  ∀ a, GetEnvelopeTenantSend e = Some a → tsc_TenantID a ≠ [] →
    ∃ b, GetEnvelopeTenantSend e' = Some b ∧ (b = a ∨ tsc_TenantID b = TrimSpace (tsc_TenantID a)).
(** What holds when a call of the processor hands on: the tenant is the same, and nothing was sent. *)
Definition keeps_tenant (w w' : work) : Prop := same_tenant (w_env w) (w_env w') ∧ w_done w' = w_done w.
(** The credentials in an envelope are as before, or come from the registry. *)
Definition registered (e e' : Envelope) : Prop :=
  GetEnvelopeTenantSend e' = GetEnvelopeTenantSend e ∨
  ∃ t reg id tenant, registry_at t = Some reg ∧ Get id reg = Some tenant ∧
    GetEnvelopeTenantSend e' = TenantSendFromTenant (Some tenant).
End AliasResolve.

(** *** A small world: two tenants, and a thread of the first *)
Definition test_tenant (id : bytes) : Tenant :=
  mkTenant id "ses" (Some (mkTenantSES "eu" (bs "key of " ++ id) (bs "secret of " ++ id))) None [] [].
Definition test_registry : registry :=
  applyTenants [test_tenant "acme"; test_tenant "globex"] (mkRegistry (mkRegistryConfig "http://r" 0 0 ∅) ∅ [] []).
Definition test_alias_world : AliasWorld := {|
  store_at := λ _, test_store 9 (set_threads {[ bs "a@x" := row_at 900 ]} empty_database);
  registry_at := λ _, Some test_registry |}.
Definition test_reply (tenant : option bytes) : work :=
  let h : header := <[bs "In-Reply-To" := [bs "<a@x>"]]> ∅ in
  let e := mkEnvelope "192.0.2.1" "h" zero_Address [] "" "" false (Some h) ∅ [] [] "q" true in
  mkWork (SetEnvelopeTenantSend e ((λ id, mkTenantSendConfig id "ses" None None) <$> tenant)) 0 [].
(** What the next processor is given: the credentials of the envelope. *)
Definition probe : Processor := λ _,
  e ← env id; mret (Some (MkResult (match GetEnvelopeTenantSend e with Some a => tsc_TenantID a | None => [] end)), None).
Definition soft : alias_closure :=
  mkAliasClosure (Some (mkAliasResolveConfig false (mkAliasStoreConfig "alias.db" 1 1 1))) true.
Definition resolved (tenant : option bytes) : option (bytes * bool) :=
  match @AliasResolve ascii_only (test_sql 99) (λ _, None) (λ _, (None, None)) test_alias_world id soft probe TaskSaveMail (test_reply tenant) with
  | (Ok (Some r, err), _) => Some (result_String r, match err with Some _ => true | None => false end)
  | _ => None
  end.

(** * Proofs *)
Section Proofs.
Context {U : Unicode} {Q : SQL} {Du : Durations} {WD : WordDecoder} {MR : MIMEReader} {W : AliasWorld} {Qu : Quoting}.

Lemma applyTenants_keyed ts r : keyed (applyTenants ts r).
Proof.
  intros id tenant. cbn. assert (∀ m : gmap bytes Tenant, (∀ i t, m !! i = Some t → TenantID t = i) →
    foldl (λ m t, <[TenantID t := t]> m) m ts !! id = Some tenant → TenantID tenant = id) as H.
  { induction ts as [|t ts IH]; intros m Hm; cbn; [apply Hm|]. apply IH. intros i t'.
    rewrite lookup_insert. case_decide; naive_solver. }
  apply H. intros i t. by rewrite lookup_empty.
Qed.

Lemma LookupAnyThread_returns ids : ∀ s, wp (LookupAnyThread ids) (λ _ _, True) (λ _ _, True) s.
Proof.
  assert (Hl : ∀ id s, wp (LookupThread id) (λ _ _, True) (λ _ _, True) s).
  { intros id s. unfold LookupThread, is_open. wp_step. do 2 wp_step. destruct (decide (db s = db_nil)); [done|].
    apply wp_ret. cbn zeta. wp_step; [done|]. wp_step. unfold QueryRow. wp_step. unfold wp at 1, statement.
    destruct (db s) eqn:Hd; [done| |]; [|done]. destruct (sql_fails _); done. }
  induction ids as [|id ids IH]; intros s; cbn [LookupAnyThread]; [done|]. wp_step.
  eapply wp_mono; [apply Hl| |done]. intros [t|] s' _; [done|apply IH].
Qed.
Lemma parse_if_needed_values w :
  parse_if_needed w = (Panic, w) ∨
  ∃ e', parse_if_needed w = (Ok tt, mkWork e' (w_now w) (w_done w)) ∧ same_message (w_env w) e'.
Proof.
  unfold parse_if_needed, env, mbind, M_bind, gets, id. destruct (Envelope.Header (w_env w)).
  - right. exists (w_env w). split; [by destruct w|done].
  - destruct (ParseHeaders_returns (w_env w)) as [[[err e']|] H]; rewrite H; [right|by left].
    exists e'. split; [done|by eapply ParseHeaders_message].
Qed.
Lemma GetEnvelopeTenantSend_values e e' : Values e' = Values e → GetEnvelopeTenantSend e' = GetEnvelopeTenantSend e.
Proof. unfold GetEnvelopeTenantSend. by intros ->. Qed.
Lemma same_tenant_values e e' : Values e' = Values e → same_tenant e e'.
Proof. intros H%GetEnvelopeTenantSend_values a Ha _. exists a. rewrite H. auto. Qed.

Lemma goes_fail hangs (P : work → Prop) task hard err w :
  P w → goes_on_with hangs P task (λ p, aliasResolveFail hard err p task) w.
Proof. intros HP. destruct hard; [by eapply goes_refuse|by apply goes_on]. Qed.

(** The credentials of a reply are those of the authenticated tenant, or the registry's of
    the tenant of the thread. *)
Lemma reply_credentials_tenant thread t e tenant e' :
  (∀ reg, registry_at t = Some reg → keyed reg) →
  reply_credentials thread t e = inr tenant → Values e' = Values (SetEnvelopeTenantSend e tenant) →
  same_tenant e e' ∧ registered e e'.
Proof.
  intros Hk H He'. apply GetEnvelopeTenantSend_values in He'.
  unfold reply_credentials in H. destruct (registry_at t) as [reg|] eqn:Hr.
  - destruct (bool_decide _); [discriminate|]. case_match eqn:Hsame; [discriminate|].
    destruct (Get (at_TenantID thread) reg) as [tn|] eqn:Hg; [|discriminate]. injection H as <-.
    assert (Hn : GetEnvelopeTenantSend e' = TenantSendFromTenant (Some tn)).
    { rewrite He'. unfold GetEnvelopeTenantSend. cbn. by rewrite lookup_insert_eq. }
    split; [|right; by exists t, reg, (at_TenantID thread), tn].
    intros a Ha Hid. rewrite Ha, bool_decide_eq_true_2 in Hsame by done. cbn in Hsame.
    apply bool_decide_eq_false, dec_stable in Hsame.
    eexists. split; [exact Hn|]. right. cbn. rewrite Hsame. by apply (Hk reg).
  - injection H as <-. split; [|by left]. intros a Ha _. exists a. split; [by rewrite He'|by left].
Qed.

Definition kept (w w' : work) : Prop := keeps_tenant w w' ∧ registered (w_env w) (w_env w').
Lemma kept_values w w' : Values (w_env w') = Values (w_env w) → w_done w' = w_done w → kept w w'.
Proof.
  intros Hv Hd. split; [split; [by apply same_tenant_values|done]|]. left. by apply GetEnvelopeTenantSend_values.
Qed.
(** The rest of the processor, once it has found a thread. *)
Lemma AliasResolve_goes cl w :
  (∀ t reg, registry_at t = Some reg → keyed reg) →
  goes_on_with false (kept w) TaskSaveMail (λ p, AliasResolve cl p TaskSaveMail) w.
Proof.
  intros Hk. unfold AliasResolve.
  destruct (ar_cfg cl) as [cfg|]; [destruct (ar_store cl)|].
  2: { destruct (ar_FailHard cfg); [apply goes_refuse|apply goes_on]; by apply kept_values. }
  2: { by apply goes_refuse, kept_values. }
  destruct (parse_if_needed_values w) as [H|(e1&H&Hv&_)]; [by eapply goes_panic, kept_values|].
  eapply goes_bind; [exact H|]. eapply goes_bind; [reflexivity|]. cbn [w_env id].
  destruct (negb (isReplyEnvelope e1)); [by apply goes_on, kept_values|].
  destruct (collectReplyMessageIDs e1) as [|i ids]; [by apply goes_fail, kept_values|].
  eapply goes_bind; [reflexivity|]. cbn [w_env w_now].
  pose proof (LookupAnyThread_returns (i :: ids) (store_at (w_now w))) as Hl. unfold wp in Hl.
  destruct (LookupAnyThread (i :: ids) (store_at (w_now w))) as [[[[thread|] m]|err| |] s']; cbn [fst]; [|try done..].
  2,3: by apply goes_fail, kept_values.
  eapply goes_bind; [reflexivity|]. do 2 (eapply goes_bind; [reflexivity|]). cbn [w_env w_now w_done id].
  set (e2 := set_Values _ e1).
  assert (He2 : GetEnvelopeTenantSend e2 = GetEnvelopeTenantSend (w_env w)).
  { unfold GetEnvelopeTenantSend. cbn. rewrite lookup_insert_ne by done. by rewrite Hv. }
  assert (Hmono : ∀ w', same_tenant e2 (w_env w') → registered e2 (w_env w') → w_done w' = w_done w → kept w w').
  { intros w'. unfold kept, keeps_tenant, same_tenant, registered. by rewrite He2. }
  destruct (reply_credentials thread (S (w_now w)) e2) as [[hard err]|tenant] eqn:Hc.
  - apply goes_fail, Hmono; [by apply same_tenant_values|by left|done].
  - do 2 (eapply goes_bind; [reflexivity|]). apply goes_on. cbn [w_env].
    apply Hmono; [apply (reply_credentials_tenant thread (S (w_now w)) e2 tenant); [apply Hk|done|by destruct tenant]..|done].
Qed.

(** A reply does not leave the tenant of the client that sends it. Whatever
    Message-ID the client puts into its headers and whatever the database and the registry
    hold at the time: when the envelope already carries the credentials of a tenant,
    AliasResolve refuses the message or hands it on with the same
    credentials or with those that the registry has for the same tenant id, and nothing was sent
    yet; also when alias_fail_hard is off. *)
Theorem AliasResolve_keeps_tenant cl w :
  (∀ t reg, registry_at t = Some reg → keyed reg) →
  goes_on_with false (keeps_tenant w) TaskSaveMail (λ p, AliasResolve cl p TaskSaveMail) w.
Proof.
  intros Hk. eapply goes_mono; [|by apply AliasResolve_goes]. by intros w' [? _].
Qed.

End Proofs.

Lemma AliasResolve_keeps_tenant_witness :
  (∀ t reg, @registry_at test_alias_world t = Some reg → keyed reg) ∧
  goes_on_with false (keeps_tenant (test_reply (Some (bs "acme")))) TaskSaveMail
    (λ p, @AliasResolve ascii_only (test_sql 99) (λ _, None) (λ _, (None, None)) test_alias_world id soft p TaskSaveMail)
    (test_reply (Some (bs "acme"))).
Proof.
  assert (Hk : ∀ t reg, @registry_at test_alias_world t = Some reg → keyed reg).
  { intros t reg [= <-]. apply applyTenants_keyed. }
  split; [exact Hk|]. exact (@AliasResolve_keeps_tenant ascii_only (test_sql 99) (λ _, None) (λ _, (None, None)) test_alias_world id soft _ Hk).
Defined.
(** The tenant of the thread may reply, another one is refused; a client without a
    tenant is given the credentials of the tenant of the thread. *)
Example replies_of_three_clients :
  resolved (Some (bs "acme")) = Some (bs "acme", false) ∧
  (snd <$> resolved (Some (bs "globex"))) = Some true ∧
  resolved None = Some (bs "acme", false).
Proof. vm_compute. auto. Qed.
