(* ===== verification/RewriteFrom.v ===== *)
(** * Templates and the From header: backends/p_ses.go (its helpers), p_rewrite_from.go

    The variables of a template come from the envelope; the processor rewritefrom puts the
    address of a template into the From header of the message. *)
From S2P Require Import Prelude GoStd Response Shared Envelope Tenant Backend Processor EmailAddress AliasStore AliasResolve.

(** The order in which [range] lists a map, which differs from time to time. *)
Class MapOrder := range_order : nat → list (bytes * list bytes) → list (bytes * list bytes).

Section Templates.
Context {U : Unicode} {WD : WordDecoder} {MR : MIMEReader} {O : MapOrder}.

(** ** Names of variables

    [strings.Map] turns a character outside ASCII into one underscore where this turns each of its bytes
    into one; the loop that follows leaves one underscore of both. *)
Definition var_char (c : ascii) : ascii := if is_lower c || is_digit c then c else "_"%char.
(** [strings.ReplaceAll(s, "__", "_")], and the loop around it. *)
Fixpoint replace_double (s : bytes) : bytes :=
  match s with
  | c :: ((d :: s) as t) =>
      if bool_decide (c = "_"%char) && bool_decide (d = "_"%char) then "_"%char :: replace_double s
      else c :: replace_double t
  | _ => s
  end.
Fixpoint single_underscores (fuel : nat) (s : bytes) : bytes :=
  match fuel with
  | 0 => s
  | S f => if Contains s "__" then single_underscores f (replace_double s) else s
  end.
Definition headerVarKey (headerName : bytes) : bytes :=
  let s := map var_char (ToLower (TrimSpace headerName)) in
  match Trim (single_underscores (length s) s) "_" with
  | [] => []
  | s => bs "hdr_" ++ s
  end.

(** ** Variables *)
Definition envelope_vars (e : Envelope) : gmap bytes bytes :=
  let vars : gmap bytes bytes := list_to_map [
    (bs "remote_ip", RemoteIP e); (bs "helo", e_Helo e);
    (bs "tls_on", if TLS e then bs "true" else bs "false"); (bs "subject", Subject e);
    (bs "mail_from", Address_String (e_MailFrom e)); (bs "mail_from_user", User (e_MailFrom e));
    (bs "mail_from_host", Host (e_MailFrom e))] in
  let vars := match e_RcptTo e with
    | [] => vars
    | r :: _ => <[bs "rcpt_to" := Address_String r]> (<[bs "rcpt_user" := User r]> (<[bs "rcpt_host" := Host r]> vars))
    end in
  <[bs "rcpt_to_all" :=
    match e_RcptTo e with
    | _ :: _ :: _ => Join (map Address_String (e_RcptTo e)) ","
    | _ => default [] (vars !! bs "rcpt_to")
    end]> vars.
Definition add_header_var (vars : gmap bytes bytes) (kv : bytes * list bytes) : gmap bytes bytes :=
  match headerVarKey kv.1, kv.2 with
  | [], _ | _, [] => vars
  | key, vv => <[key := TrimSpace (Join vv ",")]> vars
  end.
Definition add_alias_var (e : Envelope) (vars : gmap bytes bytes) : gmap bytes bytes :=
  match as_string (Values e !! bs "alias_reply_as") with
  | Some v =>
      match TrimSpace v with
      | [] => vars
      | v =>
          let vars := <[bs "alias_reply_as" := v]> vars in
          if bool_decide (TrimSpace (default [] (vars !! bs "hdr_x_guerrilla_reply_as")) = [])
          then <[bs "hdr_x_guerrilla_reply_as" := v]> vars else vars
      end
  | None => vars
  end.
Definition makeSESVars : Work (gmap bytes bytes) :=
  e ← env id;
  let vars := envelope_vars e in
  parse_if_needed;;
  e ← env id;
  t ← tick;
  let vars := match Envelope.Header e with
    | Some h => foldl add_header_var vars (range_order t (map_to_list h))
    | None => vars
    end in
  mret (add_alias_var e vars).

(** ** Templates

    The matches of [\$\{([a-zA-Z0-9_]+)\}], from the left. *)
Definition word_char (c : ascii) : bool := is_lower c || is_upper c || is_digit c || bool_decide (c = "_"%char).
Fixpoint word_prefix (s : bytes) : bytes * bytes :=
  match s with
  | c :: s' => if word_char c then let '(w, r) := word_prefix s' in (c :: w, r) else ([], s)
  | [] => ([], [])
  end.
(** The name of a variable at the front, and its length with the brackets. *)
Definition variable_at (s : bytes) : option (bytes * nat) :=
  match s with
  | c :: d :: s' =>
      if bool_decide (c = "$"%char) && bool_decide (d = "{"%char) then
        match word_prefix s' with
        | ((_ :: _) as w, x :: _) => if bool_decide (x = "}"%char) then Some (w, length w + 3) else None
        | _ => None
        end
      else None
  | _ => None
  end.
Fixpoint expand (vars : gmap bytes bytes) (s : bytes) (skip : nat) : bytes :=
  match s with
  | [] => []
  | c :: s' =>
      match skip with
      | S k => expand vars s' k
      | 0 =>
          match variable_at s with
          | Some (w, n) => default [] (vars !! w) ++ expand vars s' (n - 1)
          | None => c :: expand vars s' 0
          end
      end
  end.
Definition applySESTemplate (tmpl : bytes) (vars : gmap bytes bytes) : bytes := expand vars tmpl 0.

(** ** rewriteFromHeader *)
Definition is_from (line : bytes) : bool := HasPrefix (ToLower line) "from:".
Definition is_continuation (line : bytes) : bool :=
  match line with c :: _ => bool_decide (c = " "%char) || bool_decide (c = TAB) | [] => false end.

(** The loop over the lines: what it puts out, whether it found a From header, and whether
    one of them differed from the new one. [skip] is set in the loop over continuation lines. *)
Fixpoint rewrite_lines (repl : bytes) (skip : bool) (lines : list bytes) : list bytes * bool * bool :=
  match lines with
  | [] => ([], false, false)
  | line :: lines =>
      if skip && is_continuation line then rewrite_lines repl true lines
      else if is_from line then
        let '(out, _, changed) := rewrite_lines repl true lines in
        (repl :: out, true, negb (bool_decide (line = repl)) || changed)
      else
        let '(out, found, changed) := rewrite_lines repl false lines in (line :: out, found, changed)
  end.
Definition header_end (raw : bytes) : option nat :=
  match Index raw [CR; LF; CR; LF] with Some i => Some i | None => Index raw [LF; LF] end.
Definition newline_of (header : bytes) : bytes := if Contains header [CR; LF] then [CR; LF] else [LF].
Definition rewriteFromHeader (raw newFrom : bytes) : option (bytes * bool) :=
  match header_end raw with
  | None => None
  | Some splitIdx =>
      let header := take splitIdx raw in
      let body := drop splitIdx raw in
      let newline := newline_of header in
      let repl := bs "From: " ++ newFrom in
      let '(out, found, changed) := rewrite_lines repl false (Split header newline) in
      let out := if found then out else repl :: out in
      Some (Join out newline ++ body, negb found || changed)
  end.

(** ** The processor *)
Definition rewriteFromConfig : list field :=
  [mkField "ses_source_tmpl" f_string true; mkField "ociemail_source_tmpl" f_string true].
(** The initialiser: the template. *)
Definition rewrite_source (c : BackendConfig) : outcome bytes bytes :=
  match ExtractConfig c rewriteFromConfig with
  | Ok cfg =>
      match TrimSpace (string_of cfg "ses_source_tmpl"), TrimSpace (string_of cfg "ociemail_source_tmpl") with
      | [], [] => Err (bs "ses_source_tmpl or ociemail_source_tmpl is required")
      | [], t | t, _ => Ok t
      end
  | Err e => Err e
  | Panic => Panic
  | OutOfFuel => OutOfFuel
  end.
(** The message is replaced; the header is parsed again, and keeps the alias. *)
Definition replace_message (rewritten : bytes) : Work unit :=
  e ← env id;
  let preserved := headerFirst e aliasReplyAsHeader in
  set_env (λ e, set_Header None [] (set_Data rewritten e));;
  parse_if_needed;;
  if bool_decide (preserved = []) then mret tt else set_env (SetHeader aliasReplyAsHeader preserved).
Definition RewriteFrom (cfg : option bytes) : Decorator := λ p task,
  match task with
  | TaskValidateRcpt => p task
  | TaskSaveMail =>
      match cfg with
      | None => transaction_failed (bs "rewritefrom processor not initialized")
      | Some tmpl =>
          vars ← makeSESVars;
          match normalizeEmailAddress (TrimSpace (applySESTemplate tmpl vars)) with
          | Ok [] => transaction_failed (bs "ses template produced empty from")
          | Ok newFrom =>
              e ← env id;
              match rewriteFromHeader (Data e) newFrom with
              | None => transaction_failed (bs "header not found")
              | Some (rewritten, changed) =>
                  (if changed : bool then replace_message rewritten else mret tt);;
                  p task
              end
          | Err _ | Panic => panic
          | OutOfFuel => out_of_fuel
          end
      end
  end.

(** ** Specification: a header is a list of fields, a field is a line with its continuation lines *)
Fixpoint header_fields (lines : list bytes) : list (list bytes) :=
  match lines with
  | [] => []
  | line :: lines =>
      match header_fields lines with
      | (x :: f) :: fs => if is_continuation x then (line :: x :: f) :: fs else [line] :: (x :: f) :: fs
      | _ => [[line]]
      end
  end.
Definition from_field (f : list bytes) : bool := match f with line :: _ => is_from line | [] => false end.
Definition new_field (repl : bytes) (f : list bytes) : list bytes := if from_field f then [repl] else f.
(** The lines of the new header: one line for each From field, or for none of them at the top. *)
Definition new_lines (repl : bytes) (fields : list (list bytes)) : list bytes :=
  (if existsb from_field fields then [] else [repl]) ++ concat (map (new_field repl) fields).
(** The first line of a From field is the new one. *)
Definition is_new (repl : bytes) (f : list bytes) : bool :=
  negb (from_field f) || match f with line :: _ => bool_decide (line = repl) | [] => true end.
(** What the loop comes to. *)
Definition rewrites_to (repl : bytes) (fs : list (list bytes)) (r : list bytes * bool * bool) : Prop :=
  r = (concat (map (new_field repl) fs), existsb from_field fs, negb (forallb (is_new repl) fs)).
(** The fields that are left after the continuation lines at the front. *)
Definition after_continuation (fs : list (list bytes)) : list (list bytes) :=
  match fs with (x :: _) :: fs' => if is_continuation x then fs' else fs | _ => fs end.
End Templates.

(** *** A message *)
Definition nl : bytes := [LF].
Definition test_header (lines : list bytes) : bytes := Join lines nl ++ nl ++ nl ++ bs "body".
Definition no_headers : MIMEReader := λ _, (None, None).

(** * Proofs *)
Section Proofs.
Context {U : Unicode}.

Lemma HasPrefix_head (s p : bytes) c : HasPrefix s (c :: p) = true → head s = Some c.
Proof. destruct s as [|d s]; [done|]. cbn. intros [->%bool_decide_eq_true _]%andb_true_iff. done. Qed.
(** The case of a blank does not change. *)
Hypothesis lower_head : ∀ c s, is_ascii c = true → head (uni_lower (c :: s)) = Some (lower c).
Lemma continuation_not_from line : is_continuation line = true → is_from line = false.
Proof.
  intros Hc. destruct (is_from line) eqn:Hf; [|done]. destruct line as [|c s]; [done|].
  unfold is_from, ToLower in Hf. apply HasPrefix_head in Hf.
  assert (Hl : is_ascii c = true ∧ lower c = c ∧ c ≠ "f"%char).
  { cbn in Hc. apply orb_true_iff in Hc as [->%bool_decide_eq_true| ->%bool_decide_eq_true]; vm_compute; done. }
  destruct Hl as (H1&H2&H3). destruct (ascii_text (c :: s)); [cbn in Hf|rewrite lower_head in Hf by done];
    rewrite H2 in Hf; by injection Hf.
Qed.

Lemma header_fields_nonempty lines : Forall (λ f, f ≠ []) (header_fields lines).
Proof.
  induction lines as [|line lines IH]; cbn; [constructor|]. destruct (header_fields lines) as [|[|x f] fs].
  1,2: by repeat constructor.
  destruct (is_continuation x); constructor; try done. by inversion IH.
Qed.
Lemma rewrite_lines_fields repl lines :
  rewrites_to repl (header_fields lines) (rewrite_lines repl false lines) ∧
  rewrites_to repl (after_continuation (header_fields lines)) (rewrite_lines repl true lines).
Proof.
  unfold rewrites_to. induction lines as [|line lines [IH1 IH2]]; [done|]. cbn [rewrite_lines andb].
  assert (Hfalse : rewrite_lines repl false (line :: lines) =
    (concat (map (new_field repl) (header_fields (line :: lines))), existsb from_field (header_fields (line :: lines)),
     negb (forallb (is_new repl) (header_fields (line :: lines))))).
  { cbn [rewrite_lines andb header_fields]. rewrite IH1, IH2. pose proof (header_fields_nonempty lines) as Hn.
    destruct (header_fields lines) as [|[|x f] fs]; [|by inversion Hn|].
    - cbn. unfold is_new, new_field. cbn. by destruct (is_from line), (bool_decide (line = repl)).
    - cbn -[is_from]. destruct (is_continuation x) eqn:Hx.
      + unfold is_new, new_field. cbn -[is_from]. rewrite (continuation_not_from x Hx). cbn -[is_from].
        destruct (is_from line); cbn -[is_from]; [|done]. by destruct (bool_decide (line = repl)).
      + unfold is_new, new_field. cbn -[is_from]. destruct (is_from line); cbn -[is_from]; [|done].
        by destruct (bool_decide (line = repl)). }
  split; [exact Hfalse|].
  assert (Hhead : ∃ f, header_fields (line :: lines) = (line :: f) :: after_continuation (header_fields lines)).
  { cbn. pose proof (header_fields_nonempty lines) as Hn. destruct (header_fields lines) as [|[|x f] fs];
      [by eexists|by inversion Hn|]. cbn. destruct (is_continuation x); by eexists. }
  destruct Hhead as [f Hf]. rewrite Hf in *. cbn [after_continuation]. destruct (is_continuation line) eqn:Hl.
  - exact IH2.
  - rewrite <- Hfalse. reflexivity.
Qed.

(** C25. rewriteFromHeader is a map over the fields of the header. Up to the first empty line
    the message is a list of fields, a line with its continuation lines each; every
    From field, whatever the case of its name, becomes the one line with the new address; if there is
    none, this line is put at the top; the other fields and the body stay as they
    are, byte by byte. The change is not reported when the first line of every From field is already the new one, whether
    or not continuation lines follow. A message without an empty line is an error. *)
Theorem rewriteFromHeader_fields raw newFrom :
  let repl := bs "From: " ++ newFrom in
  rewriteFromHeader raw newFrom =
    (i ← header_end raw;
     let newline := newline_of (take i raw) in
     let fields := header_fields (Split (take i raw) newline) in
     Some (Join (new_lines repl fields) newline ++ drop i raw,
       negb (existsb from_field fields && forallb (is_new repl) fields))).
Proof.
  cbn zeta. unfold rewriteFromHeader. destruct (header_end raw) as [i|]; [|done]. cbn [mbind option_bind].
  destruct (rewrite_lines_fields (bs "From: " ++ newFrom) (Split (take i raw) (newline_of (take i raw)))) as [-> _].
  unfold new_lines. rewrite negb_andb. by destruct (existsb _ _).
Qed.
End Proofs.

Lemma rewriteFromHeader_fields_witness :
  (∀ c s, is_ascii c = true → head (@uni_lower {| uni_lower := map lower; uni_upper := map upper |} (c :: s)) = Some (lower c)) ∧
  @rewriteFromHeader {| uni_lower := map lower; uni_upper := map upper |}
    (test_header [bs "To: x"; bs "FROM: Eve"; bs " <eve@x>"; bs "Subject: y"]) "a@b" =
  Some (test_header [bs "To: x"; bs "From: a@b"; bs "Subject: y"], true).
Proof.
  split; [done|].
  rewrite (@rewriteFromHeader_fields {| uni_lower := map lower; uni_upper := map upper |}) by done.
  vm_compute. reflexivity.
Defined.

(** A From header that begins with the line of the new one is taken for the new one, also when a
    continuation line follows that makes it another address. *)
Example folded_From_survives :
  @rewriteFromHeader ascii_only (test_header [bs "From: a@b"; bs " <ceo@bank.example>"]) "a@b" =
    Some (test_header [bs "From: a@b"], false).
Proof. vm_compute. reflexivity. Qed.
(** The whole processor leaves this message as it is. *)
Example folded_From_is_sent :
  let raw := test_header [bs "From: a@b"; bs " <ceo@bank.example>"] in
  let e := mkEnvelope "" "" zero_Address [] raw "" false None ∅ [] [] "q" true in
  Data (w_env (@RewriteFrom ascii_only (λ _, None) no_headers (λ _ l, l) (Some (bs "A@b")) DefaultProcessor
    TaskSaveMail (mkWork e 0 [])).2) = raw.
Proof. vm_compute. reflexivity. Qed.
Example templates :
  applySESTemplate "${rcpt_user}+${hdr_x_id}@${nothing}$${helo}" {[ bs "rcpt_user" := bs "joe"; bs "hdr_x_id" := bs "7"; bs "helo" := bs "h" ]} =
    bs "joe+7@$h" ∧
  @headerVarKey ascii_only " X-Original--To:" = bs "hdr_x_original_to".
Proof. vm_compute. auto. Qed.
(** With a CR LF somewhere in a header of bare line feeds, the From line is not a line, and stays
    beside the new one. *)
Example mixed_line_ends_keep_From :
  let raw := bs "To: x" ++ nl ++ bs "From: eve@x" ++ nl ++ bs "X: a" ++ [CR; LF] ++ bs "Y: b" ++ [CR; LF; CR; LF] in
  @rewriteFromHeader ascii_only raw "a@b" = Some (bs "From: a@b" ++ [CR; LF] ++ raw, true).
Proof. vm_compute. reflexivity. Qed.
