(* ===== verification/Outbound.v ===== *)
(** * Sending mail on: the processors of backends/p_ses.go and p_ociemail.go

    Both expand their templates, choose the credentials (those of the tenant in the envelope,
    or their own when there is no tenant registry) and hand the message to a service: Amazon's by one call of
    its client, Oracle's by an SMTP dialogue. What the services answer, and the cache of clients, which other
    goroutines fill as well, are found at a moment; what is done is recorded in order. *)
From S2P Require Import Prelude GoStd Response Shared Envelope Tenant Backend Processor EmailAddress AliasStore AliasResolve RewriteFrom.

(** Errors are [Some] text. [session_at] is what [session.NewSession] returns, [ctx_ended] whether the
    context has ended when a wait begins. *)
Class MailServices := {
  senders_at : nat → senderCache;
  session_at : nat → option bytes;
  ses_answer : nat → option bytes;
  smtp_answer : nat → option bytes;
  ctx_ended : nat → option bytes
}.

Record sesConfig := mkSesConfig {
  sesc_Region : bytes; sesc_Timeout : bytes; sesc_FailHard : bool; sesc_SourceTmpl : bytes; sesc_ToTmpl : bytes;
  sesc_IncludeDeliveryHeader : bool; sesc_MaxBytes : Z; sesc_AccessKeyID : bytes; sesc_SecretAccessKey : bytes
}.

Section Outbound.
Context {U : Unicode} {Du : Durations} {Sh : SHA256} {WD : WordDecoder} {MR : MIMEReader} {O : MapOrder}
  {Qu : Quoting} {MS : MailServices}.

(** ** The SMTP client of ociemail

    [net.JoinHostPort] puts brackets around a host with a colon. *)
Definition JoinHostPort (host port : bytes) : bytes :=
  if bool_decide (":"%char ∈ host) then bs "[" ++ host ++ bs "]:" ++ port else host ++ bs ":" ++ port.
Definition smtp_do (op : smtp_op) : Work (option bytes) := emit (fx_smtp op);; t ← tick; mret (smtp_answer t).
(** The steps up to the first that fails; data that cannot be written are ended all the same. *)
Fixpoint smtp_dialogue (ops : list smtp_op) : Work (option bytes) :=
  match ops with
  | [] => mret None
  | op :: ops =>
      r ← smtp_do op;
      match r, op with
      | None, _ => smtp_dialogue ops
      | Some err, op_write _ => smtp_do op_end_data;; mret (Some err)
      | Some err, _ => mret (Some err)
      end
  end.
Definition smtp_steps (cfg : ociemailConfig) (host from : bytes) (to : list bytes) (raw : bytes) : list smtp_op :=
  let tls := (oc_Port cfg =? 465)%Z in
  [op_dial (JoinHostPort host (Itoa (oc_Port cfg))) tls; op_greeting host] ++
  (if tls then [] else [op_starttls host]) ++
  [op_auth (TrimSpace (oc_Username cfg)) (oc_Password cfg) host; op_mail from] ++
  map op_rcpt to ++ [op_data; op_write raw; op_end_data; op_quit].
Definition sendOCIEmailSMTP (cfg : ociemailConfig) (host from : bytes) (to : list bytes) (raw : bytes) : Work (option bytes) :=
  smtp_dialogue (smtp_steps cfg host from to raw).
Definition isOCIAuthFailure (err : bytes) : bool := Contains (ToLower err) "535".

(** The loop over the attempts; [attempts] of them are left. *)
Fixpoint send_attempts (attempts : nat) (send : Work (option bytes)) : Work (option bytes) :=
  match attempts with
  | 0 => mret None
  | S remaining =>
      err ← send;
      match err with
      | None => mret None
      | Some e =>
          if negb (isOCIAuthFailure e) || (remaining =? 0) then mret (Some e)
          else
            t ← tick;
            match ctx_ended t with
            | Some ended => mret (Some ended)
            | None => send_attempts remaining send
            end
      end
  end.
Definition smtpOCIEmailSender_Send (cfg : ociemailConfig) (host from : bytes) (to : list bytes) (raw : bytes) : Work (option bytes) :=
  send_attempts 3 (sendOCIEmailSMTP cfg host from to raw).

(** ** Handing a message to a service *)
Definition perform (w : wire) : Work (option bytes) :=
  match w with
  | WireSES client source dests raw => emit (fx_ses client source dests raw);; t ← tick; mret (ses_answer t)
  | WireOCI _ cfg host from to raw => smtpOCIEmailSender_Send cfg host from to raw
  end.
Definition tenant_err_text (session : option bytes) (tenant : TenantSendConfig) (err : tenant_error) : bytes :=
  match err with
  | te_nil => bs "tenant send config is nil"
  | te_not_ses => bs "tenant " ++ tsc_TenantID tenant ++ bs " provider " ++ Quote (tsc_Provider tenant) ++ bs " is not ses"
  | te_not_oci => bs "tenant " ++ tsc_TenantID tenant ++ bs " provider " ++ Quote (tsc_Provider tenant) ++ bs " is not oci"
  | te_ses_missing id => bs "tenant " ++ id ++ bs ": ses config missing"
  | te_oci_missing id => bs "tenant " ++ id ++ bs ": ociemail config missing"
  | te_no_host => bs "ociemail_host or ociemail_region is required"
  | te_session => default [] session
  | te_send m => m
  | _ => []
  end.
(** SendViaTenantSES and SendViaTenantOCI of Tenant.v find the client and stop at its call, which [perform]
    makes; the cache is left as they leave it. *)
Definition via_tenant (send : Remote → bool → senderCache → outcome tenant_error unit * list wire * senderCache)
    (tenant : TenantSendConfig) : Work (option bytes) :=
  t ← tick;
  let '(r, wires, c) := send (λ _, None) (bool_decide (session_at t = None)) (senders_at t) in
  emit (fx_senders c);;
  match r, wires with
  | Ok _, w :: _ => perform w
  | Ok _, [] => mret None
  | Err err, _ => mret (Some (tenant_err_text (session_at t) tenant err))
  | Panic, _ => panic
  | OutOfFuel, _ => out_of_fuel
  end.
Definition send_tenant_ses (tenant : TenantSendConfig) (timeout source : bytes) (dests : list bytes) (raw : bytes) : Work (option bytes) :=
  via_tenant (λ R ok c, @SendViaTenantSES _ _ R ok (Some tenant) (Some timeout) source dests raw c) tenant.
Definition send_tenant_oci (tenant : TenantSendConfig) (source : bytes) (dests : list bytes) (raw : bytes) : Work (option bytes) :=
  via_tenant (λ R _ c, @SendViaTenantOCI _ R (Some tenant) source dests raw c) tenant.

Definition buildRawMessage (e : Envelope) (includeDeliveryHeader : bool) : bytes :=
  if includeDeliveryHeader then NewReader e else Data e.

(** ** ses *)
Definition sesConfig_fields : list field :=
  [mkField "ses_region" f_string true; mkField "ses_timeout" f_string true; mkField "ses_fail_hard" f_bool true;
   mkField "ses_source_tmpl" f_string false; mkField "ses_to_tmpl" f_string false;
   mkField "ses_include_delivery_header" f_bool true; mkField "ses_max_bytes" f_int true;
   mkField "ses_access_key_id" f_string true; mkField "ses_secret_access_key" f_string true].
Definition sesConfig_of (m : BackendConfig) : sesConfig :=
  mkSesConfig (string_of m "ses_region") (string_of m "ses_timeout") (bool_of m "ses_fail_hard")
    (string_of m "ses_source_tmpl") (string_of m "ses_to_tmpl") (bool_of m "ses_include_delivery_header")
    (if (int_of m "ses_max_bytes" <=? 0)%Z then 10 * 1024 * 1024 else int_of m "ses_max_bytes")%Z
    (string_of m "ses_access_key_id") (string_of m "ses_secret_access_key").

(** The variables of the closure: the configuration and the client of the sender, if there is one. *)
Record sesSender := mkSesSender { sess_cfg : sesConfig; sess_client : option sesClient }.
Record ses_closure := mkSesClosure { ses_tenantOnly : bool; ses_sender : option sesSender }.
Definition no_ses : ses_closure := mkSesClosure false None.

(** The initialiser; [registry] says whether there is a global tenant registry, [session] is the error of
    [session.NewSession]. *)
Definition ses_own_client (cfg : sesConfig) (timeout : Z) : sesClient :=
  mkSesClient (sesc_Region cfg)
    (if bool_decide (sesc_AccessKeyID cfg ≠ []) || bool_decide (sesc_SecretAccessKey cfg ≠ [])
     then Some (TrimSpace (sesc_AccessKeyID cfg), TrimSpace (sesc_SecretAccessKey cfg)) else None) timeout.
Definition required (v : bytes) (name : string) : outcome bytes unit :=
  if bool_decide (TrimSpace v = []) then Err (bs name ++ bs " is required") else Ok tt.
Definition SES_init (registry : bool) (session : option bytes) (backendConfig : BackendConfig) (cl : ses_closure) :
    outcome bytes ses_closure :=
  m ← ExtractConfig backendConfig sesConfig_fields;
  let cfg := sesConfig_of m in
  timeout ← (match TrimSpace (sesc_Timeout cfg) with
    | [] => Ok (10 * second)%Z
    | t => match parse_duration t with Some d => Ok d | None => Err (bs "invalid ses_timeout") end
    end);
  if registry : bool then
    required (sesc_SourceTmpl cfg) "ses_source_tmpl";;
    required (sesc_ToTmpl cfg) "ses_to_tmpl";;
    mret (mkSesClosure true (Some (mkSesSender cfg None)))
  else if bool_decide (TrimSpace (string_of backendConfig "ses_region") = []) then mret cl
  else
    required (sesc_SourceTmpl cfg) "ses_source_tmpl";;
    required (sesc_ToTmpl cfg) "ses_to_tmpl";;
    match session with
    | Some err => Err err
    | None => mret (mkSesClosure (ses_tenantOnly cl) (Some (mkSesSender cfg (Some (ses_own_client cfg timeout)))))
    end.

(** Why the envelope's tenant cannot be used: it is missing, or has another provider. *)
Definition tenant_mismatch (processor : bytes) (provider : bytes) (tenantOnly : bool) (tenant : option TenantSendConfig) : option bytes :=
  match tenant with
  | None => if tenantOnly then Some (bs "tenant_registry is configured; tenant send credentials are required") else None
  | Some t =>
      if bool_decide (tsc_Provider t = provider) then None
      else Some (bs "tenant " ++ tsc_TenantID t ++ bs " provider " ++ Quote (tsc_Provider t) ++ bs " does not match " ++ processor ++ bs " processor")
  end.
Definition too_large (name : bytes) (raw : bytes) (maxBytes : Z) : bytes :=
  name ++ bs " raw message too large: " ++ Itoa (Z.of_nat (length raw)) ++ bs " bytes > " ++ Itoa maxBytes.

Definition SES (cl : ses_closure) : Decorator := λ p task,
  match task with
  | TaskValidateRcpt => p task
  | TaskSaveMail =>
      match ses_sender cl with
      | None => transaction_failed (bs "ses processor not initialized")
      | Some sender =>
          let activeCfg := sess_cfg sender in
          let refuse err := aliasResolveFail (sesc_FailHard activeCfg) err p task in
          if negb (ses_tenantOnly cl) && bool_decide (sess_client sender = None)
          then refuse (bs "ses processor not initialized")
          else
            vars ← makeSESVars;
            e ← env id;
            let tenant := GetEnvelopeTenantSend e in
            match tenant_mismatch "SES" "ses" (ses_tenantOnly cl) tenant with
            | Some err => refuse err
            | None =>
                match normalizeEmailAddress (TrimSpace (applySESTemplate (sesc_SourceTmpl activeCfg) vars)) with
                | Ok source =>
                    let dests := splitAddresses (applySESTemplate (sesc_ToTmpl activeCfg) vars) in
                    let raw := buildRawMessage e (sesc_IncludeDeliveryHeader activeCfg) in
                    if bool_decide (source = []) || bool_decide (dests = [])
                    then refuse (bs "ses template produced empty source or destinations")
                    else if (sesc_MaxBytes activeCfg <? Z.of_nat (length raw))%Z
                    then refuse (too_large "ses" raw (sesc_MaxBytes activeCfg))
                    else
                      err ← (match tenant, sess_client sender with
                        | Some t, _ => send_tenant_ses t (sesc_Timeout activeCfg) source dests raw
                        | None, Some client => perform (WireSES client source dests raw)
                        | None, None => panic
                        end);
                      match err with
                      | Some err => refuse err
                      | None => p task
                      end
                | Err _ | Panic => panic
                | OutOfFuel => out_of_fuel
                end
            end
      end
  end.

(** ** ociemail *)
Definition ociemailConfig_fields : list field :=
  [mkField "ociemail_host" f_string true; mkField "ociemail_region" f_string true; mkField "ociemail_port" f_int true;
   mkField "ociemail_username" f_string true; mkField "ociemail_password" f_string true;
   mkField "ociemail_timeout" f_string true; mkField "ociemail_fail_hard" f_bool true;
   mkField "ociemail_source_tmpl" f_string false; mkField "ociemail_to_tmpl" f_string false;
   mkField "ociemail_include_delivery_header" f_bool true; mkField "ociemail_max_bytes" f_int true].
Definition ociemailConfig_of (m : BackendConfig) : ociemailConfig :=
  mkOciemailConfig (string_of m "ociemail_host") (string_of m "ociemail_region") (int_of m "ociemail_port")
    (string_of m "ociemail_username") (string_of m "ociemail_password") (string_of m "ociemail_timeout")
    (bool_of m "ociemail_fail_hard") (string_of m "ociemail_source_tmpl") (string_of m "ociemail_to_tmpl")
    (bool_of m "ociemail_include_delivery_header") (int_of m "ociemail_max_bytes").
Definition applyOCIEmailConfigDefaults (c : ociemailConfig) : ociemailConfig :=
  mkOciemailConfig (oc_Host c) (oc_Region c) (if (oc_Port c <=? 0)%Z then defaultOCIEmailPort else oc_Port c)
    (oc_Username c) (oc_Password c) (oc_Timeout c) (oc_FailHard c) (oc_SourceTmpl c) (oc_ToTmpl c)
    (oc_IncludeDeliveryHeader c) (if (oc_MaxBytes c <=? 0)%Z then defaultOCIEmailMaxBytes else oc_MaxBytes c).
Definition validateOCIEmailTimeout (cfg : ociemailConfig) : outcome bytes unit :=
  match TrimSpace (oc_Timeout cfg) with
  | [] => Ok tt
  | t => match parse_duration t with Some _ => Ok tt | None => Err (bs "invalid ociemail_timeout") end
  end.
Definition resolve_text (r : outcome tenant_error bytes) : outcome bytes bytes :=
  map_error (λ _, bs "ociemail_host or ociemail_region is required") r.

(** The client of the sender is its configuration. *)
Record ociemailSender := mkOciemailSender { ocs_cfg : ociemailConfig; ocs_client : bool }.
Record oci_closure := mkOciClosure { oci_tenantOnly : bool; oci_sender : option ociemailSender }.
Definition no_oci : oci_closure := mkOciClosure false None.
Definition OCIEmail_init (registry : bool) (backendConfig : BackendConfig) (cl : oci_closure) : outcome bytes oci_closure :=
  m ← ExtractConfig backendConfig ociemailConfig_fields;
  let cfg := applyOCIEmailConfigDefaults (ociemailConfig_of m) in
  if registry : bool then
    required (oc_SourceTmpl cfg) "ociemail_source_tmpl";;
    required (oc_ToTmpl cfg) "ociemail_to_tmpl";;
    validateOCIEmailTimeout cfg;;
    mret (mkOciClosure true (Some (mkOciemailSender cfg false)))
  else
    let given name := negb (bool_decide (TrimSpace (string_of backendConfig name) = [])) in
    if negb (given "ociemail_username") && negb (given "ociemail_region") && negb (given "ociemail_host") then mret cl
    else
      resolve_text (resolveOCIEmailHost cfg);;
      required (oc_Username cfg) "ociemail_username";;
      required (oc_Password cfg) "ociemail_password";;
      required (oc_SourceTmpl cfg) "ociemail_source_tmpl";;
      required (oc_ToTmpl cfg) "ociemail_to_tmpl";;
      validateOCIEmailTimeout cfg;;
      mret (mkOciClosure (oci_tenantOnly cl) (Some (mkOciemailSender cfg true))).

Definition OCIEmail (cl : oci_closure) : Decorator := λ p task,
  match task with
  | TaskValidateRcpt => p task
  | TaskSaveMail =>
      match oci_sender cl with
      | None => transaction_failed (bs "ociemail processor not initialized")
      | Some sender =>
          let activeCfg := ocs_cfg sender in
          let refuse err := aliasResolveFail (oc_FailHard activeCfg) err p task in
          if negb (oci_tenantOnly cl) && negb (ocs_client sender)
          then refuse (bs "ociemail processor not initialized")
          else
            vars ← makeSESVars;
            e ← env id;
            let tenant := GetEnvelopeTenantSend e in
            match tenant_mismatch "OCIEmail" "oci" (oci_tenantOnly cl) tenant with
            | Some err => refuse err
            | None =>
                match normalizeEmailAddress (TrimSpace (applySESTemplate (oc_SourceTmpl activeCfg) vars)) with
                | Ok source =>
                    let dests := splitAddresses (applySESTemplate (oc_ToTmpl activeCfg) vars) in
                    let raw := buildRawMessage e (oc_IncludeDeliveryHeader activeCfg) in
                    if bool_decide (source = []) || bool_decide (dests = [])
                    then refuse (bs "ociemail template produced empty source or destinations")
                    else if (oc_MaxBytes activeCfg <? Z.of_nat (length raw))%Z
                    then refuse (too_large "ociemail" raw (oc_MaxBytes activeCfg))
                    else
                      err ← (match tenant with
                        | Some t => send_tenant_oci t source dests raw
                        | None =>
                            match resolve_text (resolveOCIEmailHost activeCfg) with
                            | Ok host => perform (WireOCI activeCfg activeCfg host source dests raw)
                            | Err herr => mret (Some herr)
                            | _ => panic
                            end
                        end);
                      match err with
                      | Some err => refuse err
                      | None => p task
                      end
                | Err _ | Panic => panic
                | OutOfFuel => out_of_fuel
                end
            end
      end
  end.

(** ** Notions used by the statements *)

(** What is done for a message of a tenant: a client of Amazon is handed the
    message, which was made for a configuration in use that has the tenant's cache key, and so has the tenant's credentials
    unless keys collide; a step of a dialogue with the tenant's host and credentials is taken; or the cache of
    clients is left with a client that was made for one of the configurations in use. *)
Definition message_of (e : Envelope) (raw : bytes) : Prop := raw = NewReader e ∨ raw = Data e.
Definition sent_for (used : list TenantSendConfig) (e : Envelope) (x : effect) : Prop :=
  match x with
  | fx_ses client source dests raw => ∃ a, GetEnvelopeTenantSend e = Some a ∧ tsc_Provider a = bs "ses" ∧
      wire_keyed used a (WireSES client source dests raw) ∧
      (collision_free used → Forall key_ok used → wire_of a (WireSES client source dests raw)) ∧
      dests ≠ [] ∧ message_of e raw
  | fx_smtp op => ∃ a cfg host from to raw, GetEnvelopeTenantSend e = Some a ∧ tsc_Provider a = bs "oci" ∧
      tenantOCIConfig a = Ok cfg ∧ op ∈ smtp_steps cfg host from to raw ∧ to ≠ [] ∧ message_of e raw
  | fx_senders c => cache_ok used c
  | _ => False
  end.
(** What was done from one state to another, for the tenant of an envelope that is the same up to its parsed headers. *)
Definition sent_only (used : list TenantSendConfig) (w w' : work) : Prop :=
  same_message (w_env w) (w_env w') ∧ did (sent_for used (w_env w)) w w'.
(** One try of a dialogue: the steps that were taken, and nil or the error of the last of them; data that could
    not be written are ended. *)
Definition dialogue_run (steps ops : list smtp_op) (res : option bytes) : Prop :=
  match res with
  | None => ops = steps
  | Some _ => ∃ before op after, steps = before ++ op :: after ∧
      (ops = before ++ [op] ∨ ∃ raw, op = op_write raw ∧ ops = before ++ [op; op_end_data])
  end.
(** Tries that follow one another: all but the last failed with an error that mentions 535. *)
Fixpoint tries_of (steps : list smtp_op) (tries : list (list smtp_op * option bytes)) (r : option bytes) : Prop :=
  match tries with
  | [] => False
  | [(ops, res)] => dialogue_run steps ops res ∧ (r = res ∨ ∃ e t, res = Some e ∧ isOCIAuthFailure e = true ∧ r = ctx_ended t ∧ r ≠ None)
  | (ops, res) :: tries => dialogue_run steps ops res ∧ (∃ e, res = Some e ∧ isOCIAuthFailure e = true) ∧ tries_of steps tries r
  end.
(** The caches that the processors find hold clients that were made for the configurations in use, each under its key,
    which is also what they leave. *)
Definition senders_ok (used : list TenantSendConfig) : Prop := ∀ t, cache_ok used (senders_at t).
End Outbound.

(** *** A mail of a tenant, and services that accept everything *)
Definition test_services (smtp : nat → option bytes) : MailServices := {|
  senders_at := λ _, mkSenderCache ∅ ∅; session_at := λ _, None; ses_answer := λ _, None;
  smtp_answer := smtp; ctx_ended := λ _, None |}.
Definition test_used : list TenantSendConfig :=
  omap (λ id, TenantSendFromTenant (Some (test_tenant id))) [bs "acme"; bs "globex"].
Definition test_outgoing (tenant : option bytes) : work :=
  let a u h := mkAddress u h [] [] false false None [] false in
  let e := mkEnvelope "192.0.2.1" "h" (a "joe" "a.example") [a "x" "y.org"] "hi" "" false (Some ∅) ∅ [] [] "q" true in
  mkWork (SetEnvelopeTenantSend e (tenant ≫= λ id, TenantSendFromTenant (Some (test_tenant id)))) 0 [].
Definition test_ses_config : BackendConfig :=
  <[bs "ses_source_tmpl" := CString "${mail_from}"]> (<[bs "ses_to_tmpl" := CString "${rcpt_to}"]> ∅).
Definition test_ses_closure : ses_closure :=
  mkSesClosure true (Some (mkSesSender (mkSesConfig [] [] false "${mail_from}" "${rcpt_to}" false (10 * 1024 * 1024) [] []) None)).
Definition test_ses (cl : ses_closure) : Decorator :=
  @SES ascii_only (λ _, None) id (λ _, None) (λ _, (None, None)) (λ _ l, l) id (test_services (λ _, None)) cl.

(** * Proofs *)
Section Proofs.
Context {U : Unicode} {Du : Durations} {Sh : SHA256} {WD : WordDecoder} {MR : MIMEReader} {O : MapOrder}
  {Qu : Quoting} {MS : MailServices}.

(** ** What is done *)
Lemma smtp_do_emits F op : F (fx_smtp op) → preserves (emits F) (smtp_do op).
Proof. intros H. unfold smtp_do. preserved. Qed.
#[local] Hint Resolve smtp_do_emits : preserves.
Lemma smtp_dialogue_emits (F : effect → Prop) ops :
  (∀ op, op ∈ ops → F (fx_smtp op)) → F (fx_smtp op_end_data) → preserves (emits F) (smtp_dialogue ops).
Proof.
  intros H Hend. induction ops as [|op ops IH]; [apply preserves_ret, _|].
  cbn. apply preserves_bind; [apply _|apply smtp_do_emits, H; left|].
  intros [err|]; [destruct op; preserved|]. apply IH. intros op' ?. apply H. by right.
Qed.
Lemma send_attempts_emits F n send : preserves (emits F) send → preserves (emits F) (send_attempts n send).
Proof. intros H. induction n; cbn; [apply preserves_ret, _|]. preserved. Qed.
Lemma end_data_step cfg host from to raw : op_end_data ∈ smtp_steps cfg host from to raw.
Proof. unfold smtp_steps. rewrite !elem_of_app, !elem_of_cons. tauto. Qed.
Lemma perform_emits F w :
  match w with
  | WireSES client source dests raw => F (fx_ses client source dests raw)
  | WireOCI _ cfg host from to raw => ∀ op, op ∈ smtp_steps cfg host from to raw → F (fx_smtp op)
  end → preserves (emits F) (perform w).
Proof.
  intros H. destruct w; unfold perform, smtpOCIEmailSender_Send, sendOCIEmailSMTP; [preserved|]. apply send_attempts_emits, smtp_dialogue_emits; [done|apply H, end_data_step].
Qed.

(** ** Trying again *)
Lemma smtp_do_run op w :
  smtp_do op w = (Ok (smtp_answer (w_now w)), mkWork (w_env w) (S (w_now w)) (w_done w ++ [fx_smtp op])).
Proof. done. Qed.
Lemma smtp_dialogue_run steps w :
  ∃ ops res w', smtp_dialogue steps w = (Ok res, w') ∧ w_env w' = w_env w ∧
    w_done w' = w_done w ++ map fx_smtp ops ∧ dialogue_run steps ops res.
Proof.
  revert w. induction steps as [|op steps IH]; intros w.
  { exists [], None, w. cbn. by rewrite app_nil_r. }
  cbn [smtp_dialogue]. unfold mbind at 1, M_bind at 1. rewrite smtp_do_run.
  destruct (smtp_answer (w_now w)) as [err|].
  - destruct op as [| | | | | | |raw| |].
    8: { exists [op_write raw; op_end_data], (Some err). eexists. split_and!; [reflexivity|done|cbn; by rewrite <- app_assoc|].
         exists [], (op_write raw), steps. split; [done|]. right. by exists raw. }
    all: eexists [_], (Some err), _; split_and!; [reflexivity..|].
    all: eexists [], _, steps; split; [reflexivity|by left].
  - cbn. destruct (IH (mkWork (w_env w) (S (w_now w)) (w_done w ++ [fx_smtp op]))) as (ops&res&w'&E&He&Hd&Hr).
    exists (op :: ops), res, w'. split_and!; [exact E|done|rewrite Hd; cbn; by rewrite <- app_assoc|].
    destruct res as [e|]; [|by rewrite Hr]. destruct Hr as (b&o&a&->&Ho). exists (op :: b), o, a. split; [done|].
    destruct Ho as [->|(raw&->&->)]; [by left|right; by exists raw].
Qed.
Lemma send_attempts_tries steps n w :
  ∃ tries r w', send_attempts (S n) (smtp_dialogue steps) w = (Ok r, w') ∧ w_env w' = w_env w ∧
    w_done w' = w_done w ++ map fx_smtp (concat (map fst tries)) ∧ length tries ≤ S n ∧ tries_of steps tries r.
Proof.
  revert w. induction n as [|n IH]; intros w;
    destruct (smtp_dialogue_run steps w) as (ops&res&w1&E&He&Hd&Hr); cbn; unfold mbind at 1, M_bind at 1; rewrite E.
  - exists [(ops, res)]. destruct res as [e|]; [rewrite orb_true_r|]; eexists _, _; (split; [reflexivity|]);
      cbn; rewrite app_nil_r; split_and!; auto.
  - destruct res as [e|]; [|exists [(ops, None)]; eexists _, _; (split; [reflexivity|]); cbn; rewrite app_nil_r; split_and!; auto with lia].
    cbn. destruct (isOCIAuthFailure e) eqn:Hf; cbn;
      [|exists [(ops, Some e)]; eexists _, _; (split; [reflexivity|]); cbn; rewrite app_nil_r; split_and!; auto with lia].
    unfold tick, mbind, M_bind. destruct (ctx_ended (w_now w1)) as [x|] eqn:Hx.
    + exists [(ops, Some e)]; eexists _, _; (split; [reflexivity|]); cbn. rewrite app_nil_r. split_and!; [done..|lia|done|].
      right. exists e, (w_now w1). by rewrite Hx.
    + destruct (IH (mkWork (w_env w1) (S (w_now w1)) (w_done w1))) as (tries&r&w2&E2&He2&Hd2&Hl&Ht).
      exists ((ops, Some e) :: tries), r, w2. cbn in *. split_and!; [done|congruence| |lia|].
      * rewrite Hd2, Hd, map_app, <- app_assoc. done.
      * destruct tries; [done|]. split_and!; [done|by exists e|done].
Qed.

(** ** Sending for a tenant *)
Section Tenants.
Context (used : list TenantSendConfig) (Hused : senders_ok used).

Lemma SendViaTenantSES_inv (R : Remote) ok t timeout source dests raw c r ws c' :
  SendViaTenantSES ok (Some t) timeout source dests raw c = (r, ws, c') →
  (∀ w, w ∈ ws → tsc_Provider t = bs "ses" ∧ ∃ client, w = WireSES client source dests raw) ∧
  match r with Ok _ | Err _ => True | _ => False end.
Proof.
  unfold SendViaTenantSES. case_bool_decide as Hp; [intros [= <- <- <-]; split; [by intros ? ?%not_elem_of_nil|done]|].
  unfold tenantSESClient, send_on.
  repeat (case_match; simplify_eq); intros [= <- <- <-]; (split; [intros w Hw|done]);
    first [by apply not_elem_of_nil in Hw | apply list_elem_of_singleton in Hw as ->; eauto].
Qed.
Lemma SendViaTenantOCI_inv (R : Remote) t source dests raw c r ws c' :
  SendViaTenantOCI (Some t) source dests raw c = (r, ws, c') →
  (∀ w, w ∈ ws → tsc_Provider t = bs "oci" ∧ ∃ client cfg host, w = WireOCI client cfg host source dests raw) ∧
  match r with Ok _ | Err _ => True | _ => False end.
Proof.
  unfold SendViaTenantOCI. case_bool_decide as Hp; [intros [= <- <- <-]; split; [by intros ? ?%not_elem_of_nil|done]|].
  unfold tenantOCIClient, tenantOCIConfig, resolveOCIEmailHost, send_on.
  repeat (case_match; simplify_eq); intros [= <- <- <-]; (split; [intros w Hw|done]);
    first [by apply not_elem_of_nil in Hw | apply list_elem_of_singleton in Hw as ->; eauto 6].
Qed.

(** A send keeps the cache in order, and what leaves is the message with the credentials of the tenant. *)
Lemma via_tenant_emits e send t :
  GetEnvelopeTenantSend e = Some t →
  (∀ ok c, cache_ok used c → let '(r, ws, c') := send (λ _, None) ok c in
    cache_ok used c' ∧ (∀ w, w ∈ ws → preserves (emits (sent_for used e)) (perform w)) ∧
    match r with Ok _ | Err _ => True | _ => False end) →
  preserves (emits (sent_for used e)) (via_tenant send t).
Proof.
  intros Ht Hsend. unfold via_tenant. apply preserves_bind; [apply _|apply emits_tick|]. intros now.
  specialize (Hsend (bool_decide (session_at now = None)) _ (Hused now)).
  destruct (send _ _ _) as [[r ws] c']. destruct Hsend as (Hc'&Hws&Hr).
  apply preserves_bind; [apply _|by apply emits_emit|]. intros _.
  destruct r as [[]|err| |]; [|apply preserves_ret, _|done..].
  destruct ws as [|w ws]; [apply preserves_ret, _|]. apply Hws. by left.
Qed.
Lemma send_tenant_ses_emits e t timeout source dests raw :
  GetEnvelopeTenantSend e = Some t → t ∈ used → dests ≠ [] → message_of e raw →
  preserves (emits (sent_for used e)) (send_tenant_ses t timeout source dests raw).
Proof.
  intros Ht Hin Hd Hm. apply via_tenant_emits; [done|]. intros ok c Hc.
  destruct (@run_send_keyed _ _ (λ _, None) used (SendSES ok t (Some timeout) source dests raw) c Hin Hc) as [Hc' Hw].
  cbn beta iota delta [run_send send_cfg] in Hc', Hw |- *. destruct (@SendViaTenantSES _ _ _ _ _ _ _ _ _ _) as [[r ws] c'] eqn:E.
  apply SendViaTenantSES_inv in E as [Hp Hr]. split_and!; [done| |done]. intros w Hin'.
  destruct (Hp w Hin') as (Hprov&client&->). apply perform_emits. apply Hw in Hin'. exists t. split_and!; try done.
  intros Hf Hk. by apply (wire_keyed_of used).
Qed.
Lemma send_tenant_oci_emits e t source dests raw :
  GetEnvelopeTenantSend e = Some t → t ∈ used → dests ≠ [] → message_of e raw →
  preserves (emits (sent_for used e)) (send_tenant_oci t source dests raw).
Proof.
  intros Ht Hin Hd Hm. apply via_tenant_emits; [done|]. intros ok c Hc.
  destruct (@run_send_keyed _ _ (λ _, None) used (SendOCI t source dests raw) c Hin Hc) as [Hc' Hw].
  cbn beta iota delta [run_send send_cfg] in Hc', Hw |- *. destruct (@SendViaTenantOCI _ _ _ _ _ _ _) as [[r ws] c'] eqn:E.
  apply SendViaTenantOCI_inv in E as [Hp Hr]. split_and!; [done| |done]. intros w Hin'.
  destruct (Hp w Hin') as (Hprov&client&cfg&host&->). apply perform_emits. intros op Hop.
  apply Hw in Hin' as [Hcfg _]. exists t, cfg, host, source, dests, raw. done.
Qed.

(** ** The processors *)
Definition quiet (w w' : work) : Prop := same_message (w_env w) (w_env w') ∧ w_done w' = w_done w.
#[local] Instance quiet_pre : PreOrder quiet.
Proof. split; [done|]. intros w1 w2 w3 [(?&?&?) ?] [(?&?&?) ?]. split; [split_and!|]; congruence. Qed.
Lemma makeSESVars_quiet : preserves quiet makeSESVars.
Proof.
  assert (preserves quiet parse_if_needed).
  { intros w. by destruct (parse_if_needed_values w) as [H|(e1&H&Hm)]; rewrite H. }
  assert (preserves quiet tick) by done. unfold makeSESVars, env. preserved.
Qed.

Lemma sent_only_quiet w w' : quiet w w' → sent_only used w w'.
Proof. intros [Hm Hd]. split; [done|]. exists []. by rewrite app_nil_r. Qed.
Lemma sent_for_same e e' x : same_message e e' → sent_for used e' x → sent_for used e x.
Proof.
  intros (Hv&Hd&Hh). apply GetEnvelopeTenantSend_values in Hv.
  unfold sent_for, message_of, NewReader. destruct x; rewrite ?Hv, ?Hd, ?Hh; done.
Qed.
Lemma sent_only_step w w1 w2 :
  same_message (w_env w) (w_env w1) → w_done w1 = w_done w → emits (sent_for used (w_env w1)) w1 w2 → sent_only used w w2.
Proof.
  intros Hm Hd (He&fx&Hfx&HF). split; [by rewrite He|]. exists fx. rewrite Hfx, Hd. split; [done|].
  eapply list.Forall_impl; [exact HF|]. intros x. by apply sent_for_same.
Qed.
Lemma buildRawMessage_message e b : message_of e (buildRawMessage e b).
Proof. destruct b; [by left|by right]. Qed.
Lemma tenant_matches processor provider tenant :
  tenant_mismatch processor provider true tenant = None → ∃ t, tenant = Some t ∧ tsc_Provider t = provider.
Proof. unfold tenant_mismatch. destruct tenant as [t|]; [|done]. case_bool_decide; [by exists t|done]. Qed.

Lemma SES_goes cl w :
  ses_tenantOnly cl = true → (∀ a, GetEnvelopeTenantSend (w_env w) = Some a → a ∈ used) →
  goes_on_with true (sent_only used w) TaskSaveMail (λ p, SES cl p TaskSaveMail) w.
Proof.
  intros Ht Hin. unfold SES. destruct (ses_sender cl) as [sender|]; [|by apply goes_refuse, sent_only_quiet].
  rewrite Ht. cbn [negb andb].
  eapply goes_call; [exact makeSESVars_quiet|by apply sent_only_quiet|].
  intros vars w1 Hq. pose proof Hq as [Hm Hd]. apply sent_only_quiet in Hq.
  eapply goes_bind; [reflexivity|]. unfold id.
  destruct (tenant_mismatch _ _ _ _) eqn:Hmis; [by apply goes_fail|].
  apply tenant_matches in Hmis as (t&Hget&Hp). rewrite Hget.
  destruct (normalizeEmailAddress _) as [source|[]| |]; [|by exists w1; split; [|right; eexists; split]..].
  destruct (_ || _) eqn:Hempty; [by apply goes_fail|]. destruct (_ <? _)%Z; [by apply goes_fail|].
  apply orb_false_iff in Hempty as [_ Hdests%bool_decide_eq_false].
  eapply goes_call.
  - apply send_tenant_ses_emits; [exact Hget| |exact Hdests|apply buildRawMessage_message].
    apply Hin. by rewrite <- (GetEnvelopeTenantSend_values _ _ (proj1 Hm)).
  - intros w2 He. by eapply sent_only_step.
  - intros [err|] w2 He; [apply goes_fail|apply goes_on]; by eapply sent_only_step.
Qed.
Lemma OCIEmail_goes cl w :
  oci_tenantOnly cl = true → (∀ a, GetEnvelopeTenantSend (w_env w) = Some a → a ∈ used) →
  goes_on_with true (sent_only used w) TaskSaveMail (λ p, OCIEmail cl p TaskSaveMail) w.
Proof.
  intros Ht Hin. unfold OCIEmail. destruct (oci_sender cl) as [sender|]; [|by apply goes_refuse, sent_only_quiet].
  rewrite Ht. cbn [negb andb].
  eapply goes_call; [exact makeSESVars_quiet|by apply sent_only_quiet|].
  intros vars w1 Hq. pose proof Hq as [Hm Hd]. apply sent_only_quiet in Hq.
  eapply goes_bind; [reflexivity|]. unfold id.
  destruct (tenant_mismatch _ _ _ _) eqn:Hmis; [by apply goes_fail|].
  apply tenant_matches in Hmis as (t&Hget&Hp). rewrite Hget.
  destruct (normalizeEmailAddress _) as [source|[]| |]; [|by exists w1; split; [|right; eexists; split]..].
  destruct (_ || _) eqn:Hempty; [by apply goes_fail|]. destruct (_ <? _)%Z; [by apply goes_fail|].
  apply orb_false_iff in Hempty as [_ Hdests%bool_decide_eq_false].
  eapply goes_call.
  - apply send_tenant_oci_emits; [exact Hget| |exact Hdests|apply buildRawMessage_message].
    apply Hin. by rewrite <- (GetEnvelopeTenantSend_values _ _ (proj1 Hm)).
  - intros w2 He. by eapply sent_only_step.
  - intros [err|] w2 He; [apply goes_fail|apply goes_on]; by eapply sent_only_step.
Qed.
End Tenants.

Lemma outcome_bind_ok {E A B} (r : outcome E A) (f : A → outcome E B) b : (r ≫= f) = Ok b → ∃ a, r = Ok a ∧ f a = Ok b.
Proof. destruct r; [|done..]. by exists a. Qed.
(** With a registry the initialisers leave the processors with the tenants' credentials only. *)
Lemma SES_init_registry session c cl cl' : SES_init true session c cl = Ok cl' → ses_tenantOnly cl' = true.
Proof.
  unfold SES_init. intros (m&_&H)%outcome_bind_ok. apply outcome_bind_ok in H as (d&_&H).
  apply outcome_bind_ok in H as (?&_&H). by apply outcome_bind_ok in H as (?&_&[= <-]).
Qed.
Lemma OCIEmail_init_registry c cl cl' : OCIEmail_init true c cl = Ok cl' → oci_tenantOnly cl' = true.
Proof.
  unfold OCIEmail_init. intros (m&_&H)%outcome_bind_ok.
  apply outcome_bind_ok in H as (?&_&H). apply outcome_bind_ok in H as (?&_&H). by apply outcome_bind_ok in H as (?&_&[= <-]).
Qed.

(** A message is offered to Oracle's server at most three times. smtpOCIEmailSender.Send returns for every
    behaviour of the server; it went through the dialogue between one and three times, each time up to the first
    step that failed, and tried again only after an error that mentions 535. It reports success exactly
    when every step of the last try succeeded; otherwise the error is that of the last try, or that of
    the context that ended while it waited. *)
Theorem Send_tries_again cfg host from to raw w :
  let steps := smtp_steps cfg host from to raw in
  ∃ tries r w', smtpOCIEmailSender_Send cfg host from to raw w = (Ok r, w') ∧ w_env w' = w_env w ∧
    w_done w' = w_done w ++ map fx_smtp (concat (map fst tries)) ∧
    1 ≤ length tries ≤ 3 ∧ tries_of steps tries r ∧ (r = None ↔ list.last tries = Some (steps, None)).
Proof.
  intros steps. destruct (send_attempts_tries steps 2 w) as (tries&r&w'&E&He&Hd&Hl&Ht).
  exists tries, r, w'. split_and!; try done; [destruct tries; cbn in *; [done|lia]|].
  clear -Ht. split.
  - intros ->. induction tries as [|[ops res] [|t tries] IH]; [done| |].
    + destruct Ht as [Hr [<-|(e&t&_&_&_&?)]]; [|done]. cbn in Hr. by rewrite Hr.
    + destruct Ht as (_&_&Ht). by apply IH.
  - intros Hlast. induction tries as [|[ops res] [|t tries] IH]; [done| |].
    + injection Hlast as -> ->. by destruct Ht as [_ [->|(e&t&?&_)]].
    + destruct Ht as (_&_&Ht). by apply IH.
Qed.


(** C18. A reply under an alias leaves for the tenant of the client that sends it, or not at
    all: in a stack with aliasresolve before ses, or before ociemail, whatever ids the client puts into
    the headers, and whatever the index, the registry and the services answer, everything that is done outside is
    done for an envelope whose tenant is that of the client, if the client had one; and for this
    tenant it is done as [mail_leaves_for_its_tenant] says, with a client of Amazon that was made for its cache key, and
    has its credentials when keys tell the configurations apart. *)
Theorem replies_leave_for_own_tenant {Q : SQL} {W : AliasWorld} used ac session c w :
  senders_ok used → (∀ a, GetEnvelopeTenantSend (w_env w) = Some a → a ∈ used) →
  (∀ t reg, registry_at t = Some reg → keyed reg) →
  (∀ t reg id tenant a, registry_at t = Some reg → Get id reg = Some tenant →
    TenantSendFromTenant (Some tenant) = Some a → a ∈ used) →
  let for_own x := ∃ e, same_tenant (w_env w) e ∧ sent_for used e x in
  let sends d := goes_on_with true (did for_own w) TaskSaveMail (λ p, Decorate p [d; AliasResolve ac] TaskSaveMail) w in
  (∀ cl, SES_init true session c no_ses = Ok cl → sends (SES cl)) ∧
  (∀ cl, OCIEmail_init true c no_oci = Ok cl → sends (OCIEmail cl)).
Proof.
  intros Hused Hin Hkeyed Hreg for_own sends.
  assert (Hd : ∀ d : Decorator,
    (∀ w', (∀ a, GetEnvelopeTenantSend (w_env w') = Some a → a ∈ used) →
      goes_on_with true (sent_only used w') TaskSaveMail (λ p, d p TaskSaveMail) w') → sends d).
  { intros d Hd. change (goes_on_with true (did for_own w) TaskSaveMail (λ p, AliasResolve ac (d p) TaskSaveMail) w).
    eapply (goes_compose true (kept w)).
    - by apply goes_hangs, AliasResolve_goes.
    - intros w' [[_ Hdone] _]. exists []. by rewrite app_nil_r.
    - intros w' [[Hsame Hdone] Hk]. eapply goes_mono; [|apply Hd].
      + intros w2 [_ (fx&Hfx&HF)]. exists fx. rewrite Hfx, Hdone. split; [done|].
        eapply list.Forall_impl; [exact HF|]. intros x Hx. by exists (w_env w').
      + intros a Ha. destruct Hk as [Hk|(t&reg&id&tn&Hr&Hg&Hk)]; rewrite Hk in Ha; [by apply Hin|by eapply Hreg]. }
  split; intros cl Hcl; apply Hd; intros w' Hin'; [apply SES_goes|apply OCIEmail_goes]; try done.
  - by eapply SES_init_registry.
  - by eapply OCIEmail_init_registry.
Qed.
End Proofs.

Section Witnesses.
#[local] Existing Instance ascii_only.
#[local] Instance no_durations : Durations := λ _, None.
#[local] Instance plain_digest : SHA256 := id.
#[local] Instance no_words : WordDecoder := λ _, None.
#[local] Instance no_headers : MIMEReader := λ _, (None, None).
#[local] Instance listed_order : MapOrder := λ _ l, l.
#[local] Instance no_quotes : Quoting := id.
#[local] Instance accepting : MailServices := test_services (λ _, None).

Lemma test_senders_ok : senders_ok test_used.
Proof.
  by intros t; split.
Qed.
Lemma test_keys_apart : collision_free test_used ∧ Forall key_ok test_used.
Proof.
  split; [intros a b _ _; exact id|].
  apply list.Forall_forall. intros x Hx. unfold test_used in Hx. cbn in Hx. rewrite !elem_of_cons in Hx.
  destruct Hx as [->|[->|Hx%not_elem_of_nil]]; [| |done];
    (split; [by apply (bool_decide_eq_false (_ ∈ _))|left; split; [done|]]);
    (eexists; split; [reflexivity|split; by apply (bool_decide_eq_false (_ ∈ _))]).
Qed.
Lemma replies_leave_for_own_tenant_witness :
  let sql := test_sql 99 in let world := test_alias_world in
  goes_on_with true (did (λ x, ∃ e, same_tenant (w_env (test_reply None)) e ∧ sent_for test_used e x) (test_reply None))
    TaskSaveMail (λ p, Decorate p [SES test_ses_closure; AliasResolve soft] TaskSaveMail) (test_reply None).
Proof.
  intros sql world.
  refine (proj1 (replies_leave_for_own_tenant test_used soft None test_ses_config (test_reply None) test_senders_ok _ _ _) _ _).
  - done.
  - intros t reg [= <-]. apply applyTenants_keyed.
  - intros t reg id tenant a [= <-] Hg [= <-].
    assert (H : tenant = test_tenant "acme" ∨ tenant = test_tenant "globex").
    { unfold Get in Hg. cbn in Hg. apply lookup_insert_Some in Hg as [[_ <-]|[_ Hg]]; [by right|].
      apply lookup_insert_Some in Hg as [[_ <-]|[_ Hg]]; [by left|]. by rewrite lookup_empty in Hg. }
    unfold test_used. cbn. rewrite !elem_of_cons. destruct H as [->| ->]; auto.
  - vm_compute. reflexivity.
Defined.
End Witnesses.

(** Mail of a tenant leaves with its key; without a tenant nothing leaves, and with ses_fail_hard off the client is
    still told that its message was accepted. *)
Example tenant_mail_is_sent :
  let run tenant := test_ses test_ses_closure DefaultProcessor TaskSaveMail (test_outgoing tenant) in
  omap (λ x, match x with fx_ses cl source dests raw => Some (cl_credentials cl, source, dests, raw) | _ => None end)
    (w_done (run (Some (bs "acme"))).2) =
    [(Some (bs "key of acme", bs "secret of acme"), bs "joe@a.example", [bs "x@y.org"], bs "hi")] ∧
  (run None).1 = Ok (Some BackendResultOK, None) ∧ w_done (run None).2 = [].
Proof. vm_compute. auto. Qed.
(** A stack with both processors, as the comments of the initialisers have it: the one that is not configured is
    initialised without an error, and then refuses every message. Without its templates it is not even that. *)
Example unconfigured_ses_refuses_mail :
  @SES_init (λ _, None) false None test_ses_config no_ses = Ok no_ses ∧
  (test_ses no_ses DefaultProcessor TaskSaveMail (test_outgoing None)).1 =
    Ok (Some (NewResult [text Canned.FailBackendTransaction; SP; bs "ses processor not initialized"]),
        Some (bs "ses processor not initialized")) ∧
  @SES_init (λ _, None) false None ∅ no_ses = Err (missing "ses_source_tmpl" "string").
Proof. vm_compute. auto. Qed.
(** An answer to QUIT that happens to contain 535 makes the client send again a message that was accepted. *)
Example accepted_mail_is_sent_again :
  let services := test_services (λ t, if t =? 9 then Some (bs "421 4.7.0 session 15350 closed") else None) in
  let cfg := mkOciemailConfig "mail.example" [] 587 "user" "secret" [] false [] [] false 100 in
  let run := @smtpOCIEmailSender_Send ascii_only services cfg "mail.example" "joe@a.example" [bs "x@y.org"] "hi" (test_outgoing None) in
  run.1 = Ok None ∧ omap (λ x, match x with fx_smtp (op_write raw) => Some raw | _ => None end) (w_done run.2) = [bs "hi"; bs "hi"].
Proof. vm_compute. auto. Qed.
