(* ===== verification/Storage.v ===== *)
(** * Processors that store mail: backends/p_redis.go, p_sql.go, and what p_compressor.go leaves for them

    redis keeps the message under its hash, sql writes one row for each recipient, and both may be
    given the compressor that an earlier processor left in the envelope. The servers answer when they are asked,
    each time as they like. *)
From S2P Require Import Prelude GoStd Response Shared Envelope Tenant Backend Processor.

(** [compress/zlib] at BestSpeed: what a writer has written when it is closed. *)
Class Zlib := deflate : bytes → bytes.
(** Errors are [Some] text. [connected_at] and [prepared_at] say whether an earlier message left a connection, or the
    prepared statement for a number of rows; [driver_prints] whether the driver of redis turns its arguments into
    text, as the one in storage/redigo does, and the mock does not; [sql_inputs] is the number of placeholders of a statement,
    below zero when the driver does not know it. *)
Class StorageServers := {
  redis_dial : nat → option bytes;
  redis_do : nat → bytes → list bytes → option bytes;
  driver_prints : bool;
  connected_at : nat → bool;
  prepared_at : nat → nat → bool;
  sql_prepare : nat → bytes → option bytes;
  sql_inputs : bytes → Z;
  sql_exec : nat → bytes → list sqlval → exec_answer
}.

(** [Stmt.Exec] of database/sql asks the driver when the number of arguments is right, if it is known. *)
Definition wrong_arguments (want : Z) (got : nat) : bytes :=
  bs "sql: expected " ++ Itoa want ++ bs " arguments, got " ++ Itoa (Z.of_nat got).
Definition checked_exec (inputs : bytes → Z) (exec : bytes → list sqlval → exec_answer) (query : bytes) (args : list sqlval) : exec_answer :=
  let want := inputs query in
  if (0 <=? want)%Z && negb (want =? Z.of_nat (length args))%Z then ex_failed (wrong_arguments want (length args)) false
  else exec query args.

Definition trimToLimit (str : bytes) (limit : nat) : bytes :=
  if limit <? length str then take limit str else TrimSpace str.

Section Storage.
Context {Zl : Zlib} {St : StorageServers}.

(** ** The compressor

    Printing it reads the buffer of the message to its end: the envelope has no data afterwards. *)
Definition DataCompressor_String (c : DataCompressor) : Work bytes :=
  if points_to_data c then
    d ← env Data;
    set_env (set_Data []);;
    mret (deflate (ExtraHeaders c ++ d))
  else mret [].
Definition DataCompressor_clear (c : DataCompressor) : DataCompressor := mkDataCompressor [] false.
(** The compressor in an envelope; another value under its key makes the type assertion panic. *)
Definition compressor_of (e : Envelope) : Work (option DataCompressor) :=
  match Values e !! bs "zlib-compressor" with
  | None => mret None
  | Some (any_compressor c) => mret (Some c)
  | Some _ => panic
  end.

Definition set_QueuedId (q : bytes) (e : Envelope) : Envelope :=
  mkEnvelope (RemoteIP e) (e_Helo e) (e_MailFrom e) (e_RcptTo e) (Data e) (Subject e) (TLS e) (Envelope.Header e)
    (Values e) (Hashes e) (DeliveryHeader e) q (ESMTP e).

(** ** redis *)
Definition RedisProcessorConfig : list field := [mkField "redis_expire_seconds" f_int false; mkField "redis_interface" f_string false].
Definition redisConnection : Work (option bytes) :=
  t ← tick;
  if connected_at t then mret None else t ← tick; mret (redis_dial t).
(** The value is printed by the driver, or not at all. *)
Definition redis_Do (command : bytes) (args : list bytes) (value : Work bytes) : Work (option bytes) :=
  v ← (if driver_prints then value else mret []);
  t ← tick;
  let err := redis_do t command (args ++ [v]) in
  emit (fx_redis command (args ++ [v]) err);;
  mret err.
Definition redis_failed (err : bytes) : Work (option Result * option bytes) :=
  mret (Some (NewResult [text Canned.FailBackendTransaction]), Some err).
Definition Redis (config : option BackendConfig) : Decorator := λ p task,
  match task with
  | TaskValidateRcpt => p task
  | TaskSaveMail =>
      e ← env id;
      match Hashes e with
      | [] => redis_failed (RcptError_text StorageError)
      | hash :: _ =>
          set_env (set_QueuedId hash);;
          co ← compressor_of e;
          match config with
          | None => panic
          | Some config =>
              redisErr ← redisConnection;
              match redisErr with
              | Some err => redis_failed err
              | None =>
                  doErr ← redis_Do "SETEX" [hash; Itoa (int_of config "redis_expire_seconds")]
                    (match co with Some c => DataCompressor_String c | None => env Envelope_String end);
                  match doErr with
                  | Some err => redis_failed err
                  | None =>
                      set_env (λ e, set_Values (<[bs "redis" := any_string "redis"]> (Values e)) e);;
                      p task
                  end
              end
          end
      end
  end.

(** ** sql *)
Definition SQLProcessorConfig : list field :=
  [mkField "mail_table" f_string false; mkField "sql_driver" f_string false; mkField "sql_dsn" f_string false;
   mkField "sql_insert" f_string true; mkField "sql_values" f_string true; mkField "primary_mail_host" f_string false;
   mkField "sql_max_conn_lifetime" f_string true; mkField "sql_max_open_conns" f_int true; mkField "sql_max_idle_conns" f_int true].
Definition stmtCache_size : nat := 50.

Fixpoint with_commas (values : bytes) (rows : nat) : bytes :=
  match rows with
  | 0 => []
  | 1 => values
  | S rows => values ++ bs "," ++ with_commas values rows
  end.
Definition default_insert (table : bytes) : bytes :=
  bs "INSERT INTO " ++ table ++ bs " " ++
  bs "(`date`, `to`, `from`, `subject`, `body`,  `mail`, `spam_score`, " ++
  bs "`hash`, `content_type`, `recipient`, `has_attach`, `ip_addr`, " ++
  bs "`return_path`, `is_tls`, `message_id`, `reply_to`, `sender`)" ++ bs " VALUES ".
Definition default_values : bytes := "(NOW(), ?, ?, ?, ? , ?, 0, ?, ?, ?, 0, ?, ?, ?, ?, ?, ?)".
Definition insert_query (config : BackendConfig) (rows : nat) : bytes :=
  (match string_of config "sql_insert" with
   | [] => default_insert (string_of config "mail_table")
   | q => if HasSuffix q " " then q else q ++ bs " "
   end) ++
  with_commas (match string_of config "sql_values" with [] => default_values | v => v end) rows.
(** The statement is its text. *)
Definition prepareInsertQuery (config : BackendConfig) (rows : nat) : Work bytes :=
  if (rows =? 0) || (stmtCache_size <? rows) then panic
  else
    let sqlstr := insert_query config rows in
    t ← tick;
    if prepared_at t rows then mret sqlstr
    else
      emit (fx_prepare sqlstr);;
      t ← tick;
      match sql_prepare t sqlstr with Some _ => panic | None => mret sqlstr end.
Definition doQuery (config : BackendConfig) (c : nat) (vals : list sqlval) : Work (option bytes) :=
  insertStmt ← prepareInsertQuery config c;
  t ← tick;
  let answer := checked_exec sql_inputs (sql_exec t) insertStmt vals in
  emit (fx_exec insertStmt vals answer);;
  match answer with
  | ex_done => mret None
  | ex_failed execErr _ => mret (Some execErr)
  | ex_panicked _ => panic
  end.

(** [big.Int.Bytes] has no zeros in front. *)
Fixpoint strip_zeros (l : list Z) : list Z :=
  match l with (0%Z) :: l => strip_zeros l | _ => l end.
Definition byte_of (z : Z) : ascii := ascii_of_N (Z.to_N z).
Definition ip2bint (ip : bytes) : bytes :=
  let addr := default [] (ParseIP ip) in
  let four := if bool_decide (take 12 addr = v4_prefix) then drop 12 addr else [] in
  map byte_of (strip_zeros (match Index ip "::" with Some (S _) => addr | _ => four end)).
Definition fillAddressFromHeader (headerKey : bytes) : Work bytes :=
  h ← env Envelope.Header;
  match default ∅ h !! headerKey with
  | None => mret []
  | Some [] => panic
  | Some (v :: _) =>
      match NewAddress v with
      | Ok addr => mret (Address_String addr)
      | Err _ => mret []
      | Panic => panic
      | OutOfFuel => out_of_fuel
      end
  end.

(** The values of the row for one recipient. *)
Definition sql_mail (body : bytes) (co : option DataCompressor) : Work bytes :=
  if bool_decide (body = bs "redis") then mret []
  else match co with Some c => DataCompressor_String c | None => env Envelope_String end.
Definition sql_row (config : BackendConfig) (hash body : bytes) (co : option DataCompressor) (rcpt : Address) : Work (list sqlval) :=
  let or_else (v other : bytes) := if bool_decide (v = []) then other else v in
  to ← fillAddressFromHeader "To";
  let recipient := trimToLimit (TrimSpace (Address_String rcpt)) 255 in
  let to := or_else (trimToLimit to 255) recipient in
  mid ← fillAddressFromHeader "Message-Id";
  let mid := or_else (trimToLimit mid 255)
    (hash ++ bs "." ++ User rcpt ++ bs "@" ++ string_of config "primary_mail_host") in
  replyTo ← fillAddressFromHeader "Reply-To";
  sender ← fillAddressFromHeader "Sender";
  e ← env id;
  contentType ← (match default ∅ (Envelope.Header e) !! bs "Content-Type" with
    | None => mret []
    | Some (v :: _) => mret (trimToLimit v 255)
    | Some [] => panic
    end);
  mail ← sql_mail body co;
  let from := trimToLimit (Address_String (e_MailFrom e)) 255 in
  mret [sv_text to; sv_text from; sv_text (trimToLimit (Subject e) 255); sv_text body; sv_text mail;
        sv_text hash; sv_text contentType; sv_text recipient; sv_bytes (ip2bint (RemoteIP e)); sv_text from;
        sv_bool (TLS e); sv_text mid; sv_text (trimToLimit replyTo 255); sv_text (trimToLimit sender 255)].
(** The loop over the recipients: the error of the insert that failed. *)
Fixpoint sql_rows (config : BackendConfig) (hash body : bytes) (co : option DataCompressor) (rcpts : list Address) : Work (option bytes) :=
  match rcpts with
  | [] => mret None
  | rcpt :: rcpts =>
      vals ← sql_row config hash body co rcpt;
      prepareInsertQuery config 1;;
      err ← doQuery config 1 vals;
      match err with
      | Some err => mret (Some err)
      | None => sql_rows config hash body co rcpts
      end
  end.
Definition SQL (config : option BackendConfig) : Decorator := λ p task,
  match task with
  | TaskSaveMail =>
      e ← env id;
      let hash := default [] (head (Hashes e)) in
      (match Hashes e with h :: _ => set_env (set_QueuedId h) | [] => mret tt end);;
      co ← compressor_of e;
      let body := match Values e !! bs "redis" with
        | Some _ => bs "redis"
        | None => match co with Some _ => bs "gzip" | None => [] end
        end in
      match config, e_RcptTo e with
      | None, _ :: _ => panic
      | _, [] => p task
      | Some config, rcpts =>
          err ← sql_rows config hash body co rcpts;
          match err with
          | Some _ => mret (Some (NewResult [bs "554 Error: could not save email"]), Some (RcptError_text StorageError))
          | None => p task
          end
      end
  | TaskValidateRcpt =>
      rcpts ← env e_RcptTo;
      match list.last rcpts with
      | Some rcpt =>
          if 255 <? length (User rcpt)
          then mret (Some (NewResult [text Canned.FailRcptCmd]), Some (RcptError_text NoSuchUser))
          else p task
      | None => p task
      end
  end.

(** ** The initialisers

    What opening the database and selecting from the table return are arguments, as is the dialling of redis. *)
Definition connect {Du : Durations} (config : BackendConfig) (opened selected : option bytes) : outcome bytes unit :=
  ok_unless opened;;
  (match string_of config "sql_max_conn_lifetime" with
   | [] => Ok tt
   | s => match parse_duration s with Some _ => Ok tt | None => Err (bs "invalid sql_max_conn_lifetime") end
   end);;
  ok_unless selected.
Definition SQL_init {Du : Durations} (backendConfig : BackendConfig) (opened selected : option bytes) : outcome bytes BackendConfig :=
  config ← ExtractConfig backendConfig SQLProcessorConfig;
  connect config opened selected;;
  mret config.
Definition Redis_init (backendConfig : BackendConfig) (dialled : option bytes) : outcome bytes BackendConfig :=
  config ← ExtractConfig backendConfig RedisProcessorConfig;
  map_error (λ err, bs "redis cannot connect, check your settings: " ++ err) (ok_unless dialled);;
  mret config.

(** ** Notions used by the statements *)

(** The rows that were inserted, or whose insert failed, in order, and what the database answered. *)
Definition executed (fx : list effect) : list (list sqlval) :=
  omap (λ x, match x with fx_exec _ args _ => Some args | _ => None end) fx.
Definition answers (fx : list effect) : list exec_answer :=
  omap (λ x, match x with fx_exec _ _ a => Some a | _ => None end) fx.
(** Every insert succeeded; or every one but the last. *)
Definition all_done (fx : list effect) : Prop := Forall (λ a, a = ex_done) (answers fx).
Definition done_but_last (fx : list effect) : Prop :=
  ∃ good last, answers fx = good ++ last ∧ Forall (λ a, a = ex_done) good ∧ length last ≤ 1.
Definition only_sql (query : bytes) (x : effect) : Prop :=
  match x with fx_prepare q | fx_exec q _ _ => q = query | _ => False end.
Definition short (v : bytes) : Prop := length v ≤ 255.
(** A row is for a recipient, and holds a mail. *)
Definition row_for (e : Envelope) (hash body mail : bytes) (rcpt : Address) (row : list sqlval) : Prop :=
  ∃ to mid replyTo sender contentType,
    let from := trimToLimit (Address_String (e_MailFrom e)) 255 in
    let recipient := trimToLimit (TrimSpace (Address_String rcpt)) 255 in
    row = [sv_text to; sv_text from; sv_text (trimToLimit (Subject e) 255); sv_text body; sv_text mail;
        sv_text hash; sv_text contentType; sv_text recipient; sv_bytes (ip2bint (RemoteIP e)); sv_text from;
        sv_bool (TLS e); sv_text mid; sv_text replyTo; sv_text sender] ∧
    Forall short [to; from; trimToLimit (Subject e) 255; contentType; recipient; replyTo; sender].
(** What sql puts into its rows: the hash, where the mail is, and the mail unless it is in redis. *)
Definition mail_hash (e : Envelope) : bytes := default [] (head (Hashes e)).
Definition in_redis (e : Envelope) : bool := bool_decide (is_Some (Values e !! bs "redis")).
Definition body_kind (e : Envelope) : bytes := if in_redis e then bs "redis" else [].
Definition kept_mail (e : Envelope) : bytes := if in_redis e then [] else Envelope_String e.
Definition row_of (e : Envelope) : Address → list sqlval → Prop := row_for e (mail_hash e) (body_kind e) (kept_mail e).
Definition queued (w : work) : work :=
  mkWork (match Hashes (w_env w) with h :: _ => set_QueuedId h (w_env w) | [] => w_env w end) (w_now w) (w_done w).
(** The command that stores a message, as the driver prints it, with its answer, and a row for a message that is stored. *)
Definition redis_set (config : BackendConfig) (h : bytes) (e : Envelope) (err : option bytes) : effect :=
  fx_redis "SETEX" [h; Itoa (int_of config "redis_expire_seconds"); if driver_prints then Envelope_String e else []] err.
Definition points_to (h : bytes) (row : list sqlval) : Prop :=
  ∃ to from subject rest, row = sv_text to :: sv_text from :: sv_text subject :: sv_text "redis" :: sv_text [] :: sv_text h :: rest.
(** The rows of the recipients so far; all of them when every insert succeeded. *)
Definition rows_for (row : Address → list sqlval → Prop) (rcpts : list Address) (all : bool) (fx : list effect) : Prop :=
  done_but_last fx ∧ ∃ done rest, rcpts = done ++ rest ∧ Forall2 row done (executed fx) ∧ (all = true → rest = [] ∧ all_done fx).
Definition saved (r : outcome Empty_set (option bytes)) : bool := match r with Ok None => true | _ => false end.
(** A computation that leaves the envelope alone, by its result and by what it does. *)
Definition runs {A} (m : Work A) (w : work) (Q : outcome Empty_set A → list effect → Prop) : Prop :=
  ∃ r w' fx, m w = (r, w') ∧ w_env w' = w_env w ∧ w_done w' = w_done w ++ fx ∧ Q r fx.
End Storage.

Definition placeholders (query : bytes) : nat := length (filter (λ c, c = "?"%char) query).
(** *** Servers, and a message for two recipients *)
Definition test_servers (prints : bool) (exec : nat → exec_answer) : StorageServers := {|
  redis_dial := λ _, None; redis_do := λ _ _ _, None; driver_prints := prints; connected_at := λ _, true;
  prepared_at := λ _ _, false; sql_prepare := λ _ _, None;
  sql_inputs := λ q, Z.of_nat (placeholders q); sql_exec := λ t _ _, exec t |}.
Definition test_sql_config : BackendConfig :=
  {[ bs "mail_table" := CString "mail"; bs "primary_mail_host" := CString "mx.example"; bs "redis_expire_seconds" := CInt 60 ]}.
Definition test_stored (hashes : list bytes) (values : gmap bytes any) : work :=
  let a u h := mkAddress u h [] [] false false None [] false in
  mkWork (mkEnvelope "192.0.2.1" "h" (a "joe" "a.example") [a "x" "y.org"; a "z" "y.org"] "Subject: hi" "hi" false
    (Some ∅) values hashes [] "q" true) 0 [].

(** * Proofs *)
Section Proofs.
Context {Zl : Zlib} {St : StorageServers}.

(** ** Runs *)
Lemma runs_bind {A B} (m : Work A) (k : A → Work B) w Q1 Q :
  runs m w Q1 →
  (∀ a w1 fx, w_env w1 = w_env w → Q1 (Ok a) fx → runs (k a) w1 (λ r fx', Q r (fx ++ fx'))) →
  (∀ fx, Q1 Panic fx → Q Panic fx) → (∀ fx, Q1 OutOfFuel fx → Q OutOfFuel fx) → runs (m ≫= k) w Q.
Proof.
  intros (r&w1&fx&E&He&Hd&HQ) Hk Hp Ho. unfold runs, mbind, M_bind. rewrite E. destruct r as [a|[]| |].
  - destruct (Hk a w1 fx He HQ) as (r&w2&fx'&E2&He2&Hd2&HQ2). exists r, w2, (fx ++ fx').
    split_and!; [done|congruence|by rewrite Hd2, Hd, app_assoc|done].
  - exists Panic, w1, fx. auto.
  - exists OutOfFuel, w1, fx. auto.
Qed.
Lemma runs_pure {A} (m : Work A) w r (Q : outcome Empty_set A → list effect → Prop) : m w = (r, w) → Q r [] → runs m w Q.
Proof. intros E HQ. exists r, w, []. rewrite app_nil_r. done. Qed.
(** Reading the envelope first. *)
Lemma runs_env {A B} (f : Envelope → A) (k : A → Work B) w Q : runs (k (f (w_env w))) w Q → runs (env f ≫= k) w Q.
Proof. done. Qed.

Lemma trimToLimit_short v : short (trimToLimit v 255).
Proof.
  unfold trimToLimit, short. destruct (Nat.ltb_spec 255 (length v)); [rewrite length_take; lia|].
  etrans; [apply TrimSpace_length|]. lia.
Qed.
Lemma fillAddressFromHeader_pure key w : ∃ r, fillAddressFromHeader key w = (r, w).
Proof. unfold fillAddressFromHeader, env, gets, mbind, M_bind. repeat case_match; eauto. Qed.

(** ** Inserts *)
Lemma executed_app fx fx' : executed (fx ++ fx') = executed fx ++ executed fx'.
Proof. apply list.omap_app. Qed.
Lemma prepareInsertQuery_runs config w :
  runs (prepareInsertQuery config 1) w (λ r fx, (r = Ok (insert_query config 1) ∨ r = Panic) ∧
    executed fx = [] ∧ Forall (only_sql (insert_query config 1)) fx).
Proof.
  unfold prepareInsertQuery. cbn [Nat.eqb orb Nat.ltb Nat.leb stmtCache_size].
  unfold tick, emit, modify, mbind, M_bind, runs. destruct (prepared_at (w_now w) 1).
  - eexists _, _, []. rewrite app_nil_r. split_and!; auto.
  - cbn. destruct (sql_prepare _ _); eexists _, _, [fx_prepare (insert_query config 1)]; cbn; split_and!; auto;
      by apply Forall_singleton.
Qed.
Lemma answers_app fx fx' : answers (fx ++ fx') = answers fx ++ answers fx'.
Proof. apply list.omap_app. Qed.
Lemma no_answers fx : executed fx = [] → answers fx = [].
Proof. induction fx as [|[] fx IH]; cbn; auto. done. Qed.
Lemma doQuery_runs config vals w :
  runs (doQuery config 1 vals) w (λ r fx, Forall (only_sql (insert_query config 1)) fx ∧
    (r = Panic ∧ executed fx = [] ∨ executed fx = [vals] ∧ ∃ a, answers fx = [a] ∧
     match r with Ok None => a = ex_done | Ok (Some _) | Panic => True | _ => False end)).
Proof.
  unfold doQuery. eapply runs_bind; [apply prepareInsertQuery_runs| | |].
  - intros q w1 fx He ([[= ->]|?]&Hx&Hf); [|done].
    pose proof (no_answers _ Hx) as Hn. set (a := checked_exec sql_inputs (sql_exec (w_now w1)) (insert_query config 1) vals).
    exists (match a with ex_done => Ok None | ex_failed err _ => Ok (Some err) | ex_panicked _ => Panic end),
      (mkWork (w_env w1) (S (w_now w1)) (w_done w1 ++ [fx_exec (insert_query config 1) vals a])), [fx_exec (insert_query config 1) vals a].
    split; [|split; [done|split; [done|]]].
    + unfold tick, emit, modify, mbind, M_bind. cbn [w_env w_now w_done]. fold a. by destruct a.
    + split; [apply Forall_app; split; [done|by apply Forall_singleton]|]. right.
      rewrite executed_app, Hx, answers_app, Hn. split; [done|]. exists a. split; [done|]. by destruct a.
  - intros fx (_&Hx&Hf). auto.
  - intros fx ([?|?]&_); done.
Qed.

(** The values of a row, when the message is where [sql_mail] finds it. *)
Lemma runs_read {A B} (m : Work A) (k : A → Work B) w Q :
  (∃ r, m w = (r, w)) → Q Panic [] → Q OutOfFuel [] → (∀ a, m w = (Ok a, w) → runs (k a) w Q) → runs (m ≫= k) w Q.
Proof.
  intros [r E] Hp Ho Hk. destruct r as [a|[]| |].
  - unfold runs, mbind, M_bind. rewrite E. by apply Hk.
  - eapply runs_pure; [unfold mbind, M_bind; by rewrite E|done].
  - eapply runs_pure; [unfold mbind, M_bind; by rewrite E|done].
Qed.
Lemma sql_row_runs config hash body co rcpt mail w :
  sql_mail body co w = (Ok mail, w) →
  runs (sql_row config hash body co rcpt) w (λ r fx, fx = [] ∧
    match r with Ok row => row_for (w_env w) hash body mail rcpt row | _ => True end).
Proof.
  intros Hmail. unfold sql_row.
  assert (Hor : ∀ v o : bytes, short v → short o → short (if bool_decide (v = []) then o else v)) by (intros; by case_bool_decide).
  do 4 (apply runs_read; [apply fillAddressFromHeader_pure|done|done|intros ? _]).
  apply runs_env. apply runs_read; [by repeat case_match; eexists|done|done|intros ct Hct].
  assert (Hs : short ct).
  { destruct (default ∅ _ !! _) as [[|v l]|]; [done|injection Hct as <-; apply trimToLimit_short|].
    injection Hct as <-. unfold short. cbn. lia. }
  apply runs_read; [by eexists|done|done|]. intros m Hm. rewrite Hmail in Hm. injection Hm as <-.
  eapply runs_pure; [reflexivity|]. split; [done|]. eexists _, _, _, _, _. split; [reflexivity|].
  repeat apply list.Forall_cons_2; try apply list.Forall_nil_2; try apply Hor; try apply trimToLimit_short; done.
Qed.

Lemma rows_for_nil row all rcpts : (all = true → rcpts = []) → rows_for row rcpts all [].
Proof.
  intros Ha. split; [by exists [], []; repeat constructor; cbn; lia|]. exists [], rcpts. split_and!; [done|constructor|].
  intros H. split; [auto|constructor].
Qed.
(** The rows of the recipients, in order, up to the first whose insert fails. *)
Lemma sql_rows_runs config hash body co mail rcpts w :
  (∀ w', w_env w' = w_env w → sql_mail body co w' = (Ok mail, w')) →
  runs (sql_rows config hash body co rcpts) w (λ r fx, Forall (only_sql (insert_query config 1)) fx ∧
    rows_for (row_for (w_env w) hash body mail) rcpts (saved r) fx).
Proof.
  revert w. induction rcpts as [|rcpt rcpts IH]; intros w Hmail.
  { apply runs_pure with (Ok None); [done|]. split; [done|by apply rows_for_nil]. }
  assert (Hstop : ∀ (r : outcome Empty_set (option bytes)) fx, executed fx = [] → saved r = false →
    rows_for (row_for (w_env w) hash body mail) (rcpt :: rcpts) (saved r) fx).
  { intros r fx Hx Hr. split; [exists [], []; rewrite no_answers by done; repeat constructor; cbn; lia|].
    exists [], (rcpt :: rcpts). rewrite Hr, Hx. by split_and!. }
  cbn [sql_rows]. eapply runs_bind; [by apply sql_row_runs, Hmail| | |]; cbn beta.
  2,3: by intros fx [-> _]; split; [|apply Hstop].
  intros row w1 fx He [-> Hrow]. eapply runs_bind; [apply prepareInsertQuery_runs| | |]; cbn beta.
  2,3: intros fx (_&Hx&Hf); split; [done|by apply Hstop].
  intros q w2 fx He2 (_&Hx&Hf). pose proof (no_answers _ Hx) as Hn.
  (* the row was tried, and not all is saved *)
  assert (Hfailed : ∀ (r : outcome Empty_set (option bytes)) fx2 a, executed fx2 = [row] → answers fx2 = [a] → saved r = false →
    rows_for (row_for (w_env w) hash body mail) (rcpt :: rcpts) (saved r) (fx ++ fx2)).
  { intros r fx2 a Hx2 Ha2 Hr. split; [exists [], [a]; rewrite answers_app, Hn, Ha2; by repeat constructor|].
    exists [rcpt], rcpts. rewrite Hr, executed_app, Hx, Hx2. split_and!; [done|by repeat constructor|done]. }
  eapply runs_bind; [apply doQuery_runs| | |]; cbn beta.
  2: intros fx2 [Hf2 Hx2]; cbn [app]; (split; [by apply Forall_app|]).
  2: destruct Hx2 as [[_ Hx2]|(Hx2&a&Ha&_)]; [apply Hstop; [by rewrite executed_app, Hx, Hx2|done]|by eapply Hfailed].
  2: intros fx2 [_ [[? _]|(_&a&_&?)]]; done.
  intros err w3 fx2 He3 [Hf2 [[? _]|(Hx2&a&Ha2&Ha)]]; [done|].
  destruct err as [err|].
  - apply runs_pure with (Ok (Some err)); [done|]. cbn [app]. rewrite app_nil_r. split; [by apply Forall_app|by eapply Hfailed].
  - assert (E : w_env w3 = w_env w) by congruence. subst a.
    destruct (IH w3) as (r&w4&fx4&Er&Hew&Hd&Hf4&(good&last&Hg&Hgood&Hlast)&done_&rest&->&Hrows&Hall).
    { intros w' Hw'. apply Hmail. congruence. }
    exists r, w4, fx4. split_and!; [done..| |].
    + cbn. rewrite !Forall_app. done.
    + cbn [app]. rewrite app_assoc. unfold rows_for, done_but_last, all_done. rewrite !executed_app, !answers_app, Hx, Hx2, Hn, Ha2. cbn [app].
      split; [exists (ex_done :: good), last; rewrite Hg; split_and!; [done|by constructor|done]|].
      exists (rcpt :: done_), rest. split_and!; [done| |].
      * rewrite <- E. constructor; [by rewrite E|done].
      * intros [-> Hd4]%Hall. split; [done|by constructor].
Qed.

(** ** The processors *)
Lemma sql_mail_quiet body w :
  sql_mail body None w = (Ok (if bool_decide (body = bs "redis") then [] else Envelope_String (w_env w)), w).
Proof. unfold sql_mail. by case_bool_decide. Qed.
Lemma SQL_starts config p w : Values (w_env w) !! bs "zlib-compressor" = None →
  SQL (Some config) p TaskSaveMail w =
    match e_RcptTo (w_env w) with [] => p TaskSaveMail (queued w) | rcpts =>
      (err ← sql_rows config (mail_hash (w_env w)) (body_kind (w_env w)) None rcpts;
       match err with Some _ => mret (Some (NewResult [bs "554 Error: could not save email"]), Some (RcptError_text StorageError))
       | None => p TaskSaveMail end) (queued w) end.
Proof.
  intros Hco. unfold SQL, env, gets, mbind at 1, M_bind at 1, id.
  assert (Es : (match Hashes (w_env w) with h :: _ => set_env (set_QueuedId h) | [] => mret tt end : Work unit) w = (Ok tt, queued w)).
  { unfold queued. destruct (Hashes _); [|done]. by destruct w. }
  unfold mbind at 1, M_bind at 1. rewrite Es. unfold compressor_of. rewrite Hco.
  unfold mbind at 1, M_bind at 1. cbn [mret M_ret]. unfold body_kind, in_redis.
  destruct (Values (w_env w) !! bs "redis"); [rewrite bool_decide_eq_true_2 by done|rewrite bool_decide_eq_false_2 by apply is_Some_None];
    by destruct (e_RcptTo (w_env w)).
Qed.

(** What sql does with a message that has no compressor. *)
Lemma SQL_outcome config w : Values (w_env w) !! bs "zlib-compressor" = None →
  ∃ w' fx, w_done w' = w_done w ++ fx ∧ Forall (only_sql (insert_query config 1)) fx ∧
    ((∀ p, SQL (Some config) p TaskSaveMail w = p TaskSaveMail w') ∧ all_done fx ∧
       Forall2 (row_of (w_env w)) (e_RcptTo (w_env w)) (executed fx) ∨
     ∃ r done rest, (∀ p, SQL (Some config) p TaskSaveMail w = (r, w')) ∧ refused true r ∧ done_but_last fx ∧
       e_RcptTo (w_env w) = done ++ rest ∧ Forall2 (row_of (w_env w)) done (executed fx)).
Proof.
  intros Hco. pose proof (λ p, SQL_starts config p w Hco) as E. set (e := w_env w) in *.
  destruct (sql_rows_runs config (mail_hash e) (body_kind e) None (kept_mail e) (e_RcptTo e) (queued w))
    as (r&w'&fx&Er&_&Hd&Hf&Hlast&done_&rest&Hrc&Hrows&Hall).
  { intros w' Hw'. rewrite sql_mail_quiet, Hw'. unfold body_kind, kept_mail. destruct (in_redis e); [done|].
    cbn. unfold e. by destruct (Hashes (w_env w)). }
  assert (Hrows' : Forall2 (row_of e) done_ (executed fx)).
  { eapply list.Forall2_impl; [exact Hrows|]. intros rc row. unfold row_of, queued. cbn. unfold e. by destruct (Hashes (w_env w)). }
  destruct (e_RcptTo e) as [|rc rcs] eqn:Hr0.
  { exists (queued w), []. rewrite app_nil_r. split_and!; [done|done|]. left. split_and!; [exact E|constructor..]. }
  exists w', fx. split_and!; [done|done|]. rewrite Hrc.
  destruct r as [[err|]|[]| |]; [right|left|right..].
  2: { destruct (Hall eq_refl) as [-> Hdone]. rewrite app_nil_r. split; [|done]. intros p. rewrite E. unfold mbind, M_bind. by rewrite Er. }
  all: eexists _, done_, rest; split_and!; [intros p; rewrite E; unfold mbind, M_bind; by rewrite Er|done..].
Qed.

(** C39. Every recipient gets its row, with the whole message. For every envelope that was neither compressed nor stored in
    redis, and every database: when the processor sql hands on, it has inserted one row for each recipient, in their
    order, and nothing else, and the database answered each of these inserts with success; each row has
    the recipient's address, the hash, and in its mail column the delivery header and all of the data; the columns that
    are trimmed, which the columns of the hash, the mail and the message id are not, are at most 255 bytes long. When it
    does not hand on, it returned the 554 of a storage error, or panicked, or hangs on a header, and has tried to
    insert rows for a first part of the recipients only, of which all but the last were answered with success. *)
Theorem SQL_one_row_each config w :
  let e := w_env w in
  Values e !! bs "zlib-compressor" = None → Values e !! bs "redis" = None →
  ∃ w' fx, w_done w' = w_done w ++ fx ∧ Forall (only_sql (insert_query config 1)) fx ∧
    ((∀ p, SQL (Some config) p TaskSaveMail w = p TaskSaveMail w') ∧ all_done fx ∧
       Forall2 (row_for e (mail_hash e) [] (DeliveryHeader e ++ Data e)) (e_RcptTo e) (executed fx) ∨
     ∃ r done rest, (∀ p, SQL (Some config) p TaskSaveMail w = (r, w')) ∧ refused true r ∧ done_but_last fx ∧
       e_RcptTo e = done ++ rest ∧ Forall2 (row_for e (mail_hash e) [] (DeliveryHeader e ++ Data e)) done (executed fx)).
Proof.
  intros e Hco Hre. pose proof (SQL_outcome config w Hco) as H. unfold row_of, body_kind, kept_mail, in_redis in H.
  fold e in H. by rewrite Hre, bool_decide_eq_false_2 in H by apply is_Some_None.
Qed.


(** ** redis before sql *)
Lemma redisConnection_run w : ∃ err n, redisConnection w = (Ok err, mkWork (w_env w) n (w_done w)).
Proof. unfold redisConnection, tick, mbind, M_bind. cbn. destruct (connected_at _); by eexists _, _. Qed.
Lemma redis_Do_run command args w :
  let args' := args ++ [if driver_prints then Envelope_String (w_env w) else []] in
  let err := redis_do (w_now w) command args' in
  redis_Do command args (env Envelope_String) w =
    (Ok err, mkWork (w_env w) (S (w_now w)) (w_done w ++ [fx_redis command args' err])).
Proof. unfold redis_Do, emit, modify, tick, mbind, M_bind, env, gets. by destruct driver_prints. Qed.
(** What redis answers to the command that stores the message, at a moment. *)
Definition setex_answer (config : BackendConfig) (h : bytes) (e : Envelope) (t : nat) : option bytes :=
  redis_do t "SETEX" [h; Itoa (int_of config "redis_expire_seconds"); if driver_prints then Envelope_String e else []].
Lemma Redis_runs config p w h hs :
  Hashes (w_env w) = h :: hs → Values (w_env w) !! bs "zlib-compressor" = None →
  Redis (Some config) p TaskSaveMail w =
    (let '(err, w1) := redisConnection (queued w) in
     match err with
     | Ok (Some err) => redis_failed err w1
     | _ =>
         let answer := setex_answer config h (w_env w) (w_now w1) in
         let w2 := mkWork (w_env w1) (S (w_now w1)) (w_done w1 ++ [redis_set config h (w_env w) answer]) in
         match answer with
         | Some err => redis_failed err w2
         | None => p TaskSaveMail (mkWork (set_Values (<[bs "redis" := any_string "redis"]> (Values (w_env w))) (w_env w2)) (w_now w2) (w_done w2))
         end
     end).
Proof.
  intros Hh Hco. destruct (redisConnection_run (queued w)) as (err&n&Hc). rewrite Hc.
  unfold Redis, env, gets, mbind at 1, M_bind at 1, id. rewrite Hh.
  unfold mbind at 1, M_bind at 1. cbn [set_env modify]. unfold compressor_of. rewrite Hco.
  unfold mbind at 1, M_bind at 1. cbn [mret M_ret]. unfold mbind at 1, M_bind at 1.
  unfold queued in *. rewrite Hh in *. cbn [w_env w_now w_done] in *.
  change (modify _ w) with (@Ok Empty_set _ tt, mkWork (set_QueuedId h (w_env w)) (w_now w) (w_done w)). cbn iota beta.
  rewrite Hc. destruct err as [err|]; [done|].
  unfold mbind at 1, M_bind at 1. fold (@gets work Empty_set bytes (λ w, Envelope_String (w_env w))).
  pose proof (redis_Do_run "SETEX" [h; Itoa (int_of config "redis_expire_seconds")] (mkWork (set_QueuedId h (w_env w)) n (w_done w))) as Hdo.
  unfold env in Hdo. cbn zeta in Hdo. rewrite Hdo. unfold setex_answer, redis_set. cbn [w_env w_now w_done app].
  by destruct (redis_do n).
Qed.
Lemma Redis_outcome config w h hs :
  Hashes (w_env w) = h :: hs → Values (w_env w) !! bs "zlib-compressor" = None →
  ∃ w' fx, w_done w' = w_done w ++ fx ∧
    ((∀ p, Redis (Some config) p TaskSaveMail w = p TaskSaveMail w') ∧ fx = [redis_set config h (w_env w) None] ∧
       Values (w_env w') = <[bs "redis" := any_string "redis"]> (Values (w_env w)) ∧ Hashes (w_env w') = h :: hs ∧
       e_RcptTo (w_env w') = e_RcptTo (w_env w) ∨
     (∃ r, (∀ p, Redis (Some config) p TaskSaveMail w = (r, w')) ∧ refused true r) ∧
       (fx = [] ∨ ∃ err, fx = [redis_set config h (w_env w) (Some err)])).
Proof.
  intros Hh Hco. pose proof (λ p, Redis_runs config p w h hs Hh Hco) as E.
  destruct (redisConnection_run (queued w)) as (err&n&Hc). rewrite Hc in E. unfold queued in E. rewrite Hh in E. cbn in E.
  destruct err as [err|].
  { eexists _, []. rewrite app_nil_r. split; [|right; split; [eexists; split; [exact E|done]|by left]]. done. }
  destruct (setex_answer config h (w_env w) n) as [err|];
    eexists _, [redis_set config h (w_env w) _]; (split; [|first [right; split; [eexists; split; [exact E|done]|right; by eexists] | left; split_and!; [exact E|..]]]); done.
Qed.

(** C20. What the rows point to is there. With redis before sql in the stack, and no compressor, there are two cases.
    Redis was asked to store the message (its delivery header and data, as the driver prints them) under the first hash of the
    envelope, and answered that it has: every row for which sql then asks the database, also when a later insert
    fails, says that the mail is in redis under that very hash and has no copy of it; and when the
    stack hands on, there is one for each recipient and the database answered each with success. Or redis could not be
    reached, or answered with an error: then the message is refused and sql is not asked for anything. *)
Theorem stored_mail_is_found redis_config config w h hs :
  Hashes (w_env w) = h :: hs → Values (w_env w) !! bs "zlib-compressor" = None →
  let stack p := Decorate p [SQL (Some config); Redis (Some redis_config)] TaskSaveMail w in
  ∃ w' fx, w_done w' = w_done w ++ fx ∧
    ((∃ rest, fx = redis_set redis_config h (w_env w) None :: rest ∧
        Forall (only_sql (insert_query config 1)) rest ∧ Forall (points_to h) (executed rest) ∧
        ((∀ p, stack p = p TaskSaveMail w') ∧ length (executed rest) = length (e_RcptTo (w_env w)) ∧ all_done rest ∨
         ∃ r, (∀ p, stack p = (r, w')) ∧ refused true r)) ∨
     (fx = [] ∨ ∃ err, fx = [redis_set redis_config h (w_env w) (Some err)]) ∧
     ∃ r, (∀ p, stack p = (r, w')) ∧ refused true r).
Proof.
  intros Hh Hco stack. destruct (Redis_outcome redis_config w h hs Hh Hco) as (w1&fx1&Hd1&[(Hgo&->&Hval&Hhash&Hrc0)|[(r&Hr&Href) Hfx]]).
  2: { exists w1, fx1. split; [done|]. right. split; [done|]. exists r. split; [intros p; apply Hr|done]. }
  assert (Hco1 : Values (w_env w1) !! bs "zlib-compressor" = None) by (rewrite Hval; by rewrite lookup_insert_ne).
  assert (Hin : in_redis (w_env w1) = true).
  { unfold in_redis. rewrite Hval, lookup_insert_eq. by apply bool_decide_eq_true_2. }
  assert (Hpoint : ∀ rcpts rows, Forall2 (row_of (w_env w1)) rcpts rows → Forall (points_to h) rows).
  { intros rcpts rows. induction 1 as [|rc row rcpts rows (to&mid&rep&sen&ct&->&_) _ IH]; constructor; [|done].
    unfold body_kind, kept_mail, mail_hash. rewrite Hin, Hhash. by eexists _, _, _, _. }
  destruct (SQL_outcome config w1 Hco1) as (w2&fx2&Hd2&Hf&Hcase).
  exists w2, (redis_set redis_config h (w_env w) None :: fx2). split; [by rewrite Hd2, Hd1, <- app_assoc|]. left. exists fx2.
  destruct Hcase as [(Hgo2&Hdone&Hrows)|(r&done_&rest&Hr&Href&_&Hrc&Hrows)]; (split_and!; [done..|by eapply Hpoint|]).
  - left. split; [intros p; unfold stack, Decorate; cbn [foldl]; by rewrite Hgo, Hgo2|].
    apply Forall2_length in Hrows. split; [congruence|done].
  - right. exists r. split; [intros p; unfold stack, Decorate; cbn [foldl]; by rewrite Hgo, Hr|done].
Qed.
End Proofs.

Section Witnesses.
#[local] Instance as_it_is : Zlib := id.
#[local] Instance accepting : StorageServers := test_servers true (λ _, ex_done).

Lemma SQL_one_row_each_witness :
  let w := test_stored [bs "h1"] ∅ in
  Values (w_env w) !! bs "zlib-compressor" = None ∧ Values (w_env w) !! bs "redis" = None ∧
  ∃ w' fx, w_done w' = w_done w ++ fx ∧ length (executed fx) = 2 ∧
    (∀ p, SQL (Some test_sql_config) p TaskSaveMail w = p TaskSaveMail w').
Proof.
  intros w. split; [done|]. split; [done|].
  destruct (SQL_one_row_each test_sql_config w eq_refl eq_refl) as (w'&fx&Hd&_&[(Hgo&_&Hrows)|(r&done_&rest&Hr&Href&_)]).
  - exists w', fx. split; [exact Hd|]. split; [|exact Hgo]. by apply Forall2_length in Hrows.
  - specialize (Hr DefaultProcessor). apply (f_equal fst) in Hr. cbn [fst] in Hr.
    assert (E : (SQL (Some test_sql_config) DefaultProcessor TaskSaveMail w).1 = Ok (Some BackendResultOK, None)) by (vm_compute; reflexivity).
    rewrite E in Hr. subst r. done.
Defined.
Lemma stored_mail_is_found_witness :
  let w := test_stored [bs "h1"] ∅ in
  Hashes (w_env w) = [bs "h1"] ∧
  ∃ w' rest, w_done w' = redis_set test_sql_config (bs "h1") (w_env w) None :: rest ∧ Forall (points_to (bs "h1")) (executed rest) ∧
    length (executed rest) = 2 ∧ all_done rest.
Proof.
  intros w. split; [done|].
  destruct (stored_mail_is_found test_sql_config test_sql_config w (bs "h1") [] eq_refl eq_refl)
    as (w'&fx&Hd&[(rest&->&_&Hp&[(_&Hl&Ha)|(r&Hr&Href)])|(_&r&Hr&Href)]).
  - exists w', rest. split_and!; [exact Hd|exact Hp|exact Hl|exact Ha].
  - specialize (Hr DefaultProcessor). apply (f_equal fst) in Hr. vm_compute in Hr. subst r. destruct Href.
  - specialize (Hr DefaultProcessor). apply (f_equal fst) in Hr. vm_compute in Hr. subst r. destruct Href.
Defined.
End Witnesses.

(** With the compressor, printing the first row empties the message: the second recipient's row holds the delivery
    header only, and both are accepted. *)
Example second_recipient_loses_body :
  let w := test_stored [bs "h1"] {[ bs "zlib-compressor" := any_compressor (mkDataCompressor "Received: x;" true) ]} in
  let run := @SQL id (test_servers true (λ _, ex_done)) (Some test_sql_config) DefaultProcessor TaskSaveMail w in
  run.1 = Ok (Some BackendResultOK, None) ∧
  map (λ row, nth 4 row (sv_bool false)) (executed (w_done run.2)) = [sv_text "Received: x;Subject: hi"; sv_text "Received: x;"].
Proof. vm_compute. auto. Qed.
(** An IPv6 address is stored only if it has a double colon that is not at its front. *)
Example addresses_in_rows :
  map ip2bint [bs "10.0.0.1"; bs "2001:db8::1"; bs "2001:db8:0:0:1:0:0:1"; bs "::1"; bs "nonsense"] =
    [map byte_of [10; 0; 0; 1]%Z; map byte_of [32; 1; 13; 184; 0; 0; 0; 0; 0; 0; 0; 0; 0; 0; 0; 1]%Z; []; []; []].
Proof. vm_compute. reflexivity. Qed.
(** A placeholder for each value of a row. *)
Example one_placeholder_for_each_value : placeholders default_values = 14.
Proof. reflexivity. Qed.
Example queries :
  insert_query {[ bs "sql_insert" := CString "INSERT INTO t"; bs "sql_values" := CString "(?)" ]} 3 = bs "INSERT INTO t (?),(?),(?)".
Proof. reflexivity. Qed.
