(* ===== verification/GuerrillaDb.v ===== *)
(** * The processor guerrillaredisdb: backends/p_guerrilla_db_redis.go

    The message goes to redis, and a row about it to a goroutine that inserts rows in batches. The goroutine is a
    state that goes through the events of its select: a row, the timer, the stop signal of the
    shutdown. A worker has its own processor, so that one message follows another in it. *)
From S2P Require Import Prelude GoStd Response Shared Envelope Tenant Backend Processor Storage.

Definition GuerrillaDBAndRedisBatchMax : nat := 50.
Definition GuerrillaDBAndRedisBatchTimeout : Z := (3 * second)%Z.
Definition guerrillaDBAndRedisConfig : list field :=
  [mkField "save_workers_size" f_int false; mkField "mail_table" f_string false; mkField "sql_driver" f_string false;
   mkField "sql_dsn" f_string false; mkField "redis_expire_seconds" f_int false; mkField "redis_interface" f_string false;
   mkField "primary_mail_host" f_string false; mkField "redis_sql_batch_timeout" f_int true].
Definition getNumberOfWorkers (config : BackendConfig) : Z := int_of config "save_workers_size".
Definition guerrilla_insert (table : bytes) (rows : nat) : bytes :=
  bs "INSERT INTO " ++ table ++
  bs "(`date`, `to`, `from`, `subject`, `body`, `charset`, `mail`, `spam_score`, `hash`, `content_type`, " ++
  bs "`recipient`, `has_attach`, `ip_addr`, `return_path`, `is_tls`) values " ++
  with_commas "(NOW(), ?, ?, ?, ? , 'UTF-8' , ?, 0, ?, '', ?, 0, ?, ?, ?)" rows.

(** ** The batcher

    The driver answers when it is asked, with the statement and its arguments. *)
Class Database := {
  db_prepare : nat → bytes → option bytes;
  num_input : bytes → Z;
  db_exec : nat → bytes → list sqlval → exec_answer
}.
Definition database_closed : bytes := "sql: database is closed".
(** [b_saved] is what the database has carried out: statements with their arguments. *)
Record batcher := mkBatcher {
  b_vals : list sqlval; b_count : nat; b_prepared : gset nat; b_open : bool; b_now : nat; b_saved : list (bytes * list sqlval)
}.
(** [Fatalf] of the logger ends the program. *)
Inductive batch_exit : Type := exit_program (err : bytes).
Abbreviation Batch := (M batcher batch_exit).
Inductive batch_event : Type := ev_row (row : list sqlval) | ev_timer | ev_stop.

Section Batcher.
Context {DB : Database}.

(** A question to the database, at a moment; a closed one refuses everything. *)
Definition ask_database {A : Type} (closed : A) (f : nat → A) : Batch A := λ s,
  (Ok (if b_open s then f (b_now s) else closed),
   mkBatcher (b_vals s) (b_count s) (b_prepared s) (b_open s) (S (b_now s)) (b_saved s)).
Definition now_prepared (rows : nat) : Batch unit := modify (λ s,
  mkBatcher (b_vals s) (b_count s) ({[rows]} ∪ b_prepared s) (b_open s) (b_now s) (b_saved s)).
Definition carry_out (done : bool) (query : bytes) (args : list sqlval) : Batch unit := modify (λ s,
  mkBatcher (b_vals s) (b_count s) (b_prepared s) (b_open s) (b_now s) (b_saved s ++ if done then [(query, args)] else [])).
Definition stmt_Exec (query : bytes) (args : list sqlval) : Batch exec_answer :=
  ask_database (ex_failed database_closed false) (λ t, checked_exec num_input (db_exec t) query args).
Definition set_batch (vals : list sqlval) (count : nat) : Batch unit := modify (λ s,
  mkBatcher vals count (b_prepared s) (b_open s) (b_now s) (b_saved s)).

Definition batch_prepare (table : bytes) (rows : nat) : Batch unit :=
  if (rows =? 0) || (GuerrillaDBAndRedisBatchMax <? rows) then panic
  else
    cached ← gets (λ s, bool_decide (rows ∈ b_prepared s));
    if (cached : bool) then mret tt
    else
      err ← ask_database (Some database_closed) (λ t, db_prepare t (guerrilla_insert table rows));
      match err with Some err => fail (exit_program err) | None => now_prepared rows end.
Definition batch_query (table : bytes) (c : nat) : Batch (option bytes) :=
  batch_prepare table c;;
  vals ← gets b_vals;
  let insertStmt := guerrilla_insert table c in
  answer ← stmt_Exec insertStmt vals;
  match answer with
  | ex_done => carry_out true insertStmt vals;; mret None
  | ex_failed err stored => carry_out stored insertStmt vals;; mret (Some err)
  | ex_panicked stored => carry_out stored insertStmt vals;; panic
  end.
(** The loop of the retries; [continue] goes on with it, also when the insert succeeded. *)
Fixpoint retry (attempts : nat) (table : bytes) (c : nat) : Batch unit :=
  match attempts with
  | 0 => mret tt
  | S attempts => batch_query table c;; retry attempts table c
  end.
Definition inserter (table : bytes) (c : nat) : Batch unit :=
  (if c =? 0 then mret tt
   else
     err ← batch_query table c;
     match err with Some _ => retry 3 table c | None => mret tt end);;
  set_batch [] 0.
Definition enter_batcher (table : bytes) : Batch unit := set_batch [] 0;; batch_prepare table GuerrillaDBAndRedisBatchMax.

(** One turn of the select; it says whether to go on. *)
Definition batch_step (table : bytes) (ev : batch_event) : Batch bool :=
  match ev with
  | ev_stop => count ← gets b_count; inserter table count;; mret false
  | ev_row row =>
      vals ← gets b_vals;
      count ← gets b_count;
      set_batch (vals ++ row) (S count);;
      (if GuerrillaDBAndRedisBatchMax <=? S count then inserter table GuerrillaDBAndRedisBatchMax else mret tt);;
      mret true
  | ev_timer =>
      vals ← gets b_vals;
      count ← gets b_count;
      (if 0 <? length vals then inserter table count else mret tt);;
      mret true
  end.
(** The goroutine: a panic is recovered from, and the batcher entered again with no rows. *)
Fixpoint run_batcher (table : bytes) (events : list batch_event) : Batch unit :=
  match events with
  | [] => mret tt
  | ev :: events => λ s,
      match batch_step table ev s with
      | (Ok true, s') => run_batcher table events s'
      | (Ok false, s') => (Ok tt, s')
      | (Panic, s') => (enter_batcher table;; run_batcher table events) s'
      | (Err e, s') => (Err e, s')
      | (OutOfFuel, s') => (OutOfFuel, s')
      end
  end.
Definition insertQueryBatcher (table : bytes) (events : list batch_event) : Batch unit :=
  enter_batcher table;; run_batcher table events.
(** The shutdowner closes the database first, and stops the batcher then. *)
Definition close_database : Batch unit := modify (λ s,
  mkBatcher (b_vals s) (b_count s) (b_prepared s) false (b_now s) (b_saved s)).
Definition batcher_shutdown (table : bytes) : Batch unit := close_database;; run_batcher table [ev_stop].
End Batcher.

(** The time between two ticks; the number of the configuration is one of nanoseconds. *)
Definition batch_timeout (config : BackendConfig) : Z :=
  let t := int_of config "redis_sql_batch_timeout" in if (0 <? t)%Z then t else GuerrillaDBAndRedisBatchTimeout.

(** ** The processor *)
Section GuerrillaDb.
Context {U : Unicode} {Zl : Zlib} {St : StorageServers} {K : Clock} {D : Digest} {WD : WordDecoder} {MR : MIMEReader}.

Definition sqlConnect (opened selected : option bytes) : outcome bytes unit := ok_unless opened;; ok_unless selected.
Definition GuerrillaDbRedis_init (backendConfig : BackendConfig) (opened selected : option bytes) : outcome bytes BackendConfig :=
  config ← ExtractConfig backendConfig guerrillaDBAndRedisConfig;
  sqlConnect opened selected;;
  mret config.

(** Text that is compressed when it is printed; [cd_data] says whether it points to the data of the envelope, which
    printing reads to its end. *)
Record compressedData := mkCompressedData { cd_headers : bytes; cd_data : bool }.
Definition compressedData_String (c : compressedData) : Work bytes :=
  if cd_data c then
    d ← env Data;
    set_env (set_Data []);;
    mret (deflate (cd_headers c ++ d))
  else mret [].
Definition compressedData_clear : compressedData := mkCompressedData [] false.
Definition MD5Hex (args : list bytes) : bytes := hex_bytes (md5_sum (concat args)).

Definition set_first_host (host : bytes) (e : Envelope) : Envelope :=
  match e_RcptTo e with
  | a :: l => set_RcptTo (mkAddress (User a) host (a_ADL a) (a_PathParams a) (a_NullPath a) (Quoted a) (a_IP a) (a_DisplayName a) (a_DisplayNameQuoted a) :: l) e
  | [] => e
  end.
Definition crlf : bytes := [CR; LF].
Definition added_head (to host hash date : bytes) (e : Envelope) : bytes :=
  bs "Delivered-To: " ++ to ++ crlf ++
  bs "Received: from " ++ RemoteIP e ++ bs " ([" ++ RemoteIP e ++ bs "])" ++ crlf ++
  [TAB] ++ bs "by " ++ host ++ bs " with " ++ protocol e ++ bs " id " ++ hash ++ bs "@" ++ host ++ bs ";" ++ crlf ++
  [TAB] ++ date ++ crlf.
(** Storing the data in redis: what the row says of it, and what is still to be put into the row. *)
Definition store_data (config : BackendConfig) (hash : bytes) (data : compressedData) : Work (bytes * compressedData) :=
  redisErr ← redisConnection;
  match redisErr with
  | Some _ => mret (bs "gzencode", data)
  | None =>
      doErr ← redis_Do "SETEX" [hash; Itoa (int_of config "redis_expire_seconds")] (compressedData_String data);
      match doErr with
      | None => mret (bs "redis", compressedData_clear)
      | Some _ => mret (bs "gzencode", data)
      end
  end.
Definition parse_headers : Work unit :=
  e ← env id;
  match ParseHeaders e with
  | Ok (_, e') => set_env (λ _, e')
  | Err _ | Panic => panic
  | OutOfFuel => out_of_fuel
  end.
(** The row that goes to the batcher. There is one batcher for a processor. *)
Definition GuerrillaDbRedis (config : option BackendConfig) : Decorator := λ p task,
  match task with
  | TaskValidateRcpt => p task
  | TaskSaveMail =>
      rcpts ← env e_RcptTo;
      match rcpts, config with
      | rcpt :: _, Some config =>
          let to := trimToLimit (TrimSpace (User rcpt) ++ bs "@" ++ string_of config "primary_mail_host") 255 in
          let host := trimToLimit (Host rcpt) 255 in
          set_env (λ e, set_first_host host (set_Helo (trimToLimit (e_Helo e) 255) e));;
          t ← tick;
          parse_headers;;
          e ← env id;
          let hash := MD5Hex [to; Address_String (e_MailFrom e); Subject e; Itoa (unix_nano t)] in
          set_env (set_QueuedId hash);;
          t ← tick;
          let data := mkCompressedData (added_head to host hash (rfc1123z t) e) true in
          '(body, data) ← store_data config hash data;
          text ← compressedData_String data;
          let from := trimToLimit (Address_String (e_MailFrom e)) 255 in
          emit (fx_feed 0 [sv_text (trimToLimit to 255); sv_text from; sv_text (trimToLimit (Subject e) 255); sv_text body;
            sv_text text; sv_text hash; sv_text (trimToLimit to 255); sv_text (RemoteIP e); sv_text from; sv_bool (TLS e)]);;
          p task
      | _, _ => panic
      end
  end.
End GuerrillaDb.

(** ** Notions used by the statements *)

(** The rows that a sequence of events brings. *)
Definition event_rows (ev : batch_event) : list (list sqlval) := match ev with ev_row row => [row] | _ => [] end.
Definition fed (events : list batch_event) : list (list sqlval) := concat (map event_rows events).
Definition is_stop (ev : batch_event) : bool := match ev with ev_stop => true | _ => false end.
Definition stops (events : list batch_event) : bool := existsb is_stop events.
(** Nothing comes after the signal to stop. *)
Fixpoint stops_last (events : list batch_event) : Prop :=
  match events with
  | [] => True
  | ev :: events => (is_stop ev = true → events = []) ∧ stops_last events
  end.
(** A database that refuses nothing, rows of ten values as the processor feeds them, and a name of a table that is none of
    a placeholder. *)
Definition accepting `{Database} (table : bytes) (rows : list (list sqlval)) : Prop :=
  (∀ t q, db_prepare t q = None) ∧ (∀ t q args, db_exec t q args = ex_done) ∧
  (∀ q, (num_input q < 0)%Z ∨ num_input q = Z.of_nat (placeholders q)) ∧
  Forall (λ row, length row = 10) rows ∧ "?"%char ∉ table.
(** The next insert is not refused. *)
Definition healthy `{Database} (table : bytes) (n : nat) (s : batcher) : Prop :=
  (∀ t q, db_prepare t q = None) ∧ (∀ t q args, db_exec t q args = ex_done) ∧
  (let k := num_input (guerrilla_insert table n) in (k < 0)%Z ∨ k = Z.of_nat (length (b_vals s))) ∧ b_open s = true.
(** What the database has carried out are batches of these rows, in order: each of at most fifty rows, by the statement
    for that number of rows, and at most four times. *)
Definition in_batches (good : Prop) (table : bytes) (rows : list (list sqlval)) (saved : list (bytes * list sqlval)) : Prop :=
  ∃ batches : list (list (list sqlval) * nat), concat (map fst batches) = rows ∧
    saved = concat (map (λ b, replicate b.2 (guerrilla_insert table (length b.1), concat b.1)) batches) ∧
    Forall (λ b, 1 ≤ length b.1 ≤ GuerrillaDBAndRedisBatchMax ∧ b.2 ≤ 4 ∧ (good → b.2 = 1)) batches.
Definition new_batcher : batcher := mkBatcher [] 0 ∅ true 0 [].
(** The rows so far: inserted, or waiting. *)
Definition accounted (good : Prop) (table : bytes) (rows : list (list sqlval)) (s : batcher) : Prop :=
  ∃ done pending, rows = done ++ pending ∧ in_batches good table done (b_saved s) ∧
    b_vals s = concat pending ∧ b_count s = length pending ∧ length pending < GuerrillaDBAndRedisBatchMax.

(** Where the message is: in redis, and not in the row; in the row after redis had failed, without its data if the
    driver had printed them; or in the row, when there was no connection. *)
Definition stored_as `{Zlib} `{StorageServers} (config : BackendConfig) (hash head data body text : bytes) (fx : list effect) : Prop :=
  let set := fx_redis "SETEX" [hash; Itoa (int_of config "redis_expire_seconds"); if driver_prints then deflate (head ++ data) else []] in
  (fx = [set None] ∧ body = bs "redis" ∧ text = []) ∨
  ((∃ err, fx = [set (Some err)]) ∧ body = bs "gzencode" ∧ text = deflate (head ++ if driver_prints then [] else data)) ∨
  (fx = [] ∧ body = bs "gzencode" ∧ text = deflate (head ++ data)).

(** *** A database that may fail, and sixty rows *)
Definition test_db (exec : nat → exec_answer) : Database :=
  {| db_prepare := λ _ _, None; num_input := λ q, Z.of_nat (placeholders q); db_exec := λ t _ _, exec t |}.
Definition test_row (c : bytes) : list sqlval := replicate 10 (sv_text c).
Definition test_events : list batch_event := replicate 60 (ev_row (test_row "a")) ++ [ev_timer; ev_row (test_row "b"); ev_stop].
Definition test_guerrilla (servers : StorageServers) : Decorator :=
  @GuerrillaDbRedis id servers {| unix_nano := λ _, 0%Z; rfc1123z := λ _, bs "now" |} id (λ _, None) (λ _, (None, None)) (Some test_sql_config).

(** * Proofs *)
Section BatcherProofs.
Context {DB : Database}.

Lemma placeholders_app a b : placeholders (a ++ b) = placeholders a + placeholders b.
Proof. unfold placeholders. by rewrite list.filter_app, length_app. Qed.
Lemma placeholders_insert table n : "?"%char ∉ table → placeholders (guerrilla_insert table n) = 10 * n.
Proof.
  intros Ht. unfold guerrilla_insert. rewrite !placeholders_app.
  assert (placeholders table = 0) as ->.
  { unfold placeholders. induction table as [|c table IH]; [done|]. rewrite not_elem_of_cons in Ht. destruct Ht as [H1 H2].
    rewrite filter_cons_False by congruence. by apply IH. }
  assert (∀ v, placeholders (with_commas v n) = placeholders v * n) as Hw.
  { intros v. induction n as [|[|m] IH]; [by cbn; rewrite Nat.mul_0_r|by cbn [with_commas]; lia|].
    change (with_commas v (S (S m))) with (v ++ bs "," ++ with_commas v (S m)). rewrite !placeholders_app, IH. change (placeholders (bs ",")) with 0. lia. }
  rewrite Hw. reflexivity.
Qed.
Lemma concat_ten (rows : list (list sqlval)) : Forall (λ row, length row = 10) rows → length (concat rows) = 10 * length rows.
Proof. induction 1 as [|row rows Hr _ IH]; [done|]. cbn [concat length]. rewrite length_app. lia. Qed.
(** The rows that wait are fit for the statement that inserts them. *)
Lemma accepting_healthy table rows s : accepting table rows → b_open s = true → b_vals s = concat rows →
  healthy table (length rows) s.
Proof.
  intros (H1&H2&H3&H4&H5) Ho Hv. split_and!; [done..| |done]. cbn zeta. destruct (H3 (guerrilla_insert table (length rows))) as [?| ->]; [by left|right].
  by rewrite placeholders_insert, Hv, concat_ten.
Qed.

Definition same_batch (s s' : batcher) : Prop := b_vals s' = b_vals s ∧ b_count s' = b_count s ∧ b_open s' = b_open s.
Lemma batch_prepare_run table n s r s' :
  1 ≤ n ≤ GuerrillaDBAndRedisBatchMax → batch_prepare table n s = (r, s') →
  same_batch s s' ∧ b_saved s' = b_saved s ∧
  (r = Ok tt ∨ ¬ ((∀ t q, db_prepare t q = None) ∧ b_open s = true) ∧ ∃ err, r = Err (exit_program err)).
Proof.
  intros Hn. unfold batch_prepare. destruct (Nat.eqb_spec n 0); [lia|]. destruct (Nat.ltb_spec GuerrillaDBAndRedisBatchMax n); [lia|].
  cbn [orb]. unfold gets, ask_database, now_prepared, modify, mbind, M_bind. case_bool_decide as Hin.
  - intros [= <- <-]. split_and!; auto; by split_and!.
  - destruct (b_open s) eqn:Ho; [destruct (db_prepare _ _) eqn:Hp|]; intros [= <- <-]; cbn; (split; [by split_and!|]); (split; [done|]).
    + right. split; [|by eexists]. intros (H1&_). by rewrite H1 in Hp.
    + by left.
    + right. split; [|by eexists]. by intros [_ ?].
Qed.
(** What became of an insert: how often it was carried out, and how it ended. *)
Definition insert_ended {A} (good : A) (r : outcome batch_exit A) : Prop :=
  r = Ok good ∨ r = Panic ∨ ∃ err, r = Err (exit_program err).
Definition inserts (table : bytes) (n : nat) (s s' : batcher) (k : nat) : Prop :=
  b_saved s' = b_saved s ++ replicate k (guerrilla_insert table n, b_vals s).
Lemma stmt_Exec_run q args s :
  ∃ a, stmt_Exec q args s = (Ok a, mkBatcher (b_vals s) (b_count s) (b_prepared s) (b_open s) (S (b_now s)) (b_saved s)) ∧
    ((∀ t q args, db_exec t q args = ex_done) → ((num_input q < 0)%Z ∨ num_input q = Z.of_nat (length args)) → b_open s = true → a = ex_done).
Proof.
  unfold stmt_Exec, ask_database, checked_exec. eexists. split; [reflexivity|]. intros Hx Hn ->. cbn zeta.
  destruct Hn as [Hn| ->]; [by rewrite (proj2 (Z.leb_gt _ _)), Hx|]. by rewrite Z.eqb_refl, andb_false_r, Hx.
Qed.
Lemma batch_query_run table n s r s' :
  1 ≤ n ≤ GuerrillaDBAndRedisBatchMax → batch_query table n s = (r, s') →
  same_batch s s' ∧ (∃ k, k ≤ 1 ∧ (r = Ok None → k = 1) ∧ inserts table n s s' k) ∧
  (r = Ok None ∨ ¬ healthy table n s ∧ ((∃ err, r = Ok (Some err)) ∨ r = Panic ∨ ∃ err, r = Err (exit_program err))).
Proof.
  intros Hn. unfold batch_query, mbind, M_bind. destruct (batch_prepare table n s) as [rp s1] eqn:Hp.
  destruct (batch_prepare_run _ _ _ _ _ Hn Hp) as ((Hv&Hc&Ho)&Hs&[->|(Hh&err&->)]).
  - unfold gets. destruct (stmt_Exec_run (guerrilla_insert table n) (b_vals s1) s1) as (a&Ha&Hd). rewrite Ha.
    assert (healthy table n s → a = ex_done) as Hd' by (intros (_&H2&H3&H4); apply Hd; [done|by rewrite Hv|by rewrite Ho]).
    unfold inserts, carry_out, modify, panic. destruct a as [|err stored|stored]; intros [= <- <-]; cbn; (split; [by split_and!|]);
      rewrite Hs, Hv.
    + split; [by exists 1|by left].
    + split; [|right; split; [by intros ?%Hd'|left; by eexists]].
      destruct stored; [exists 1|exists 0]; split_and!; done || lia.
    + split; [|right; split; [by intros ?%Hd'|by right; left]]. destruct stored; [exists 1|exists 0]; split_and!; done || lia.
  - intros [= <- <-]. split; [by split_and!|]. split; [exists 0; split_and!; [lia|done|unfold inserts; by rewrite app_nil_r]|].
    right. split; [|right; right; by eexists]. intros (H1&_&_&H4). by apply Hh.
Qed.
Lemma inserts_trans table n s s1 s2 k1 k2 : same_batch s s1 →
  inserts table n s s1 k1 → inserts table n s1 s2 k2 → inserts table n s s2 (k1 + k2).
Proof. unfold inserts. intros (Hv&_&_) H1 H2. by rewrite H2, H1, Hv, <- app_assoc, replicate_add. Qed.
Lemma same_batch_trans s s1 s2 : same_batch s s1 → same_batch s1 s2 → same_batch s s2.
Proof. intros (?&?&?) (?&?&?). split_and!; congruence. Qed.
Lemma retry_run table c attempts : ∀ s r s',
  1 ≤ c ≤ GuerrillaDBAndRedisBatchMax → retry attempts table c s = (r, s') →
  same_batch s s' ∧ (∃ k, k ≤ attempts ∧ inserts table c s s' k) ∧ insert_ended tt r.
Proof.
  induction attempts as [|n IH]; intros s r s' Hc; cbn.
  { intros [= <- <-]. split_and!; [by split_and!|exists 0; split; [lia|unfold inserts; by rewrite app_nil_r]|by left]. }
  unfold mbind, M_bind. destruct (batch_query table c s) as [rq s1] eqn:Hq.
  destruct (batch_query_run _ _ _ _ _ Hc Hq) as (Hs1&(k1&Hk1&_&Hi1)&Hr1).
  destruct rq as [a|e| |]; [|intros [= <- <-]; (split; [done|]); (split; [exists k1; split; [lia|done]|])..].
  - intros (Hs2&(k&Hk&Hi2)&Hr)%IH; [|done]. split_and!; [by eapply same_batch_trans| |done].
    exists (k1 + k). split; [lia|by eapply inserts_trans].
  - right; right. destruct Hr1 as [[=]|(_&[[? [=]]|[[=]|[err [= ->]]]])]. by eexists.
  - by right; left.
  - destruct Hr1 as [[=]|(_&[[? [=]]|[[=]|[err [=]]]])].
Qed.
Lemma inserter_run table c s r s' :
  1 ≤ c ≤ GuerrillaDBAndRedisBatchMax → inserter table c s = (r, s') →
  b_open s' = b_open s ∧ (∃ k, k ≤ 4 ∧ (healthy table c s → k = 1) ∧ inserts table c s s' k) ∧
  (r = Ok tt ∧ b_vals s' = [] ∧ b_count s' = 0 ∨ ¬ healthy table c s ∧ (r = Panic ∨ ∃ err, r = Err (exit_program err))).
Proof.
  intros Hc. unfold inserter. destruct (Nat.eqb_spec c 0); [lia|].
  unfold mbind, M_bind. destruct (batch_query table c s) as [rq s1] eqn:Hq.
  destruct (batch_query_run _ _ _ _ _ Hc Hq) as (Hs1&(k1&Hk1&Hk1'&Hi1)&Hr1). pose proof Hs1 as (_&_&Ho).
  destruct Hr1 as [->|(Hh&[[err ->]|[->|[err ->]]])].
  - intros [= <- <-]. split_and!; [done|exists k1; split_and!; [lia|auto|done]|left; by split_and!].
  - destruct (retry 3 table c s1) as [rr s2] eqn:Hr. destruct (retry_run _ _ _ _ _ _ Hc Hr) as (Hs2&(k&Hk&Hi2)&Hr').
    assert (inserts table c s s2 (k1 + k)) as Hi by (by eapply inserts_trans). pose proof Hs2 as (_&_&Ho2).
    destruct Hr' as [->|[->|[err' ->]]]; intros [= <- <-]; cbn; (split; [congruence|]);
      (split; [exists (k1 + k); split_and!; [lia|done|exact Hi]|]); [left; by split_and!|right; eauto..].
  - intros [= <- <-]. split_and!; [done|exists k1; split_and!; [lia|done|done]|right; eauto].
  - intros [= <- <-]. split_and!; [done|exists k1; split_and!; [lia|done|done]|right; eauto].
Qed.

Lemma in_batches_snoc good table rows saved batch k :
  in_batches good table rows saved → 1 ≤ length batch ≤ GuerrillaDBAndRedisBatchMax → k ≤ 4 → (good → k = 1) →
  in_batches good table (rows ++ batch) (saved ++ replicate k (guerrilla_insert table (length batch), concat batch)).
Proof.
  intros (bs0&<-&->&HF) Hl Hk Hg. exists (bs0 ++ [(batch, k)]). rewrite !map_app, !concat_app. cbn. rewrite !app_nil_r.
  split_and!; [done|done|]. apply Forall_app. split; [done|]. by apply Forall_singleton.
Qed.
Lemma accounted_flushed good table rows s : in_batches good table rows (b_saved s) → b_vals s = [] → b_count s = 0 → accounted good table rows s.
Proof. intros H Hv Hc. exists rows, []. rewrite app_nil_r. split_and!; try done. cbn. unfold GuerrillaDBAndRedisBatchMax. lia. Qed.
Lemma enter_run good table rows s r s' : in_batches good table rows (b_saved s) → (good → (∀ t q, db_prepare t q = None) ∧ b_open s = true) →
  enter_batcher table s = (r, s') →
  b_open s' = b_open s ∧ in_batches good table rows (b_saved s') ∧
  (r = Ok tt ∧ b_vals s' = [] ∧ b_count s' = 0 ∨ ¬ good ∧ ∃ err, r = Err (exit_program err)).
Proof.
  intros Hin Hgood. unfold enter_batcher, set_batch, modify, mbind, M_bind. intros Hp.
  apply batch_prepare_run in Hp as ((Hv&Hc&Ho)&Hs&Hr); [|unfold GuerrillaDBAndRedisBatchMax; lia]. cbn in *.
  split; [done|]. split; [by rewrite Hs|]. destruct Hr as [->|(Hh&Hr)]; [by left|right]. split; [|done]. auto.
Qed.

Section Rows.
Context (good : Prop) (table : bytes) (all : list (list sqlval)).
Hypothesis good_accepting : good → accepting table all.

(** The next insert of some of the rows is not refused. *)
Lemma good_healthy pending s : pending `sublist_of` all → (good → b_open s = true) → b_vals s = concat pending →
  good → healthy table (length pending) s.
Proof.
  intros Hsub Ho Hv Hg. destruct (good_accepting Hg) as (H1&H2&H3&H4&H5). apply accepting_healthy; [split_and!; try done|auto|done].
  apply list.Forall_forall. intros row Hrow. rewrite list.Forall_forall in H4. apply H4. by eapply elem_of_submseteq, sublist_submseteq.
Qed.
(** Inserting what waits. *)
Lemma flush_run c s r s' done_ pending :
  pending `sublist_of` all → (good → b_open s = true) → in_batches good table done_ (b_saved s) → b_vals s = concat pending → c = length pending →
  1 ≤ c ≤ GuerrillaDBAndRedisBatchMax → inserter table c s = (r, s') →
  b_open s' = b_open s ∧ in_batches good table (done_ ++ pending) (b_saved s') ∧
  (r = Ok tt ∧ b_vals s' = [] ∧ b_count s' = 0 ∨ ¬ good ∧ (r = Panic ∨ ∃ err, r = Err (exit_program err))).
Proof.
  intros Hsub Hgood Hin Hv -> Hc E. destruct (inserter_run _ _ _ _ _ Hc E) as (Ho&(k&Hk&H1&Hs)&Hr).
  pose proof (good_healthy _ _ Hsub Hgood Hv) as Hh.
  split; [done|]. split; [rewrite Hs, Hv; apply in_batches_snoc; auto|].
  destruct Hr as [Hr|[Hn Hr]]; [by left|right]. split; [|done]. auto.
Qed.

Lemma batch_step_run ev rows s r s' :
  rows ++ event_rows ev `sublist_of` all → (good → b_open s = true) → accounted good table rows s → batch_step table ev s = (r, s') →
  b_open s' = b_open s ∧
  ((∃ go, r = Ok go ∧ accounted good table (rows ++ event_rows ev) s' ∧
     (go = false ↔ ev = ev_stop) ∧ (ev = ev_stop → b_vals s' = [] ∧ b_count s' = 0)) ∨
   ¬ good ∧ in_batches good table (rows ++ event_rows ev) (b_saved s') ∧ (r = Panic ∨ ∃ err, r = Err (exit_program err))).
Proof.
  intros Hall Hgood Hacc. pose proof Hacc as (done_&pending&->&Hin&Hv&Hc&Hlt). rewrite <- app_assoc in *.
  assert (pending ++ event_rows ev `sublist_of` all) as Hsub by (etrans; [|exact Hall]; by apply sublist_inserts_l).
  destruct ev as [row| |]; cbn [batch_step event_rows] in *; unfold gets, set_batch, modify, mbind at 1, M_bind at 1.
  - unfold mbind, M_bind. set (s1 := mkBatcher _ _ _ _ _ _).
    assert (Hv1 : b_vals s1 = concat (pending ++ [row])) by (cbn; rewrite Hv, concat_app; cbn; by rewrite app_nil_r).
    assert (Hl1 : S (b_count s) = length (pending ++ [row])) by (rewrite length_app, Hc; cbn; lia).
    destruct (Nat.leb_spec GuerrillaDBAndRedisBatchMax (S (b_count s))) as [Hfull|Hfull].
    + destruct (inserter table GuerrillaDBAndRedisBatchMax s1) as [ri s2] eqn:E.
      assert (Hl2 : GuerrillaDBAndRedisBatchMax = length (pending ++ [row])) by lia.
      assert (Hc2 : 1 ≤ GuerrillaDBAndRedisBatchMax ≤ GuerrillaDBAndRedisBatchMax) by (unfold GuerrillaDBAndRedisBatchMax; lia).
      destruct (flush_run _ s1 ri s2 done_ (pending ++ [row]) Hsub Hgood Hin Hv1 Hl2 Hc2 E)
        as (Ho&Hb&[(->&Hv2&Hc3)|(Hg&[->|[err ->]])]);
        intros [= <- <-]; (split; [done|]); [left; exists true|right; split_and!; eauto..].
      split_and!; [done|by apply accounted_flushed|done|done].
    + intros [= <- <-]. split; [done|]. left. exists true. split_and!; [done| |done|done].
      exists done_, (pending ++ [row]). split_and!; [done|done|done|done|]. rewrite <- Hl1. done.
  - unfold mbind, M_bind. rewrite app_nil_r in *. destruct (Nat.ltb_spec 0 (length (b_vals s))) as [Hpos|Hpos].
    + assert (Hb1 : 1 ≤ b_count s ≤ GuerrillaDBAndRedisBatchMax).
      { rewrite Hv in Hpos. rewrite Hc. split; [|lia]. destruct pending; [cbn in Hpos|cbn]; lia. }
      destruct (inserter table (b_count s) s) as [ri s2] eqn:E.
      destruct (flush_run _ s ri s2 done_ pending Hsub Hgood Hin Hv Hc Hb1 E)
        as (Ho&Hb&[(->&Hv2&Hc2)|(Hg&[->|[err ->]])]); intros [= <- <-]; (split; [done|]);
        [left; exists true|right; split_and!; eauto..].
      split_and!; [done|by apply accounted_flushed|done|done].
    + intros [= <- <-]. split; [done|]. left. exists true. split_and!; [done|exact Hacc|done|done].
  - unfold mbind, M_bind. rewrite app_nil_r in *. destruct (Nat.eq_dec (b_count s) 0) as [H0|H0].
    + unfold inserter. rewrite H0. cbn. intros [= <- <-]. split; [done|]. left. exists false.
      destruct pending; [|cbn in Hc; lia]. rewrite app_nil_r.
      split_and!; [done|by apply accounted_flushed|done|done].
    + assert (Hb1 : 1 ≤ b_count s ≤ GuerrillaDBAndRedisBatchMax) by lia.
      destruct (inserter table (b_count s) s) as [ri s2] eqn:E.
      destruct (flush_run _ s ri s2 done_ pending Hsub Hgood Hin Hv Hc Hb1 E)
        as (Ho&Hb&[(->&Hv2&Hc2)|(Hg&[->|[err ->]])]); intros [= <- <-]; (split; [done|]);
        [left; exists false|right; split_and!; eauto..].
      split_and!; [done|by apply accounted_flushed|done|done].
Qed.

(** How the batcher left the rows that it was fed. *)
Definition batched (rows : list (list sqlval)) (events : list batch_event) (r : outcome batch_exit unit) (s' : batcher) : Prop :=
  r = Ok tt ∧ accounted good table (rows ++ fed events) s' ∧ (stops events = true → b_vals s' = [] ∧ b_count s' = 0) ∨
  ¬ good ∧ (∃ taken rest, fed events = taken ++ rest ∧ in_batches good table (rows ++ taken) (b_saved s')) ∧ ∃ err, r = Err (exit_program err).
Lemma batched_cons rows ev events r s' : is_stop ev = false ∨ events = [] ∧ (r = Ok tt → b_vals s' = [] ∧ b_count s' = 0) →
  batched (rows ++ event_rows ev) events r s' → batched rows (ev :: events) r s'.
Proof.
  unfold batched, fed. intros Hev. cbn [map concat]. rewrite app_assoc. intros [(->&Hacc&Hst)|(Hg&(taken&rest&Hf&Hb)&Herr)].
  - left. split_and!; [done|done|]. destruct Hev as [Hev|[-> Hev]]; [|intros _; by apply Hev]. cbn [stops existsb]. by rewrite Hev.
  - right. split; [done|]. split; [|done]. exists (event_rows ev ++ taken), rest. by rewrite Hf, !app_assoc.
Qed.
Lemma run_batcher_run events : ∀ rows s r s',
  stops_last events → rows ++ fed events `sublist_of` all →
  (good → b_open s = true) → accounted good table rows s → run_batcher table events s = (r, s') →
  batched rows events r s'.
Proof.
  induction events as [|ev events IH]; intros rows s r s' Hlast Hall Hgood Hacc; cbn [run_batcher].
  { intros [= <- <-]. left. unfold fed. cbn. by rewrite app_nil_r. }
  destruct Hlast as [Hlast1 Hlast]. destruct (batch_step table ev s) as [rs s1] eqn:Es.
  unfold fed in Hall. cbn [map concat] in Hall. rewrite app_assoc in Hall. change (concat (map event_rows events)) with (fed events) in Hall.
  destruct (batch_step_run ev rows s rs s1) as (Ho&Hcase); [etrans; [|exact Hall]; by apply sublist_inserts_r|done..|].
  assert (good → b_open s1 = true) as Hgood1 by (rewrite Ho; done).
  assert (Hev : is_stop ev = false ∨ events = []) by (destruct ev; auto).
  destruct Hcase as [(go&->&Hacc1&Hgo&Hstop)|(Hg&Hb&[->|[err ->]])].
  - destruct go.
    + assert (is_stop ev = false) by (destruct ev; [done..|by destruct Hgo as [_ Hgo]; specialize (Hgo eq_refl)]).
      intros Hrun. apply batched_cons; [by left|]. by eapply IH.
    + assert (ev = ev_stop) as -> by (by apply Hgo). intros [= <- <-]. rewrite Hlast1 by done.
      apply batched_cons; [right; split; [done|]; intros _; by apply Hstop|]. left. unfold fed. cbn [map concat].
      rewrite app_nil_r. by split_and!.
  - unfold mbind, M_bind. destruct (enter_batcher table s1) as [re s2] eqn:Ee.
    destruct (enter_run good table _ _ _ _ Hb (λ g, False_ind _ (Hg g)) Ee) as (Ho2&Hb2&[(->&Hv2&Hc2)|(_&err&->)]).
    + intros Hrun. apply batched_cons.
      * destruct Hev as [?| ->]; [by left|right]. split; [done|]. cbn [run_batcher] in Hrun. injection Hrun as <- <-. done.
      * eapply IH; [done|done| |by apply accounted_flushed|done]. by rewrite Ho2.
    + intros [= <- <-]. right. split; [done|]. split; [|by eexists]. exists (event_rows ev), (fed events). done.
  - intros [= <- <-]. right. split; [done|]. split; [|by eexists]. exists (event_rows ev), (fed events). done.
Qed.
End Rows.

(** C40. Rows are inserted in batches, and once each when the database accepts them. For any rows that are fed to the batcher, with timers in between
    and nothing after a signal to stop, and for any driver of the database: what the database carries out are batches of the
    rows, in the order in which they were fed, of at most fifty rows each, by the statement for that number of rows
    with the values of these rows as its arguments; the rows that are not in a batch yet, fewer than fifty, wait in order,
    and after a stop none waits. When the database refuses nothing, and the rows are of ten values each, as those of the
    processor are, each batch was carried out once. Otherwise a batch may have been carried out any
    number of times from none to four, once for each time it is sent: the driver may refuse it, fail after it
    has stored the rows, or panic, which the batcher recovers from without the rows of that batch; or the
    program ends because a statement cannot be prepared. *)
Theorem rows_in_batches table events r s :
  let good := accepting table (fed events) in
  stops_last events →
  insertQueryBatcher table events new_batcher = (r, s) →
  (r = Ok tt ∧ accounted good table (fed events) s ∧ (stops events = true → b_vals s = [] ∧ in_batches good table (fed events) (b_saved s))) ∨
  (¬ good ∧ (∃ taken rest, fed events = taken ++ rest ∧ in_batches good table taken (b_saved s)) ∧ ∃ err, r = Err (exit_program err)).
Proof.
  intros good Hlast. unfold insertQueryBatcher, mbind, M_bind. destruct (enter_batcher table new_batcher) as [rp s1] eqn:Ep.
  assert (Hnil : in_batches good table [] (b_saved new_batcher)) by (exists []; split_and!; [done|done|constructor]).
  destruct (enter_run good table _ _ _ _ Hnil (λ g, conj (proj1 g) eq_refl) Ep) as (Ho&Hb&[(->&Hv&Hc)|(Hg&err&->)]).
  - intros Hrun. destruct (run_batcher_run good table (fed events) (λ g, g) events [] s1 r s) as [(->&Hacc&Hst)|(Hg&Hp&Herr)];
      [done|done|by rewrite Ho|by apply accounted_flushed|done|left|by right].
    split_and!; [done|done|]. intros (Hv'&Hc')%Hst. split; [done|].
    destruct Hacc as (dn&pending&Hf&Hin&_&Hcn&_). destruct pending; [|cbn in Hcn; lia]. rewrite app_nil_r in Hf. cbn in Hf. by rewrite Hf.
  - intros [= <- <-]. right. split_and!; [done|by exists [], (fed events)|by eexists].
Qed.

(** A shutdown drops the rows that wait. The shutdowner closes the database before it stops the batcher, so that, whatever the
    database would answer, none of the rows that wait is inserted: they are forgotten, or, when no batch of their
    number was inserted before, the whole program ends. *)
Lemma shutdown_drops_rows table s r s' :
  1 ≤ b_count s ≤ GuerrillaDBAndRedisBatchMax →
  batcher_shutdown table s = (r, s') →
  b_saved s' = b_saved s ∧
  (b_count s ∈ b_prepared s ∧ r = Ok tt ∧ b_vals s' = [] ∨ (b_count s ∉ b_prepared s) ∧ r = Err (exit_program database_closed)).
Proof.
  intros Hc. unfold batcher_shutdown, close_database, modify, mbind at 1, M_bind at 1.
  cbn [run_batcher batch_step]. unfold gets, mbind at 1, M_bind at 1. cbn [b_count].
  unfold inserter. destruct (Nat.eqb_spec (b_count s) 0); [lia|].
  unfold batch_query, batch_prepare, retry, batch_query, batch_prepare.
  destruct (Nat.eqb_spec (b_count s) 0); [lia|]. destruct (Nat.ltb_spec GuerrillaDBAndRedisBatchMax (b_count s)); [lia|].
  cbn [orb]. unfold gets, stmt_Exec, ask_database, carry_out, set_batch, modify, mbind, M_bind. cbn.
  case_bool_decide as Hin; cbn; [|intros [= <- <-]; by split; [|right]].
  repeat (rewrite ?bool_decide_eq_true_2 by done; cbn). intros [= <- <-]. split; [by rewrite ?app_nil_r|]. by left.
Qed.
End BatcherProofs.

(** ** The processor *)
Section ProcessorProofs.
Context {U : Unicode} {Zl : Zlib} {St : StorageServers} {K : Clock} {D : Digest} {WD : WordDecoder} {MR : MIMEReader}.

Lemma parse_headers_run w :
  parse_headers w = (Panic, w) ∨
  ∃ e', parse_headers w = (Ok tt, mkWork e' (w_now w) (w_done w)) ∧ same_message (w_env w) e' ∧ QueuedId e' = QueuedId (w_env w).
Proof.
  unfold parse_headers, env, gets, mbind, M_bind, id. destruct (ParseHeaders_returns (w_env w)) as (r&Hr). rewrite Hr.
  destruct r as [[err e']|]; [right|by left]. exists e'. split; [done|]. split; [by eapply ParseHeaders_message|].
  revert Hr. unfold ParseHeaders. destruct (Envelope.Header (w_env w)); [by intros [= _ <-]|]. repeat case_match; try done; by intros [= _ <-].
Qed.
(** The three ends of storing the data, and what is then printed into the row. *)
Lemma store_data_run config hash head w :
  ∃ w' body text fx, 
    (mbind (M := M work Empty_set) (λ '(body, data), text ← compressedData_String data; mret (body, text))
      (store_data config hash (mkCompressedData head true))) w = (Ok (body, text), w') ∧
    w_done w' = w_done w ++ fx ∧ QueuedId (w_env w') = QueuedId (w_env w) ∧ stored_as config hash (head) (Data (w_env w)) body text fx.
Proof.
  unfold store_data. destruct (redisConnection_run w) as (err&n&Hc). unfold mbind, M_bind. rewrite Hc.
  destruct err as [err|].
  - eexists _, _, _, []. cbn. rewrite app_nil_r. split_and!; [reflexivity|done|done|]. by right; right.
  - unfold redis_Do, emit, modify, tick, mbind, M_bind, mret, M_ret. unfold compressedData_String at 1, env, gets, set_env, modify, mbind, M_bind. cbn.
    unfold stored_as. destruct driver_prints; cbn; match goal with |- context [redis_do n ?q ?l] => destruct (redis_do n q l) as [e2|] eqn:Ee end;
      rewrite ?Ee; cbn; eexists _, _, _, [_]; (split; [reflexivity|]); cbn;
      (split; [reflexivity|]); (split; [done|]); [by right; left; split; [eexists|]|by left|by right; left; split; [eexists|]|by left].
Qed.

(** A row finds its mail. Whatever redis answers: when the processor hands a message on, it has fed exactly one row of
    ten values, one for each placeholder of the statement, to the batcher; the row and redis have the hash that
    the message is queued under; and the message, with its delivery header, is in redis, which answered so, and not in the row, or
    compressed in the row, without its data only if the driver of redis had printed them before its command failed.
    Otherwise it panicked, because the envelope has no recipient or its header cannot be decoded, with nothing done. *)
Lemma fed_row_finds_mail config w rcpt rcpts :
  e_RcptTo (w_env w) = rcpt :: rcpts →
  ∃ w', ((∀ p, GuerrillaDbRedis (Some config) p TaskSaveMail w = (Panic, w')) ∧ w_done w' = w_done w) ∨
    ((∀ p, GuerrillaDbRedis (Some config) p TaskSaveMail w = p TaskSaveMail w') ∧
     ∃ fx head body text to from subject rest, w_done w' = w_done w ++ fx ++
         [fx_feed 0 (sv_text to :: sv_text from :: sv_text subject :: sv_text body :: sv_text text :: sv_text (QueuedId (w_env w')) :: rest)] ∧
       length rest = 4 ∧ stored_as config (QueuedId (w_env w')) head (Data (w_env w)) body text fx).
Proof.
  intros Hr.
  set (w1 := mkWork (set_first_host (trimToLimit (Host rcpt) 255) (set_Helo (trimToLimit (e_Helo (w_env w)) 255) (w_env w))) (S (w_now w)) (w_done w)).
  assert (Hd1 : Data (w_env w1) = Data (w_env w)).
  { unfold w1, set_first_host. cbn. by rewrite Hr. }
  destruct (parse_headers_run w1) as [Hp|(e'&Hp&(_&Hdata&_)&_)].
  - exists w1. left. split; [|done]. intros p. unfold GuerrillaDbRedis, env, gets, mbind at 1, M_bind at 1. rewrite Hr.
    unfold mbind at 1, M_bind at 1, set_env at 1, modify at 1. unfold mbind at 1, M_bind at 1, tick at 1. cbn [w_env w_now w_done].
    fold w1. unfold mbind at 1, M_bind at 1. by rewrite Hp.
  - set (to := trimToLimit (TrimSpace (User rcpt) ++ bs "@" ++ string_of config "primary_mail_host") 255).
    set (hash := MD5Hex [to; Address_String (e_MailFrom e'); Subject e'; Itoa (unix_nano (w_now w))]).
    set (w2 := mkWork (set_QueuedId hash e') (S (w_now w1)) (w_done w1)).
    destruct (store_data_run config hash (added_head to (trimToLimit (Host rcpt) 255) hash (rfc1123z (w_now w1)) e') w2)
      as (w3&body&text&fx&Hs&Hdone&Hq&Hst).
    apply bind_inv in Hs as [([body' data]&wa&Hs1&Hs2)|(?&?&?&?)]; [|done].
    apply bind_inv in Hs2 as [(text'&wb&Hs2&[= <- <- <-])|(?&?&?&?)]; [|done].
    eexists. right. split.
    + intros p. unfold GuerrillaDbRedis, env, gets, mbind at 1, M_bind at 1. rewrite Hr.
      unfold mbind at 1, M_bind at 1, set_env at 1, modify at 1. unfold mbind at 1, M_bind at 1, tick at 1. cbn [w_env w_now w_done].
      fold w1. unfold mbind at 1, M_bind at 1. rewrite Hp. unfold mbind at 1, M_bind at 1, id. cbn [w_env w_now w_done].
      fold to. fold hash. unfold mbind at 1, M_bind at 1, set_env at 1, modify at 1. unfold mbind at 1, M_bind at 1, tick at 1. cbn [w_env w_now w_done].
      unfold mbind at 1, M_bind at 1. change (S (w_now w)) with (w_now w1). fold w2. rewrite Hs1.
      unfold mbind at 1, M_bind at 1. rewrite Hs2. unfold mbind, M_bind, emit, modify. reflexivity.
    + cbn [w_env w_done]. rewrite Hq. cbn [w_env w2 QueuedId set_QueuedId].
      eexists fx, _, _, _, _, _, _, _. rewrite Hdone, <- app_assoc. split; [reflexivity|]. split; [reflexivity|].
      cbn in Hst. rewrite Hdata, Hd1 in Hst. exact Hst.
Qed.
End ProcessorProofs.

Lemma rows_in_batches_witness :
  ∃ r s, @insertQueryBatcher (test_db (λ _, ex_done)) "mail" test_events new_batcher = (r, s) ∧ r = Ok tt ∧
    in_batches True "mail" (fed test_events) (b_saved s).
Proof.
  assert (Hg : @accepting (test_db (λ _, ex_done)) "mail" (fed test_events)).
  { split_and!; [done|done|by intros q; right| |by apply (bool_decide_unpack _)]. apply (bool_decide_unpack _). vm_compute. reflexivity. }
  destruct (@insertQueryBatcher (test_db (λ _, ex_done)) "mail" test_events new_batcher) as [r s] eqn:E.
  exists r, s. split; [reflexivity|]. assert (Hl : stops_last test_events) by (cbn; by split_and?).
  destruct (@rows_in_batches (test_db (λ _, ex_done)) "mail" test_events r s Hl E) as [(Hr&_&H)|(Hn&_)].
  - split; [exact Hr|]. destruct (H eq_refl) as (_&batches&Hc&Hs&HF). exists batches. split; [exact Hc|]. split; [exact Hs|].
    eapply list.Forall_impl; [exact HF|]. intros b (?&?&Hb). split; [assumption|]. split; [assumption|]. intros _. by apply Hb.
  - by destruct Hn.
Defined.
Lemma shutdown_drops_rows_witness :
  let s := mkBatcher [sv_text "a"] 1 {[50]} true 7 [] in
  (1 ≤ b_count s ≤ GuerrillaDBAndRedisBatchMax) ∧
  ∃ r s', @batcher_shutdown (test_db (λ _, ex_done)) "mail" s = (r, s') ∧ b_saved s' = b_saved s.
Proof.
  intros s. destruct (@batcher_shutdown (test_db (λ _, ex_done)) "mail" s) as [r s'] eqn:E. assert (Hc : 1 ≤ b_count s ≤ GuerrillaDBAndRedisBatchMax) by (cbn; unfold GuerrillaDBAndRedisBatchMax; lia).
  split; [exact Hc|]. exists r, s'. split; [reflexivity|].
  exact (proj1 (@shutdown_drops_rows (test_db (λ _, ex_done)) "mail" s r s' Hc E)).
Defined.
Lemma fed_row_finds_mail_witness :
  let w := test_stored [] ∅ in
  e_RcptTo (w_env w) = [mkAddress "x" "y.org" [] [] false false None [] false; mkAddress "z" "y.org" [] [] false false None [] false] ∧
  ∃ w', ∀ p, test_guerrilla (test_servers true (λ _, ex_done)) p TaskSaveMail w = p TaskSaveMail w'.
Proof.
  intros w. split; [reflexivity|].
  destruct (@fed_row_finds_mail id (test_servers true (λ _, ex_done)) {| unix_nano := λ _, 0%Z; rfc1123z := λ _, bs "now" |} id (λ _, None) (λ _, (None, None))
    test_sql_config w _ _ eq_refl) as (w'&[[Hp _]|[Hgo _]]).
  - specialize (Hp DefaultProcessor). apply (f_equal fst) in Hp. vm_compute in Hp. discriminate Hp.
  - exists w'. exact Hgo.
Defined.

(** The insert that fails once is retried three times, and three copies of the row are in the database; four, when
    the rows were stored before the connection failed. *)
Example retried_batch_is_inserted_three_times :
  let db stored := test_db (λ t, if t =? 2 then ex_failed (bs "connection reset") stored else ex_done) in
  let saved stored := b_saved (@insertQueryBatcher (db stored) "mail" [ev_row (test_row "a"); ev_timer] new_batcher).2 in
  saved false = replicate 3 (guerrilla_insert "mail" 1, test_row "a") ∧
  saved true = replicate 4 (guerrilla_insert "mail" 1, test_row "a").
Proof. vm_compute. split; reflexivity. Qed.
(** A shutdown with one row waiting ends the program. *)
Example shutdown_ends_the_program :
  (@batcher_shutdown (test_db (λ _, ex_done)) "mail" (mkBatcher [sv_text "a"] 1 {[50]} true 7 [])).1 = Err (exit_program database_closed).
Proof. vm_compute. reflexivity. Qed.
(** When redis fails after its driver has printed the message, the row has the added header and nothing of the message. *)
Example failed_redis_loses_body :
  let down : StorageServers := {| redis_dial := λ _, None; redis_do := λ _ _ _, Some (bs "broken pipe"); driver_prints := true;
    connected_at := λ _, true; prepared_at := λ _ _, true; sql_prepare := λ _ _, None;
    sql_inputs := λ _, (-1)%Z; sql_exec := λ _ _ _, ex_done |} in
  let run := test_guerrilla down DefaultProcessor TaskSaveMail (test_stored [] ∅) in
  run.1 = Ok (Some BackendResultOK, None) ∧ Data (w_env (test_stored [] ∅)) ≠ [] ∧
  omap (λ x, match x with fx_feed _ (_ :: _ :: _ :: kind :: sv_text text :: _) => Some (kind, Contains text (Data (w_env (test_stored [] ∅)))) | _ => None end)
    (w_done run.2) = [(sv_text "gzencode", false)].
Proof. vm_compute. split_and!; done. Qed.
(** The number in the configuration is one of nanoseconds. *)
Example timeout_in_nanoseconds : batch_timeout {[ bs "redis_sql_batch_timeout" := CInt 5 ]} = 5%Z ∧ batch_timeout ∅ = (3 * second)%Z.
Proof. done. Qed.
