(* ===== verification/Listener.v ===== *)
(** * A listening server: src/server.go (newServer, configureTLS, Start, Shutdown) and the
    TLS tables of src/config.go and src/tls_go*.go

    What a server is between two sessions: its configuration, its stores, and whether it
    listens. The sessions are in Server.v, the clients that are served at the same time in Pool.v. *)
From S2P Require Import Prelude GoStd Shared Config Auth Server.

(** ** The tables of TLS names

    The numbers are those of crypto/tls, for the Go version of go.mod (the table of
    tls_go1.14.go is for older ones). *)
Definition TLSProtocols : gmap bytes Z := list_to_map [
  (bs "tls1.0", 0x0301%Z); (bs "tls1.1", 0x0302%Z); (bs "tls1.2", 0x0303%Z); (bs "tls1.3", 0x0304%Z)].
Definition TLSCiphers : gmap bytes Z := list_to_map [
  (bs "TLS_RSA_WITH_3DES_EDE_CBC_SHA", 0x000a%Z);
  (bs "TLS_RSA_WITH_AES_128_CBC_SHA", 0x002f%Z);
  (bs "TLS_RSA_WITH_AES_256_CBC_SHA", 0x0035%Z);
  (bs "TLS_ECDHE_ECDSA_WITH_AES_128_CBC_SHA", 0xc009%Z);
  (bs "TLS_ECDHE_ECDSA_WITH_AES_256_CBC_SHA", 0xc00a%Z);
  (bs "TLS_ECDHE_RSA_WITH_3DES_EDE_CBC_SHA", 0xc012%Z);
  (bs "TLS_ECDHE_RSA_WITH_AES_128_CBC_SHA", 0xc013%Z);
  (bs "TLS_ECDHE_RSA_WITH_AES_256_CBC_SHA", 0xc014%Z);
  (bs "TLS_RSA_WITH_RC4_128_SHA", 0x0005%Z);
  (bs "TLS_RSA_WITH_AES_128_GCM_SHA256", 0x009c%Z);
  (bs "TLS_RSA_WITH_AES_256_GCM_SHA384", 0x009d%Z);
  (bs "TLS_ECDHE_ECDSA_WITH_RC4_128_SHA", 0xc007%Z);
  (bs "TLS_ECDHE_RSA_WITH_RC4_128_SHA", 0xc011%Z);
  (bs "TLS_ECDHE_ECDSA_WITH_AES_128_GCM_SHA256", 0xc02b%Z);
  (bs "TLS_ECDHE_RSA_WITH_AES_256_GCM_SHA384", 0xc030%Z);
  (bs "TLS_ECDHE_ECDSA_WITH_AES_256_GCM_SHA384", 0xc02c%Z);
  (bs "TLS_RSA_WITH_AES_128_CBC_SHA256", 0x003c%Z);
  (bs "TLS_ECDHE_ECDSA_WITH_AES_128_CBC_SHA256", 0xc023%Z);
  (bs "TLS_ECDHE_RSA_WITH_AES_128_CBC_SHA256", 0xc027%Z);
  (bs "TLS_ECDHE_RSA_WITH_AES_128_GCM_SHA256", 0xc02f%Z);
  (bs "TLS_ECDHE_RSA_WITH_CHACHA20_POLY1305", 0xcca8%Z);
  (bs "TLS_ECDHE_ECDSA_WITH_CHACHA20_POLY1305", 0xcca9%Z);
  (bs "TLS_AES_128_GCM_SHA256", 0x1301%Z);
  (bs "TLS_AES_256_GCM_SHA384", 0x1302%Z);
  (bs "TLS_CHACHA20_POLY1305_SHA256", 0x1303%Z)].
Definition TLSCurves : gmap bytes Z := list_to_map [
  (bs "P256", 23%Z); (bs "P384", 24%Z); (bs "P521", 25%Z); (bs "X25519", 29%Z)].
Definition TLSClientAuthTypes : gmap bytes Z := list_to_map [
  (bs "NoClientCert", 0%Z); (bs "RequestClientCert", 1%Z); (bs "RequireAnyClientCert", 2%Z);
  (bs "VerifyClientCertIfGiven", 3%Z); (bs "RequireAndVerifyClientCert", 4%Z)].

(** [tls.Config]: the certificate by its files; zero versions and empty lists are the defaults of crypto/tls. *)
Record tlsConfig := mkTlsConfig {
  tc_cert : bytes * bytes;
  tc_ServerName : bytes;
  tc_MinVersion : Z;
  tc_MaxVersion : Z;
  tc_CipherSuites : list Z;
  tc_CurvePreferences : list Z;
  tc_RootCAs : option bytes;
  tc_ClientAuth : Z;
  tc_PreferServerCipherSuites : bool
}.

(** The machine at a moment: whether a log opens, a certificate loads, a file is read, an
    interface can be listened on; [Some] is the text of an error where there is one. The scheduler
    decides whether a server that could not start reports it before Start stops listening to reports. *)
Class Host_ := {
  opens_log : nat → bytes → option bytes;
  loads_pair : nat → bytes → bytes → option bytes;
  reads_file : nat → bytes → option bytes;
  listens : nat → bytes → option bytes;
  reports_late : nat → bytes → bool
}.

Inductive ServerState : Type := ServerStateNew | ServerStateStopped | ServerStateRunning | ServerStateStartError.
#[export] Instance ServerState_eq_dec : EqDecision ServerState.
Proof. solve_decision. Defined.

(** [sv_config] is [None] while nothing is stored; [sv_listener] is whether there is a listener,
    closed or not; the loop of Start runs exactly in ServerStateRunning. *)
Record server {B : Type} := mkServer {
  listenInterface : bytes;
  sv_config : option ServerConfig;
  sv_tls : option tlsConfig;
  sv_timeout : Z;
  sv_listener : bool;
  sv_hosts : allowedHosts;
  sv_auth : option Authenticator;
  sv_state : ServerState;
  sv_log : bytes;
  sv_mainlog : bytes;
  sv_backend : B
}.
Arguments server : clear implicits.

Section Listener.
Context {U : Unicode} {H : Host_} {B : Type}.
Implicit Type s : server B.

Definition with_config (c : ServerConfig) s : server B :=
  mkServer B (listenInterface s) (Some c) (sv_tls s) (sv_timeout s) (sv_listener s) (sv_hosts s) (sv_auth s) (sv_state s) (sv_log s) (sv_mainlog s) (sv_backend s).
Definition with_tls (c : tlsConfig) s : server B :=
  mkServer B (listenInterface s) (sv_config s) (Some c) (sv_timeout s) (sv_listener s) (sv_hosts s) (sv_auth s) (sv_state s) (sv_log s) (sv_mainlog s) (sv_backend s).
Definition setTimeout (seconds : Z) s : server B :=
  mkServer B (listenInterface s) (sv_config s) (sv_tls s) seconds (sv_listener s) (sv_hosts s) (sv_auth s) (sv_state s) (sv_log s) (sv_mainlog s) (sv_backend s).
Definition with_listener (l : bool) (st : ServerState) s : server B :=
  mkServer B (listenInterface s) (sv_config s) (sv_tls s) (sv_timeout s) l (sv_hosts s) (sv_auth s) st (sv_log s) (sv_mainlog s) (sv_backend s).
Definition sv_setAllowedHosts (hosts : list bytes) s : server B :=
  mkServer B (listenInterface s) (sv_config s) (sv_tls s) (sv_timeout s) (sv_listener s) (setAllowedHosts hosts) (sv_auth s) (sv_state s) (sv_log s) (sv_mainlog s) (sv_backend s).
Definition setAuthenticator (a : option Authenticator) s : server B :=
  mkServer B (listenInterface s) (sv_config s) (sv_tls s) (sv_timeout s) (sv_listener s) (sv_hosts s) a (sv_state s) (sv_log s) (sv_mainlog s) (sv_backend s).
Definition with_log (log mainlog : bytes) s : server B :=
  mkServer B (listenInterface s) (sv_config s) (sv_tls s) (sv_timeout s) (sv_listener s) (sv_hosts s) (sv_auth s) (sv_state s) log mainlog (sv_backend s).
Definition setBackend (b : B) s : server B :=
  mkServer B (listenInterface s) (sv_config s) (sv_tls s) (sv_timeout s) (sv_listener s) (sv_hosts s) (sv_auth s) (sv_state s) (sv_log s) (sv_mainlog s) b.

(** ** configureTLS

    Unknown names are passed over. The store panics when it is empty. *)
Definition tls_of (t : nat) (c : ServerConfig) : tlsConfig :=
  let x := sc_TLS c in
  mkTlsConfig (PublicKeyFile x, PrivateKeyFile x) (Hostname c)
    (default 0%Z (Protocols x !! 0 ≫= λ p, TLSProtocols !! p))
    (default 0%Z (Protocols x !! 1 ≫= λ p, TLSProtocols !! p))
    (omap (λ v, TLSCiphers !! v) (Ciphers x))
    (omap (λ v, TLSCurves !! v) (Curves x))
    (if bool_decide (RootCAs x = []) then None else reads_file t (RootCAs x))
    (if bool_decide (ClientAuthType x = []) then 3%Z else default 3%Z (TLSClientAuthTypes !! ClientAuthType x))
    (PreferServerCipherSuites x).
Definition configureTLS (t : nat) s : outcome bytes (server B) :=
  match sv_config s with
  | None => Panic
  | Some c =>
      if AlwaysOn (sc_TLS c) || StartTLSOn (sc_TLS c) then
        match loads_pair t (PublicKeyFile (sc_TLS c)) (PrivateKeyFile (sc_TLS c)) with
        | Some err => Err (bs "error while loading the certificate: " ++ err)
        | None => Ok (with_tls (tls_of t c) s)
        end
      else Ok s
  end.

(** ** newServer: the server, also beside an error *)
Definition newServer (t : nat) (sc : ServerConfig) (b : B) (mainlog : bytes) : server B * option bytes :=
  let s := mkServer B (ListenInterface sc) None None 0 false (mkAllowedHosts ∅ []) None ServerStateNew mainlog mainlog b in
  match (if bool_decide (sc_LogFile sc = []) then None else opens_log t (sc_LogFile sc)) with
  | Some err => (s, Some err)
  | None =>
      let s := with_log (if bool_decide (sc_LogFile sc = []) then mainlog else sc_LogFile sc) mainlog s in
      let s := setTimeout (Timeout sc) (with_config sc s) in
      match configureTLS t s with
      | Ok s => (s, None)
      | Err err => (s, Some err)
      | Panic | OutOfFuel => (s, None)
      end
  end.

(** [s.configStore.Load().(ServerConfig)] panics when nothing is stored. *)
Definition isEnabled s : option bool := IsEnabled <$> sv_config s.

(** ** Start: until it listens or has failed to. A listener that failed is nil. *)
Definition server_Start (t : nat) s : option bytes * server B :=
  match listens t (listenInterface s) with
  | Some err => (Some (bs "[" ++ listenInterface s ++ bs "] Cannot listen on port: " ++ err ++ bs " "),
      with_listener false ServerStateStartError s)
  | None => (None, with_listener true ServerStateRunning s)
  end.

(** ** Shutdown

    Closing the listener makes the loop of Start end: it shuts the pool down, which comes
    to its end (Pool.pool_finishes), and sends once on closedListener. When no loop
    runs, nobody sends, and the receive waits for ever. *)
Definition server_Shutdown s : outcome bytes (server B) :=
  if sv_listener s then
    if bool_decide (sv_state s = ServerStateRunning) then Ok (with_listener true ServerStateStopped s) else OutOfFuel
  else Ok (with_listener false ServerStateStopped s).
End Listener.
