(* ===== verification/Daemon.v ===== *)
(** * The daemon: src/guerrilla.go, and the reload of its configuration (src/api.go)

    The servers of the daemon, how it starts and shuts down, and what it does when an
    event of the configuration is published. Handlers run one after the other, in the
    goroutine that publishes; logs, the file with the process id and the locks around the map of servers have no
    state here. *)
From S2P Require Import Prelude GoStd Shared Config Auth Server Listener.

Inductive daemonState : Type := daemonStateNew | daemonStateStarted | daemonStateStopped.
#[export] Instance daemonState_eq_dec : EqDecision daemonState.
Proof. solve_decision. Defined.

(** The backend of the daemon: a state with the calls of its life, each of which may fail;
    [b_new] is [backends.New]. Gateway.v has the one of the program. *)
Class BackendLife := {
  Back : Type;
  b_new : nat → BackendConfig → option Back;
  b_Start : nat → Back → option bytes * Back;
  b_Shutdown : nat → Back → option bytes * Back;
  b_Reinitialize : nat → Back → option bytes * Back
}.

(** What of a server the life of the daemon is about: its configuration, its state, its listener. *)
Abbreviation life := (option ServerConfig * ServerState * bool)%type.

Section Daemon.
Context {U : Unicode} {Mc : Machine} {H : Host_} {L : BackendLife}.

Record guerrilla := mkGuerrilla {
  g_Config : AppConfig;
  g_servers : gmap bytes (server Back);
  g_state : daemonState;
  g_backend : Back;
  g_auth : option Authenticator;
  g_mainlog : bytes;
  g_now : nat
}.
(** The elements of [Errors]. *)
Inductive daemon_error : Type :=
| de_validate (e : config_error)
| de_server (m : bytes)
| de_no_servers
| de_nothing_to_start
| de_backend (m : bytes).

Abbreviation G := (M guerrilla Empty_set).

Definition set_config (c : AppConfig) (g : guerrilla) : guerrilla :=
  mkGuerrilla c (g_servers g) (g_state g) (g_backend g) (g_auth g) (g_mainlog g) (g_now g).
Definition set_servers (v : gmap bytes (server Back)) (g : guerrilla) : guerrilla :=
  mkGuerrilla (g_Config g) v (g_state g) (g_backend g) (g_auth g) (g_mainlog g) (g_now g).
Definition set_state (v : daemonState) (g : guerrilla) : guerrilla :=
  mkGuerrilla (g_Config g) (g_servers g) v (g_backend g) (g_auth g) (g_mainlog g) (g_now g).
Definition set_backend (v : Back) (g : guerrilla) : guerrilla :=
  mkGuerrilla (g_Config g) (g_servers g) (g_state g) v (g_auth g) (g_mainlog g) (g_now g).
Definition set_auth (v : option Authenticator) (g : guerrilla) : guerrilla :=
  mkGuerrilla (g_Config g) (g_servers g) (g_state g) (g_backend g) v (g_mainlog g) (g_now g).
Definition set_mainlog (v : bytes) (g : guerrilla) : guerrilla :=
  mkGuerrilla (g_Config g) (g_servers g) (g_state g) (g_backend g) (g_auth g) v (g_now g).
(** A look at the machine, which is another one each time. *)
Definition later (g : guerrilla) : guerrilla :=
  mkGuerrilla (g_Config g) (g_servers g) (g_state g) (g_backend g) (g_auth g) (g_mainlog g) (S (g_now g)).
Definition now_ : G nat := λ g, (Ok (g_now g), later g).

(** [mapServers] with a callback that only changes the server. *)
Definition mapServers (f : server Back → server Back) : G unit := modify (λ g, set_servers (f <$> g_servers g) g).
Definition setServer (iface : bytes) (s : server Back) : G unit :=
  modify (λ g, set_servers (<[iface := s]> (g_servers g)) g).
Definition findServer (iface : bytes) : G (option (server Back)) := gets (λ g, g_servers g !! iface).
Definition removeServer (iface : bytes) : G unit := modify (λ g, set_servers (delete iface (g_servers g)) g).
Definition setServerConfig (sc : ServerConfig) : G unit :=
  modify (λ g, set_servers (alter (with_config sc) (ListenInterface sc) (g_servers g)) g).
Definition SetAuthenticator (a : option Authenticator) : G unit :=
  modify (set_auth a);; mapServers (setAuthenticator a).
Definition storeBackend (b : Back) : G unit := modify (set_backend b);; mapServers (setBackend b).

(** ** makeServers: the servers of the configuration that are not there yet *)
Definition make_one (sc : ServerConfig) : G (list daemon_error) :=
  found ← findServer (ListenInterface sc);
  match (found : option (server Back)) with
  | Some _ => mret []
  | None =>
      match Validate sc with
      | Some e => mret [de_validate e]
      | None =>
          t ← now_;
          g ← get;
          let '(s, err) := newServer t sc (g_backend g) (g_mainlog g) in
          let s := setAuthenticator (g_auth g) (sv_setAllowedHosts (AllowedHosts (g_Config g)) s) in
          setServer (ListenInterface sc) s;;
          mret (match err with Some m => [de_server m] | None => [] end)
      end
  end.
Fixpoint make_each (l : list ServerConfig) : G (list daemon_error) :=
  match l with
  | [] => mret []
  | sc :: l => errs ← make_one sc; more ← make_each l; mret (errs ++ more)
  end.
Definition makeServers : G (list daemon_error) :=
  c ← gets g_Config;
  errs ← make_each (Servers c);
  servers ← gets g_servers;
  mret (errs ++ (if bool_decide (servers = ∅) then [de_no_servers] else [])).

(** ** Start and Shutdown *)
Definition backend_call (f : nat → Back → option bytes * Back) : G (list daemon_error) :=
  t ← now_;
  b ← gets g_backend;
  let '(err, b) := f t b in
  modify (set_backend b);;
  mret (match err with Some m => [de_backend m] | None => [] end).

(** Whether Start starts a server. *)
Definition startable (s : server Back) : bool :=
  bool_decide (isEnabled s = Some true) &&
  (bool_decide (sv_state s = ServerStateNew) || bool_decide (sv_state s = ServerStateStopped)).
Definition start_one (t : nat) (s : server Back) : option bytes * server Back :=
  if startable s then server_Start t s else (None, s).
(** The servers start in goroutines of their own; Start waits until each of them listens
    or has failed, and collects the errors. A server that has failed says so before it sends its
    error; when the channel is closed in between, the send panics. So does a server without a configuration. *)
Definition start_servers : G (list daemon_error) :=
  t ← now_;
  servers ← gets g_servers;
  if existsb (λ kv, bool_decide (sv_config kv.2 = None)) (map_to_list (servers : gmap bytes (server Back))) then panic
  else
    let failed := omap (λ kv, pair kv.1 <$> (start_one t kv.2).1) (map_to_list servers) in
    modify (set_servers ((λ s, (start_one t s).2) <$> servers));;
    if existsb (λ f, reports_late t f.1) failed then panic
    else mret (map (λ f, de_server f.2) failed).
Definition Start : G (list daemon_error) := deferred (set_state daemonStateStarted) (
  g ← get;
  if bool_decide (g_servers g = ∅) then mret [de_nothing_to_start]
  else
    errs ← (if bool_decide (g_state g = daemonStateStopped) then
      e1 ← backend_call b_Reinitialize; e2 ← backend_call b_Start; mret (e1 ++ e2)
    else mret []);
    more ← start_servers;
    mret (errs ++ more)).

(** [server.Shutdown] of a server of the map. *)
Definition shutdown_server (iface : bytes) (s : server Back) : G unit :=
  match server_Shutdown s with
  | Ok s => setServer iface s
  | Err _ | Panic => panic
  | OutOfFuel => out_of_fuel
  end.
Definition stop_running (s : server Back) : server Back :=
  if bool_decide (sv_state s = ServerStateRunning) then
    match server_Shutdown s with Ok s => s | _ => s end
  else s.
Definition Shutdown : G unit :=
  mapServers stop_running;;
  _ ← backend_call b_Shutdown;
  modify (set_state daemonStateStopped).

(** [guerrilla.New]. *)
Definition new_guerrilla (c : AppConfig) (b : Back) (log : bytes) (now : nat) : outcome Empty_set (list daemon_error) * guerrilla :=
  (errs ← makeServers;
   match errs with
   | [] => backend_call b_Start
   | _ => mret errs
   end) (mkGuerrilla c ∅ daemonStateNew b None log now).

(** ** The handlers of subscribeEvents *)
Definition on_BackendConfig (c : AppConfig) : G unit :=
  e ← backend_call b_Shutdown;
  match e with
  | _ :: _ => mret tt
  | [] =>
      t ← now_;
      match b_new t (app_BackendConfig c) with
      | None =>
          (** a fatal log entry ends the program *)
          e ← backend_call b_Reinitialize;
          match e with
          | _ :: _ => panic
          | [] =>
              e ← backend_call b_Start;
              match e with _ :: _ => panic | [] => mret tt end
          end
      | Some b =>
          t ← now_;
          storeBackend (b_Start t b).2
      end
  end.
Definition on_ServerNew (sc : ServerConfig) : G unit :=
  found ← findServer (ListenInterface sc);
  match (found : option (server Back)) with
  | Some _ => mret tt
  | None =>
      errs ← makeServers;
      match errs with
      | _ :: _ => mret tt
      | [] =>
          st ← gets g_state;
          if bool_decide (st = daemonStateStarted) then _ ← Start; mret tt else mret tt
      end
  end.
Definition on_ServerStart (sc : ServerConfig) : G unit :=
  found ← findServer (ListenInterface sc);
  match (found : option (server Back)) with
  | Some s =>
      if bool_decide (sv_state s = ServerStateStopped) || bool_decide (sv_state s = ServerStateNew)
      then _ ← Start; mret tt else mret tt
  | None => mret tt
  end.
Definition on_ServerStop (sc : ServerConfig) : G unit :=
  found ← findServer (ListenInterface sc);
  match (found : option (server Back)) with
  | Some s =>
      if bool_decide (sv_state s = ServerStateRunning) then shutdown_server (ListenInterface sc) s else mret tt
  | None => mret tt
  end.
Definition on_ServerRemove (sc : ServerConfig) : G unit :=
  found ← findServer (ListenInterface sc);
  match (found : option (server Back)) with
  | Some s => shutdown_server (ListenInterface sc) s;; removeServer (ListenInterface sc)
  | None => mret tt
  end.
Definition on_ServerTLSConfig (sc : ServerConfig) : G unit :=
  found ← findServer (ListenInterface sc);
  match (found : option (server Back)) with
  | Some s =>
      t ← now_;
      match configureTLS t s with
      | Ok s => setServer (ListenInterface sc) s
      | Err _ => mret tt
      | Panic => panic
      | OutOfFuel => out_of_fuel
      end
  | None => mret tt
  end.
(** The new log of a server becomes the log of the daemon as well. *)
Definition on_ServerLogFile (sc : ServerConfig) : G unit :=
  found ← findServer (ListenInterface sc);
  match (found : option (server Back)) with
  | Some s =>
      t ← now_;
      match opens_log t (sc_LogFile sc) with
      | None => modify (set_mainlog (sc_LogFile sc));; setServer (ListenInterface sc) (with_log (sc_LogFile sc) (sv_mainlog s) s)
      | Some _ => mret tt
      end
  | None => mret tt
  end.
Definition on_LogFile (c : AppConfig) : G unit :=
  t ← now_;
  match opens_log t (LogFile c) with
  | None => modify (set_mainlog (LogFile c));; mapServers (λ s, with_log (sv_log s) (LogFile c) s)
  | Some _ => mret tt
  end.
(** The log of every server becomes that of the daemon. *)
Definition on_LogLevel (c : AppConfig) : G unit :=
  t ← now_;
  log ← gets g_mainlog;
  match opens_log t log with
  | None => mapServers (λ s, with_log log (sv_mainlog s) s)
  | Some _ => mret tt
  end.

Definition handle (p : published) : G unit :=
  match p with
  | PubApp e c =>
      match e with
      | EventConfigNewConfig => modify (set_config c)
      | EventConfigAllowedHosts => mapServers (sv_setAllowedHosts (AllowedHosts c))
      | EventConfigLogFile => on_LogFile c
      | EventConfigLogLevel => on_LogLevel c
      | EventConfigBackendConfig => on_BackendConfig c
      | _ => mret tt
      end
  | PubServer e sc =>
      match e with
      | EventConfigServerConfig => setServerConfig sc
      | EventConfigServerNew => on_ServerNew sc
      | EventConfigServerStart => on_ServerStart sc
      | EventConfigServerStop => on_ServerStop sc
      | EventConfigServerRemove => on_ServerRemove sc
      | EventConfigServerTLSConfig => on_ServerTLSConfig sc
      | EventConfigServerTimeout => mapServers (setTimeout (Timeout sc))
      | EventConfigServerLogFile => on_ServerLogFile sc
      | _ => mret tt
      end
  end.
Fixpoint publish_all (l : list published) : G unit :=
  match l with
  | [] => mret tt
  | p :: l => handle p;; publish_all l
  end.
(** [ReloadConfig] of api.go: the events of the change, in the order in which the two maps
    of servers happen to be listed. *)
Definition ReloadConfig (newOrder oldOrder : list bytes) (old c : AppConfig) : G unit :=
  publish_all (EmitChangeEvents newOrder oldOrder old c).
(** ** Specification: the servers of a configuration *)
Definition life_of (s : server Back) : life := (sv_config s, sv_state s, sv_listener s).
(** A server has its settings; an enabled one runs; a disabled one was never started, or was stopped. Which timeout, certificates and
    logs it works with is not a part of this. *)
Definition fits (sc : ServerConfig) (l : life) : Prop :=
  if IsEnabled sc then l = (Some sc, ServerStateRunning, true)
  else l = (Some sc, ServerStateNew, false) ∨ l = (Some sc, ServerStateStopped, true).
Definition lives (g : guerrilla) : gmap bytes life := life_of <$> g_servers g.
Definition synced (c : AppConfig) (g : guerrilla) : Prop := ∀ k,
  match getServers c !! k, lives g !! k with
  | Some sc, Some l => fits sc l
  | None, None => True
  | _, _ => False
  end.
(** Nothing on the machine fails. *)
Definition machine_works : Prop :=
  (∀ t f, opens_log t f = None) ∧ (∀ t p k, loads_pair t p k = None) ∧ (∀ t i, listens t i = None).
(** What Start makes of a server. *)
Definition started (l : life) : life :=
  match l with
  | (Some sc, ServerStateNew, _) | (Some sc, ServerStateStopped, _) =>
      if IsEnabled sc then (Some sc, ServerStateRunning, true) else l
  | _ => l
  end.
(** What every handler but those of the life of a server leaves as it is. *)
Definition keeps (g g' : guerrilla) : Prop := lives g' = lives g ∧ g_state g' = g_state g ∧ g_Config g' = g_Config g.
(** The daemon has settings [D], and every server the authenticator and the hosts [P]. *)
Definition holds (P : option Authenticator → allowedHosts → Prop) (D : option Authenticator → AppConfig → Prop) (g : guerrilla) : Prop :=
  D (g_auth g) (g_Config g) ∧ ∀ k s, g_servers g !! k = Some s → P (sv_auth s) (sv_hosts s).
Definition stays_held (P : option Authenticator → allowedHosts → Prop) (D : option Authenticator → AppConfig → Prop)
    (g g' : guerrilla) : Prop := holds P D g → holds P D g'.
(** Every server accepts the hosts of the configuration. *)
Definition accepts (hosts : list bytes) (g : guerrilla) : Prop :=
  holds (λ _ h, h = setAllowedHosts hosts) (λ _ c, AllowedHosts c = hosts) g.
(** Every server has its configuration. *)
Definition configured (g : guerrilla) : Prop := ∀ k s, g_servers g !! k = Some s → sv_config s ≠ None.
(** What makeServers adds, for a configuration that names each interface once. *)
Definition fresh (l : list ServerConfig) (k : bytes) : option life :=
  (λ sc, (Some sc, ServerStateNew, false)) <$> find (λ sc, bool_decide (ListenInterface sc = k)) l.
Definition made (l : list ServerConfig) (g g' : guerrilla) : Prop :=
  (∀ k, lives g' !! k = match lives g !! k with Some x => Some x | None => fresh l k end) ∧
  g_state g' = g_state g ∧ g_Config g' = g_Config g.
(** What the events of one server may do to the others: Start may run. *)
Definition others (k : bytes) (g g' : guerrilla) : Prop :=
  g_state g' = g_state g ∧ g_Config g' = g_Config g ∧
  ∀ k', k' ≠ k → lives g' !! k' = lives g !! k' ∨ lives g' !! k' = started <$> lives g !! k'.
(** A reload of [g0], half way: the servers that are still to do fit the old configuration. *)
Definition progress (old c : AppConfig) (g0 : guerrilla) (todo : list bytes) (g : guerrilla) : Prop :=
  g_state g = daemonStateStarted ∧ g_Config g = c ∧ ∀ k,
  match getServers c !! k, getServers old !! k with
  | Some n, Some o => ∃ l, lives g !! k = Some l ∧ fits (if bool_decide (k ∈ todo) then o else n) l
  | Some n, None => match lives g !! k with Some l => fits n l | None => k ∈ todo end
  | None, Some o => ∃ l, lives g !! k = Some l ∧ lives g0 !! k = Some l ∧ fits o l
  | None, None => lives g !! k = None
  end.
(** The end of a reload: the servers that are still to be removed. *)
Definition removing (old c : AppConfig) (g0 : guerrilla) (order : list bytes) (g : guerrilla) : Prop := ∀ k,
  match getServers c !! k with
  | Some n => ∃ l, lives g !! k = Some l ∧ fits n l
  | None =>
      if bool_decide (k ∈ order) then
        match getServers old !! k with
        | Some o => ∃ l, lives g !! k = Some l ∧ lives g0 !! k = Some l ∧ fits o l
        | None => lives g !! k = None
        end
      else lives g !! k = None
  end.
End Daemon.

(** *** A machine on which nothing fails, and a backend without a state *)
Definition test_host : Host_ := {|
  opens_log := λ _ _, None; loads_pair := λ _ _ _, None; reads_file := λ _ _, None;
  listens := λ _ _, None; reports_late := λ _ _, false |}.
Definition test_life : BackendLife := {|
  Back := unit; b_new := λ _ _, Some tt; b_Start := λ _ b, (None, b); b_Shutdown := λ _ b, (None, b);
  b_Reinitialize := λ _ b, (None, b) |}.
Definition test_server (iface : bytes) (enabled : bool) (timeout : Z) : ServerConfig :=
  mkServerConfig zero_ServerTLSConfig "server.log" "h" iface 0 timeout 10 enabled false.
Definition test_config (servers : list ServerConfig) : AppConfig := set_Servers servers empty_AppConfig.
(** The daemon that was made and started with a configuration. *)
Definition test_daemon (c : AppConfig) : @guerrilla test_life :=
  snd (@Start test_host test_life (snd (@new_guerrilla ascii_only test_machine test_host test_life c tt "main.log" 0))).

(** * Proofs *)
Lemma wp_preserved {S E A} (R : relation S) (m : M S E A) Q N s : preserves R m → wp m Q N s → wp m (λ a s', Q a s' ∧ R s s') N s.
Proof. intros Hm. specialize (Hm s). unfold wp. by destruct (m s) as [[] ?]. Qed.
(** *** What the servers have of the daemon *)
Section Held.
Context {U : Unicode} {Mc : Machine} {H : Host_} {L : BackendLife}.
Context (P : option Authenticator → allowedHosts → Prop) (D : option Authenticator → AppConfig → Prop).
Hypothesis new_held : ∀ a c, D a c → P a (setAllowedHosts (AllowedHosts c)).
Abbreviation kept := (stays_held P D).

#[local] Instance stays_held_preorder : PreOrder kept.
Proof. split; [by intros g ?|]. intros g1 g2 g3 H1 H2 ?. by apply H2, H1. Qed.
Lemma held_map f : (∀ s, P (sv_auth s) (sv_hosts s) → P (sv_auth (f s)) (sv_hosts (f s))) → preserves kept (mapServers f).
Proof.
  intros Hf g [Ha Hs]. split; [done|]. cbn. intros k s. rewrite lookup_fmap. intros (s'&Hk&->)%fmap_Some. apply Hf. by eapply Hs.
Qed.
Lemma held_set k s : P (sv_auth s) (sv_hosts s) → preserves kept (setServer k s).
Proof.
  intros Hx g [Ha Hs]. split; [done|]. cbn. intros k' s'. rewrite lookup_insert. case_decide; [by intros [= <-]|apply Hs].
Qed.
Lemma held_remove k : preserves kept (removeServer k).
Proof. intros g [Ha Hs]. split; [done|]. cbn. intros k' s. rewrite lookup_delete. case_decide; [done|apply Hs]. Qed.
Lemma held_config sc : preserves kept (setServerConfig sc).
Proof.
  intros g [Ha Hs]. split; [done|]. cbn. intros k s. rewrite lookup_alter. case_decide; [|apply Hs].
  intros (s'&Hk&->)%fmap_Some. subst k. by eapply Hs in Hk.
Qed.
(** What is found has what all servers have. *)
Lemma held_find {A} k (m : option (server Back) → M guerrilla Empty_set A) :
  preserves kept (m None) → (∀ s, P (sv_auth s) (sv_hosts s) → preserves kept (m (Some s))) →
  preserves kept (findServer k ≫= m).
Proof.
  intros Hn Hm g Hg. unfold findServer, gets, mbind, M_bind. destruct (g_servers g !! k) as [s|] eqn:E; [|by apply Hn].
  apply Hm; [|done]. by apply (proj2 Hg k).
Qed.
Lemma held_get {A} (m : guerrilla → M guerrilla Empty_set A) :
  (∀ g, D (g_auth g) (g_Config g) → preserves kept (m g)) → preserves kept (get ≫= m).
Proof. intros Hm g Hg. unfold get, mbind, M_bind. apply Hm; [apply Hg|done]. Qed.
Lemma held_now : preserves kept now_.
Proof. by intros g ?. Qed.
(** Neither the servers nor their settings are another one. *)
Definition same_settings (f : guerrilla → guerrilla) : Prop :=
  ∀ g, g_auth (f g) = g_auth g ∧ g_Config (f g) = g_Config g ∧ g_servers (f g) = g_servers g.
Lemma held_same f g : same_settings f → kept g (f g).
Proof. intros Hf [Ha Hs]. destruct (Hf g) as (E1&E2&E3). split; [by rewrite E1, E2|by rewrite E3]. Qed.
Lemma held_modify f : same_settings f → preserves kept (modify f : M guerrilla Empty_set unit).
Proof. intros Hf. apply preserves_modify. intros g. by apply held_same. Qed.
#[local] Hint Resolve held_remove held_config held_now : preserves.
#[local] Hint Extern 1 (preserves _ (mapServers _)) => (by apply held_map) : preserves.
#[local] Hint Extern 1 (preserves _ (setServer _ _)) => (by apply held_set) : preserves.
#[local] Hint Extern 1 (preserves _ (modify _)) => (by apply held_modify) : preserves.

Lemma held_backend_call f : preserves kept (backend_call f).
Proof. unfold backend_call. preserved. Qed.
Lemma start_one_held t s : sv_auth (start_one t s).2 = sv_auth s ∧ sv_hosts (start_one t s).2 = sv_hosts s.
Proof. unfold start_one, server_Start. by repeat case_match. Qed.
Lemma held_start_servers : preserves kept start_servers.
Proof.
  intros g Hg. assert (Hl : holds P D (later g)) by exact Hg.
  assert (Hf : ∀ s, P (sv_auth s) (sv_hosts s) → P (sv_auth (start_one (g_now g) s).2) (sv_hosts (start_one (g_now g) s).2))
    by (intros s ?; by destruct (start_one_held (g_now g) s) as [-> ->]).
  pose proof (held_map _ Hf _ Hl) as Hm.
  unfold start_servers, now_, gets, mbind, M_bind. by repeat destruct (existsb _ _).
Qed.
Lemma held_deferred {A} f (m : M guerrilla Empty_set A) : same_settings f → preserves kept m → preserves kept (deferred f m).
Proof.
  intros Hf Hm g Hg. unfold deferred. specialize (Hm g Hg). destruct (m g) as [r g']. by apply (held_same f g').
Qed.
#[local] Hint Resolve held_backend_call held_start_servers : preserves.
Lemma held_Start : preserves kept Start.
Proof. unfold Start. apply held_deferred; [done|]. apply held_get. intros g _. preserved. Qed.
Lemma server_Shutdown_held (s s' : server Back) : server_Shutdown s = Ok s' → sv_auth s' = sv_auth s ∧ sv_hosts s' = sv_hosts s.
Proof. unfold server_Shutdown. repeat case_match; try done; by intros [= <-]. Qed.
Lemma held_shutdown_server k s : P (sv_auth s) (sv_hosts s) → preserves kept (shutdown_server k s).
Proof.
  intros Hs. unfold shutdown_server. destruct (server_Shutdown s) as [s'| | |] eqn:E; preserved.
  apply held_set. by destruct (server_Shutdown_held _ _ E) as [-> ->].
Qed.
Lemma held_Shutdown : preserves kept Shutdown.
Proof.
  unfold Shutdown. preserved. apply held_map. intros s Hs. unfold stop_running. case_bool_decide; [|done].
  destruct (server_Shutdown s) as [s'| | |] eqn:E; try done. by destruct (server_Shutdown_held _ _ E) as [-> ->].
Qed.
Lemma held_make_one sc : preserves kept (make_one sc).
Proof.
  unfold make_one. apply held_find; [|intros; preserved]. destruct (Validate sc); [preserved|].
  apply preserves_bind; [apply _|apply held_now|intros t]. apply held_get. intros g Hg.
  destruct (newServer _ _ _ _) as [s err]. apply preserves_bind; [apply _|apply held_set; by apply new_held|intros; preserved].
Qed.
#[local] Hint Resolve held_Start held_shutdown_server held_make_one : preserves.
Lemma held_make_each l : preserves kept (make_each l).
Proof. induction l; cbn; preserved. Qed.
#[local] Hint Resolve held_make_each : preserves.
Lemma held_makeServers : preserves kept makeServers.
Proof. unfold makeServers. preserved. Qed.
#[local] Hint Resolve held_makeServers : preserves.
Lemma configureTLS_held t (s s' : server Back) : configureTLS t s = Ok s' → sv_auth s' = sv_auth s ∧ sv_hosts s' = sv_hosts s.
Proof. unfold configureTLS. repeat case_match; intros [= <-]; done. Qed.
(** Every event but those of new settings of the daemon and of its hosts. *)
Lemma held_handle p :
  match p with PubApp EventConfigNewConfig _ | PubApp EventConfigAllowedHosts _ => False | _ => True end → preserves kept (handle p).
Proof.
  destruct p as [e c|e sc]; destruct e; intros Hp; cbn [handle]; try done; preserved.
  - unfold on_LogFile. preserved.
  - unfold on_LogLevel. preserved.
  - unfold on_BackendConfig, storeBackend. preserved.
  - unfold on_ServerNew. apply held_find; intros; preserved.
  - unfold on_ServerRemove. apply held_find; intros; preserved.
  - unfold on_ServerStart. apply held_find; intros; preserved.
  - unfold on_ServerStop. apply held_find; intros; preserved.
  - unfold on_ServerLogFile. apply held_find; intros; preserved.
  - unfold on_ServerTLSConfig. apply held_find; [preserved|]. intros s Hs. apply preserves_bind; [apply _|apply held_now|intros t].
    destruct (configureTLS t s) eqn:E; preserved. apply held_set. by destruct (configureTLS_held _ _ _ E) as [-> ->].
Qed.
Lemma held_publish l : Forall (λ p, match p with PubApp EventConfigNewConfig _ | PubApp EventConfigAllowedHosts _ => False | _ => True end) l →
  preserves kept (publish_all l).
Proof. induction 1; cbn [publish_all]; [preserved|]. apply preserves_bind; [apply _|by apply held_handle|by intros _]. Qed.
End Held.

Section Reload.
Context {U : Unicode} {Mc : Machine} {H : Host_} {L : BackendLife}.

Lemma lives_lookup g k : lives g !! k = life_of <$> g_servers g !! k.
Proof. apply lookup_fmap. Qed.
Lemma fits_started sc l : fits sc l → started l = l.
Proof. unfold fits. destruct (IsEnabled sc) eqn:E; [by intros ->|]. intros [->| ->]; cbn; by rewrite E. Qed.

Lemma keeps_refl g : keeps g g.
Proof. done. Qed.
Lemma lives_map f g : (∀ s, life_of (f s) = life_of s) → lives (set_servers (f <$> g_servers g) g) = lives g.
Proof. intros Hf. unfold lives. cbn. rewrite <- map_fmap_compose. apply map_fmap_ext. intros; apply Hf. Qed.
Lemma lives_insert k s s' g : g_servers g !! k = Some s → life_of s' = life_of s →
  lives (set_servers (<[k := s']> (g_servers g)) g) = lives g.
Proof.
  intros Hk Hs. unfold lives. cbn. rewrite fmap_insert, Hs. apply insert_id. by rewrite lookup_fmap, Hk.
Qed.
Lemma mapServers_keeps f g : (∀ s, life_of (f s) = life_of s) →
  wp (mapServers f) (λ _ g', keeps g g') (λ _ _, False) g.
Proof. intros Hf. apply wp_modify. split_and!; [by apply lives_map|done..]. Qed.
Lemma wp_now (Q : nat → guerrilla → Prop) R g : Q (g_now g) (later g) → wp now_ Q R g.
Proof. done. Qed.
Lemma backend_call_keeps f g : wp (backend_call f) (λ _ g', keeps g g') (λ _ _, False) g.
Proof.
  unfold backend_call. wp_step. apply wp_now. do 2 wp_step. cbn. destruct (f _ _) as [err b].
  do 3 wp_step. done.
Qed.

Lemma on_BackendConfig_keeps c g : (∀ t, is_Some (b_new t (app_BackendConfig c))) →
  wp (on_BackendConfig c) (λ _ g', keeps g g') (λ _ _, False) g.
Proof.
  intros Hb. unfold on_BackendConfig. wp_step. eapply wp_mono; [apply backend_call_keeps| |done].
  intros [|e es] g1 (H1&H2&H3); [|by wp_step]. wp_step. apply wp_now.
  destruct (Hb (g_now g1)) as [b ->]. cbn beta iota. wp_step. apply wp_now. unfold storeBackend, mapServers. do 3 wp_step.
  split_and!; cbn; [|done..]. rewrite <- H1. by apply (lives_map (setBackend _) g1).
Qed.

Hypothesis Hm : machine_works.

Lemma configureTLS_life t s c : sv_config s = Some c → ∃ s', configureTLS t s = Ok s' ∧ life_of s' = life_of s.
Proof.
  intros Hc. unfold configureTLS. rewrite Hc. destruct Hm as (_&Hp&_). rewrite Hp.
  destruct (_ || _); eexists; split; [reflexivity|done|reflexivity|done].
Qed.
Lemma event_keeps p g : configured g →
  match p with
  | PubApp EventConfigNewConfig _ => False
  | PubApp EventConfigBackendConfig c => ∀ t, is_Some (b_new t (app_BackendConfig c))
  | PubServer e _ => e ∈ [EventConfigServerLogFile; EventConfigServerLogReopen; EventConfigServerTimeout;
      EventConfigServerMaxClients; EventConfigServerTLSConfig]
  | _ => True
  end → wp (handle p) (λ _ g', keeps g g') (λ _ _, False) g.
Proof.
  intros Hg. destruct Hm as (Hl&_&_). destruct p as [e c|e sc]; destruct e; cbn [handle]; intros Hp; try done.
  all: try (apply wp_ret; done).
  all: try (exfalso; revert Hp; vm_compute; set_solver).
  all: try (apply mapServers_keeps; done).
  - unfold on_LogFile. wp_step. apply wp_now. rewrite Hl. cbn beta iota. do 2 wp_step.
    split_and!; [|done..]. by apply (lives_map (λ s, with_log (sv_log s) (LogFile c) s) (set_mainlog (LogFile c) (later g))).
  - unfold on_LogLevel. wp_step. apply wp_now. wp_step. apply wp_gets. rewrite Hl.
    apply (mapServers_keeps _ (later g)). done.
  - by apply on_BackendConfig_keeps.
  - unfold on_ServerLogFile, findServer. do 2 wp_step. destruct (g_servers g !! ListenInterface sc) as [s|] eqn:Hs; [|by wp_step].
    wp_step. apply wp_now. rewrite Hl. cbn beta iota. do 2 wp_step. apply wp_modify. split_and!; [|done..].
    by apply (lives_insert _ s _ (set_mainlog (sc_LogFile sc) (later g))).
  - unfold on_ServerTLSConfig, findServer. do 2 wp_step. destruct (g_servers g !! ListenInterface sc) as [s|] eqn:Hs; [|by wp_step].
    wp_step. apply wp_now. destruct (sv_config s) as [c|] eqn:Hc; [|by destruct (Hg _ _ Hs)].
    destruct (configureTLS_life (g_now g) s c Hc) as (s'&->&Hs'). apply wp_modify. split_and!; [|done..].
    by apply (lives_insert _ s s' (later g)).
Qed.

Lemma start_one_life t s : life_of (start_one t s).2 = started (life_of s).
Proof.
  destruct Hm as (_&_&Hl). unfold start_one, startable, isEnabled, server_Start. rewrite Hl.
  destruct s as [i c tls tm l h a st lg ml b]. cbn.
  destruct c as [c|]; [|done]. cbn. destruct (IsEnabled c) eqn:He; destruct st; cbn; rewrite ?He; try done.
Qed.
Lemma nobody_fails t (l : list (bytes * server Back)) : omap (λ kv, pair kv.1 <$> (start_one t kv.2).1) l = [].
Proof.
  destruct Hm as (_&_&Hl). induction l as [|[k s] l IH]; [done|]. cbn. unfold start_one at 1, server_Start at 1.
  rewrite Hl. destruct (startable s); exact IH.
Qed.
Lemma Start_starts g : configured g → g_state g ≠ daemonStateStopped →
  wp Start (λ errs g', (lives g ≠ ∅ → errs = []) ∧
      lives g' = started <$> lives g ∧ g_state g' = daemonStateStarted ∧ g_Config g' = g_Config g)
    (λ _ _, False) g.
Proof.
  intros Hg Hst. unfold Start. wp_step. apply wp_bind. unfold wp at 1, get. case_bool_decide as He.
  { apply wp_ret. cbn. unfold lives. rewrite He. rewrite !fmap_empty. by split_and!. }
  rewrite bool_decide_false by done. do 2 wp_step. wp_step. unfold start_servers. wp_step. apply wp_now.
  do 2 wp_step. destruct (existsb _ _) eqn:Hx.
  { exfalso. apply existsb_exists in Hx as ([k s]&Hin&Hc%bool_decide_eq_true). cbn in Hc.
    apply list_elem_of_In, elem_of_map_to_list in Hin. by apply (Hg k s). }
  rewrite nobody_fails. cbn [existsb map]. wp_step. apply wp_modify. do 2 wp_step.
  split_and!; [done| |done..]. unfold lives. cbn. rewrite <- !map_fmap_compose.
  apply map_fmap_ext. intros k s _. apply start_one_life.
Qed.

Lemma newServer_life t sc b log : ∃ s, newServer t sc b log = (s, None) ∧ life_of s = (Some sc, ServerStateNew, false).
Proof.
  destruct Hm as (Hl&_&_). unfold newServer. replace (if bool_decide (sc_LogFile sc = []) then None else _) with (@None bytes)
    by (case_bool_decide; [done|by rewrite Hl]).
  match goal with |- context [configureTLS t ?s] => destruct (configureTLS_life t s sc eq_refl) as (s'&->&Hs) end.
  by exists s'.
Qed.

Lemma make_one_makes sc g : Validate sc = None →
  wp (make_one sc) (λ errs g', errs = [] ∧ made [sc] g g') (λ _ _, False) g.
Proof.
  intros Hv. unfold make_one, findServer. do 2 wp_step. destruct (g_servers g !! ListenInterface sc) as [s|] eqn:Hs.
  - wp_step. split; [done|]. split_and!; [|done..]. intros k. destruct (lives g !! k) eqn:Hk; [done|].
    unfold fresh. cbn. rewrite bool_decide_false; [done|]. intros <-. by rewrite lives_lookup, Hs in Hk.
  - rewrite Hv. wp_step. apply wp_now. apply wp_bind. unfold wp at 1, get.
    destruct (newServer_life (g_now g) sc (g_backend (later g)) (g_mainlog (later g))) as (s&->&Hl). wp_step.
    apply wp_modify, wp_ret. split; [done|]. split_and!; [|done..]. intros k. unfold lives. cbn.
    rewrite fmap_insert, lookup_insert. unfold fresh. cbn. case_decide as Hk.
    + subst k. rewrite lookup_fmap, Hs. rewrite bool_decide_true by done. cbn. by rewrite <- Hl.
    + rewrite bool_decide_false by done. by destruct (_ !! k).
Qed.
Lemma make_each_makes l : ∀ g, Forall (λ sc, Validate sc = None) l →
  wp (make_each l) (λ errs g', errs = [] ∧ made l g g') (λ _ _, False) g.
Proof.
  induction l as [|sc l IH]; intros g Hl; cbn [make_each].
  { wp_step. split; [done|]. split_and!; [|done..]. intros k. by destruct (lives g !! k). }
  apply list.Forall_cons in Hl as [Hv Hl]. wp_step. eapply wp_mono; [by apply make_one_makes| |done]. intros errs g1 (->&H1&H2&H3).
  wp_step. eapply wp_mono; [by apply IH| |done]. intros errs g2 (->&G1&G2&G3). wp_step. split; [done|].
  split_and!; [|congruence..]. intros k. rewrite G1, H1. destruct (lives g !! k); [done|].
  unfold fresh. cbn. by destruct (bool_decide _).
Qed.

Lemma publish_app l1 l2 Q g :
  wp (publish_all l1) (λ _ g', wp (publish_all l2) Q (λ _ _, False) g') (λ _ _, False) g →
  wp (publish_all (l1 ++ l2)) Q (λ _ _, False) g.
Proof.
  revert g. induction l1 as [|p l1 IH]; intros g Hl; [exact Hl|]. cbn [app publish_all] in *. wp_step.
  unfold wp, mbind, M_bind in Hl. unfold wp at 1. destruct (handle p g) as [[[]| | |] g1]; try done. by apply IH.
Qed.
Lemma fits_config sc l : fits sc l → l.1.1 = Some sc.
Proof. unfold fits. destruct (IsEnabled sc); [by intros ->|by intros [->| ->]]. Qed.
Lemma configured_lives g : configured g ↔ ∀ k l, lives g !! k = Some l → l.1.1 ≠ None.
Proof.
  unfold configured. setoid_rewrite lives_lookup. split.
  - intros Hg k l Hl. apply fmap_Some in Hl as (s&Hs&->). by apply (Hg k s).
  - intros Hg k s Hs. apply (Hg k (life_of s)). by rewrite Hs.
Qed.
Lemma configured_eq g g' : lives g' = lives g → configured g → configured g'.
Proof. rewrite !configured_lives. by intros ->. Qed.
(** The events of a server that do not concern its life. *)
Lemma publish_keeps l : ∀ g, configured g →
  Forall (λ p, match p with
    | PubServer e _ => e ∈ [EventConfigServerLogFile; EventConfigServerLogReopen; EventConfigServerTimeout;
        EventConfigServerMaxClients; EventConfigServerTLSConfig]
    | _ => False end) l →
  wp (publish_all l) (λ _ g', keeps g g') (λ _ _, False) g.
Proof.
  induction l as [|p l IH]; intros g Hg Hl; cbn [publish_all]; [by wp_step|].
  apply list.Forall_cons in Hl as [Hp Hl]. wp_step. eapply wp_mono; [apply event_keeps; [done|]| |done].
  { destruct p as [?|e sc]; done. }
  intros [] g1 K1. eapply wp_mono; [apply IH; [by eapply configured_eq; [apply K1|]|done]| |done].
  intros [] g2 K2. destruct K1 as (?&?&?), K2 as (?&?&?). split_and!; congruence.
Qed.

Lemma life_split s (x : life) : life_of s = x → sv_config s = x.1.1 ∧ sv_state s = x.1.2 ∧ sv_listener s = x.2.
Proof. by intros <-. Qed.
Lemma lives_Some g k l : lives g !! k = Some l → ∃ s, g_servers g !! k = Some s ∧ life_of s = l.
Proof. rewrite lives_lookup. intros (s&?&?)%fmap_Some. eauto. Qed.
Lemma others_set g k s : others k g (set_servers (<[k := s]> (g_servers g)) g).
Proof.
  split_and!; [done..|]. intros k' Hk. left. unfold lives. cbn. by rewrite !lookup_fmap, lookup_insert_ne.
Qed.
Lemma others_trans k g1 g2 g3 : lives g2 = lives g1 ∧ g_state g2 = g_state g1 ∧ g_Config g2 = g_Config g1 ∨
    (g_state g2 = g_state g1 ∧ g_Config g2 = g_Config g1 ∧ ∀ k', k' ≠ k → lives g2 !! k' = lives g1 !! k') →
  others k g2 g3 → others k g1 g3.
Proof.
  intros [(Hl&?&?)|(?&?&Hl)] (?&?&Ho); (split_and!; [congruence..|]); intros k' Hk; specialize (Ho k' Hk).
  - by rewrite <- Hl.
  - by rewrite <- (Hl k' Hk).
Qed.

(** The general event: the new settings, with the state as it was. *)
Lemma config_event o n st ls g :
  lives g !! ListenInterface n = Some (Some o, st, ls) →
  wp (publish_all (if bool_decide (getChanges_server o n ≠ ∅) || bool_decide (getChanges_tls (sc_TLS o) (sc_TLS n) ≠ ∅)
                   then [PubServer EventConfigServerConfig n] else []))
    (λ _ g', lives g' = <[ListenInterface n := (Some n, st, ls)]> (lives g) ∧ g_state g' = g_state g ∧ g_Config g' = g_Config g)
    (λ _ _, False) g.
Proof.
  intros Hl. destruct (_ || _) eqn:Hc.
  - cbn [publish_all handle]. wp_step. apply wp_modify, wp_ret. split_and!; [|done..]. unfold lives. cbn.
    destruct (lives_Some _ _ _ Hl) as (s&Hs&Hls). apply map_eq. intros k'.
    rewrite lookup_fmap. destruct (decide (k' = ListenInterface n)) as [->|Hk].
    + rewrite lookup_alter_eq, Hs, lookup_insert_eq. cbn. apply life_split in Hls as (_&Hst&Hli). unfold life_of. cbn. by rewrite Hst, Hli.
    + by rewrite lookup_alter_ne, lookup_insert_ne, lookup_fmap by done.
  - bool_hyps. assert (o = n) as -> by (apply no_changes; by apply dec_stable).
    cbn [publish_all]. apply wp_ret. split_and!; [|done..]. by rewrite insert_id.
Qed.
Lemma start_event n st ls g : configured g → g_state g = daemonStateStarted → IsEnabled n = true →
  st = ServerStateNew ∨ st = ServerStateStopped → lives g !! ListenInterface n = Some (Some n, st, ls) →
  wp (publish_all [PubServer EventConfigServerStart n])
    (λ _ g', others (ListenInterface n) g g' ∧ ∃ l', lives g' !! ListenInterface n = Some l' ∧ fits n l') (λ _ _, False) g.
Proof.
  intros Hg Hst Hn Hor Hl. destruct (lives_Some _ _ _ Hl) as (s&Hs&Hls). cbn [publish_all handle]. wp_step.
  unfold on_ServerStart, findServer. do 2 wp_step. rewrite Hs. apply life_split in Hls as (_&->&_). cbn.
  replace (bool_decide (st = ServerStateStopped) || bool_decide (st = ServerStateNew)) with true by by destruct Hor as [-> | ->].
  wp_step. eapply wp_mono; [apply Start_starts; [done|congruence]| |done]. intros ? g2 (_&K1&K2&K3). apply wp_ret, wp_ret.
  split; [split_and!; [congruence..|]|].
  - intros k' Hk'. right. by rewrite K1, lookup_fmap.
  - exists (Some n, ServerStateRunning, true). rewrite K1, lookup_fmap, Hl. unfold fits. rewrite Hn. split; [|done].
    cbn. rewrite Hn. by destruct Hor as [-> | ->].
Qed.
Lemma stop_event n g : IsEnabled n = false → lives g !! ListenInterface n = Some (Some n, ServerStateRunning, true) →
  wp (publish_all [PubServer EventConfigServerStop n])
    (λ _ g', others (ListenInterface n) g g' ∧ ∃ l', lives g' !! ListenInterface n = Some l' ∧ fits n l') (λ _ _, False) g.
Proof.
  intros Hn Hl. destruct (lives_Some _ _ _ Hl) as (s&Hs&Hls). cbn [publish_all handle]. wp_step.
  unfold on_ServerStop, findServer. do 2 wp_step. rewrite Hs. apply life_split in Hls as (Hcf&Hst&Hli). cbn in Hcf, Hst, Hli.
  rewrite bool_decide_true by done. unfold shutdown_server, server_Shutdown. rewrite Hli, bool_decide_true by done.
  apply wp_modify, wp_ret. split; [apply others_set|]. exists (Some n, ServerStateStopped, true). unfold lives, fits. cbn.
  rewrite lookup_fmap, lookup_insert_eq, Hn. split; [|by right]. cbn. unfold life_of. cbn. by rewrite Hcf.
Qed.
Lemma server_events o n l g :
  configured g → g_state g = daemonStateStarted → lives g !! ListenInterface n = Some l → fits o l →
  wp (publish_all (server_emitChangeEvents o n))
    (λ _ g', others (ListenInterface n) g g' ∧ ∃ l', lives g' !! ListenInterface n = Some l' ∧ fits n l')
    (λ _ _, False) g.
Proof.
  intros Hg Hst Hl Hfit. pose proof (fits_config o l Hfit) as Hlo. destruct l as [[cf st] ls]. cbn in Hlo. subst cf.
  unfold server_emitChangeEvents. apply publish_app. eapply wp_mono; [by apply config_event| |done].
  intros [] g1 (Hl1&Hst1&Hc1).
  assert (Hk1 : lives g1 !! ListenInterface n = Some (Some n, st, ls)) by by rewrite Hl1, lookup_insert_eq.
  assert (Hg1 : configured g1).
  { apply configured_lives. rewrite Hl1. intros k' l'. rewrite lookup_insert. case_decide; [by intros [= <-]|].
    apply configured_lives, Hg. }
  assert (Ho1 : ∀ k', k' ≠ ListenInterface n → lives g1 !! k' = lives g !! k') by (intros k' Hk'; by rewrite Hl1, lookup_insert_ne).
  apply (wp_mono _ (λ _ g', others (ListenInterface n) g1 g' ∧ ∃ l', lives g' !! ListenInterface n = Some l' ∧ fits n l')
    _ (λ _ _, False)); [| |done].
  2: { intros [] g2 [Ho Hl2]. split; [|done]. eapply others_trans; [right|exact Ho]. done. }
  rewrite changed_IsEnabled. destruct (bool_decide (IsEnabled o = IsEnabled n)) eqn:He; cbn [negb].
  - apply bool_decide_eq_true in He. eapply wp_mono; [apply publish_keeps; [done|]| |done].
    { repeat (apply list.Forall_app; split); repeat case_match; repeat constructor. }
    intros [] g2 (K1&K2&K3). split; [split_and!; [done..|]; intros; left; by rewrite K1|].
    eexists. rewrite K1, Hk1. split; [reflexivity|]. unfold fits in *. rewrite <- He.
    destruct (IsEnabled o); [by injection Hfit as -> ->|]. destruct Hfit as [Hfit|Hfit]; injection Hfit as -> ->; auto.
  - apply bool_decide_eq_false in He. unfold fits in Hfit. destruct (IsEnabled n) eqn:Hn, (IsEnabled o); try done.
    + apply (start_event n st ls); [done|congruence|done| |done]. destruct Hfit as [Hfit|Hfit]; injection Hfit as -> _; auto.
    + injection Hfit as -> ->. by apply stop_event.
Qed.

(** ** The parts of a reload *)
Lemma getServers_named c k n : NoDup (map ListenInterface (Servers c)) →
  getServers c !! k = Some n → ListenInterface n = k.
Proof. intros Hnd. rewrite getServers_find by done. by intros [_ H1%bool_decide_eq_true]%find_some. Qed.

Variables (old c : AppConfig) (g0 : guerrilla).
Hypothesis Hnames : NoDup (map ListenInterface (Servers c)).
Hypothesis Hvalid : Forall (λ sc, Validate sc = None) (Servers c).
Lemma progress_configured todo g : progress old c g0 todo g → configured g.
Proof.
  intros (_&_&Hp). apply configured_lives. intros k l Hl. specialize (Hp k). rewrite Hl in Hp.
  destruct (getServers c !! k) as [n|], (getServers old !! k) as [o|]; try done.
  - destruct Hp as (?&[= <-]&->%fits_config). done.
  - by rewrite (fits_config _ _ Hp).
  - destruct Hp as (?&[= <-]&_&->%fits_config). done.
Qed.

Lemma changed_server k todo n o g : k ∉ todo → getServers c !! k = Some n → getServers old !! k = Some o →
  progress old c g0 (k :: todo) g → wp (publish_all (server_emitChangeEvents o n)) (λ _ g', progress old c g0 todo g') (λ _ _, False) g.
Proof.
  intros Hk Hn Ho Hp. pose proof (progress_configured _ _ Hp) as Hg. destruct Hp as (Hst&Hc&Hp).
  pose proof (Hp k) as Hpk. rewrite Hn, Ho, bool_decide_true in Hpk by by left. destruct Hpk as (l&Hl&Hfit).
  pose proof (getServers_named c k n Hnames Hn) as Hname. subst k.
  eapply wp_mono; [by eapply server_events| |done]. intros [] g1 ((H1&H2&H3)&l'&Hl'&Hfit').
  split_and!; [congruence..|]. intros k. destruct (decide (k = ListenInterface n)) as [->|Hne].
  { rewrite Hn, Ho, bool_decide_false by done. eauto. }
  specialize (Hp k). destruct (H3 k Hne) as [E|E].
  - rewrite E. destruct (getServers c !! k), (getServers old !! k); try done.
    + by rewrite (decide_in_cons k _ todo Hne) in Hp.
    + destruct (lives g !! k); [done|]. set_solver.
  - rewrite E. destruct (getServers c !! k), (getServers old !! k); try (by rewrite Hp).
    + rewrite (decide_in_cons k _ todo Hne) in Hp. destruct Hp as (x&->&Hx). exists x. split; [|done].
      cbn. by erewrite fits_started.
    + destruct (lives g !! k) as [x|]; cbn; [by erewrite fits_started|set_solver].
    + destruct Hp as (x&Hx1&Hx2&Hx). exists x. rewrite Hx1. cbn. by erewrite fits_started.
Qed.

Lemma fits_fresh n : fits n (started (Some n, ServerStateNew, false)).
Proof. unfold fits. cbn. destruct (IsEnabled n); auto. Qed.
Lemma makeServers_makes g : g_Config g = c → Servers c ≠ [] →
  wp makeServers (λ errs g', errs = [] ∧ made (Servers c) g g') (λ _ _, False) g.
Proof.
  intros Hc Hne. unfold makeServers. do 2 wp_step. rewrite Hc. wp_step.
  eapply wp_mono; [by apply make_each_makes| |done]. intros errs g1 (->&Hmade). do 3 wp_step. split; [|done].
  rewrite bool_decide_false; [done|]. intros He. destruct (Servers c) as [|sc l]; [done|].
  destruct Hmade as (Hl&_). specialize (Hl (ListenInterface sc)). unfold fresh in Hl. cbn in Hl.
  rewrite bool_decide_true in Hl by done. unfold lives at 1 in Hl. rewrite He, fmap_empty, lookup_empty in Hl.
  by destruct (lives g !! _).
Qed.
Lemma new_server k todo n g : getServers c !! k = Some n → getServers old !! k = None →
  progress old c g0 (k :: todo) g → wp (handle (ServerNew n)) (λ _ g', progress old c g0 todo g') (λ _ _, False) g.
Proof.
  intros Hn Ho Hp. pose proof (progress_configured _ _ Hp) as Hg. destruct Hp as (Hst&Hc&Hp).
  pose proof (getServers_named c k n Hnames Hn) as Hname. change (handle (ServerNew n)) with (on_ServerNew n). unfold on_ServerNew, findServer. do 2 wp_step. rewrite Hname.
  destruct (g_servers g !! k) as [s|] eqn:Hs.
  - wp_step. split_and!; [done..|]. intros k'. specialize (Hp k'). destruct (decide (k' = k)) as [->|Hne].
    + rewrite Hn, Ho in *. rewrite lives_lookup, Hs in *. done.
    + rewrite (decide_in_cons k' k todo Hne) in Hp. destruct (getServers c !! k'), (getServers old !! k'); try done.
      destruct (lives g !! k'); [done|set_solver].
  - assert (Hne : Servers c ≠ []) by (intros E; unfold getServers in Hn; by rewrite E in Hn).
    wp_step. eapply wp_mono; [by apply makeServers_makes| |done]. intros errs g1 (->&Hl1&Hst1&Hc1). do 2 wp_step.
    rewrite Hst1, Hst, bool_decide_true by done. wp_step.
    assert (Hf : ∀ k', fresh (Servers c) k' = (λ sc, (Some sc, ServerStateNew, false)) <$> getServers c !! k')
      by (intros k'; unfold fresh; by rewrite getServers_find).
    assert (Hg1 : configured g1).
    { apply configured_lives. intros k' l. rewrite Hl1. destruct (lives g !! k') as [x|] eqn:Hx.
      - intros [= <-]. by apply (proj1 (configured_lives g) Hg k').
      - rewrite Hf. by destruct (getServers c !! k'); intros [= <-]. }
    eapply wp_mono; [apply Start_starts; [done|congruence]| |done]. intros errs g2 (_&Hl2&Hst2&Hc2). wp_step.
    split_and!; [congruence..|]. intros k'. specialize (Hp k').
    rewrite Hl2, lookup_fmap, Hl1, Hf. destruct (getServers c !! k') as [n'|] eqn:Hn', (getServers old !! k') as [o'|] eqn:Ho'.
    + destruct (decide (k' = k)) as [->|Hk']; [congruence|]. rewrite (decide_in_cons k' k todo Hk') in Hp.
      destruct Hp as (x&->&Hx). cbn. exists x. by erewrite fits_started.
    + destruct (lives g !! k') as [x|]; cbn; [by erewrite fits_started|]. apply fits_fresh.
    + destruct Hp as (x&->&Hx0&Hx). cbn. exists x. by erewrite fits_started.
    + by rewrite Hp.
Qed.

Lemma all_servers : ∀ todo g, NoDup todo → (∀ k, k ∈ todo → is_Some (getServers c !! k)) → progress old c g0 todo g →
  wp (publish_all (concat (map (λ k,
    match getServers c !! k with
    | None => []
    | Some n => match getServers old !! k with Some o => server_emitChangeEvents o n | None => [ServerNew n] end
    end) todo))) (λ _ g', progress old c g0 [] g') (λ _ _, False) g.
Proof.
  induction todo as [|k todo IH]; intros g Hnd Hin Hp; cbn [map concat]; [by apply wp_ret|].
  apply list.NoDup_cons in Hnd as [Hk Hnd]. apply publish_app. destruct (Hin k) as [n Hn]; [by left|]. rewrite Hn.
  assert (Hmore : ∀ g', progress old c g0 todo g' → _) by (intros g' Hp'; apply (IH g' Hnd); [intros; apply Hin; by right|exact Hp']).
  destruct (getServers old !! k) as [o|] eqn:Ho.
  - eapply wp_mono; [by eapply changed_server| |done]. intros [] g'. apply Hmore.
  - cbn [publish_all]. wp_step. eapply wp_mono; [by eapply new_server| |done]. intros [] g' Hp'. apply wp_ret. by apply Hmore.
Qed.

(** Servers that are removed must not have been stopped before. *)
Hypothesis Hstopped : ∀ k l, getServers c !! k = None → lives g0 !! k = Some l → l.1.2 ≠ ServerStateStopped.
Lemma removed_server k o order g : k ∉ order → ListenInterface o = k → getServers c !! k = None →
  getServers old !! k = Some o → removing old c g0 (k :: order) g →
  wp (handle (ServerRemove o)) (λ _ g', removing old c g0 order g' ∧ g_Config g' = g_Config g ∧ g_state g' = g_state g) (λ _ _, False) g.
Proof.
  intros Hk Hname Hc Ho Hr. pose proof (Hr k) as Hrk. rewrite Hc, Ho, bool_decide_true in Hrk by by left.
  destruct Hrk as (l&Hl&Hl0&Hfit). change (handle (ServerRemove o)) with (on_ServerRemove o). unfold on_ServerRemove, findServer. do 2 wp_step. rewrite Hname.
  rewrite lives_lookup in Hl. apply fmap_Some in Hl as (s&Hs&->). rewrite Hs. wp_step.
  pose proof (Hstopped k _ Hc Hl0) as Hns. unfold shutdown_server.
  assert (Hsd : ∃ s', server_Shutdown s = Ok s').
  { unfold server_Shutdown. unfold fits, life_of in Hfit. cbn in Hns.
    destruct (IsEnabled o); [injection Hfit as _ Hst ->; rewrite Hst; eexists; reflexivity|].
    destruct Hfit as [Hfit|Hfit]; injection Hfit as _ Hst ->; [eexists; reflexivity|by rewrite Hst in Hns]. }
  destruct Hsd as [s' ->]. apply wp_modify, wp_modify. split; [|done]. intros k'. specialize (Hr k').
  unfold lives. cbn. rewrite lookup_fmap. destruct (decide (k' = k)) as [->|Hne].
  - by rewrite Hc, bool_decide_false, lookup_delete_eq by done.
  - rewrite lookup_delete_ne, lookup_insert_ne, <- lookup_fmap by done. by rewrite (decide_in_cons k' k order Hne) in Hr.
Qed.
Lemma removed_servers (gone : gmap bytes ServerConfig) :
  (∀ k, gone !! k = match getServers c !! k with Some _ => None | None => getServers old !! k end) →
  (∀ k o, getServers old !! k = Some o → ListenInterface o = k) →
  ∀ order g, NoDup order → removing old c g0 order g →
  wp (publish_all (omap (λ k, PubServer EventConfigServerRemove <$> gone !! k) order))
    (λ _ g', removing old c g0 [] g' ∧ g_Config g' = g_Config g ∧ g_state g' = g_state g) (λ _ _, False) g.
Proof.
  intros Hgone Hnamed. induction order as [|k order IH]; intros g Hnd Hr; cbn [omap list_omap]; [by apply wp_ret|].
  apply list.NoDup_cons in Hnd as [Hk Hnd]. rewrite Hgone.
  assert (Hskip : (getServers c !! k ≠ None ∨ getServers old !! k = None) → removing old c g0 order g).
  { intros Hor k'. specialize (Hr k'). destruct (decide (k' = k)) as [->|Hne].
    - destruct (getServers c !! k); [done|]. rewrite bool_decide_true in Hr by by left.
      destruct Hor as [|Hor]; [done|]. rewrite Hor in Hr. by case_bool_decide; [rewrite Hor|].
    - by rewrite (decide_in_cons k' k order Hne) in Hr. }
  destruct (getServers c !! k) eqn:Hc; [by apply IH; [|apply Hskip; left]|].
  destruct (getServers old !! k) as [o|] eqn:Ho; [|by apply IH; [|apply Hskip; right]]. cbn [fmap option_fmap option_map publish_all].
  wp_step. eapply wp_mono; [by eapply removed_server; eauto| |done]. intros [] g1 (Hr1&Hc1&Hs1).
  eapply wp_mono; [by apply IH| |done]. intros [] g2 (Hr2&Hc2&Hs2). split_and!; [done|congruence..].
Qed.

Lemma synced_progress order g : (∀ k, is_Some (getServers c !! k) → k ∈ order) →
  lives g = lives g0 → g_state g = daemonStateStarted → g_Config g = c → synced old g0 → progress old c g0 order g.
Proof.
  intros Ho Hl Hst Hc Hs. split_and!; [done..|]. intros k. specialize (Hs k). rewrite Hl.
  destruct (getServers c !! k) as [n|] eqn:Hn.
  - assert (k ∈ order) by (apply Ho; by rewrite Hn). destruct (getServers old !! k).
    + rewrite bool_decide_true by done. destruct (lives g0 !! k) as [l|]; [by exists l|done].
    + by destruct (lives g0 !! k).
  - destruct (getServers old !! k), (lives g0 !! k) as [l|]; try done. by exists l.
Qed.
Lemma progress_removing order g : (∀ k, is_Some (getServers old !! k) → k ∈ order) → progress old c g0 [] g → removing old c g0 order g.
Proof.
  intros Ho (_&_&Hp) k. specialize (Hp k). destruct (getServers c !! k) as [n|].
  - destruct (getServers old !! k); [exact Hp|]. destruct (lives g !! k) as [l|]; [by exists l|by apply elem_of_nil in Hp].
  - destruct (getServers old !! k) eqn:Hk; [rewrite bool_decide_true; [done|apply Ho; by rewrite Hk]|].
    by case_bool_decide.
Qed.
Lemma removing_synced g : removing old c g0 [] g → synced c g.
Proof.
  intros Hr k. specialize (Hr k). destruct (getServers c !! k); [by destruct Hr as (l&->&?)|]. cbn in Hr.
  by rewrite Hr.
Qed.

(** The first events of a reload: the servers keep their life, the configuration is the new one. *)
Lemma maybe_event (b : bool) p g : configured g →
  (configured g → wp (handle p) (λ _ g', keeps g g') (λ _ _, False) g) →
  wp (publish_all (if b then [] else [p])) (λ _ g', keeps g g') (λ _ _, False) g.
Proof.
  intros Hg Hp. destruct b; cbn [publish_all]; [by apply wp_ret|]. wp_step. eapply wp_mono; [by apply Hp| |done].
  intros [] g1 K. by apply wp_ret.
Qed.
Lemma app_event b e c' l Q g : configured g →
  match e with
  | EventConfigNewConfig => False
  | EventConfigBackendConfig => ∀ t, is_Some (b_new t (app_BackendConfig c'))
  | _ => True
  end →
  (∀ g', keeps g g' → configured g' → wp (publish_all l) Q (λ _ _, False) g') →
  wp (publish_all ((if b : bool then [] else [PubApp e c']) ++ l)) Q (λ _ _, False) g.
Proof.
  intros Hg He Hl. apply publish_app. eapply wp_mono; [apply maybe_event; [done|]| |done].
  - intros _. apply event_keeps; [done|]. by destruct e.
  - intros [] g1 K. apply Hl; [done|]. by eapply configured_eq; [apply K|].
Qed.
End Reload.

Section ReloadConfig.
Context {U : Unicode} {Mc : Machine} {H : Host_} {L : BackendLife}.

(** A reload brings the running daemon to the new configuration. When nothing on the
    machine fails, and the servers of a started daemon are those of the old configuration, each with its settings, running
    when it is enabled and not when it is not, then the events of the change, whatever the order in which the
    maps are listed, are all handled, and the same holds of the new configuration: servers that are new
    are there, servers that are gone are not, servers were started and stopped. A server that
    is removed must not have been stopped by an earlier reload. *)
Lemma reload_reaches_config newOrder oldOrder old c g :
  machine_works →
  (∀ t, is_Some (b_new t (app_BackendConfig c))) →
  NoDup (map ListenInterface (Servers c)) → Forall (λ sc, Validate sc = None) (Servers c) →
  NoDup (map ListenInterface (Servers old)) →
  visits newOrder (getServers c) → visits oldOrder (getServers old) →
  g_state g = daemonStateStarted → g_Config g = old → synced old g →
  (∀ k l, getServers c !! k = None → lives g !! k = Some l → l.1.2 ≠ ServerStateStopped) →
  ∃ g', ReloadConfig newOrder oldOrder old c g = (Ok tt, g') ∧ synced c g' ∧ g_Config g' = c ∧ g_state g' = daemonStateStarted.
Proof.
  intros Hm Hb Hnames Hvalid Hnames_old [Hnd1 Hv1] [Hnd2 Hv2] Hst Hc Hsync Hstopped.
  assert (Hg : configured g).
  { apply configured_lives. intros k l Hl. specialize (Hsync k). rewrite Hl in Hsync.
    destruct (getServers old !! k); [|done]. by rewrite (fits_config _ _ Hsync). }
  enough (Hwp : wp (ReloadConfig newOrder oldOrder old c) (λ _ g', synced c g' ∧ g_Config g' = c ∧ g_state g' = daemonStateStarted) (λ _ _, False) g).
  { unfold wp in Hwp. destruct (ReloadConfig _ _ _ _ g) as [[[]| | |] g']; try done. by exists g'. }
  unfold ReloadConfig, EmitChangeEvents.
  destruct (emit_servers (getServers c) newOrder (getServers old)) as [evs gone] eqn:E.
  assert (Hevs : evs = fst (emit_servers (getServers c) newOrder (getServers old))) by by rewrite E.
  rewrite emit_servers_events in Hevs by done. destruct (emit_servers_spec _ _ _ _ _ Hnd1 E) as (Hgone&_).
  assert (Hservers : ∀ g2, lives g2 = lives g → g_state g2 = daemonStateStarted → g_Config g2 = c →
    wp (publish_all (evs ++ omap (λ k, PubServer EventConfigServerRemove <$> gone !! k) oldOrder))
      (λ _ g', synced c g' ∧ g_Config g' = c ∧ g_state g' = daemonStateStarted) (λ _ _, False) g2).
  { intros g2 Hl2 Hst2 Hc2. apply publish_app. rewrite Hevs.
    eapply wp_mono; [apply (all_servers Hm old c g Hnames Hvalid newOrder g2 Hnd1 ltac:(by intros; apply Hv1))| |done].
    - apply synced_progress; [by intros; apply Hv1|done..].
    - intros [] g3 Hp3. eapply wp_mono; [eapply (removed_servers old c g Hstopped gone)| |done].
      + intros k. rewrite Hgone. case_bool_decide as Hk; [done|]. destruct (getServers c !! k) eqn:Hck; [|done].
        destruct Hk. apply Hv1. by rewrite Hck.
      + intros k o. by apply getServers_named.
      + done.
      + apply progress_removing; [by intros; apply Hv2|done].
      + intros [] g4 (Hr&Hc4&Hst4). destruct Hp3 as (Hst3&Hc3&_). split_and!; [|congruence..]. by eapply removing_synced. }
  apply app_event; [done..|]. intros g1 (K1&K2&K3) Hg1. apply publish_app.
  apply (wp_mono _ (λ _ g', lives g' = lives g ∧ g_state g' = daemonStateStarted ∧ g_Config g' = c) _ (λ _ _, False)); [| |done].
  { case_bool_decide as Hoc; cbn [publish_all]; [apply wp_ret; split_and!; congruence|].
    wp_step. apply wp_modify, wp_ret. split_and!; [exact K1|cbn; congruence|done]. }
  intros [] g2 (M1&M2&M3). assert (Hg2 : configured g2) by by eapply configured_eq.
  repeat (apply app_event; [done..|]; let g := fresh "g" in let K := fresh in
    intros g K ?; destruct K as (?&?&?)).
  apply Hservers; congruence.
Qed.

(** *** The hosts of a reload *)
Lemma publish_all_ok l1 l2 g g' : publish_all (l1 ++ l2) g = (Ok tt, g') →
  ∃ g1, publish_all l1 g = (Ok tt, g1) ∧ publish_all l2 g1 = (Ok tt, g').
Proof.
  revert g. induction l1 as [|p l1 IH]; intros g; [by exists g|]. cbn [app publish_all]. unfold mbind, M_bind.
  destruct (handle p g) as [[[]|[]| |] g1]; try done. by apply IH.
Qed.
Lemma accepts_published hosts l r g g' :
  Forall (λ p, match p with PubApp EventConfigNewConfig _ | PubApp EventConfigAllowedHosts _ => False | _ => True end) l →
  publish_all l g = (r, g') → accepts hosts g → accepts hosts g'.
Proof.
  intros Hl E Hg. assert (Hk := held_publish (λ _ h, h = setAllowedHosts hosts) (λ _ c, AllowedHosts c = hosts)
    ltac:(by intros a c ->) l Hl g Hg). by rewrite E in Hk.
Qed.
(** The hosts that the servers accept follow the configuration, whatever fails. *)
Lemma reload_sets_hosts newOrder oldOrder old c g g' : NoDup newOrder → accepts (AllowedHosts old) g →
  ReloadConfig newOrder oldOrder old c g = (Ok tt, g') → accepts (AllowedHosts c) g'.
Proof.
  intros Hnd Hacc E. unfold ReloadConfig, EmitChangeEvents in E.
  apply publish_all_ok in E as (g1&E1&E). apply publish_all_ok in E as (g2&E2&E). apply publish_all_ok in E as (g3&E3&E).
  assert (H1 : accepts (AllowedHosts old) g1).
  { eapply accepts_published; [|exact E1|exact Hacc]. destruct (bool_decide _); by repeat constructor. }
  assert (H3 : accepts (AllowedHosts c) g3).
  { destruct H1 as [Hc Hs], (bool_decide_reflect (old = c)) as [<-|Ho]; cbn in E2; injection E2 as <-.
    { rewrite bool_decide_true in E3 by done. injection E3 as <-. by split. }
    destruct (bool_decide_reflect (AllowedHosts old = AllowedHosts c)) as [Hh|Hh]; cbn in E3; injection E3 as <-;
      (split; [done|]); intros k s; cbn.
    - rewrite <- Hh. apply Hs.
    - rewrite lookup_fmap. by intros (s'&_&->)%fmap_Some. }
  eapply accepts_published; [|exact E|exact H3].
  do 3 (apply list.Forall_app; split; [match goal with |- Forall _ (if ?b then _ else _) => destruct b; by repeat constructor end|]).
  destruct (emit_servers (getServers c) newOrder (getServers old)) as [evs gone] eqn:Ee. apply list.Forall_app. split.
  - replace evs with (fst (emit_servers (getServers c) newOrder (getServers old))) by by rewrite Ee.
    rewrite emit_servers_events by done. apply List.Forall_concat, list.Forall_forall. intros l (k&<-&_)%list_elem_of_In%in_map_iff.
    destruct (getServers c !! k) as [n|]; [|done]. destruct (getServers old !! k) as [o|]; [|by repeat constructor].
    unfold server_emitChangeEvents. repeat (apply list.Forall_app; split); repeat case_match; repeat constructor.
  - apply list.Forall_forall. intros p Hp. apply list_elem_of_omap in Hp as (k&_&Hk). by apply fmap_Some in Hk as (sc&_&->).
Qed.
End ReloadConfig.

(** ** Witness and examples *)
#[local] Existing Instances ascii_only test_machine test_host test_life.

Lemma reload_reaches_config_witness :
  let old := test_config [test_server "a:25" true 30] in
  let c := test_config [test_server "a:25" false 30; test_server "b:25" true 60] in
  ∃ g', ReloadConfig [bs "a:25"; bs "b:25"] [bs "a:25"] old c (test_daemon old) = (Ok tt, g') ∧ synced c g' ∧ g_Config g' = c ∧ g_state g' = daemonStateStarted.
Proof.
  intros old c.
  assert (Ho : ∀ k, getServers old !! k = if decide (k = bs "a:25") then Some (test_server "a:25" true 30) else None).
  { intros k. change (getServers old) with (<[bs "a:25" := test_server "a:25" true 30]> (∅ : gmap bytes ServerConfig)).
    rewrite lookup_insert, lookup_empty. by repeat case_decide. }
  assert (Hc : ∀ k, getServers c !! k = if decide (k = bs "b:25") then Some (test_server "b:25" true 60)
    else if decide (k = bs "a:25") then Some (test_server "a:25" false 30) else None).
  { intros k. change (getServers c) with (<[bs "b:25" := test_server "b:25" true 60]>
      (<[bs "a:25" := test_server "a:25" false 30]> (∅ : gmap bytes ServerConfig))).
    rewrite !lookup_insert, lookup_empty. by repeat case_decide. }
  assert (Hl : lives (test_daemon old) = <[bs "a:25" := (Some (test_server "a:25" true 30), ServerStateRunning, true)]> ∅)
    by (vm_compute; reflexivity).
  assert (Hst : g_state (test_daemon old) = daemonStateStarted) by (vm_compute; reflexivity).
  assert (Hcf : g_Config (test_daemon old) = old) by (vm_compute; reflexivity).
  revert Hl Hst Hcf. generalize (test_daemon old). intros g Hl Hst Hcf.
  apply (reload_reaches_config [bs "a:25"; bs "b:25"] [bs "a:25"] old c g).
  - exact (conj (λ _ _, eq_refl) (conj (λ _ _ _, eq_refl) (λ _ _, eq_refl))).
  - intros t. by exists tt.
  - by apply (bool_decide_unpack _).
  - by repeat constructor.
  - by apply (bool_decide_unpack _).
  - split; [by apply (bool_decide_unpack _)|]. intros k. rewrite Hc, !elem_of_cons, elem_of_nil.
    repeat case_decide; (split; [intros; by eexists|by auto]) || (split; [tauto|by intros [? ?]]).
  - split; [by apply (bool_decide_unpack _)|]. intros k. rewrite Ho, !elem_of_cons, elem_of_nil.
    repeat case_decide; (split; [intros; by eexists|by auto]) || (split; [tauto|by intros [? ?]]).
  - exact Hst.
  - exact Hcf.
  - intros k. rewrite Ho, Hl, lookup_insert, lookup_empty. repeat case_decide; try done; congruence.
  - intros k l. rewrite Hl, lookup_insert, lookup_empty. case_decide; [|done]. intros _ [= <-]. done.
Defined.

(** A reload that removes a server which an earlier one has disabled never returns: nobody
    is left to say that the listener is closed. *)
Example removal_of_a_stopped_server_hangs :
  let both := test_config [test_server "a:25" true 30; test_server "b:25" true 30] in
  let disabled := test_config [test_server "a:25" true 30; test_server "b:25" false 30] in
  let removed := test_config [test_server "a:25" true 30] in
  let g := snd (ReloadConfig [bs "a:25"; bs "b:25"] [bs "a:25"; bs "b:25"] both disabled (test_daemon both)) in
  (sv_state <$> g_servers g !! bs "b:25") = Some ServerStateStopped ∧
  fst (ReloadConfig [bs "a:25"] [bs "a:25"; bs "b:25"] disabled removed g) = OutOfFuel.
Proof. vm_compute. auto. Qed.
(** The timeout of one server becomes the timeout of all. *)
Example timeout_goes_to_all_servers :
  let old := test_config [test_server "a:25" true 30; test_server "b:25" true 30] in
  let c := test_config [test_server "a:25" true 7; test_server "b:25" true 30] in
  let g := snd (ReloadConfig [bs "a:25"; bs "b:25"] [bs "a:25"; bs "b:25"] old c (test_daemon old)) in
  (sv_timeout <$> g_servers g !! bs "b:25") = Some 7%Z.
Proof. vm_compute. reflexivity. Qed.
(** A server that is enabled together with a new certificate runs with the old one. *)
Example enabled_with_the_old_certificate :
  let tls file := mkServerTLSConfig [] [] [] file file [] [] 0 0 false true false in
  let sc file on := mkServerConfig (tls file) "server.log" "h" "a:25" 0 30 10 on false in
  let works : Machine := {| os_Hostname := None; stat_mtime := λ _, None; now_unix := 0; LoadX509KeyPair := λ _ _, None |} in
  let old := test_config [sc (bs "old.pem") false] in
  let c := test_config [sc (bs "new.pem") true] in
  let g0 := snd (Start (snd (@new_guerrilla _ works _ _ old tt "main.log" 0))) in
  let g := snd (@ReloadConfig _ works _ _ [bs "a:25"] [bs "a:25"] old c g0) in
  (λ s, (sv_state s, tc_cert <$> sv_tls s)) <$> g_servers g !! bs "a:25" =
    Some (ServerStateRunning, Some (bs "old.pem", bs "old.pem")).
Proof. vm_compute. reflexivity. Qed.
(** A server that cannot listen, and reports it too late, ends the program. *)
Example late_report_panics :
  let busy late : Host_ := {| opens_log := λ _ _, None; loads_pair := λ _ _ _, None; reads_file := λ _ _, None;
    listens := λ _ _, Some (bs "address in use"); reports_late := λ _ _, late |} in
  let g late := snd (@new_guerrilla _ _ (busy late) _ (test_config [test_server "a:25" true 30]) tt "main.log" 0) in
  is_ok (fst (@Start (busy false) _ (g false))) = true ∧ fst (@Start (busy true) _ (g true)) = Panic.
Proof. vm_compute. auto. Qed.
(** A server whose log does not open stays in the map without a configuration, and the next
    start panics. *)
Example unopened_log_panics :
  let no_log : Host_ := {| opens_log := λ _ _, Some (bs "permission denied"); loads_pair := λ _ _ _, None;
    reads_file := λ _ _, None; listens := λ _ _, None; reports_late := λ _ _, false |} in
  let old := test_config [test_server "a:25" true 30] in
  let c := test_config [test_server "a:25" true 30; test_server "b:25" true 30] in
  let g := snd (@ReloadConfig _ _ no_log _ [bs "a:25"; bs "b:25"] [bs "a:25"] old c (test_daemon old)) in
  fst (Start g) = Panic.
Proof. vm_compute. reflexivity. Qed.
(** A new log level sends the logs of all servers to the log of the daemon, a new log of one
    server becomes the log of the daemon. *)
Example logs_are_mixed_up :
  let old := test_config [test_server "a:25" true 30] in
  (sv_log <$> g_servers (test_daemon old) !! bs "a:25") = Some (bs "server.log") ∧
  (sv_log <$> g_servers (snd (handle (PubApp EventConfigLogLevel old) (test_daemon old))) !! bs "a:25") = Some (bs "main.log") ∧
  g_mainlog (snd (handle (PubServer EventConfigServerLogFile (test_server "a:25" true 30)) (test_daemon old))) = bs "server.log".
Proof. vm_compute. auto. Qed.
