(* ===== verification/Api.v ===== *)
(** * The facade of the program: src/api.go, with the event bus of event.go

    A [Daemon] keeps a configuration, a log, a backend, an authenticator and subscriptions until it is started, and
    makes the daemon of Daemon.v of them then. Every handler of an event is called through the bus, a library:
    the daemon's own handlers and those of the user of the package, whose calls are recorded. *)
From S2P Require Import Prelude GoStd Shared Config Auth Server Listener Daemon.

(** A value that a user subscribes, with its type. Functions are compared with nothing; [==] on two of the same
    type panics. *)
Inductive user_fn : Type := fn_func (ty id : nat) | fn_value (ty id : nat).
Inductive handler : Type := own | user (f : user_fn).
Record deferredSub := mkDeferredSub { ds_topic : Event; ds_fn : user_fn }.
Definition interface_eq (a b : user_fn) : outcome Empty_set bool :=
  match a, b with
  | fn_func t _, fn_func u _ => if t =? u then Panic else Ok false
  | fn_value t i, fn_value u j => Ok ((t =? u) && (i =? j))
  | _, _ => Ok false
  end.

(** The bus: its topics are texts; [bus_handlers] are the handlers that Publish calls, in order. *)
Class EventBus := {
  Bus : Type;
  bus_new : Bus;
  bus_Subscribe : bytes → handler → Bus → option bytes * Bus;
  bus_Unsubscribe : bytes → handler → Bus → option bytes * Bus;
  bus_handlers : Bus → bytes → list handler
}.
(** [json.Marshal] of a configuration, and [json.Unmarshal] into one. *)
Class ConfigJSON := {
  json_marshal : AppConfig → option bytes;
  json_unmarshal : bytes → AppConfig → option AppConfig
}.
(** The orders in which maps are listed, each time; and whether [log.GetLogger] returns a log
    beside its error, as it does when only the file does not open. *)
Class Chances := {
  event_order : nat → list Event;
  servers_order : nat → AppConfig → list bytes;
  leaves_log : nat → bool
}.

Section Api.
Context {U : Unicode} {Mc : Machine} {H : Host_} {L : BackendLife} {EB : EventBus} {CJ : ConfigJSON} {Ch : Chances}.

(** ** The daemon with its bus (EventHandler of event.go)

    [a_bus] is [None] until somebody subscribes. *)
Record app := mkApp { a_g : guerrilla; a_bus : option Bus; a_told : list (user_fn * published) }.
Abbreviation App := (M app Empty_set).
Definition on_guerrilla {A} (m : M guerrilla Empty_set A) : App A := λ a, let '(r, g) := m (a_g a) in (r, mkApp g (a_bus a) (a_told a)).
Definition set_bus (b : Bus) (a : app) : app := mkApp (a_g a) (Some b) (a_told a).
Definition tell (f : user_fn) (p : published) (a : app) : app := mkApp (a_g a) (a_bus a) (a_told a ++ [(f, p)]).
Definition bus_Subscribe_ (topic : Event) (fn : handler) : App (option bytes) :=
  b ← gets a_bus;
  let '(err, b) := bus_Subscribe (Event_String topic) fn (default bus_new b) in
  modify (set_bus b);;
  mret err.
Definition bus_Unsubscribe_ (topic : Event) (fn : handler) : App (option bytes) :=
  b ← gets a_bus;
  match b with
  | None => panic
  | Some b =>
      let '(err, b) := bus_Unsubscribe (Event_String topic) fn b in
      modify (set_bus b);;
      mret err
  end.
Definition topic_of (p : published) : Event := match p with PubApp e _ => e | PubServer e _ => e end.
Fixpoint call_each (l : list handler) (p : published) : App unit :=
  match l with
  | [] => mret tt
  | own :: l => on_guerrilla (handle p);; call_each l p
  | user f :: l => modify (tell f p);; call_each l p
  end.
Definition bus_Publish (p : published) : App unit :=
  b ← gets a_bus;
  match b with
  | None => panic
  | Some b => call_each (bus_handlers b (Event_String (topic_of p))) p
  end.

(** [subscribeEvents]: one handler for each event, up to the first that fails. *)
Fixpoint subscribeEvents (order : list Event) : App unit :=
  match order with
  | [] => mret tt
  | e :: order =>
      err ← bus_Subscribe_ e own;
      match err with Some _ => mret tt | None => subscribeEvents order end
  end.
(** [guerrilla.New] returns a daemon beside an error. *)
Definition New (order : list Event) (c : AppConfig) (b : Back) (log : bytes) (now : nat) :
    outcome Empty_set (list daemon_error) * app :=
  let '(r, g) := new_guerrilla c b log now in
  let a := mkApp g None [] in
  match r with
  | Ok [] => let '(_, a) := subscribeEvents order a in (Ok [], a)
  | r => (r, a)
  end.

(** ** The facade *)
Record daemon := mkDaemon {
  d_Config : option AppConfig;
  d_Logger : option bytes;
  d_Backend : option Back;
  d_g : option app;
  d_authenticator : option Authenticator;
  d_subs : list deferredSub;
  d_now : nat
}.
(** The errors of New and of Start of the daemon are told apart by the statement that returns them. *)
Inductive api_error : Type :=
| ae_config (e : config_error)
| ae_log (m : bytes)
| ae_backend
| ae_new (errs : list daemon_error)
| ae_start (errs : list daemon_error)
| ae_read
| ae_json
| ae_no_config
| ae_bus (m : bytes).
Abbreviation D := (M daemon api_error).

Definition set_Config (v : option AppConfig) (d : daemon) : daemon :=
  mkDaemon v (d_Logger d) (d_Backend d) (d_g d) (d_authenticator d) (d_subs d) (d_now d).
Definition set_Logger (v : option bytes) (d : daemon) : daemon :=
  mkDaemon (d_Config d) v (d_Backend d) (d_g d) (d_authenticator d) (d_subs d) (d_now d).
Definition set_Backend (v : option Back) (d : daemon) : daemon :=
  mkDaemon (d_Config d) (d_Logger d) v (d_g d) (d_authenticator d) (d_subs d) (d_now d).
Definition set_g (v : option app) (d : daemon) : daemon :=
  mkDaemon (d_Config d) (d_Logger d) (d_Backend d) v (d_authenticator d) (d_subs d) (d_now d).
Definition set_authenticator (v : option Authenticator) (d : daemon) : daemon :=
  mkDaemon (d_Config d) (d_Logger d) (d_Backend d) (d_g d) v (d_subs d) (d_now d).
Definition set_subs (v : list deferredSub) (d : daemon) : daemon :=
  mkDaemon (d_Config d) (d_Logger d) (d_Backend d) (d_g d) (d_authenticator d) v (d_now d).
Definition api_now : D nat := λ d,
  (Ok (d_now d), mkDaemon (d_Config d) (d_Logger d) (d_Backend d) (d_g d) (d_authenticator d) (d_subs d) (S (d_now d))).
Definition ok_or_fail {A} (r : outcome Empty_set A) : outcome api_error A :=
  match r with Ok a => Ok a | Err e => match e with end | Panic => Panic | OutOfFuel => OutOfFuel end.
(** A call of the daemon, whose interface must not be nil. *)
Definition on_app {A} (m : App A) : D A := λ d,
  match d_g d with
  | None => (Panic, d)
  | Some a => let '(r, a) := m a in (ok_or_fail r, set_g (Some a) d)
  end.
Definition on_config (m : M AppConfig config_error unit) : D unit := λ d,
  match d_Config d with
  | None => (Panic, d)
  | Some c => let '(r, c) := m c in (map_error ae_config r, set_Config (Some c) d)
  end.
Definition config_ : D AppConfig := c ← gets d_Config; match c with None => panic | Some c => mret c end.

Definition configureDefaults : D unit :=
  on_config setDefaults;;
  b ← gets d_Backend;
  match (b : option Back) with None => on_config setBackendDefaults | Some _ => mret tt end.
Definition Subscribe (topic : Event) (fn : user_fn) : D unit :=
  g ← gets d_g;
  match (g : option app) with
  | None => modify (λ d, set_subs (d_subs d ++ [mkDeferredSub topic fn]) d)
  | Some _ =>
      err ← on_app (bus_Subscribe_ topic (user fn));
      match err with Some m => fail (ae_bus m) | None => mret tt end
  end.
(** The errors of the subscriptions that waited are dropped. *)
Fixpoint subscribe_deferred (l : list deferredSub) : D unit :=
  match l with
  | [] => mret tt
  | s :: l => try_ (Subscribe (ds_topic s) (ds_fn s));; subscribe_deferred l
  end.
Definition SetAuthenticator (a : option Authenticator) : D unit :=
  modify (set_authenticator a);;
  g ← gets d_g;
  match (g : option app) with None => mret tt | Some _ => on_app (on_guerrilla (Daemon.SetAuthenticator a)) end.
Definition open_log : D bytes :=
  c ← config_;
  t ← api_now;
  match opens_log t (LogFile c) with
  | None => mret (LogFile c)
  | Some m => fail (ae_log m)
  end.
(** What the fields are when Start needs them. *)
Definition need_logger : D bytes :=
  l ← gets d_Logger;
  match (l : option bytes) with
  | Some l => mret l
  | None =>
      c ← config_;
      t ← api_now;
      match opens_log t (LogFile c) with
      | None => modify (set_Logger (Some (LogFile c)));; mret (LogFile c)
      | Some m => modify (set_Logger (if leaves_log t then Some (LogFile c) else None));; fail (ae_log m)
      end
  end.
Definition need_backend : D Back :=
  b ← gets d_Backend;
  match (b : option Back) with
  | Some b => mret b
  | None =>
      c ← config_;
      t ← api_now;
      match b_new t (app_BackendConfig c) with
      | Some b => modify (set_Backend (Some b));; mret b
      | None => fail ae_backend
      end
  end.
Definition new_app (log : bytes) (b : Back) : D unit :=
  c ← config_;
  t ← api_now;
  let '(r, a) := New (event_order t) c b log t in
  modify (set_g (Some a));;
  match r with
  | Ok [] => mret tt
  | Ok errs => fail (ae_new errs)
  | Err _ | Panic => panic
  | OutOfFuel => out_of_fuel
  end.
(** What the daemon is made of: the log, and the backend. *)
Definition prepare : D (bytes * Back) :=
  modify (λ d, set_Config (Some (default empty_AppConfig (d_Config d))) d);;
  configureDefaults;;
  log ← need_logger;
  b ← need_backend;
  mret (log, b).
(** What was kept for the daemon is handed to it. *)
Definition hand_over : D unit :=
  auth ← gets d_authenticator;
  (match (auth : option Authenticator) with
   | None => mret tt
   | Some _ => on_app (on_guerrilla (Daemon.SetAuthenticator auth))
   end);;
  subs ← gets d_subs;
  subscribe_deferred subs;;
  modify (set_subs []).
Definition first_start : D unit := '(log, b) ← prepare; new_app log b;; hand_over.
Definition resetLogger : D unit :=
  log ← open_log;
  modify (set_Logger (Some log));;
  on_app (on_guerrilla (modify (set_mainlog log))).
(** The error of resetLogger is dropped. *)
Definition start_app : D unit :=
  errs ← on_app (on_guerrilla Daemon.Start);
  match errs with
  | [] => try_ resetLogger;; mret tt
  | errs => fail (ae_start errs)
  end.
Definition Start : D unit :=
  g ← gets d_g;
  (match (g : option app) with None => first_start | Some _ => mret tt end);;
  start_app.
Definition Shutdown : D unit :=
  g ← gets d_g;
  match (g : option app) with None => mret tt | Some _ => on_app (on_guerrilla Daemon.Shutdown) end.

(** [AppConfig.Load] on a value that may have settings already. *)
Definition load (data : bytes) (c : AppConfig) : D AppConfig :=
  match Load (json_unmarshal data c) with
  | Ok c => mret c
  | Err e => fail (ae_config e)
  | Panic => panic
  | OutOfFuel => out_of_fuel
  end.
Definition LoadConfig (path : bytes) : D AppConfig :=
  t ← api_now;
  match reads_file t path with
  | None => fail ae_read
  | Some data =>
      ac ← load data empty_AppConfig;
      modify (λ d, match d_Config d with None => set_Config (Some ac) d | Some _ => d end);;
      mret ac
  end.
Definition SetConfig (c : AppConfig) : D unit :=
  match json_marshal c with
  | None => fail ae_json
  | Some data => c ← load data c; modify (set_Config (Some c))
  end.

(** Events that are published one after the other, each through the daemon. *)
Fixpoint emit_events (l : list published) : D unit :=
  match l with
  | [] => mret tt
  | p :: l => on_app (bus_Publish p);; emit_events l
  end.
Definition emit_changes (old : AppConfig) : D unit :=
  c ← config_;
  t ← api_now;
  emit_events (EmitChangeEvents (servers_order t c) (servers_order t old) old c).
Definition ReloadConfig (c : AppConfig) : D unit :=
  old ← config_;
  SetConfig c;;
  emit_changes old.
Definition ReloadConfigFile (path : bytes) : D unit :=
  ac ← LoadConfig path;
  c ← gets d_Config;
  match c with
  | None => mret tt
  | Some old => modify (set_Config (Some ac));; emit_changes old
  end.
Definition ReopenLogs : D unit :=
  c ← gets d_Config;
  match c with
  | None => fail ae_no_config
  | Some c => t ← api_now; emit_events (EmitLogReopenEvents (servers_order t c) c)
  end.
Definition Publish (p : published) : D unit :=
  g ← gets d_g;
  match (g : option app) with None => mret tt | Some _ => on_app (bus_Publish p) end.
(** The loop ranges over the positions that there were when it began. *)
Fixpoint drop_subs (left_ i : nat) (topic : Event) (fn : user_fn) : D unit :=
  match left_ with
  | 0 => mret tt
  | S left_ =>
      subs ← gets d_subs;
      match (subs : list deferredSub) !! i with
      | None => panic
      | Some s =>
          same ← (if bool_decide (ds_topic s = topic) then λ d, (ok_or_fail (interface_eq (ds_fn s) fn), d) else mret false);
          (if same : bool then modify (set_subs (take i subs ++ drop (S i) subs)) else mret tt);;
          drop_subs left_ (S i) topic fn
      end
  end.
Definition Unsubscribe (topic : Event) (fn : user_fn) : D unit :=
  g ← gets d_g;
  match (g : option app) with
  | None => subs ← gets d_subs; drop_subs (length subs) 0 topic fn
  | Some _ =>
      err ← on_app (bus_Unsubscribe_ topic (user fn));
      match err with Some m => fail (ae_bus m) | None => mret tt end
  end.
(** ** Notions used by the statements *)

(** The calls that a user of the package makes. *)
Inductive api_call : Type :=
| call_Start | call_Shutdown | call_SetAuthenticator (a : option Authenticator) | call_LoadConfig (path : bytes)
| call_SetConfig (c : AppConfig) | call_ReloadConfig (c : AppConfig) | call_ReloadConfigFile (path : bytes) | call_ReopenLogs
| call_Subscribe (e : Event) (fn : user_fn) | call_Publish (p : published) | call_Unsubscribe (e : Event) (fn : user_fn).
Definition perform (c : api_call) : D unit :=
  match c with
  | call_Start => Start
  | call_Shutdown => Shutdown
  | call_SetAuthenticator a => SetAuthenticator a
  | call_LoadConfig path => LoadConfig path;; mret tt
  | call_SetConfig c => SetConfig c
  | call_ReloadConfig c => ReloadConfig c
  | call_ReloadConfigFile path => ReloadConfigFile path
  | call_ReopenLogs => ReopenLogs
  | call_Subscribe e fn => Subscribe e fn
  | call_Publish p => Publish p
  | call_Unsubscribe e fn => Unsubscribe e fn
  end.
(** The user goes on after an error, but not after one of New. *)
Definition goes_on (r : outcome api_error unit) : Prop :=
  match r with Ok _ => True | Err (ae_new _) => False | Err _ => True | Panic | OutOfFuel => False end.
Inductive reachable : daemon → Prop :=
| reach_new d : d_g d = None → reachable d
| reach_call d c r d' : reachable d → perform c d = (r, d') → goes_on r → reachable d'.

Fixpoint run_calls (l : list api_call) (d : daemon) : daemon :=
  match l with [] => d | c :: l => run_calls l (perform c d).2 end.
Fixpoint all_go_on (l : list api_call) (d : daemon) : bool :=
  match l with
  | [] => true
  | c :: l => match (perform c d).1 with Ok _ => all_go_on l (perform c d).2 | _ => false end
  end.

(** The daemon and all of its servers have an authenticator. *)
Definition holds_auth (x : option Authenticator) : guerrilla → Prop := holds (λ a _, a = x) (λ a _, a = x).
Definition keeps_auth (x : option Authenticator) : guerrilla → guerrilla → Prop := stays_held (λ a _, a = x) (λ a _, a = x).
Definition authenticated (d : daemon) : Prop := ∀ a, d_g d = Some a → holds_auth (d_authenticator d) (a_g a).
Definition stays_authenticated (d d' : daemon) : Prop := authenticated d → authenticated d'.
(** What the daemon is made of is left as it is. *)
Definition same_app (d d' : daemon) : Prop :=
  d_g d' = d_g d ∧ d_authenticator d' = d_authenticator d ∧ d_subs d' = d_subs d.

(** The documented behaviour of the bus: functions are subscribed, each at the end of its topic, and other
    values are refused. *)
Definition takes (h : handler) : bool := match h with own | user (fn_func _ _) => true | _ => false end.
Definition bus_behaves : Prop :=
  (∀ t, bus_handlers bus_new t = []) ∧
  (∀ t h b, takes h = true → ∃ b', bus_Subscribe t h b = (None, b') ∧ bus_handlers b' t = bus_handlers b t ++ [h] ∧
     ∀ t', t' ≠ t → bus_handlers b' t' = bus_handlers b t') ∧
  (∀ t h b t', takes h = false → bus_handlers (bus_Subscribe t h b).2 t' = bus_handlers b t').
(** The users of each topic, after the daemon's own handler; and what they are told of some events. *)
Definition wired (users : Event → list user_fn) (a : app) : Prop :=
  ∃ bus, a_bus a = Some bus ∧ ∀ e, bus_handlers bus (Event_String e) = own :: map user (users e).
Definition told (users : Event → list user_fn) (l : list published) : list (user_fn * published) :=
  concat (map (λ p, map (λ f, (f, p)) (users (topic_of p))) l).
Definition subscribed_fns (subs : list deferredSub) (e : Event) : list user_fn :=
  omap (λ s, if bool_decide (ds_topic s = e) && takes (user (ds_fn s)) then Some (ds_fn s) else None) subs.

(** A started daemon with exactly the servers of its configuration. Each has its settings, is listening if it is enabled
    and not if it is disabled, and accepts the hosts of the configuration. Its timeout, certificates, logs and backend are
    not a part of this: they can be those of another entry, as examples of Daemon.v show. *)
Definition running (c : AppConfig) (d : daemon) : Prop :=
  d_Config d = Some c ∧ NoDup (map ListenInterface (Servers c)) ∧
  ∃ a users, d_g d = Some a ∧ wired users a ∧ g_state (a_g a) = daemonStateStarted ∧ g_Config (a_g a) = c ∧ synced c (a_g a) ∧
    ∀ k s, g_servers (a_g a) !! k = Some s → sv_hosts s = setAllowedHosts (AllowedHosts c).
(** The settings that a reload leads to. *)
Definition settings (c : AppConfig) : outcome api_error AppConfig :=
  match json_marshal c with
  | None => Err ae_json
  | Some data => map_error ae_config (Load (json_unmarshal data c))
  end.
Definition servers_never_stopped (c : AppConfig) (d : daemon) : Prop :=
  ∀ a k l, d_g d = Some a → getServers c !! k = None → lives (a_g a) !! k = Some l → l.1.2 ≠ ServerStateStopped.
Definition orders_visit : Prop :=
  (∀ t, Permutation (event_order t) all_events) ∧ ∀ t c, visits (servers_order t c) (getServers c).
Definition users_on (a : app) (e : Event) : list handler := bus_handlers (default bus_new (a_bus a)) (Event_String e).
(** Only the bus is another one, and there is one. *)
Definition only_bus (a a' : app) : Prop := a_g a' = a_g a ∧ a_told a' = a_told a ∧ (is_Some (a_bus a) → is_Some (a_bus a')).
(** The users were told nothing more, by the same bus. *)
Definition same_told (d d' : daemon) : Prop :=
  ∀ a, d_g d = Some a → ∃ a', d_g d' = Some a' ∧ a_bus a' = a_bus a ∧ a_told a' = a_told a.
End Api.

(** *** A bus, and configurations whose text is empty *)
#[export] Instance user_fn_eq_dec : EqDecision user_fn.
Proof. solve_decision. Defined.
#[export] Instance handler_eq_dec : EqDecision handler.
Proof. solve_decision. Defined.
Definition test_bus : EventBus := {|
  Bus := list (bytes * handler); bus_new := [];
  bus_Subscribe := λ t h b, if takes h then (None, b ++ [(t, h)]) else (Some (bs "not a function"), b);
  bus_Unsubscribe := λ t h b, if bool_decide ((t, h) ∈ b) then (None, list_difference b [(t, h)]) else (Some (bs "topic doesn't exist"), b);
  bus_handlers := λ b t, omap (λ x, if bool_decide (x.1 = t) then Some x.2 else None) b |}.
Definition test_json : ConfigJSON := {| json_marshal := λ _, Some []; json_unmarshal := λ _ c, Some c |}.
Definition test_chances : Chances := {|
  event_order := λ _, all_events; servers_order := λ _ c, (map_to_list (getServers c)).*1; leaves_log := λ _, true |}.
Definition new_daemon `{BackendLife} `{EventBus} (c : AppConfig) (auth : option Authenticator) (subs : list deferredSub) : daemon :=
  mkDaemon (Some c) (Some (bs "main.log")) None None auth subs 0.
Definition accept_all (yes : bool) : Authenticator := λ _ _ _ _ _, inl (mkAuthResult yes None).
Definition running_config (c : AppConfig) : AppConfig :=
  match @settings test_machine test_json c with Ok c => c | _ => empty_AppConfig end.

(** * Proofs *)
Section Authenticators.
Context {U : Unicode} {Mc : Machine} {H : Host_} {L : BackendLife} (x : option Authenticator).
Abbreviation has_x := (λ (a : option Authenticator) (_ : allowedHosts), a = x).
Abbreviation daemon_has_x := (λ (a : option Authenticator) (_ : AppConfig), a = x).
Lemma new_has_x a c : daemon_has_x a c → has_x a (setAllowedHosts (AllowedHosts c)).
Proof. done. Qed.
Lemma auth_modify f : same_settings f → preserves (keeps_auth x) (modify f : M guerrilla Empty_set unit).
Proof. apply (held_modify has_x daemon_has_x). Qed.
Lemma auth_backend_call f : preserves (keeps_auth x) (backend_call f).
Proof. apply (held_backend_call has_x daemon_has_x). Qed.
Lemma auth_Start : preserves (keeps_auth x) Daemon.Start.
Proof. apply (held_Start has_x daemon_has_x). Qed.
Lemma auth_Shutdown : preserves (keeps_auth x) Daemon.Shutdown.
Proof. apply (held_Shutdown has_x daemon_has_x). Qed.
Lemma auth_makeServers : preserves (keeps_auth x) makeServers.
Proof. apply (held_makeServers has_x daemon_has_x new_has_x). Qed.
Lemma auth_handle p : preserves (keeps_auth x) (handle p).
Proof.
  destruct p as [[] c|e sc]; try by apply (held_handle has_x daemon_has_x new_has_x).
  - apply preserves_modify. by intros g [Ha Hs].
  - by apply (held_map has_x daemon_has_x).
Qed.
End Authenticators.

Section Facade.
Context {U : Unicode} {Mc : Machine} {H : Host_} {L : BackendLife} {EB : EventBus} {CJ : ConfigJSON} {Ch : Chances}.

(** ** Calls through the bus *)
Lemma call_each_auth x l p a : holds_auth x (a_g a) → holds_auth x (a_g (call_each l p a).2).
Proof.
  revert a. induction l as [|[|f] l IH]; intros a Ha; [done| |by apply IH].
  cbn. unfold mbind, M_bind, on_guerrilla. pose proof (auth_handle x p _ Ha) as Hh.
  destruct (handle p (a_g a)) as [[[]| | |] g]; cbn in *; try done. by apply IH.
Qed.
Lemma subscribeEvents_auth order a : a_g (subscribeEvents order a).2 = a_g a.
Proof.
  revert a. induction order as [|e order IH]; intros a; [done|]. cbn. unfold bus_Subscribe_, mbind, M_bind, gets, modify. cbn.
  destruct (bus_Subscribe _ _ _) as [[err|] b]; [done|]. cbn. by rewrite IH.
Qed.

(** ** The authenticator through every call *)
#[local] Instance stays_preorder : PreOrder stays_authenticated.
Proof. split; [by intros d ?|]. intros d1 d2 d3 H1 H2 ?. by apply H2, H1. Qed.
#[local] Instance same_app_preorder : PreOrder same_app.
Proof. split; [by intros d|]. intros d1 d2 d3 (?&?&?) (?&?&?). split_and!; congruence. Qed.
Lemma same_app_stays {A} (m : M daemon api_error A) : preserves same_app m → preserves stays_authenticated m.
Proof. intros Hm d Ha a. destruct (Hm d) as (->&->&_). apply Ha. Qed.
Lemma stays_on_app {A} (m : M app Empty_set A) :
  (∀ x a, holds_auth x (a_g a) → holds_auth x (a_g (m a).2)) → preserves stays_authenticated (on_app m).
Proof.
  intros Hm d Ha. unfold on_app. destruct (d_g d) as [a|] eqn:Eg; [|exact Ha].
  specialize (Hm _ a (Ha _ Eg)). destruct (m a) as [r a']. cbn in *. by intros a'' [= <-].
Qed.
Lemma stays_on_guerrilla {A} (m : M guerrilla Empty_set A) :
  (∀ x, preserves (keeps_auth x) m) → preserves stays_authenticated (on_app (on_guerrilla m)).
Proof.
  intros Hm. apply stays_on_app. intros x a Ha. unfold on_guerrilla. specialize (Hm x _ Ha). by destruct (m (a_g a)).
Qed.
Lemma stays_try {A} (m : M daemon api_error A) : preserves stays_authenticated m → preserves stays_authenticated (try_ m).
Proof. intros Hm d Ha. specialize (Hm d Ha). unfold try_. by destruct (m d) as [[]?]. Qed.
Lemma stays_modify f : (∀ d, d_g (f d) = d_g d ∧ d_authenticator (f d) = d_authenticator d) →
  preserves stays_authenticated (modify f : M daemon api_error unit).
Proof. intros Hf d Ha a. cbn. destruct (Hf d) as [-> ->]. apply Ha. Qed.
Lemma stays_now : preserves stays_authenticated api_now.
Proof. intros d Hd a Ha. by apply Hd. Qed.
Lemma stays_config_ : preserves stays_authenticated config_.
Proof. unfold config_. preserved. Qed.
#[local] Hint Resolve stays_now stays_config_ stays_on_guerrilla stays_try : preserves.
#[local] Hint Extern 1 (preserves _ (modify _)) => (by apply stays_modify) : preserves.
Lemma stays_publish p : preserves stays_authenticated (on_app (bus_Publish p)).
Proof.
  apply stays_on_app. intros x a Ha. unfold bus_Publish, mbind, M_bind, gets. destruct (a_bus a); [by apply call_each_auth|done].
Qed.
#[local] Hint Resolve stays_publish : preserves.
Lemma stays_subscribe e fn : preserves stays_authenticated (Subscribe e fn).
Proof.
  unfold Subscribe. preserved. apply stays_on_app. intros ? ? ?. unfold bus_Subscribe_, gets, modify, mbind, M_bind. cbn.
  by destruct (bus_Subscribe _ _ _) as [err b].
Qed.
#[local] Hint Resolve stays_subscribe : preserves.
Lemma stays_subscribe_deferred l : preserves stays_authenticated (subscribe_deferred l).
Proof. induction l; cbn; preserved. Qed.
Lemma stays_emit l : preserves stays_authenticated (emit_events l).
Proof. induction l; cbn; preserved. Qed.
#[local] Hint Resolve stays_emit stays_subscribe_deferred : preserves.
Lemma stays_drop_subs n i e fn : preserves stays_authenticated (drop_subs n i e fn).
Proof. revert i. induction n; intros i; cbn; preserved. Qed.
Lemma stays_load data c : preserves stays_authenticated (load data c).
Proof. unfold load. preserved. Qed.
#[local] Hint Resolve stays_drop_subs stays_load : preserves.
Lemma stays_LoadConfig path : preserves stays_authenticated (LoadConfig path).
Proof.
  unfold LoadConfig. preserved. apply stays_modify. intros d. by destruct (d_Config d).
Qed.
Lemma stays_SetConfig c : preserves stays_authenticated (SetConfig c).
Proof. unfold SetConfig. preserved. Qed.
Lemma stays_emit_changes old : preserves stays_authenticated (emit_changes old).
Proof. unfold emit_changes. preserved. Qed.
#[local] Hint Resolve stays_LoadConfig stays_SetConfig stays_emit_changes : preserves.
Lemma stays_resetLogger : preserves stays_authenticated resetLogger.
Proof. unfold resetLogger, open_log. preserved. apply stays_on_guerrilla. intros x. by apply auth_modify. Qed.
#[local] Hint Resolve stays_resetLogger : preserves.
Lemma stays_start_app : preserves stays_authenticated start_app.
Proof. unfold start_app. preserved. apply stays_on_guerrilla. intros x. apply auth_Start. Qed.
Lemma SetAuthenticator_authenticates a d : authenticated (SetAuthenticator a d).2.
Proof.
  unfold SetAuthenticator, mbind, M_bind, gets, modify. cbn. destruct (d_g d) as [a0|] eqn:Eg; cbn; [|by intros a' Ha'; cbn in Ha'; congruence].
  unfold on_app. cbn. rewrite Eg. cbn. intros a' [= <-]. split; [done|]. cbn. intros k s. rewrite lookup_fmap. by intros (s'&_&->)%fmap_Some.
Qed.
Lemma stays_run {A} (m : M daemon api_error A) d : authenticated d → preserves stays_authenticated m → authenticated (m d).2.
Proof. intros Ha Hm. by apply Hm. Qed.
Lemma perform_stays c d r d' : c ≠ call_Start → perform c d = (r, d') → authenticated d → authenticated d'.
Proof.
  intros Hc E Ha. replace d' with (perform c d).2 by by rewrite E. clear E.
  destruct c; cbn [perform]; [done| |by apply SetAuthenticator_authenticates|..]; apply (stays_run _ d Ha).
  - unfold Shutdown. preserved. apply stays_on_guerrilla. intros ?. apply auth_Shutdown.
  - preserved.
  - preserved.
  - unfold ReloadConfig. preserved.
  - unfold ReloadConfigFile. preserved.
  - unfold ReopenLogs. preserved.
  - preserved.
  - unfold Publish. preserved.
  - unfold Unsubscribe. preserved. apply stays_on_app. intros ? ? ?.
    unfold bus_Unsubscribe_, gets, modify, mbind, M_bind. cbn. destruct (a_bus _) as [b|]; [|done]. by destruct (bus_Unsubscribe _ _ _).
Qed.

(** ** The first start *)
Lemma same_on_config m : preserves same_app (on_config m).
Proof. intros d. unfold on_config. destruct (d_Config d); [|done]. by destruct (m _). Qed.
Lemma same_modify f : (∀ d, same_app d (f d)) → preserves same_app (modify f : M daemon api_error unit).
Proof. intros Hf. by apply preserves_modify. Qed.
Lemma same_now : preserves same_app api_now.
Proof. by intros d. Qed.
#[local] Hint Resolve same_on_config same_now : preserves.
#[local] Hint Extern 1 (preserves same_app (modify _)) => (by apply same_modify) : preserves.
Lemma same_config_ : preserves same_app config_.
Proof. unfold config_. preserved. Qed.
#[local] Hint Resolve same_config_ : preserves.
Lemma prepare_same : preserves same_app prepare.
Proof. unfold prepare, configureDefaults, need_logger, need_backend. preserved. Qed.
(** The new daemon has no authenticator, and no events are told yet. *)
Lemma New_auth order c b log now : holds_auth None (a_g (New order c b log now).2).
Proof.
  unfold New, new_guerrilla.
  pose proof (auth_makeServers None (mkGuerrilla c ∅ daemonStateNew b None log now)) as Hm.
  assert (H0 : holds_auth None (mkGuerrilla c ∅ daemonStateNew b None log now)) by done.
  specialize (Hm H0). unfold mbind, M_bind. destruct (makeServers _) as [r g]. cbn in Hm.
  destruct r as [[|e errs]| | |]; cbn; try done.
  pose proof (auth_backend_call None b_Start g Hm) as Hb. destruct (backend_call b_Start g) as [[[|e errs]|[]| |] g']; cbn in *; try done.
  destruct (subscribeEvents order _) as [r a] eqn:E. cbn.
  replace a with (subscribeEvents order (mkApp g' None [])).2 by by rewrite E. by rewrite subscribeEvents_auth.
Qed.
Lemma new_app_auth log b d : d_g d = None →
  d_authenticator (new_app log b d).2 = d_authenticator d ∧ ∀ a, d_g (new_app log b d).2 = Some a → holds_auth None (a_g a).
Proof.
  intros Hg. unfold new_app, config_, gets, api_now, modify, mbind, M_bind. cbn.
  destruct (d_Config d) as [c|]; cbn; [|by split; [done|congruence]].
  pose proof (New_auth (event_order (d_now d)) c b log (d_now d)) as HN. destruct (New _ _ _ _ _) as [r a].
  assert (Hgo : ∀ a', Some a = Some a' → holds_auth None (a_g a')) by by intros a' [= <-].
  by destruct r as [[|e errs]|[]| |]; cbn.
Qed.
Lemma stays_hand_over d : (∀ a, d_g d = Some a → holds_auth None (a_g a)) → authenticated (hand_over d).2.
Proof.
  intros Hn. unfold hand_over, gets. unfold mbind at 1, M_bind at 1.
  destruct (d_authenticator d) as [x|] eqn:Ea.
  - unfold mbind at 1, M_bind at 1. unfold on_app at 1. destruct (d_g d) as [a|] eqn:Eg; [|by intros a ?; cbn in *; congruence].
    cbn. apply stays_run; [|preserved]. intros a' [= <-]. cbn. rewrite Ea. split; [done|]. cbn.
    intros k s. rewrite lookup_fmap. by intros (s'&_&->)%fmap_Some.
  - unfold mbind at 1, M_bind at 1. cbn. apply stays_run; [|preserved]. intros a Hga. rewrite Ea. by apply Hn.
Qed.
Lemma new_app_errors log b d e d' : new_app log b d = (Err e, d') → ∃ errs, e = ae_new errs.
Proof.
  unfold new_app, config_, gets, api_now, modify, mbind, M_bind. cbn. destruct (d_Config d); [|done]. cbn.
  destruct (New _ _ _ _ _) as [[[|e0 l]|[]| |] a']; intros [= <- _]; by eexists.
Qed.
Lemma first_start_authenticates d r d' : d_g d = None → first_start d = (r, d') → goes_on r → authenticated d'.
Proof.
  intros Eg. unfold first_start. unfold mbind at 1, M_bind at 1. pose proof (prepare_same d) as (Hg&_).
  destruct (prepare d) as [rp dp]. cbn in Hg. rewrite Eg in Hg. destruct rp as [[log b]|e| |].
  2-4: by intros [= <- <-] _ a ?; congruence.
  destruct (new_app_auth log b dp Hg) as [_ Hn]. unfold mbind, M_bind. destruct (new_app log b dp) as [rn dn] eqn:En. cbn in Hn.
  destruct rn as [[]|e| |].
  - intros Eh _. replace d' with (hand_over dn).2 by by rewrite Eh. by apply stays_hand_over.
  - apply new_app_errors in En as [errs ->]. by intros [= <- _].
  - by intros [= <- _].
  - by intros [= <- _].
Qed.
Lemma Start_authenticates d r d' : Start d = (r, d') → goes_on r → authenticated d → authenticated d'.
Proof.
  unfold Start, gets. unfold mbind at 1, M_bind at 1. destruct (d_g d) as [a|] eqn:Eg; intros E Hr Ha.
  { replace d' with ((mret tt;; start_app) d).2 by by rewrite E. apply stays_run; [done|preserved]. apply stays_start_app. }
  unfold mbind, M_bind in E. destruct (first_start d) as [r1 d1] eqn:E1.
  assert (Hf : goes_on r1 → authenticated d1) by by eapply first_start_authenticates.
  destruct r1 as [[]|e| |]; [|injection E as <- <-; by apply Hf..].
  replace d' with (start_app d1).2 by by rewrite E. apply stays_run; [by apply Hf|apply stays_start_app].
Qed.
End Facade.

Section Follows.
Context {U : Unicode} {Mc : Machine} {H : Host_} {L : BackendLife} {EB : EventBus} {CJ : ConfigJSON} {Ch : Chances}.
Hypothesis Hbus : bus_behaves.

(** ** The bus *)
Lemma bus_Subscribe_run e h a : 
  ∃ err a', bus_Subscribe_ e h a = (Ok err, a') ∧ only_bus a a' ∧ is_Some (a_bus a') ∧ (takes h = true → err = None) ∧
    ∀ e', users_on a' e' = users_on a e' ++ (if bool_decide (e = e') && takes h then [h] else []).
Proof.
  destruct Hbus as (_&Hs&Hr). unfold bus_Subscribe_, gets, modify, mbind, M_bind. cbn.
  destruct (takes h) eqn:Ht.
  - destruct (Hs (Event_String e) h (default bus_new (a_bus a)) Ht) as (b'&Hb&Hh&Ho). rewrite Hb. cbn.
    eexists _, _. split; [reflexivity|]. split_and!; [done|by eexists|done|]. intros e'. unfold users_on at 1. cbn.
    case_bool_decide as He; [by subst|]. cbn. rewrite app_nil_r. apply Ho. by intros ?%Event_String_inj.
  - pose proof (λ t', Hr (Event_String e) h (default bus_new (a_bus a)) t' Ht) as Hr'.
    destruct (bus_Subscribe _ _ _) as [err b']. cbn in *. eexists _, _. split; [reflexivity|].
    split_and!; [done|by eexists|done|]. intros e'. unfold users_on at 1. cbn. by rewrite Hr', andb_false_r, app_nil_r.
Qed.
Lemma subscribeEvents_run order a : NoDup order →
  ∃ a', subscribeEvents order a = (Ok tt, a') ∧ only_bus a a' ∧ (order ≠ [] → is_Some (a_bus a')) ∧
    ∀ e, users_on a' e = users_on a e ++ (if bool_decide (e ∈ order) then [own] else []).
Proof.
  intros Hnd. revert a. induction Hnd as [|e order He Hnd IH]; intros a; cbn.
  { exists a. split_and!; try done. intros e. by rewrite app_nil_r. }
  destruct (bus_Subscribe_run e own a) as (err&a1&E1&(Hg1&Ht1&_)&Hb1&Herr&Hu1). unfold mbind, M_bind. rewrite E1.
  rewrite (Herr eq_refl). destruct (IH a1) as (a2&E2&(Hg2&Ht2&Hb2)&_&Hu2). exists a2. rewrite E2.
  split; [done|]. split; [split_and!; [congruence..|by intros; apply Hb2]|]. split; [by intros; apply Hb2|]. intros e'.
  rewrite Hu2, Hu1, <- app_assoc, andb_true_r. f_equal. destruct (decide (e = e')) as [<-|Hne].
  - rewrite bool_decide_true, bool_decide_false, bool_decide_true by (done || by left). done.
  - rewrite (bool_decide_false (e = e')) by done. cbn. by rewrite (bool_decide_ext (e' ∈ e :: order) (e' ∈ order)) by set_solver.
Qed.
(** Events through the bus are those of the daemon, and its users are told. *)
Lemma call_each_users fs p a : call_each (map user fs) p a = (Ok tt, mkApp (a_g a) (a_bus a) (a_told a ++ map (λ f, (f, p)) fs)).
Proof.
  revert a. induction fs as [|f fs IH]; intros a; cbn; [rewrite app_nil_r; by destruct a|].
  unfold modify, mbind, M_bind. rewrite IH. cbn. by rewrite <- app_assoc.
Qed.
Lemma bus_Publish_run users p a : wired users a →
  bus_Publish p a = (let '(r, g) := handle p (a_g a) in
    match r with Ok _ => (Ok tt, mkApp g (a_bus a) (a_told a ++ told users [p])) | r => (r, mkApp g (a_bus a) (a_told a)) end).
Proof.
  intros (bus&Hb&Hu). unfold bus_Publish, gets. unfold mbind at 1, M_bind at 1. rewrite Hb, Hu. cbn [call_each].
  unfold mbind, M_bind, on_guerrilla. destruct (handle p (a_g a)) as [[[]|[]| |] g]; cbn; rewrite ?Hb; try done.
  rewrite call_each_users. unfold told. cbn. by rewrite app_nil_r.
Qed.
Lemma emit_run users l d a : d_g d = Some a → wired users a →
  match publish_all l (a_g a) with
  | (Ok _, g) => emit_events l d = (Ok tt, set_g (Some (mkApp g (a_bus a) (a_told a ++ told users l))) d)
  | _ => is_ok (emit_events l d).1 = false
  end.
Proof.
  revert d a. induction l as [|p l IH]; intros d a Hg Hw.
  { cbn. rewrite app_nil_r. destruct d, a. cbn in *. by subst. }
  cbn [publish_all emit_events]. unfold mbind, M_bind, on_app. rewrite Hg, (bus_Publish_run users p a Hw).
  destruct (handle p (a_g a)) as [[[]|e| |] g]; cbn; try done. specialize (IH (set_g (Some (mkApp g (a_bus a) (a_told a ++ told users [p]))) d) _ eq_refl Hw).
  cbn in IH. destruct (publish_all l g) as [[[]|e| |] g']; cbn; try done. rewrite IH. unfold told. cbn. by rewrite app_nil_r, <- app_assoc.
Qed.

(** ** Triples of calls of the daemon *)
Lemma wp_on_app {A} (m : M app Empty_set A) Q d a :
  d_g d = Some a → wp m (λ x a', Q x (set_g (Some a') d)) (λ _ _, False) a → wp (on_app m) Q (λ _ _, False) d.
Proof. intros Hg. unfold wp, on_app. rewrite Hg. by destruct (m a) as [[]?]. Qed.
Lemma wp_on_guerrilla {A} (m : M guerrilla Empty_set A) Q R a :
  wp m (λ x g, Q x (mkApp g (a_bus a) (a_told a))) (λ _ _, False) (a_g a) → wp (on_guerrilla m) Q R a.
Proof. unfold wp, on_guerrilla. by destruct (m (a_g a)) as [[]?]. Qed.
Lemma wp_runs {A} (m : M daemon api_error A) Q d : wp m Q (λ _ _, False) d → ∃ x d', m d = (Ok x, d') ∧ Q x d'.
Proof. unfold wp. destruct (m d) as [[]?]; try done. eauto. Qed.

Hypothesis Horders : orders_visit.

Lemma SetConfig_run c0 d :
  match settings c0 with
  | Ok c => SetConfig c0 d = (Ok tt, set_Config (Some c) d) ∧ Forall (λ sc, Validate sc = None) (Servers c)
  | Err e => SetConfig c0 d = (Err e, d)
  | _ => True
  end.
Proof.
  unfold settings, SetConfig. destruct (json_marshal c0) as [data|]; [|done]. unfold load.
  destruct (Load (json_unmarshal data c0)) eqn:E; try done. cbn. split; [done|]. by eapply Load_valid.
Qed.

(** ** The first start *)
Lemma wired_users users a : wired users a ↔ is_Some (a_bus a) ∧ ∀ e, users_on a e = own :: map user (users e).
Proof.
  unfold wired, users_on. split; [intros (b&->&Hu); split; [by eexists|done]|]. intros [[b Hb] Hu]. exists b. by rewrite Hb in *.
Qed.
Lemma all_events_nodup : NoDup all_events.
Proof. by apply (bool_decide_unpack _). Qed.
Lemma New_wired t c b log now a : New (event_order t) c b log now = (Ok [], a) → wired (λ _, []) a ∧ a_told a = [].
Proof.
  destruct Horders as [Hperm _]. specialize (Hperm t). unfold New. destruct (new_guerrilla _ _ _ _) as [[[|]|[]| |] g]; try done.
  destruct (subscribeEvents_run (event_order t) (mkApp g None [])) as (a'&E&(Hg&Ht&_)&Hb&Hu).
  { rewrite Hperm. apply all_events_nodup. }
  rewrite E. intros [= <-]. split; [|done]. apply wired_users. split.
  - apply Hb. intros Hnil. rewrite Hnil in Hperm. by apply Permutation_nil in Hperm.
  - intros e. rewrite Hu, bool_decide_true; [|rewrite Hperm; destruct e; vm_compute; set_solver]. destruct Hbus as (Hnew&_).
    unfold users_on. cbn. by rewrite Hnew.
Qed.
Lemma subscribe_deferred_run l d a users : d_g d = Some a → wired users a →
  ∃ a', subscribe_deferred l d = (Ok tt, set_g (Some a') d) ∧ only_bus a a' ∧ wired (λ e, users e ++ subscribed_fns l e) a'.
Proof.
  revert d a users. induction l as [|[e fn] l IH]; intros d a users Hg Hw.
  { exists a. split_and!; [by destruct d; cbn in *; subst|done|]. destruct Hw as (b&Hb&Hu). exists b. split; [done|].
    intros e. by rewrite app_nil_r. }
  cbn [subscribe_deferred ds_topic ds_fn]. destruct (bus_Subscribe_run e (user fn) a) as (err&a1&E1&(Hg1&Ht1&_)&Hb1&_&Hu1).
  assert (Hw1 : wired (λ e', users e' ++ subscribed_fns [mkDeferredSub e fn] e') a1).
  { apply wired_users. apply wired_users in Hw as [_ Hu]. split; [done|]. intros e'. rewrite Hu1, Hu, map_app. cbn. by destruct (_ && _). }
  destruct (IH (set_g (Some a1) d) a1 _ eq_refl Hw1) as (a2&E2&(Hg2&Ht2&Hb2)&Hw2). exists a2. split_and!.
  - assert (Hs : try_ (Subscribe e fn) d = (Ok (match err with Some m => inr (ae_bus m) | None => inl tt end), set_g (Some a1) d)).
    { unfold Subscribe, try_, on_app, gets, mbind, M_bind. rewrite Hg. cbn. rewrite Hg, E1. by destruct err. }
    unfold mbind, M_bind. by rewrite Hs, E2.
  - split_and!; [congruence..|by intros; apply Hb2].
  - apply wired_users. apply wired_users in Hw2 as [? Hu2]. split; [done|]. intros e'. rewrite Hu2, <- app_assoc. f_equal. f_equal. f_equal.
    unfold subscribed_fns. cbn. by destruct (_ && _).
Qed.
Lemma hand_over_run d a : d_g d = Some a → wired (λ _, []) a →
  ∃ a', hand_over d = (Ok tt, set_subs [] (set_g (Some a') d)) ∧ wired (subscribed_fns (d_subs d)) a' ∧
    keeps (a_g a) (a_g a') ∧ a_told a' = a_told a ∧ ∀ hosts, accepts hosts (a_g a) → accepts hosts (a_g a').
Proof.
  intros Hg Hw. unfold hand_over, gets. unfold mbind at 1, M_bind at 1.
  set (m := match d_authenticator d with None => mret tt | Some _ => _ end).
  assert (Hm1 : ∃ a1, m d = (Ok tt, set_g (Some a1) d) ∧ wired (λ _, []) a1 ∧ keeps (a_g a) (a_g a1) ∧ a_told a1 = a_told a ∧
    ∀ hosts, accepts hosts (a_g a) → accepts hosts (a_g a1)).
  { subst m. destruct (d_authenticator d) as [x|]; [|exists a; split_and!; try done; by destruct d; cbn in *; subst].
    unfold on_app. rewrite Hg. cbn. eexists. split; [reflexivity|]. split; [done|]. split; [|split; [done|]].
    2: { intros hosts [Hc Hs]. split; [exact Hc|]. cbn. intros k s. rewrite lookup_fmap. intros (s'&Hk&->)%fmap_Some. exact (Hs k s' Hk). }
    cbn. split_and!; [|done..].
    exact (lives_map (setAuthenticator (Some x)) (set_auth (Some x) (a_g a)) (λ _, eq_refl)). }
  destruct Hm1 as (a1&E1&Hw1&K&T1&A1). unfold mbind, M_bind. rewrite E1. cbn.
  destruct (subscribe_deferred_run (d_subs d) (set_g (Some a1) d) a1 _ eq_refl Hw1) as (a2&E2&(Hg2&Ht2&_)&Hw2).
  rewrite E2. exists a2. split; [done|]. split; [done|].
  replace (a_g a2) with (a_g a1). split_and!; [done|congruence|exact A1].
Qed.

(** ** Users are told *)
Lemma start_app_told d : same_told d (start_app d).2.
Proof.
  intros a Hg. unfold start_app, on_app, on_guerrilla, mbind, M_bind. rewrite Hg. destruct (Daemon.Start (a_g a)) as [[errs|[]| |] g]; cbn.
  2,3: by eexists. destruct errs; [|by eexists].
  unfold try_, resetLogger, open_log, config_, on_app, on_guerrilla, gets, api_now, modify, mbind, M_bind. cbn.
  destruct (d_Config d) as [c|]; cbn; [|by eexists]. destruct (opens_log _ _); cbn; by eexists.
Qed.
Lemma new_app_wired log b d d' : new_app log b d = (Ok tt, d') → d_subs d' = d_subs d ∧ ∃ a, d_g d' = Some a ∧ wired (λ _, []) a ∧ a_told a = [].
Proof.
  unfold new_app, config_, gets, api_now, modify, mbind, M_bind. cbn. destruct (d_Config d) as [c|]; [|done]. cbn.
  destruct (New _ _ _ _ _) as [[[|e0 l]|[]| |] a] eqn:E; intros [= <-]. split; [done|]. exists a. split; [done|]. by eapply New_wired.
Qed.
Lemma Start_wires d d' : d_g d = None → Start d = (Ok tt, d') →
  ∃ a, d_g d' = Some a ∧ wired (subscribed_fns (d_subs d)) a ∧ a_told a = [].
Proof.
  intros Hg. unfold Start, gets. unfold mbind at 1, M_bind at 1. rewrite Hg. unfold first_start.
  intros ([]&d1&E1&E)%bind_ok. apply bind_ok in E1 as ([log b]&d2&E2&E1). apply bind_ok in E1 as ([]&d3&E3&E1).
  pose proof (prepare_same d) as (_&_&Hs). rewrite E2 in Hs. cbn in Hs.
  apply new_app_wired in E3 as (Hs3&a&Ha&Hw&Ht). destruct (hand_over_run d3 a Ha Hw) as (a'&Eh&Hw'&_&Ht'&_). rewrite Eh in E1.
  injection E1 as <-. destruct (start_app_told (set_subs [] (set_g (Some a') d3)) a' eq_refl) as (a''&Hg''&Hb''&Ht'').
  rewrite E in Hg''. exists a''. split; [done|]. rewrite Hs3, Hs in Hw'. split; [|congruence].
  destruct Hw' as (bus&Hb&Hu). exists bus. split; [congruence|done].
Qed.
Lemma ReloadConfig_tells c0 old d d' a users : d_Config d = Some old → d_g d = Some a → wired users a → ReloadConfig c0 d = (Ok tt, d') →
  ∃ c a', d_Config d' = Some c ∧ d_g d' = Some a' ∧ wired users a' ∧
    a_told a' = a_told a ++ told users (EmitChangeEvents (servers_order (d_now d) c) (servers_order (d_now d) old) old c).
Proof.
  intros Hc Hg Hw. unfold ReloadConfig, config_, gets, mbind, M_bind. rewrite Hc. cbn. unfold SetConfig, load.
  destruct (json_marshal c0) as [data|]; [|done]. unfold mbind, M_bind.
  destruct (Load _) as [c|e| |]; cbn in *; try done. unfold emit_changes, config_, gets, api_now, mbind, M_bind. cbn.
  set (l := EmitChangeEvents _ _ _ _). intros E.
  match type of E with emit_events l ?d1 = _ => pose proof (emit_run users l d1 a Hg Hw) as Hem end. rewrite E in Hem.
  destruct (publish_all l (a_g a)) as [[[]|[]| |] g]; try done. injection Hem as ->. exists c. eexists. split_and!; try reflexivity. exact Hw.
Qed.

Hypothesis Hm : machine_works.

(** ** A reload *)
Lemma emit_changes_follows old c d a users :
  d_Config d = Some c → d_g d = Some a → wired users a → NoDup (map ListenInterface (Servers old)) →
  NoDup (map ListenInterface (Servers c)) → (∀ t, is_Some (b_new t (app_BackendConfig c))) →
  Forall (λ sc, Validate sc = None) (Servers c) → servers_never_stopped c d →
  g_state (a_g a) = daemonStateStarted → g_Config (a_g a) = old → synced old (a_g a) →
  (∀ k s, g_servers (a_g a) !! k = Some s → sv_hosts s = setAllowedHosts (AllowedHosts old)) →
  ∃ d', emit_changes old d = (Ok tt, d') ∧ running c d'.
Proof.
  intros Hc Hg Hw Hold Hnames Hb Hv Hns Hst Hcf Hsync Hhosts. destruct Horders as [_ Hvisit].
  set (o1 := servers_order (d_now d) c). set (o2 := servers_order (d_now d) old).
  destruct (reload_reaches_config o1 o2 old c (a_g a)) as (g'&E&Hs'&Hc'&Hst'); try done; [apply Hvisit..| |].
  { intros k l Hk Hl. by eapply Hns. }
  assert (Hh' : accepts (AllowedHosts c) g').
  { eapply (reload_sets_hosts o1 o2 old c); [apply Hvisit| |exact E]. split; [by rewrite Hcf|exact Hhosts]. }
  unfold Daemon.ReloadConfig in E. pose proof (emit_run users (EmitChangeEvents o1 o2 old c) (api_now d).2 a Hg Hw) as Hrun.
  rewrite E in Hrun. unfold emit_changes, config_, gets, api_now, mbind, M_bind. rewrite Hc. cbn.
  eexists. split; [exact Hrun|]. split; [exact Hc|]. split; [done|]. eexists _, users. split_and!; try done. apply Hh'.
Qed.

(** ** Start *)
Hypothesis Hback : ∀ t b, (b_Start t b).1 = None.
Lemma new_guerrilla_run c b log now :
  NoDup (map ListenInterface (Servers c)) → Forall (λ sc, Validate sc = None) (Servers c) → Servers c ≠ [] →
  ∃ g, new_guerrilla c b log now = (Ok [], g) ∧ (∀ k, lives g !! k = (λ sc, (Some sc, ServerStateNew, false)) <$> getServers c !! k) ∧
    g_state g = daemonStateNew ∧ g_Config g = c ∧ accepts (AllowedHosts c) g.
Proof.
  intros Hnd Hv Hne. unfold new_guerrilla. set (g0 := mkGuerrilla c ∅ daemonStateNew b None log now).
  pose proof (makeServers_makes Hm c Hnd Hv g0 eq_refl Hne) as Hmk. unfold wp in Hmk. unfold mbind, M_bind.
  assert (Hh : accepts (AllowedHosts c) (makeServers g0).2).
  { apply held_makeServers; [by intros a c' ->|]. split; [done|]. intros k s. cbn. by rewrite lookup_empty. }
  destruct (makeServers g0) as [[errs|[]| |] g1]; try done. destruct Hmk as (->&Hl&Hst&Hc). cbn in Hh.
  unfold backend_call, now_, gets, modify, mbind, M_bind. cbn. specialize (Hback (g_now g1) (g_backend g1)).
  destruct (b_Start _ _) as [err b']. cbn in Hback. subst err. cbn. eexists. split; [reflexivity|].
  split_and!; [|done|done|exact Hh]. intros k. specialize (Hl k). unfold fresh in Hl. rewrite <- getServers_find in Hl by done.
  change (lives g1 !! k = (λ sc, (Some sc, ServerStateNew, false)) <$> getServers c !! k). rewrite Hl.
  unfold lives at 1. cbn. by rewrite lookup_fmap, lookup_empty.
Qed.
(** A daemon that was made from a configuration, and is started now, has its servers. *)
Lemma start_app_follows c d a users :
  d_Config d = Some c → d_g d = Some a → wired users a → NoDup (map ListenInterface (Servers c)) → Servers c ≠ [] →
  (∀ k, lives (a_g a) !! k = (λ sc, (Some sc, ServerStateNew, false)) <$> getServers c !! k) →
  g_state (a_g a) = daemonStateNew → g_Config (a_g a) = c → accepts (AllowedHosts c) (a_g a) →
  ∃ d', start_app d = (Ok tt, d') ∧ running c d'.
Proof.
  intros Hc Hg Hw Hnd Hne Hl Hst Hcf Hh. enough (Hwp : wp start_app (λ _ d', running c d') (λ _ _, False) d) by by apply wp_runs in Hwp as ([]&?).
  unfold start_app. wp_step. eapply wp_on_app; [exact Hg|]. apply wp_on_guerrilla.
  eapply wp_mono; [apply wp_preserved; [apply held_Start|apply Start_starts; [done| |congruence]]| |done].
  { apply configured_lives. intros k l. rewrite Hl. by destruct (getServers c !! k); intros [= <-]. }
  intros errs g' [(Herr&Hl'&Hst'&Hc') Hh']. specialize (Hh' Hh). rewrite Herr.
  2: { intros Hemp. destruct (Servers c) as [|sc l] eqn:Es; [done|]. specialize (Hl (ListenInterface sc)).
       rewrite Hemp, lookup_empty, getServers_find, Es in Hl by by rewrite Es. cbn in Hl. by rewrite bool_decide_true in Hl. }
  unfold wp, resetLogger, open_log, config_, on_app, on_guerrilla, try_, gets, api_now, modify, mbind, M_bind. cbn. rewrite Hc. cbn.
  destruct Hm as (Hlog&_). rewrite Hlog. cbn. split; [done|]. split; [done|]. eexists _, users. split; [reflexivity|].
  split_and!; [exact Hw|done|cbn; congruence| |exact (proj2 Hh')]. intros k. cbn.
  change (life_of <$> g_servers g') with (lives g'). rewrite Hl', lookup_fmap, Hl.
  destruct (getServers c !! k) as [sc|]; [|done]. cbn. apply fits_fresh.
Qed.
Lemma prepare_run d d1 c :
  configureDefaults (set_Config (Some (default empty_AppConfig (d_Config d))) d) = (Ok tt, d1) → d_Config d1 = Some c →
  (∀ t, is_Some (b_new t (app_BackendConfig c))) →
  ∃ log b d2, prepare d = (Ok (log, b), d2) ∧ d_Config d2 = Some c.
Proof.
  intros E Hc Hb. unfold prepare. unfold mbind at 1, M_bind at 1, modify. cbn. unfold mbind at 1, M_bind at 1. rewrite E.
  assert (Hl : ∃ log d2, need_logger d1 = (Ok log, d2) ∧ d_Config d2 = Some c).
  { unfold need_logger, config_, gets, api_now, modify, mbind, M_bind. destruct (d_Logger d1) as [l|]; cbn; [by eexists _, _|].
    rewrite Hc. cbn. destruct Hm as (Hlog&_). rewrite Hlog. by eexists _, _. }
  destruct Hl as (log&d2&E2&Hc2). unfold mbind at 1, M_bind at 1. rewrite E2.
  assert (Hl : ∃ b d3, need_backend d2 = (Ok b, d3) ∧ d_Config d3 = Some c).
  { unfold need_backend, config_, gets, api_now, modify, mbind, M_bind. destruct (d_Backend d2) as [b|]; cbn; [by eexists _, _|].
    rewrite Hc2. cbn. destruct (Hb (d_now d2)) as [b ->]. by eexists _, _. }
  destruct Hl as (b&d3&E3&Hc3). unfold mbind, M_bind. rewrite E3. by eexists _, _, _.
Qed.
(** Its defaults are those of its configuration, with valid servers. *)
Lemma configureDefaults_valid c0 d d1 c :
  (∃ h, os_Hostname = Some h ∧ h ≠ []) → configureDefaults (set_Config (Some c0) d) = (Ok tt, d1) → d_Config d1 = Some c →
  Forall (λ sc, Validate sc = None) (Servers c) ∧ Servers c ≠ [].
Proof.
  intros (h&Hh&Hne). unfold configureDefaults, on_config, gets, mbind, M_bind. cbn.
  destruct (setDefaults c0) as [[[]| | |] c1] eqn:E1; try done. cbn.
  destruct (setDefaults_completes _ _ _ Hh Hne E1) as ((_&_&_&Hs&_)&Hv&_).
  destruct (d_Backend d); [by intros [= <-] [= <-]|]. cbn. pose proof (setBackendDefaults_servers c1) as Hb.
  destruct (setBackendDefaults c1) as [[[]| | |] c2]; try done. cbn in *. intros [= <-] [= <-]. by rewrite Hb.
Qed.
Lemma Start_follows d d1 c :
  d_g d = None → configureDefaults (set_Config (Some (default empty_AppConfig (d_Config d))) d) = (Ok tt, d1) →
  d_Config d1 = Some c → (∃ h, os_Hostname = Some h ∧ h ≠ []) → NoDup (map ListenInterface (Servers c)) →
  (∀ t, is_Some (b_new t (app_BackendConfig c))) → ∃ d', Start d = (Ok tt, d') ∧ running c d'.
Proof.
  intros Hg E Hc Hh Hnd Hb. destruct (configureDefaults_valid _ _ _ _ Hh E Hc) as [Hv Hne].
  destruct (prepare_run _ _ _ E Hc Hb) as (log&b&d2&E2&Hc2).
  destruct (new_guerrilla_run c b log (d_now d2) Hnd Hv Hne) as (g&Eg&Hl&Hst&Hcf&Hh1).
  assert (HN : ∃ a, New (event_order (d_now d2)) c b log (d_now d2) = (Ok [], a) ∧ a_g a = g).
  { unfold New. rewrite Eg. pose proof (subscribeEvents_auth (event_order (d_now d2)) (mkApp g None [])) as Hsub.
    destruct (subscribeEvents _ _) as [r a]. by exists a. }
  destruct HN as (a&EN&Ha). destruct (New_wired _ _ _ _ _ _ EN) as [Hw _].
  destruct (hand_over_run (set_g (Some a) (api_now d2).2) a eq_refl Hw) as (a'&Eh&Hw'&(K1&K2&K3)&_&Hh2).
  destruct (start_app_follows c (set_subs [] (set_g (Some a') (set_g (Some a) (api_now d2).2))) a' (subscribed_fns (d_subs d2)))
    as (d'&Es&Hr); try done; try congruence; [apply Hh2; by rewrite Ha|].
  exists d'. split; [|exact Hr].
  unfold Start, gets. unfold mbind at 1, M_bind at 1. rewrite Hg. unfold first_start. unfold mbind at 1, M_bind at 1.
  unfold mbind at 1, M_bind at 1. rewrite E2. unfold new_app, config_, gets, api_now, modify, mbind, M_bind. rewrite Hc2. cbn.
  unfold api_now in Eh. cbn in Eh. rewrite EN. cbn. rewrite Eh. exact Es.
Qed.

(** The settings of a file: what is loaded, over nothing. *)
Lemma ReloadConfigFile_follows path old c data d :
  running old d → reads_file (d_now d) path = Some data → Load (json_unmarshal data empty_AppConfig) = Ok c →
  NoDup (map ListenInterface (Servers c)) → (∀ t, is_Some (b_new t (app_BackendConfig c))) → servers_never_stopped c d →
  ∃ d', ReloadConfigFile path d = (Ok tt, d') ∧ running c d'.
Proof.
  intros (Hc&Hold&a&users&Hg&Hw&Hst&Hcf&Hs&Hhosts) Hf Hload Hnd Hb Hns.
  destruct (emit_changes_follows old c (set_Config (Some c) (api_now d).2) a users) as (d'&E&Hr); try done; [by eapply Load_valid|].
  exists d'. split; [|exact Hr]. unfold ReloadConfigFile, LoadConfig, load, gets, api_now, modify, mbind, M_bind. cbn.
  rewrite Hf, Hload. cbn. rewrite Hc. exact E.
Qed.
Lemma ReloadConfig_follows c0 old c d :
  running old d → settings c0 = Ok c →
  NoDup (map ListenInterface (Servers c)) → (∀ t, is_Some (b_new t (app_BackendConfig c))) → servers_never_stopped c d →
  ∃ d', ReloadConfig c0 d = (Ok tt, d') ∧ running c d'.
Proof.
  intros (Hc&Hold&a&users&Hg&Hw&Hst&Hcf&Hs&Hhosts) Hset Hnd Hb Hns. pose proof (SetConfig_run c0 d) as Hrun. rewrite Hset in Hrun.
  destruct Hrun as [Hrun Hv].
  destruct (emit_changes_follows old c (set_Config (Some c) d) a users) as (d'&E&Hr); try done.
  exists d'. split; [|exact Hr]. unfold ReloadConfig, config_, gets, mbind, M_bind. rewrite Hc. cbn. by rewrite Hrun.
Qed.
Lemma ReloadConfig_refused c0 old d e : d_Config d = Some old → settings c0 = Err e → ReloadConfig c0 d = (Err e, d).
Proof.
  intros Hc Hset. pose proof (SetConfig_run c0 d) as Hrun. rewrite Hset in Hrun.
  unfold ReloadConfig, config_, gets, mbind, M_bind. cbn. rewrite Hc. cbn. by rewrite Hrun.
Qed.

End Follows.

Lemma run_calls_reachable {U : Unicode} {Mc : Machine} {H : Host_} {L : BackendLife} {EB : EventBus} {CJ : ConfigJSON} {Ch : Chances} l d :
  reachable d → all_go_on l d = true → reachable (run_calls l d).
Proof.
  revert d. induction l as [|c l IH]; intros d Hd; cbn; [done|]. destruct (perform c d) as [r d'] eqn:E. cbn.
  destruct r; try done. apply IH. by eapply reach_call.
Qed.

(** C15. No server runs without the authenticator of the daemon. For every sequence of calls that a user of the package makes,
    whatever the machine, the bus, the backend and the configurations are, and whichever calls fail, short of
    a panic and of an error of New: the daemon and every one of its servers, those that later reloads made included,
    have the authenticator that was given to the daemon last, also when it was given before the start. *)
Theorem servers_keep_authenticator {U : Unicode} {Mc : Machine} {H : Host_} {L : BackendLife} {EB : EventBus} {CJ : ConfigJSON}
    {Ch : Chances} d a iface s :
  reachable d → d_g d = Some a → g_servers (a_g a) !! iface = Some s →
  sv_auth s = d_authenticator d ∧ g_auth (a_g a) = d_authenticator d.
Proof.
  intros Hd Hg Hs. enough (Ha : authenticated d) by (destruct (Ha a Hg) as [<- Hall]; split; [by eapply Hall|done]).
  clear a Hg Hs. induction Hd as [d Hd|d c r d' _ IH E Hr]; [by intros a ?; congruence|].
  destruct c; try (by eapply perform_stays; [|exact E|exact IH]). by eapply Start_authenticates.
Qed.


(** Subscribers hear of every change. Functions that were subscribed before the start, on any topics, and nothing else,
    are subscribed with the daemon when it has started, in their order and after its own handler of the topic; and a
    reload calls each of them once for each event of its topic, in the order of the events, with what
    the daemon's own handler was given. *)
Lemma subscribers_are_told {U : Unicode} {Mc : Machine} {H : Host_} {L : BackendLife} {EB : EventBus} {CJ : ConfigJSON} {Ch : Chances} d d1 :
  bus_behaves → orders_visit → d_g d = None → Start d = (Ok tt, d1) →
  let users := subscribed_fns (d_subs d) in
  ∃ a, d_g d1 = Some a ∧ wired users a ∧ a_told a = [] ∧
    ∀ c0 d2, ReloadConfig c0 d1 = (Ok tt, d2) →
      ∃ old c a2, d_Config d1 = Some old ∧ d_Config d2 = Some c ∧ d_g d2 = Some a2 ∧ wired users a2 ∧
        a_told a2 = told users (EmitChangeEvents (servers_order (d_now d1) c) (servers_order (d_now d1) old) old c).
Proof.
  intros Hbus Horders Hg E users. destruct (Start_wires Hbus Horders d d1 Hg E) as (a&Ha&Hw&Ht). exists a. split_and!; [done..|].
  intros c0 d2 E2. destruct (d_Config d1) as [old|] eqn:Hc.
  - destruct (ReloadConfig_tells c0 old d1 d2 a users Hc Ha Hw E2) as (c&a2&Hc2&Ha2&Hw2&Ht2).
    exists old, c, a2. by rewrite Ht2, Ht.
  - unfold ReloadConfig, config_, gets, mbind, M_bind in E2. by rewrite Hc in E2.
Qed.

(** ** Witnesses and examples *)
#[local] Existing Instances ascii_only test_machine test_host test_life test_bus test_json test_chances.
Lemma test_bus_behaves : bus_behaves.
Proof.
  split_and!; [done| |].
  - intros t h b Ht. unfold bus_Subscribe, test_bus. rewrite Ht. eexists. split; [reflexivity|]. cbn. split.
    + rewrite list.omap_app. cbn. by rewrite bool_decide_true.
    + intros t' Hne. rewrite list.omap_app. cbn. by rewrite bool_decide_false, app_nil_r by congruence.
  - intros t h b t' Ht. unfold bus_Subscribe, test_bus. by rewrite Ht.
Qed.
Lemma test_orders_visit : orders_visit.
Proof.
  split; [done|]. intros t c. split; [apply NoDup_fst_map_to_list|]. intros k. cbn. rewrite list_elem_of_fmap. split.
  - intros ([k' sc]&->&Hin%elem_of_map_to_list). by eexists.
  - intros [sc Hk]. exists (k, sc). split; [done|]. by apply elem_of_map_to_list.
Qed.
Lemma getServers_single c x k sc : map ListenInterface (Servers c) = [x] → getServers c !! k = Some sc → k = x.
Proof.
  intros Hs Hk. rewrite getServers_find in Hk by (rewrite Hs; apply NoDup_singleton).
  apply find_some in Hk as [Hin%list_elem_of_In <-%bool_decide_eq_true]. apply (list_elem_of_fmap_2 ListenInterface) in Hin.
  change (ListenInterface <$> Servers c) with (map ListenInterface (Servers c)) in Hin. rewrite Hs in Hin. by apply list_elem_of_singleton in Hin.
Qed.

Lemma servers_keep_authenticator_witness :
  ∃ d a s, reachable d ∧ d_g d = Some a ∧ g_servers (a_g a) !! bs "b:25" = Some s ∧ sv_auth s = Some (accept_all true).
Proof.
  set (d := run_calls [call_Start; call_SetAuthenticator (Some (accept_all true));
      call_ReloadConfig (test_config [test_server "a:25" true 30; test_server "b:25" true 60])]
    (new_daemon (test_config [test_server "a:25" true 30]) (Some (accept_all false)) [])).
  assert (Hd : reachable d) by (apply run_calls_reachable; [by apply reach_new|vm_compute; reflexivity]).
  assert (Hx : bool_decide (is_Some (d_g d ≫= λ a, g_servers (a_g a) !! bs "b:25")) = true) by (vm_compute; reflexivity).
  assert (Hy : d_authenticator d = Some (accept_all true)) by (vm_compute; reflexivity).
  clearbody d. rewrite <- Hy. destruct (d_g d) as [a|] eqn:Ha; [|discriminate].
  apply bool_decide_eq_true in Hx as [s Hs].
  destruct (servers_keep_authenticator d a (bs "b:25") s Hd Ha Hs) as [Hauth _]. by exists d, a, s.
Defined.
Lemma subscribers_are_told_witness :
  let d0 := new_daemon (test_config [test_server "a:25" true 30]) None
    [mkDeferredSub EventConfigServerNew (fn_func 0 7); mkDeferredSub EventConfigServerNew (fn_value 0 1)] in
  ∃ d1 a, Start d0 = (Ok tt, d1) ∧ d_g d1 = Some a ∧ wired (λ e, if bool_decide (e = EventConfigServerNew) then [fn_func 0 7] else []) a.
Proof.
  intros d0. assert (E : (Start d0).1 = Ok tt) by (vm_compute; reflexivity).
  destruct (Start d0) as [r1 d1] eqn:E1. cbn in E. subst r1.
  destruct (subscribers_are_told d0 d1 test_bus_behaves test_orders_visit eq_refl E1) as (a&Ha&(b&Hb&Hu)&_).
  exists d1, a. split; [done|]. split; [done|]. exists b. split; [done|]. intros e. rewrite Hu. by destruct e.
Defined.

(** Comparing two functions panics, and so does every removal but of the last subscription. *)
Example unsubscribe_before_start :
  let d := new_daemon empty_AppConfig None [mkDeferredSub EventConfigNewConfig (fn_func 0 7); mkDeferredSub EventConfigNewConfig (fn_value 1 8)] in
  (Unsubscribe EventConfigNewConfig (fn_func 0 9) d).1 = Panic ∧
  (Unsubscribe EventConfigNewConfig (fn_value 1 8) d).1 = Ok tt ∧
  let d' := new_daemon empty_AppConfig None [mkDeferredSub EventConfigNewConfig (fn_value 1 8); mkDeferredSub EventConfigNewConfig (fn_value 1 7)] in
  (Unsubscribe EventConfigNewConfig (fn_value 1 8) d').1 = Panic.
Proof. vm_compute. auto. Qed.
(** A reload before the start panics. *)
Example reload_before_start_panics : (ReloadConfig (test_config []) (new_daemon empty_AppConfig None [])).1 = Panic.
Proof. vm_compute. reflexivity. Qed.
(** When New fails, the daemon stays: the next start runs its servers without the authenticator, on a backend that
    was not started, and no event reaches them. *)
Example failed_start_forgets_authenticator auth :
  let no_backend : BackendLife := {| Back := bool; b_new := λ _ _, Some false; b_Start := λ _ b, (Some (bs "no"), b);
    b_Shutdown := λ _ b, (None, b); b_Reinitialize := λ _ b, (None, b) |} in
  let run m := @m ascii_only test_machine test_host no_backend test_bus test_chances in
  let d0 := @new_daemon no_backend test_bus (test_config [test_server "a:25" true 30]) (Some auth) [] in
  let '(r1, d1) := run (@Start) d0 in
  let '(r2, d2) := run (@Start) d1 in
  r1 = Err (ae_new [de_backend "no"]) ∧ r2 = Ok tt ∧
  option_map (λ a, (g_backend (a_g a), a_bus a, (λ s, (sv_state s, sv_auth s)) <$> g_servers (a_g a) !! bs "a:25")) (d_g d2) =
    Some (false, None, Some (ServerStateRunning, None)).
Proof. vm_compute. auto. Qed.
