(* ===== verification/Log.v ===== *)
(** * Package log: src/log/log.go and src/log/hook.go

    A logger writes through a hook to a file that an external program may rename; Reopen follows. Files are inodes
    that names point to, and descriptors with an offset; every call of the system may fail at its moment. Loggers and hooks are
    objects of a heap, since the cache of GetLogger shares them. What logrus does with levels and entries is a parameter. *)
From S2P Require Import Prelude GoStd.

(** ** Levels and outputs *)
Definition PanicLevel : Z := 0.
Definition FatalLevel : Z := 1.
Definition ErrorLevel : Z := 2.
Definition WarnLevel : Z := 3.
Definition InfoLevel : Z := 4.
Definition DebugLevel : Z := 5.
Definition Level_String (level : Z) : bytes :=
  if (level =? DebugLevel)%Z then bs "debug"
  else if (level =? InfoLevel)%Z then bs "info"
  else if (level =? WarnLevel)%Z then bs "warning"
  else if (level =? ErrorLevel)%Z then bs "error"
  else if (level =? FatalLevel)%Z then bs "fatal"
  else if (level =? PanicLevel)%Z then bs "panic"
  else bs "unknown".

Inductive OutputOption : Type := OutputStderr | OutputStdout | OutputOff | OutputNull | OutputFile.
#[export] Instance OutputOption_eq_dec : EqDecision OutputOption.
Proof. solve_decision. Defined.
Definition OutputOption_String (o : OutputOption) : bytes :=
  match o with
  | OutputStderr => bs "stderr"
  | OutputStdout => bs "stdout"
  | OutputOff => bs "off"
  | OutputNull => []
  | OutputFile => bs "file"
  end.
Definition parseOutputOption (str : bytes) : OutputOption :=
  if decide (str = bs "stderr") then OutputStderr
  else if decide (str = bs "stdout") then OutputStdout
  else if decide (str = bs "off") then OutputOff
  else if decide (str = []) then OutputNull
  else OutputFile.

(** ** Files *)

(** Whether a call of the system succeeds at a moment; a failed write may have written a first part. *)
Class Disk := {
  may_stat : nat → bool;
  may_open : nat → bool;
  may_close : nat → bool;
  may_sync : nat → bool;
  writes_only : nat → option nat
}.
Record fd := mkFd { fd_inode : nat; fd_append : bool; fd_offset : nat; fd_closed : bool }.
Record FS := mkFS {
  inodes : list bytes;
  names : gmap bytes nat;
  fds : list fd;
  stderr : bytes;
  stdout : bytes;
  moment : nat
}.
Definition empty_fs : FS := mkFS [] ∅ [] [] [] 0.
Definition next (fs : FS) : FS := mkFS (inodes fs) (names fs) (fds fs) (stderr fs) (stdout fs) (S (moment fs)).
Definition set_fds (l : list fd) (fs : FS) : FS := mkFS (inodes fs) (names fs) l (stderr fs) (stdout fs) (moment fs).
Definition set_inodes (l : list bytes) (fs : FS) : FS := mkFS l (names fs) (fds fs) (stderr fs) (stdout fs) (moment fs).
Definition set_names (m : gmap bytes nat) (fs : FS) : FS := mkFS (inodes fs) m (fds fs) (stderr fs) (stdout fs) (moment fs).
Definition to_stderr (d : bytes) (fs : FS) : FS := mkFS (inodes fs) (names fs) (fds fs) (stderr fs ++ d) (stdout fs) (moment fs).
Definition to_stdout (d : bytes) (fs : FS) : FS := mkFS (inodes fs) (names fs) (fds fs) (stderr fs) (stdout fs ++ d) (moment fs).
Definition read (name : bytes) (fs : FS) : option bytes := i ← names fs !! name; inodes fs !! i.
(** What another program does: logrotate moves a file. *)
Definition rename (from to : bytes) (fs : FS) : FS :=
  match names fs !! from with
  | Some i => set_names (<[to := i]> (delete from (names fs))) fs
  | None => fs
  end.
Definition write_at (o : nat) (d c : bytes) : bytes :=
  take o c ++ replicate (o - length c) NUL ++ d ++ drop (o + length d) c.

Inductive log_error : Type := E_stat | E_open | E_close | E_closed | E_write | E_sync | E_entry | E_level.
Inductive writer : Type := W_stderr | W_stdout | W_discard | W_file (n : nat) (broken : bool).
Record LogrusHook := mkHook { w : writer; h_fd : option nat; fname : bytes; plainTxtFormatter : bool }.
Definition set_w (x : writer) (f : option nat) (h : LogrusHook) : LogrusHook := mkHook x f (fname h) (plainTxtFormatter h).
(** ** The hook *)
Section Hook.
Context {K : Disk}.

Definition exists_file (name : bytes) (fs : FS) : bool * FS :=
  (may_stat (moment fs) && bool_decide (is_Some (names fs !! name)), next fs).
(** [os.OpenFile]: [O_APPEND|O_WRONLY], and [O_CREATE|O_TRUNC|O_WRONLY]. *)
Definition open_append (name : bytes) (fs : FS) : option nat * FS :=
  match names fs !! name with
  | Some i => if may_open (moment fs) then (Some (length (fds fs)), next (set_fds (fds fs ++ [mkFd i true 0 false]) fs)) else (None, next fs)
  | None => (None, next fs)
  end.
Definition open_create (name : bytes) (fs : FS) : option nat * FS :=
  if may_open (moment fs) then
    let '(i, fs) := match names fs !! name with
                    | Some i => (i, set_inodes (<[i := []]> (inodes fs)) fs)
                    | None => (length (inodes fs), set_names (<[name := length (inodes fs)]> (names fs)) (set_inodes (inodes fs ++ [[]]) fs))
                    end in
    (Some (length (fds fs)), next (set_fds (fds fs ++ [mkFd i false 0 false]) fs))
  else (None, next fs).
(** A file is closed for the program even when the system reports an error. *)
Definition close (n : nat) (fs : FS) : option log_error * FS :=
  match fds fs !! n with
  | Some f => if fd_closed f then (Some E_closed, fs)
              else (if may_close (moment fs) then None else Some E_close, next (set_fds (<[n := mkFd (fd_inode f) (fd_append f) (fd_offset f) true]> (fds fs)) fs))
  | None => (Some E_closed, fs)
  end.
Definition write (n : nat) (d : bytes) (fs : FS) : option log_error * FS :=
  match fds fs !! n with
  | Some f =>
      if fd_closed f then (Some E_closed, fs)
      else
        let '(d, err) := match writes_only (moment fs) with Some k => (take k d, Some E_write) | None => (d, None) end in
        let c := default [] (inodes fs !! fd_inode f) in
        let o := if fd_append f then length c else fd_offset f in
        (err, next (set_fds (<[n := mkFd (fd_inode f) (fd_append f) (o + length d) false]> (fds fs))
                (set_inodes (<[fd_inode f := write_at o d c]> (inodes fs)) fs)))
  | None => (Some E_closed, fs)
  end.
Definition sync (n : nat) (fs : FS) : option log_error * FS :=
  match fds fs !! n with
  | Some f => if fd_closed f then (Some E_closed, fs) else (if may_sync (moment fs) then None else Some E_sync, next fs)
  | None => (Some E_closed, fs)
  end.

Definition opened (h : LogrusHook) (r : option nat * FS) : option log_error * LogrusHook * FS :=
  match r with
  | (Some n, fs) => (None, set_w (W_file n false) (Some n) h, fs)
  | (None, fs) => (Some E_open, set_w W_stderr None h, fs)
  end.
Definition openAppend (dest : bytes) (h : LogrusHook) (fs : FS) : option log_error * LogrusHook * FS := opened h (open_append dest fs).
Definition openCreate (dest : bytes) (h : LogrusHook) (fs : FS) : option log_error * LogrusHook * FS := opened h (open_create dest fs).
Definition setup (dest : bytes) (h : LogrusHook) (fs : FS) : option log_error * LogrusHook * FS :=
  let '(err, h, fs) :=
    match parseOutputOption dest with
    | OutputNull | OutputStderr => (None, set_w W_stderr (h_fd h) h, fs)
    | OutputStdout => (None, set_w W_stdout (h_fd h) h, fs)
    | OutputOff => (None, set_w W_discard (h_fd h) h, fs)
    | OutputFile =>
        let '(found, fs) := exists_file dest fs in
        if found then openAppend dest h fs else openCreate dest h fs
    end in
  match err with
  | Some _ => (err, h, fs)
  | None => (None, match h_fd h with Some _ => mkHook (w h) (h_fd h) (fname h) true | None => h end, fs)
  end.
Definition NewLogrusHook (dest : bytes) (fs : FS) : option log_error * LogrusHook * FS :=
  setup dest (mkHook W_discard None dest false) fs.

(** [entry] is the entry as a line, which logrus may fail to print. The buffered writer keeps its error. *)
Definition Fire (entry : option bytes) (h : LogrusHook) (fs : FS) : option log_error * LogrusHook * FS :=
  match entry with
  | None => (Some E_entry, h, fs)
  | Some line =>
      match w h with
      | W_stderr => (None, h, to_stderr line fs)
      | W_stdout => (None, h, to_stdout line fs)
      | W_discard => (None, h, fs)
      | W_file n true => (Some E_write, h, fs)
      | W_file n false =>
          let '(err, fs) := if decide (line = []) then (None, fs) else write n line fs in
          match err with
          | Some e => (Some e, set_w (W_file n true) (h_fd h) h, fs)
          | None => match h_fd h with
                    | Some m => let '(err, fs) := sync m fs in (err, h, fs)
                    | None => (None, h, fs)
                    end
          end
      end
  end.
Definition Reopen (h : LogrusHook) (fs : FS) : option log_error * LogrusHook * FS :=
  match h_fd h with
  | Some n =>
      match close n fs with
      | (Some e, fs) => (Some e, h, fs)
      | (None, fs) =>
          let '(found, fs) := exists_file (fname h) fs in
          if found then openAppend (fname h) h fs else openCreate (fname h) h fs
      end
  | None => (None, h, fs)
  end.

(** What happens to a hook and its file: lines, rotations and calls of Reopen. *)
Inductive event : Type := Line (l : bytes) | Rotate (to : bytes) | Reopened.
Definition happen (e : event) (s : LogrusHook * FS) : LogrusHook * FS :=
  match e with
  | Line l => let '(_, h, fs) := Fire (Some l) s.1 s.2 in (h, fs)
  | Rotate to => (s.1, if decide (to = fname s.1) then s.2 else rename (fname s.1) to s.2)
  | Reopened => let '(_, h, fs) := Reopen s.1 s.2 in (h, fs)
  end.
Definition happens (l : list event) (s : LogrusHook * FS) : LogrusHook * FS := fold_left (λ s e, happen e s) l s.
End Hook.

(** ** Loggers *)

(** [ParseLevel] and [Level.String] of logrus. *)
Class Logrus := { ParseLevel : bytes → option Z; logrus_level : Z → bytes }.
(** The logger of logrus inside is [l_level] and [l_out], and the hook that was added to it. *)
Record HookedLogger := mkLogger { l_dest : bytes; l_level : Z; l_out : writer; l_h : option nat }.
(** The level and the hooks of the standard logger of logrus are global. *)
Record world := mkWorld {
  w_fs : FS;
  w_hooks : list LogrusHook;
  w_loggers : list HookedLogger;
  w_cache : gmap (bytes * bytes) nat;
  std_level : Z;
  std_hooks : list nat
}.
Definition new_world (fs : FS) : world := mkWorld fs [] [] ∅ InfoLevel [].
Section Loggers.
Context {K : Disk} {R : Logrus}.

Definition newLogrus (o : OutputOption) (level : bytes) : option (Z * writer) :=
  logLevel ← ParseLevel level;
  Some (logLevel, match o with
                  | OutputNull | OutputStderr => W_stderr
                  | OutputStdout => W_stdout
                  | OutputOff | OutputFile => W_discard
                  end).
Definition GetLogger (dest level : bytes) (s : world) : option nat * option log_error * world :=
  match w_cache s !! (dest, level) with
  | Some l => (Some l, None, s)
  | None =>
      let o := parseOutputOption dest in
      match newLogrus o level with
      | None => (None, Some E_level, s)
      | Some (lv, out) =>
          let l := length (w_loggers s) in
          let cache := <[(dest, level) := l]> (w_cache s) in
          let logger out h := mkLogger dest lv out h in
          if bool_decide (o ≠ OutputFile)
          then (Some l, None, mkWorld (w_fs s) (w_hooks s) (w_loggers s ++ [logger out None]) cache (std_level s) (std_hooks s))
          else
            match NewLogrusHook dest (w_fs s) with
            | (Some e, _, fs) =>
                (Some l, Some e, mkWorld fs (w_hooks s) (w_loggers s ++ [logger W_stderr None]) cache (std_level s) (std_hooks s))
            | (None, h, fs) =>
                (Some l, None, mkWorld fs (w_hooks s ++ [h]) (w_loggers s ++ [logger W_discard (Some (length (w_hooks s)))]) cache
                   (std_level s) (std_hooks s))
            end
      end
  end.
Definition with_hook (i : nat) (r : option log_error * LogrusHook * FS) (s : world) : option log_error * world :=
  let '(err, h, fs) := r in
  (err, mkWorld fs (<[i := h]> (w_hooks s)) (w_loggers s) (w_cache s) (std_level s) (std_hooks s)).
Definition logger_Reopen (l : nat) (s : world) : option log_error * world :=
  match x ← w_loggers s !! l; i ← l_h x; h ← w_hooks s !! i; Some (i, h) with
  | Some (i, h) => with_hook i (Reopen h (w_fs s)) s
  | None => (None, s)
  end.
Definition fire_hook (i : nat) (entry : option bytes) (s : world) : option log_error * world :=
  match w_hooks s !! i with
  | Some h => with_hook i (Fire entry h (w_fs s)) s
  | None => (None, s)
  end.
Definition AddHook (l h : nat) (s : world) : world :=
  mkWorld (w_fs s) (w_hooks s) (w_loggers s) (w_cache s) (std_level s) (std_hooks s ++ [h]).
Definition SetLevel (l : nat) (level : bytes) (s : world) : world :=
  match ParseLevel level with
  | Some lv => mkWorld (w_fs s) (w_hooks s) (w_loggers s) (w_cache s) lv (std_hooks s)
  | None => s
  end.
Definition GetLevel (l : nat) (s : world) : option bytes := logrus_level ∘ l_level <$> w_loggers s !! l.
Definition IsDebug (l : nat) (s : world) : option bool := (λ x, bool_decide (x = logrus_level DebugLevel)) <$> GetLevel l s.
Definition GetLogDest (l : nat) (s : world) : option bytes := l_dest <$> w_loggers s !! l.
(** The address that a line about a connection has. *)
Definition WithConn (conn : option bytes) : bytes := default (bs "unknown") conn.

Inductive call : Type :=
| call_GetLogger (dest level : bytes) | call_Reopen (l : nat) | call_Fire (i : nat) (entry : option bytes)
| call_AddHook (l h : nat) | call_SetLevel (l : nat) (level : bytes) | call_rename (from to : bytes).
Definition run (c : call) (s : world) : world :=
  match c with
  | call_GetLogger dest level => (GetLogger dest level s).2
  | call_Reopen l => (logger_Reopen l s).2
  | call_Fire i entry => (fire_hook i entry s).2
  | call_AddHook l h => AddHook l h s
  | call_SetLevel l level => SetLevel l level s
  | call_rename from to => mkWorld (rename from to (w_fs s)) (w_hooks s) (w_loggers s) (w_cache s) (std_level s) (std_hooks s)
  end.
Definition runs (l : list call) (s : world) : world := fold_left (λ s c, run c s) l s.
End Loggers.

(** ** What rotation promises

    The files that were rotated away, and the one that is written to: under its own name, or under the one it was moved to. *)
Record archive := mkArchive { a_old : gmap bytes bytes; a_now : bytes; a_moved : option bytes }.
Definition archived (name : bytes) (e : event) (a : archive) : archive :=
  match e, a_moved a with
  | Line l, _ => mkArchive (a_old a) (a_now a ++ l) (a_moved a)
  | Rotate to, None => if decide (to = name) then a else mkArchive (delete to (a_old a)) (a_now a) (Some to)
  | Rotate _, Some _ => a
  | Reopened, Some to => mkArchive (<[to := a_now a]> (a_old a)) [] None
  | Reopened, None => a
  end.
Definition archives (name : bytes) (l : list event) (a : archive) : archive := fold_left (λ a e, archived name e a) l a.
Definition reliable (K : Disk) : Prop :=
  ∀ t, may_stat (Disk := K) t = true ∧ may_open (Disk := K) t = true ∧ may_close (Disk := K) t = true ∧ may_sync (Disk := K) t = true ∧ writes_only (Disk := K) t = None.
(** The files hold what the archive says. *)
Record holds (s : LogrusHook * FS) (a : archive) : Prop := mkHolds {
  h_writer : ∃ n f, w s.1 = W_file n false ∧ h_fd s.1 = Some n ∧ fds s.2 !! n = Some f ∧ fd_closed f = false
             ∧ inodes s.2 !! fd_inode f = Some (a_now a)
             ∧ (fd_append f = true ∨ fd_offset f = length (a_now a))
             ∧ names s.2 !! default (fname s.1) (a_moved a) = Some (fd_inode f)
             ∧ (∀ p c, a_old a !! p = Some c → ∃ j, names s.2 !! p = Some j ∧ j ≠ fd_inode f ∧ inodes s.2 !! j = Some c);
  h_gone : is_Some (a_moved a) → names s.2 !! fname s.1 = None;
  h_name : a_old a !! fname s.1 = None ∧ a_moved a ≠ Some (fname s.1)
}.

(** A hook and its descriptor; one whose file is closed, or that has none. *)
Definition tied (s : LogrusHook * FS) : Prop :=
  match h_fd s.1 with
  | Some n => (∃ b, w s.1 = W_file n b) ∧ n < length (fds s.2)
  | None => ∀ n b, w s.1 ≠ W_file n b
  end.
Definition lost (s : LogrusHook * FS) : Prop :=
  match h_fd s.1 with
  | Some n => (∃ b, w s.1 = W_file n b) ∧ fd_closed <$> fds s.2 !! n = Some true
  | None => ∀ n b, w s.1 ≠ W_file n b
  end.

(** The cache and the loggers it gives. *)
Section Cached.
Context {R : Logrus}.
Record cached (s : world) : Prop := mkCached {
  ca_logger k l : w_cache s !! k = Some l → ∃ x, w_loggers s !! l = Some x ∧ l_dest x = k.1 ∧ Some (l_level x) = ParseLevel k.2;
  ca_inj k k' l : w_cache s !! k = Some l → w_cache s !! k' = Some l → k = k'
}.
End Cached.

(** ** Values for the examples *)
Definition good_disk : Disk := Build_Disk (λ _, true) (λ _, true) (λ _, true) (λ _, true) (λ _, None).
(** A disk with a call that fails. *)
Definition no_open_at (t : nat) : Disk := Build_Disk (λ _, true) (λ t', negb (t' =? t)) (λ _, true) (λ _, true) (λ _, None).
Definition no_stat_at (t : nat) : Disk := Build_Disk (λ t', negb (t' =? t)) (λ _, true) (λ _, true) (λ _, true) (λ _, None).
Definition two_levels : Logrus :=
  Build_Logrus (λ b, if decide (b = bs "info") then Some InfoLevel else if decide (b = bs "debug") then Some DebugLevel else None) Level_String.
Definition log_file : bytes := bs "/var/log/smtp.log".
Definition one_rotation : list event := [Line (bs "a"); Rotate (bs "old"); Line (bs "b"); Reopened; Line (bs "c")].

(** * Proofs *)
Lemma write_at_end d c : write_at (length c) d c = c ++ d.
Proof. unfold write_at. rewrite firstn_all, Nat.sub_diag, drop_ge by lia. cbn. by rewrite app_nil_r. Qed.
Lemma OutputOption_round o : parseOutputOption (OutputOption_String o) = o.
Proof. by destruct o. Qed.

(** ** The hook and its file *)
#[local] Arguments Fire : simpl never.
#[local] Arguments Reopen : simpl never.
#[local] Arguments open_create : simpl never.
Section Rotation.
Context {K : Disk} (HK : reliable K).

Lemma Fire_file line h fs n f : w h = W_file n false → h_fd h = Some n → fds fs !! n = Some f → fd_closed f = false →
  is_Some (inodes fs !! fd_inode f) → (fd_append f = true ∨ fd_offset f = length (default [] (inodes fs !! fd_inode f))) →
  ∃ f' fs', Fire (Some line) h fs = (None, h, fs') ∧ fds fs' !! n = Some f' ∧ fd_closed f' = false ∧ fd_inode f' = fd_inode f
    ∧ fd_append f' = fd_append f ∧ names fs' = names fs
    ∧ inodes fs' = <[fd_inode f := default [] (inodes fs !! fd_inode f) ++ line]> (inodes fs)
    ∧ (fd_append f = true ∨ fd_offset f' = length (default [] (inodes fs !! fd_inode f) ++ line)).
Proof.
  intros Hw Hfd Hf Hc [c Hi] Ho. rewrite Hi in Ho |- *. cbn in Ho |- *.
  destruct (HK (moment fs)) as (_&_&_&Hs&Hn). destruct (HK (S (moment fs))) as (_&_&_&Hs'&_). unfold Fire. rewrite Hw.
  destruct (decide (line = [])) as [->|Hl].
  - rewrite Hfd. unfold sync. rewrite Hf, Hc, Hs. eexists _, _. split; [done|]. rewrite app_nil_r. cbn. rewrite list_insert_id by done.
    by split_and!.
  - unfold write. rewrite Hf, Hc, Hn, Hi. cbn -[write_at].
    assert (Hat : write_at (if fd_append f then length c else fd_offset f) line c = c ++ line).
    { destruct Ho as [-> | ->]; [apply write_at_end|]. destruct (fd_append f); apply write_at_end. }
    rewrite Hat, Hfd. unfold sync. cbn. rewrite list_lookup_insert_eq by by eapply lookup_lt_Some. cbn. rewrite Hs'.
    eexists _, _. split; [done|]. cbn. rewrite list_lookup_insert_eq by by eapply lookup_lt_Some.
    split_and!; try done. cbn. destruct Ho as [->|Ho]; [by left|]. right. rewrite Ho, length_app. by destruct (fd_append f).
Qed.
Lemma line_holds line s a : holds s a → holds (happen (Line line) s) (archived (fname s.1) (Line line) a) ∧ (Fire (Some line) s.1 s.2).1.1 = None.
Proof.
  destruct s as [h fs]. intros [(n&f&Hw&Hfd&Hf&Hc&Hi&Ho&Hn&Hold) Hg Hm]. cbn in *.
  destruct (Fire_file line h fs n f) as (f'&fs'&E&Hf'&Hc'&Hi'&Ha'&Hn'&Hino&Ho'); [done..|by rewrite Hi|by rewrite Hi|].
  rewrite E. cbn. split; [|done]. rewrite Hi in Hino, Ho'. cbn in Hino, Ho'.
  constructor; cbn; [|by rewrite Hn'|done]. exists n, f'. rewrite Hn', Hi', Hino, Ha'.
  split_and!; try done.
  - apply list_lookup_insert_eq. by eapply lookup_lt_Some.
  - intros p c Hp. destruct (Hold _ _ Hp) as (j&?&?&?). exists j. by rewrite list_lookup_insert_ne.
Qed.
Lemma rotate_holds to s a : holds s a → holds (happen (Rotate to) s) (archived (fname s.1) (Rotate to) a).
Proof.
  destruct s as [h fs]. intros [(n&f&Hw&Hfd&Hf&Hc&Hi&Ho&Hn&Hold) Hg [Hnm Hmv]]. cbn in *.
  destruct (a_moved a) as [p|] eqn:Hmoved.
  - assert (Hr : (if decide (to = fname h) then fs else rename (fname h) to fs) = fs).
    { case_decide; [done|]. unfold rename. by rewrite Hg. }
    rewrite Hr. constructor; cbn; rewrite ?Hmoved; [|done..]. by exists n, f.
  - case_decide as Hto; [constructor; cbn; rewrite ?Hmoved; [|done..]; by exists n, f|].
    unfold rename. cbn in Hn. rewrite Hn. constructor; cbn.
    + exists n, f. split_and!; try done; [by rewrite lookup_insert_eq|].
      intros p c [Hne Hp]%lookup_delete_Some. destruct (Hold _ _ Hp) as (j&Hj&?&?). exists j.
      rewrite lookup_insert_ne, lookup_delete_ne by congruence. done.
    + intros _. by rewrite lookup_insert_ne, lookup_delete_eq by done.
    + split; [by rewrite lookup_delete_None; right|congruence].
Qed.
Lemma open_create_new name fs : names fs !! name = None → ∃ fs', open_create name fs = (Some (length (fds fs)), fs')
  ∧ fds fs' = fds fs ++ [mkFd (length (inodes fs)) false 0 false] ∧ inodes fs' = inodes fs ++ [[]]
  ∧ names fs' = <[name := length (inodes fs)]> (names fs).
Proof. intros Hn. destruct (HK (moment fs)) as (_&Hopen&_). unfold open_create. rewrite Hopen, Hn. by eexists. Qed.
Lemma reopen_holds s a : holds s a → holds (happen Reopened s) (archived (fname s.1) Reopened a) ∧ (Reopen s.1 s.2).1.1 = None.
Proof.
  destruct s as [h fs]. intros [(n&f&Hw&Hfd&Hf&Hc&Hi&Ho&Hn&Hold) Hg [Hnm Hmv]]. cbn in *.
  destruct (HK (moment fs)) as (_&_&Hcl&_). destruct (HK (S (moment fs))) as (Hst&_). destruct (HK (S (S (moment fs)))) as (_&Hop&_).
  unfold Reopen. rewrite Hfd. unfold close. rewrite Hf, Hc, Hcl. unfold exists_file. cbn. rewrite Hst. cbn.
  destruct (a_moved a) as [to|] eqn:Hmoved; cbn in Hn.
  - rewrite Hg by done. rewrite bool_decide_eq_false_2 by by intros []. unfold openCreate.
    match goal with |- context [open_create _ ?x] => destruct (open_create_new (fname h) x) as (fs'&E&Hfds&Hino&Hnam) end; [by apply Hg|].
    rewrite E. cbn in *. split; [|done]. constructor; cbn.
    + eexists _, _. split_and!; [done..|rewrite Hfds; by rewrite lookup_app_r, Nat.sub_diag by done|done| |by right| |].
      * cbn. by rewrite Hino, lookup_app_r, Nat.sub_diag by done.
      * cbn. by rewrite Hnam, lookup_insert_eq.
      * cbn. intros p c Hp. rewrite Hnam, Hino. apply lookup_insert_Some in Hp as [[<- <-]|[Hne Hp]].
        -- exists (fd_inode f). rewrite lookup_insert_ne by congruence. pose proof (lookup_lt_Some _ _ _ Hi).
           split_and!; [done|lia|by apply lookup_app_l_Some].
        -- destruct (Hold _ _ Hp) as (j&Hj&Hj'&Hjc). exists j. pose proof (lookup_lt_Some _ _ _ Hjc).
           rewrite lookup_insert_ne by congruence. split_and!; [done|lia|by apply lookup_app_l_Some].
    + by intros [].
    + split; [|done]. rewrite lookup_insert_ne by congruence. done.
  - rewrite Hn, bool_decide_eq_true_2 by by eexists. unfold openAppend, open_append. cbn. rewrite Hn, Hop. cbn. split; [|done].
    constructor; cbn; rewrite ?Hmoved; [|done..].
    eexists _, _. split_and!; [done..|by rewrite lookup_app_r, Nat.sub_diag by done|done|done|by left|done|done].
Qed.
Lemma happen_fname e s a : holds s a → fname (happen e s).1 = fname s.1.
Proof.
  intros [(n&f&Hw&Hfd&_) _ _]. destruct s as [h fs], e as [l|to|]; cbn in *; [|done|].
  - unfold Fire. rewrite Hw. destruct (if decide (l = []) then _ else _) as [[e|] fs1]; [done|]. rewrite Hfd. by destruct (sync n fs1).
  - unfold Reopen. rewrite Hfd. destruct (close n fs) as [[e|] fs1]; [done|]. destruct (exists_file _ _) as [[] fs2].
    + unfold openAppend, opened. by destruct (open_append _ _) as [[?|] ?].
    + unfold openCreate, opened. by destruct (open_create _ _) as [[?|] ?].
Qed.
Lemma happen_holds e s a : holds s a → holds (happen e s) (archived (fname s.1) e a).
Proof. intros H. destruct e; [by apply line_holds|by apply rotate_holds|by apply reopen_holds]. Qed.
Lemma happens_hold l s a : holds s a → holds (happens l s) (archives (fname s.1) l a).
Proof.
  revert s a. induction l as [|e l IH]; intros s a H; [done|]. cbn.
  pose proof (IH _ _ (happen_holds e s a H)) as IH'. by rewrite (happen_fname e s a H) in IH'.
Qed.
Lemma NewLogrusHook_holds dest fs c : parseOutputOption dest = OutputFile → (match names fs !! dest with Some i => inodes fs !! i = Some c | None => c = [] end) →
  ∃ h fs', NewLogrusHook dest fs = (None, h, fs') ∧ fname h = dest ∧ holds (h, fs') (mkArchive ∅ c None).
Proof.
  intros Hd Hc. unfold NewLogrusHook, setup. rewrite Hd. unfold exists_file. destruct (HK (moment fs)) as (Hst&_). rewrite Hst. cbn.
  destruct (names fs !! dest) as [i|] eqn:Hn.
  - rewrite bool_decide_eq_true_2 by by eexists. unfold openAppend, open_append. cbn. rewrite Hn. destruct (HK (S (moment fs))) as (_&Hop&_).
    rewrite Hop. cbn. eexists _, _. split_and!; [done..|]. constructor; cbn; [|by intros []|done].
    eexists _, _. split_and!; [done..|by rewrite lookup_app_r, Nat.sub_diag by done|done|done|by left|done|done].
  - rewrite bool_decide_eq_false_2 by by intros []. unfold openCreate. subst c.
    destruct (open_create_new dest (next fs)) as (fs'&E&Hfds&Hino&Hnam); [done|]. rewrite E. cbn in *.
    eexists _, _. split_and!; [done..|]. constructor; cbn; [|by intros []|done].
    eexists _, _. split_and!; [done..|by rewrite Hfds, lookup_app_r, Nat.sub_diag by done|done| |by right| |done].
    + cbn. by rewrite Hino, lookup_app_r, Nat.sub_diag by done.
    + cbn. by rewrite Hnam, lookup_insert_eq.
Qed.
End Rotation.

(** ** A hook that lost its file *)
Section Lost.
Context {K : Disk}.

Lemma write_fds n d fs : length (fds (write n d fs).2) = length (fds fs).
Proof.
  unfold write. destruct (fds fs !! n) as [f|]; [|done]. destruct (fd_closed f); [done|]. destruct (writes_only (moment fs)); cbn; by rewrite length_insert.
Qed.
Lemma sync_fs n fs : ∃ t, (sync n fs).2 = mkFS (inodes fs) (names fs) (fds fs) (stderr fs) (stdout fs) t.
Proof.
  unfold sync. destruct (fds fs !! n) as [f|]; [|exists (moment fs); by destruct fs]. destruct (fd_closed f); [exists (moment fs); by destruct fs|]. by eexists.
Qed.
Lemma close_fds n fs : length (fds (close n fs).2) = length (fds fs).
Proof. unfold close. destruct (fds fs !! n) as [f|]; [|done]. destruct (fd_closed f); [done|]. cbn. by rewrite length_insert. Qed.
Lemma opened_tied h r e h' fs' : (∀ n fs, r = (Some n, fs) → n < length (fds fs)) → opened h r = (e, h', fs') → tied (h', fs').
Proof. intros Hr. destruct r as [[n|] fs]; cbn; intros [= <- <- <-]; unfold tied; cbn; [|done]. split; [by eexists|by apply Hr]. Qed.
Lemma openAppend_tied dest h fs e h' fs' : openAppend dest h fs = (e, h', fs') → tied (h', fs').
Proof.
  apply opened_tied. unfold open_append. intros n fs1. destruct (names fs !! dest); [|done]. destruct (may_open _); [|done].
  intros [= <- <-]. cbn. rewrite length_app. cbn. lia.
Qed.
Lemma openCreate_tied dest h fs e h' fs' : openCreate dest h fs = (e, h', fs') → tied (h', fs').
Proof.
  apply opened_tied. unfold open_create. intros n fs1. destruct (may_open _); [|done]. destruct (names fs !! dest); intros [= <- <-]; cbn; rewrite length_app; cbn; lia.
Qed.
Lemma setup_tied dest h fs e h' fs' : h_fd h = None → setup dest h fs = (e, h', fs') → tied (h', fs').
Proof.
  intros Hh. unfold setup. destruct (match parseOutputOption dest with OutputFile => _ | _ => _ end) as [[e1 h1] fs1] eqn:E. intros H.
  assert (Ht : tied (h1, fs1)).
  { revert E. destruct (parseOutputOption dest); rewrite ?Hh; try (intros [= <- <- <-]; unfold tied; cbn; done).
    destruct (exists_file dest fs) as [[] fs2]; [apply openAppend_tied|apply openCreate_tied]. }
  destruct e1; injection H as <- <- <-; [done|]. by destruct h1 as [? [] ? ?].
Qed.
Lemma Reopen_tied h fs e h' fs' : tied (h, fs) → Reopen h fs = (e, h', fs') → tied (h', fs').
Proof.
  unfold Reopen. intros Ht. destruct (h_fd h) as [n|] eqn:Hfd; [|by intros [= <- <- <-]].
  pose proof (close_fds n fs) as Hl. destruct (close n fs) as [[e1|] fs1]; cbn in Hl.
  - intros [= <- <- <-]. unfold tied in *. cbn in *. rewrite Hfd in *. by rewrite Hl.
  - destruct (exists_file _ fs1) as [[] fs2]; [apply openAppend_tied|apply openCreate_tied].
Qed.
Lemma happen_tied e s : tied s → tied (happen e s).
Proof.
  destruct s as [h fs]. intros Ht. destruct e as [line|to|].
  - cbn. unfold Fire. destruct (w h) as [| | |n b] eqn:Hw; try (unfold tied in *; cbn in *; by rewrite Hw in *; destruct (h_fd h)).
    unfold tied in Ht. cbn in Ht. rewrite Hw in Ht. destruct (h_fd h) as [m|] eqn:Hfd; [|by destruct (Ht n b)]. destruct Ht as [[b' [= -> ->]] Hlt].
    destruct b'; [unfold tied; cbn; rewrite Hfd; split; [by eexists|done]|].
    assert (Hl : length (fds (if decide (line = []) then (None, fs) else write m line fs).2) = length (fds fs)).
    { case_decide; [done|apply write_fds]. }
    destruct (if decide (line = []) then (None, fs) else write m line fs) as [[e|] fs1]; cbn in Hl.
    + unfold tied. cbn. rewrite Hl. split; [by eexists|done].
    + destruct (sync_fs m fs1) as [t Ht]. destruct (sync m fs1) as [e fs2]. cbn in Ht. subst fs2. unfold tied. cbn. rewrite Hfd, Hl. split; [by eexists|done].
  - cbn. unfold tied in *. cbn in *. case_decide; [done|]. unfold rename. destruct (names fs !! fname h); done.
  - cbn. destruct (Reopen h fs) as [[e h'] fs'] eqn:E. by eapply Reopen_tied.
Qed.
Lemma happens_tied l s : tied s → tied (happens l s).
Proof. revert s. induction l as [|e l IH]; intros s Ht; [done|]. apply IH. by apply happen_tied. Qed.
Lemma Reopen_lost h fs e h' fs' : tied (h, fs) → Reopen h fs = (Some e, h', fs') → lost (h', fs').
Proof.
  unfold Reopen, tied. cbn. destruct (h_fd h) as [n|] eqn:Hfd; [|done]. intros [Hw Hlt].
  unfold close. destruct (lookup_lt_is_Some_2 _ _ Hlt) as [f Hf]. rewrite Hf.
  assert (Hopened : ∀ r, opened h r = (Some e, h', fs') → lost (h', fs')).
  { intros [[m|] fs1]; cbn; [done|]. by intros [= _ <- <-]. }
  destruct (fd_closed f) eqn:Hc.
  - intros [= _ <- <-]. unfold lost. cbn. rewrite Hfd, Hf. cbn. by rewrite Hc.
  - destruct (may_close (moment fs)).
    + cbn. case_match; apply Hopened.
    + cbn. intros [= _ <- <-]. unfold lost. cbn. rewrite Hfd, list_lookup_insert_eq by done. done.
Qed.
Lemma happen_lost e s : lost s → lost (happen e s) ∧ inodes (happen e s).2 = inodes s.2.
Proof.
  destruct s as [h fs]. intros Hl. destruct e as [line|to|].
  - cbn. unfold Fire. destruct (w h) as [| | |n b] eqn:Hw; try (split; [|done]; unfold lost in *; cbn in *; by rewrite Hw in *; destruct (h_fd h)).
    unfold lost in Hl. cbn in Hl. rewrite Hw in Hl. destruct (h_fd h) as [m|] eqn:Hfd; [|by destruct (Hl n b)]. destruct Hl as [[b' [= -> ->]] Hc].
    destruct (fds fs !! m) as [f|] eqn:Hf; [|done]. injection Hc as Hc.
    destruct b'; [split; [|done]; unfold lost; cbn; rewrite Hfd, Hf; cbn; rewrite Hc; split; [by eexists|done]|].
    unfold write, sync. rewrite Hf, Hc. case_decide; cbn; rewrite ?Hfd, ?Hf, ?Hc; cbn; (split; [|done]); unfold lost; cbn; rewrite ?Hfd, ?Hf; cbn; rewrite ?Hc; (split; [by eexists|done]).
  - cbn. unfold lost in *. cbn in *. case_decide; [done|]. unfold rename. destruct (names fs !! fname h); done.
  - cbn. unfold Reopen, lost in *. cbn in *. destruct (h_fd h) as [n|] eqn:Hfd; [|cbn; by rewrite Hfd].
    destruct Hl as [Hw Hc]. unfold close. destruct (fds fs !! n) as [f|] eqn:Hf; [|done]. injection Hc as Hc. rewrite Hc. cbn. rewrite Hfd, Hf. cbn. by rewrite Hc.
Qed.
Lemma happens_lost l s : lost s → inodes (happens l s).2 = inodes s.2.
Proof.
  revert s. induction l as [|e l IH]; intros s Hl; [done|]. destruct (happen_lost e s Hl) as [Hl' <-]. by apply IH.
Qed.
End Lost.

(** ** The cache of loggers *)
Section Cache.
Context {K : Disk} {R : Logrus}.

Lemma with_hook_keeps i r s : w_loggers (with_hook i r s).2 = w_loggers s ∧ w_cache (with_hook i r s).2 = w_cache s.
Proof. by destruct r as [[e h] fs]. Qed.
(** What a call does to the loggers: nothing, or one more under a new key. *)
Lemma run_loggers c s : (w_loggers (run c s) = w_loggers s ∧ w_cache (run c s) = w_cache s)
  ∨ (∃ k x, w_cache s !! k = None ∧ w_loggers (run c s) = w_loggers s ++ [x] ∧ l_dest x = k.1 ∧ Some (l_level x) = ParseLevel k.2
       ∧ w_cache (run c s) = <[k := length (w_loggers s)]> (w_cache s)).
Proof.
  destruct c as [dest level|l|i entry|l h|l level|from to]; cbn; [|left..].
  - unfold GetLogger. destruct (w_cache s !! (dest, level)) eqn:Hk; [by left|]. unfold newLogrus.
    destruct (ParseLevel level) as [lv|] eqn:Hl; cbn; [|by left]. right. exists (dest, level).
    case_bool_decide; [by eexists|]. destruct (NewLogrusHook dest (w_fs s)) as [[[e|] h] fs]; by eexists.
  - unfold logger_Reopen. destruct (w_loggers s !! l ≫= _) as [[i h]|]; [apply with_hook_keeps|done].
  - unfold fire_hook. destruct (w_hooks s !! i); [apply with_hook_keeps|done].
  - done.
  - unfold SetLevel. by destruct (ParseLevel level).
  - done.
Qed.
Lemma run_cached c s : cached s → cached (run c s).
Proof.
  intros [Hl Hi]. destruct (run_loggers c s) as [[E1 E2]|(k&x&Hk&E1&Hd&Hlv&E2)].
  - constructor; intros; rewrite ?E1, ?E2 in *; eauto.
  - assert (Hlt : ∀ k l, w_cache s !! k = Some l → l < length (w_loggers s)).
    { intros k' l Hk'. destruct (Hl _ _ Hk') as (y&Hy&_). by eapply lookup_lt_Some. }
    constructor; intros *; rewrite ?E1, ?E2, ?lookup_insert_Some.
    + intros [[<- <-]|[Hne Hk']].
      * exists x. by rewrite lookup_app_r, Nat.sub_diag by done.
      * destruct (Hl _ _ Hk') as (y&Hy&?). exists y. by rewrite lookup_app_l by by eapply Hlt.
    + intros [[<- <-]|[Hne Hk1]] [[<- E]|[Hne' Hk2]]; [done| | |by eapply Hi].
      * apply Hlt in Hk2. lia.
      * apply Hlt in Hk1. lia.
Qed.
Lemma runs_cached l s : cached s → cached (runs l s).
Proof. revert s. induction l as [|c l IH]; intros s H; [done|]. by apply IH, run_cached. Qed.
Lemma run_keeps c s k l : w_cache s !! k = Some l → w_cache (run c s) !! k = Some l.
Proof.
  intros Hk. destruct (run_loggers c s) as [[E1 E2]|(k'&x&Hk'&E1&_&_&E2)]; rewrite E2; [done|].
  rewrite lookup_insert_ne; [done|]. intros ->. congruence.
Qed.
Lemma runs_keep cs s k l : w_cache s !! k = Some l → w_cache (runs cs s) !! k = Some l.
Proof. revert s. induction cs as [|c cs IH]; intros s Hk; [done|]. by apply IH, run_keeps. Qed.
Lemma GetLogger_caches dest level s l e s1 : GetLogger dest level s = (Some l, e, s1) → w_cache s1 !! (dest, level) = Some l.
Proof.
  unfold GetLogger. destruct (w_cache s !! (dest, level)) eqn:Hk; [by intros [= <- <- <-]|].
  destruct (newLogrus _ level) as [[lv out]|]; [|done]. case_bool_decide; [intros [= <- <- <-]; apply lookup_insert_eq|].
  destruct (NewLogrusHook dest (w_fs s)) as [[[e'|] h] fs]; intros [= <- <- <-]; apply lookup_insert_eq.
Qed.
End Cache.

(** ** The properties *)

(** C37. Rotation loses no line: a hook on a file with [c] in it, the lines it fires, the renames of another program and the calls of
    Reopen leave the files as the archive says: what was written before a rename, and after it until Reopen, is under
    the new name, and what comes then in a new file, in order; no call reports an error while the system does not. *)
Theorem rotation_loses_nothing (K : Disk) dest fs c l : reliable K → parseOutputOption dest = OutputFile →
  (match names fs !! dest with Some i => inodes fs !! i = Some c | None => c = [] end) →
  ∃ h fs', NewLogrusHook dest fs = (None, h, fs') ∧
    let s := happens l (h, fs') in
    let a := archives dest l (mkArchive ∅ c None) in
    read (default dest (a_moved a)) s.2 = Some (a_now a) ∧ (∀ p d, a_old a !! p = Some d → read p s.2 = Some d)
    ∧ (∀ line, (Fire (Some line) s.1 s.2).1.1 = None) ∧ (Reopen s.1 s.2).1.1 = None.
Proof.
  intros HK Hd Hc. destruct (NewLogrusHook_holds HK dest fs c Hd Hc) as (h&fs'&E&Hf&Hh). exists h, fs'. split; [done|].
  pose proof (happens_hold HK l _ _ Hh) as H. cbn [fst] in H. rewrite Hf in H. cbn zeta.
  assert (Hn : fname (happens l (h, fs')).1 = dest).
  { clear -HK Hh Hf. revert h fs' Hf Hh. generalize (mkArchive ∅ c None). induction l as [|e l IH]; intros a h fs' Hf Hh; [done|].
    cbn. pose proof (happen_fname e _ _ Hh) as He. pose proof (happen_holds HK e _ _ Hh) as Hh'. destruct (happen e (h, fs')) as [h1 fs1].
    eapply (IH _ h1 fs1); [by rewrite <- Hf|exact Hh']. }
  split_and!.
  - destruct H as [(n&f&_&_&_&_&Hi&_&Hname&_) _ _]. rewrite Hn in Hname. unfold read. by rewrite Hname.
  - intros p d Hp. destruct H as [(n&f&_&_&_&_&_&_&_&Hold) _ _]. destruct (Hold _ _ Hp) as (j&Hj&_&Hjd). unfold read. by rewrite Hj.
  - intros line. by eapply line_holds.
  - by eapply reopen_holds.
Qed.

(** C38. A failed Reopen is final: whatever happened before, once a call of Reopen returned an error no line that is fired later reaches
    any file, however often Reopen is called again. *)
Theorem failed_reopen_is_final (K : Disk) dest fs h fs1 l e h' fs' l' : NewLogrusHook dest fs = (None, h, fs1) →
  let s := happens l (h, fs1) in Reopen s.1 s.2 = (Some e, h', fs') →
  inodes (happens l' (h', fs')).2 = inodes fs'.
Proof.
  intros Hn s Hr. assert (Ht : tied s) by (apply happens_tied; by eapply (setup_tied dest (mkHook W_discard None dest false) fs None)).
  apply (happens_lost l' (h', fs')). destruct s as [h2 fs2]. by eapply Reopen_lost.
Qed.

(** The cache gives one logger for each destination and level: in every history, once GetLogger gave a logger, every later call with the
    same arguments gives the same one, without an error even if the first call had one, and changes nothing; the logger has that
    destination and that level for good, whatever SetLevel is told; other arguments give other loggers. *)
Lemma GetLogger_once (K : Disk) (R : Logrus) fs before dest level l e s1 after :
  GetLogger dest level (runs before (new_world fs)) = (Some l, e, s1) →
  let s := runs after s1 in
  GetLogger dest level s = (Some l, None, s) ∧ GetLogDest l s = Some dest ∧ GetLevel l s = logrus_level <$> ParseLevel level
  ∧ ∀ dest' level' l' e' s', GetLogger dest' level' s = (Some l', e', s') → (dest', level') ≠ (dest, level) → l' ≠ l.
Proof.
  intros H s.
  assert (Hc1 : cached s1).
  { change s1 with (Some l, e, s1).2. rewrite <- H. apply (run_cached (call_GetLogger dest level)), runs_cached. by constructor. }
  assert (Hc : cached s) by by apply runs_cached.
  assert (Hk : w_cache s !! (dest, level) = Some l) by (by eapply runs_keep, GetLogger_caches).
  destruct (ca_logger _ Hc _ _ Hk) as (x&Hx&Hd&Hl). split_and!.
  - unfold GetLogger. by rewrite Hk.
  - unfold GetLogDest. rewrite Hx. cbn. by rewrite Hd.
  - unfold GetLevel. rewrite Hx. cbn in *. by rewrite <- Hl.
  - intros dest' level' l' e' s' H' Hne ->. apply Hne. apply GetLogger_caches in H' as Hk'.
    assert (Hc' : cached s').
    { change s' with (Some l, e', s').2. rewrite <- H'. by apply (run_cached (call_GetLogger dest' level')). }
    apply (ca_inj _ Hc' _ _ l); [done|]. change s' with (Some l, e', s').2. rewrite <- H'. by apply (run_keeps (call_GetLogger dest' level')).
Qed.

(** ** Runs *)
Example rotated_files : (let '(_, h, fs) := @NewLogrusHook good_disk log_file empty_fs in
  let s := @happens good_disk one_rotation (h, fs) in (read (bs "old") s.2, read log_file s.2)) = (Some (bs "ab"), Some (bs "c")).
Proof. vm_compute. reflexivity. Qed.
(** The file that GetLogger creates is not opened for appending: what a logger of another level writes to it is overwritten. *)
Example two_levels_overwrite : read log_file (w_fs (@runs good_disk two_levels
  [call_GetLogger log_file (bs "info"); call_GetLogger log_file (bs "debug"); call_Fire 1 (Some (bs "XXX")); call_Fire 0 (Some (bs "ab"))]
  (new_world empty_fs))) = Some (bs "abX").
Proof. vm_compute. reflexivity. Qed.
(** The log is truncated when Stat fails for another reason than that the file is missing. *)
Example truncated_by_stat : (let '(_, h, fs) := @NewLogrusHook good_disk log_file empty_fs in
  read log_file (@happens (no_stat_at 5) [Line (bs "a"); Reopened] (h, fs)).2) = Some [].
Proof. vm_compute. reflexivity. Qed.
(** SetLevel and AddHook do not reach the logger. *)
Lemma SetLevel_ignored (R : Logrus) l l' level h s : GetLevel l (SetLevel l' level s) = GetLevel l s ∧ w_loggers (AddHook l' h s) = w_loggers s.
Proof. split; [|done]. unfold SetLevel. by destruct (ParseLevel level). Qed.

Lemma rotation_loses_nothing_witness : ∃ h fs, @NewLogrusHook good_disk log_file empty_fs = (None, h, fs) ∧
  read log_file (@happens good_disk one_rotation (h, fs)).2 = Some (bs "c") ∧
  read (bs "old") (@happens good_disk one_rotation (h, fs)).2 = Some (bs "ab").
Proof.
  destruct (rotation_loses_nothing good_disk log_file empty_fs [] one_rotation) as (h&fs&E&Hr&Ho&_).
  - intros t. split_and!; reflexivity.
  - reflexivity.
  - reflexivity.
  - exists h, fs. split; [exact E|]. split; [exact Hr|]. apply Ho. vm_compute. reflexivity.
Defined.
Lemma failed_reopen_is_final_witness : ∃ h fs h' fs',
  @NewLogrusHook (no_open_at 4) log_file empty_fs = (None, h, fs) ∧ @Reopen (no_open_at 4) h fs = (Some E_open, h', fs') ∧
  inodes (@happens (no_open_at 4) [Reopened; Line (bs "a")] (h', fs')).2 = inodes fs'.
Proof.
  eexists _, _, _, _. split; [vm_compute; reflexivity|]. split; [vm_compute; reflexivity|].
  eapply (failed_reopen_is_final (no_open_at 4) log_file empty_fs _ _ [] E_open _ _ [Reopened; Line (bs "a")]); vm_compute; reflexivity.
Defined.
(** The first call could not open the file, the second returns the same logger without an error. *)
Lemma GetLogger_once_witness : ∃ s, @GetLogger (no_open_at 1) two_levels log_file (bs "info") (new_world empty_fs) = (Some 0, Some E_open, s) ∧
  @GetLogger (no_open_at 1) two_levels log_file (bs "info") s = (Some 0, None, s).
Proof.
  eexists. split; [vm_compute; reflexivity|].
  refine (proj1 (GetLogger_once (no_open_at 1) two_levels empty_fs [] log_file (bs "info") 0 (Some E_open) _ [] _)). vm_compute. reflexivity.
Defined.
