(* ===== verification/Serve.v ===== *)
(** * The command that serves: src/cmd/guerrillad/serve.go, with CheckFileLimit of src/guerrilla.go

    The process reads the configuration, makes the daemon of Api.v follow it, and handles signals one after the other;
    between them the poller of the registry of tenants ticks. Registries are objects of a heap: the one that the processors use and
    the one that the poller refreshes need not be the same. *)
From S2P Require Import Prelude GoStd Shared Config Tenant Auth Server Listener Daemon Api AliasStore.

(** ** CheckFileLimit

    [limit] is the limit of open files, [None] when the system does not tell. A configuration that was loaded has a server. *)
Definition as_uint64 (z : Z) : Z := (z mod 2 ^ 64)%Z.
Definition all_clients (l : list ServerConfig) : Z := fold_left (λ n sc, wrap64 (n + MaxClients sc)) l 0%Z.
Definition CheckFileLimit (limit : option Z) (c : AppConfig) : bool * Z * Z :=
  match limit with
  | None => (true, 0, 0)%Z
  | Some fileLimit =>
      let maxClients := match Servers c with [] => defaultMaxClients | l => all_clients l end in
      (negb (fileLimit <? as_uint64 maxClients)%Z, maxClients, fileLimit)
  end.

(** ** The process *)
Inductive signal : Type := SIGHUP | SIGTERM | SIGQUIT | SIGINT | SIGKILL | SIGUSR1.
(** What the machine and the servers of tenants answer at a moment. *)
Class System := {
  tenants_answer : nat → RegistryConfig → http_answer;
  file_limit : nat → option Z;
  shuts_in_time : nat → bool
}.
(** The flags of the command line. *)
Record flags := mkFlags { f_configPath : bytes; f_pidFile : bytes; f_verbose : bool }.
Definition defaultPidFile : bytes := bs "/var/run/go-guerrilla.pid".
Definition set_PidFile (v : bytes) (c : AppConfig) : AppConfig :=
  mkAppConfig (Servers c) (AllowedHosts c) v (LogFile c) (LogLevel c) (app_BackendConfig c) (Auth c) (TenantRegistry c).
Definition set_LogLevel (v : bytes) (c : AppConfig) : AppConfig :=
  mkAppConfig (Servers c) (AllowedHosts c) (PidFile c) (LogFile c) v (app_BackendConfig c) (Auth c) (TenantRegistry c).
Definition with_flags (f : flags) (c : AppConfig) : AppConfig :=
  let c := if bool_decide (f_pidFile f ≠ []) then set_PidFile (f_pidFile f) c
           else if bool_decide (PidFile c = []) then set_PidFile defaultPidFile c else c in
  if f_verbose f then set_LogLevel (bs "debug") c else c.

Section Serve.
Context {U : Unicode} {Mc : Machine} {H : Host_} {L : BackendLife} {EB : EventBus} {CJ : ConfigJSON} {Ch : Chances}.
Context {Du : Durations} {TD : TenantDecoder} {AS : AuthServer} {AD : AuthDecoder} {Sy : System}.

Record process := mkProcess {
  p_daemon : daemon;
  p_registries : list registry;
  p_global : option nat;
  p_polled : option nat;
  p_now : nat
}.
Abbreviation P := (M process Empty_set).
Definition set_daemon (d : daemon) (p : process) : process := mkProcess d (p_registries p) (p_global p) (p_polled p) (p_now p).
Definition set_registries (l : list registry) (p : process) : process := mkProcess (p_daemon p) l (p_global p) (p_polled p) (p_now p).
Definition set_global (g : option nat) (p : process) : process := mkProcess (p_daemon p) (p_registries p) g (p_polled p) (p_now p).
Definition set_polled (g : option nat) (p : process) : process := mkProcess (p_daemon p) (p_registries p) (p_global p) g (p_now p).
Definition p_tick : P nat := λ p, (Ok (p_now p), mkProcess (p_daemon p) (p_registries p) (p_global p) (p_polled p) (S (p_now p))).
(** A call of the daemon, whose error is a value. *)
Definition on_daemon {A} (m : M daemon api_error A) : P (A + api_error) := λ p,
  match m (p_daemon p) with
  | (Ok a, d) => (Ok (inl a), set_daemon d p)
  | (Err e, d) => (Ok (inr e), set_daemon d p)
  | (Panic, d) => (Panic, set_daemon d p)
  | (OutOfFuel, d) => (OutOfFuel, set_daemon d p)
  end.

Definition readConfig (f : flags) : P (AppConfig + api_error) :=
  r ← on_daemon (LoadConfig (f_configPath f));
  mret (match r with inl c => inl (with_flags f c) | inr e => inr e end).
(** [SetAuthenticator] does not fail. *)
Definition applyAuthenticator (c : option AppConfig) : P unit :=
  match c with
  | None => on_daemon (SetAuthenticator None);; mret tt
  | Some c =>
      if negb (Enabled (Auth c)) then on_daemon (SetAuthenticator None);; mret tt
      else if negb (EqualFold (auth_Type (Auth c)) (bs "http")) then mret tt
      else
        match NewHTTPAuthenticatorFromConfig (Auth c) with
        | Ok h => on_daemon (SetAuthenticator (Some (http_authenticator h)));; mret tt
        | Err _ => mret tt
        | Panic => panic
        | OutOfFuel => out_of_fuel
        end
  end.
(** [registry.Refresh] of one registry; its error is only logged. *)
Definition refresh (i : nat) : P unit :=
  t ← p_tick;
  l ← gets p_registries;
  match (l : list registry) !! i with
  | Some r => modify (set_registries (<[i := (Refresh (tenants_answer t (r_cfg r)) r).2]> l))
  | None => mret tt
  end.
(** The poller refreshes at once; later it ticks. *)
Definition start_poller (i : nat) : P unit := modify (set_polled (Some i));; refresh i.
Definition applyTenantRegistry (c : option AppConfig) : P unit :=
  match c with
  | None => modify (set_global None)
  | Some c =>
      match NewTenantRegistryFromConfig (TenantRegistry c) with
      | Err _ => mret tt
      | Panic => panic
      | OutOfFuel => out_of_fuel
      | Ok None => modify (set_global None)
      | Ok (Some r) =>
          l ← gets p_registries;
          let i := length (l : list registry) in
          modify (set_registries (l ++ [r]));;
          modify (set_global (Some i));;
          polled ← gets p_polled;
          (match (polled : option nat) with None => start_poller i | Some _ => mret tt end);;
          refresh i
      end
  end.
(** A tick of the poller. *)
Definition poller_tick : P unit :=
  polled ← gets p_polled;
  match (polled : option nat) with Some i => refresh i | None => mret tt end.

(** One signal; [Some] is the exit status of the process. The shutdown that takes too long is cut off. *)
Definition handle_signal (f : flags) (sig : signal) : P (option Z) :=
  match sig with
  | SIGHUP =>
      c ← readConfig f;
      match (c : AppConfig + api_error) with
      | inl ac =>
          on_daemon (ReloadConfig ac);;
          applyAuthenticator (Some ac);;
          applyTenantRegistry (Some ac);;
          mret None
      | inr _ => mret None
      end
  | SIGUSR1 => on_daemon ReopenLogs;; mret None
  | SIGTERM | SIGQUIT | SIGINT | SIGKILL =>
      t ← p_tick;
      on_daemon Shutdown;;
      mret (Some (if shuts_in_time t then 0 else 1)%Z)
  end.
(** What happens to a process that runs. *)
Inductive event : Type := Signal (s : signal) | PollerTick.
Fixpoint sigHandler (f : flags) (l : list event) : P (option Z) :=
  match l with
  | [] => mret None
  | PollerTick :: l => poller_tick;; sigHandler f l
  | Signal s :: l =>
      exit ← handle_signal f s;
      match (exit : option Z) with Some code => mret (Some code) | None => sigHandler f l end
  end.
Definition serve (f : flags) (l : list event) : P (option Z) :=
  c ← readConfig f;
  match (c : AppConfig + api_error) with
  | inr _ => mret (Some 1%Z)
  | inl c =>
      on_daemon (SetConfig c);;
      applyAuthenticator (Some c);;
      applyTenantRegistry (Some c);;
      t ← p_tick;
      let '(ok, _, _) := CheckFileLimit (file_limit t) c in
      if negb ok then mret (Some 1%Z)
      else
        r ← on_daemon Start;
        match (r : unit + api_error) with
        | inr _ => mret (Some 1%Z)
        | inl _ => sigHandler f l
        end
  end.
Definition new_process (mainlog : bytes) : process :=
  mkProcess (mkDaemon None (Some mainlog) None None None [] 0) [] None None 0.
End Serve.

(** ** Notions used by the statements *)
Section Notions.
Context {L : BackendLife} {EB : EventBus}.
Context {U : Unicode} {Du : Durations} {TD : TenantDecoder} {AS : AuthServer} {AD : AuthDecoder} {Sy : System}.

(** The authenticator that the settings name; settings that name none that can be made leave the old one. *)
Definition configured_auth (c : AuthConfig) (old : option Authenticator) : option Authenticator :=
  if negb (Enabled c) then None
  else if negb (EqualFold (auth_Type c) (bs "http")) then old
  else match NewHTTPAuthenticatorFromConfig c with Ok h => Some (http_authenticator h) | _ => old end.
(** The registry that the processors use after settings were applied to a process that used [old]. *)
Definition registry_follows (c : TenantRegistryConfig) (old : option nat) (p : process) : Prop :=
  match NewTenantRegistryFromConfig c with
  | Ok None => p_global p = None
  | Ok (Some r) => ∃ i r' t, p_global p = Some i ∧ p_registries p !! i = Some (Refresh (tenants_answer t (r_cfg r)) r').2 ∧ r_cfg r' = r_cfg r
  | _ => p_global p = old
  end.
(** One registry is polled for good, and no other one changes. *)
Definition only_polled (i : nat) (p p' : process) : Prop :=
  p_polled p = Some i → p_polled p' = Some i ∧ length (p_registries p) ≤ length (p_registries p')
    ∧ ∀ j, j < length (p_registries p) → j ≠ i → p_registries p' !! j = p_registries p !! j.
Definition same_auth (d d' : daemon) : Prop := d_authenticator d' = d_authenticator d.
End Notions.

(** ** Values for the examples

    The file asks for a server more, an authenticator and a registry. *)
Definition file_config (url : bytes) : AppConfig :=
  let c := test_config [test_server "a:25" true 30; test_server "b:25" true 60] in
  mkAppConfig (Servers c) (AllowedHosts c) (PidFile c) (LogFile c) (LogLevel c) (app_BackendConfig c)
    (mkAuthConfig true (bs "HTTP") (bs "http://auth") [] ∅) (mkTenantRegistryConfig url [] [] ∅).
Definition serve_json : ConfigJSON := {|
  json_marshal := λ _, Some [];
  json_unmarshal := λ data c, if bool_decide (data = []) then Some c else Some (file_config data) |}.
(** The file names another registry from the moment [t] on. *)
Definition serve_host (t : nat) : Host_ := {|
  opens_log := λ _ _, None; loads_pair := λ _ _ _, None; listens := λ _ _, None; reports_late := λ _ _, false;
  reads_file := λ now _, Some (if now <? t then bs "http://one" else bs "http://two") |}.
Definition serve_tenants : TenantDecoder := {|
  decode_tenant _ := None;
  decode_tenants body := Some [mkTenantJSON body "ses" (Some (mkTenantSES "r" [] [])) None [] [] true] |}.
(** The answer of the server of a registry says when it was asked. *)
Definition serve_system (limit : option Z) : System := {|
  tenants_answer := λ t _, Some (200%Z, if t <? 5 then bs "early" else bs "late");
  file_limit := λ _, limit; shuts_in_time := λ _, true |}.
Definition no_auth_server : AuthServer := λ _ _ _, None.
Definition no_decoder : AuthDecoder := λ _, None.
Definition one_second : Durations := λ _, Some second.
Definition plain_flags : flags := mkFlags (bs "goguerrilla.conf.json") [] false.

(** * Proofs *)
Section Proofs.
Context {U : Unicode} {Mc : Machine} {H : Host_} {L : BackendLife} {EB : EventBus} {CJ : ConfigJSON} {Ch : Chances}.
Context {Du : Durations} {TD : TenantDecoder} {AS : AuthServer} {AD : AuthDecoder} {Sy : System}.

#[local] Instance only_polled_pre i : PreOrder (only_polled i).
Proof.
  split; [by intros p Hp|]. intros p q r Hpq Hqr Hp. destruct (Hpq Hp) as (Hq&Hl&Hk). destruct (Hqr Hq) as (Hr&Hl'&Hk').
  split_and!; [done|lia|]. intros j Hj Hne. rewrite Hk' by (done || lia). by apply Hk.
Qed.
Lemma polled_same i {A} (m : M process Empty_set A) : (∀ p, p_polled (m p).2 = p_polled p ∧ p_registries (m p).2 = p_registries p) → preserves (only_polled i) m.
Proof. intros Hm p Hp. destruct (Hm p) as [E1 E2]. rewrite E1, E2. by split_and!. Qed.
Lemma polled_on_daemon i {A} (m : M daemon api_error A) : preserves (only_polled i) (on_daemon m).
Proof. apply polled_same. intros p. unfold on_daemon. by destruct (m (p_daemon p)) as [[] d]. Qed.
Lemma polled_global i g : preserves (only_polled i) (modify (set_global g) : M process Empty_set unit).
Proof. by apply polled_same. Qed.
Lemma polled_tick i : preserves (only_polled i) p_tick.
Proof. by apply polled_same. Qed.
#[local] Hint Resolve polled_on_daemon polled_global polled_tick : preserves.
Lemma polled_readConfig i f : preserves (only_polled i) (readConfig f).
Proof. unfold readConfig. preserved. Qed.
Lemma polled_applyAuthenticator i c : preserves (only_polled i) (applyAuthenticator c).
Proof. unfold applyAuthenticator. preserved. Qed.
(** A registry is refreshed when it is the polled one, or when it was just made. *)
Lemma refresh_at k p p' r : refresh k p = (r, p') → r = Ok tt ∧ p_polled p' = p_polled p ∧ p_global p' = p_global p ∧ p_daemon p' = p_daemon p
  ∧ length (p_registries p') = length (p_registries p) ∧ (∀ j, j ≠ k → p_registries p' !! j = p_registries p !! j)
  ∧ (∀ x, p_registries p !! k = Some x → p_registries p' !! k = Some (Refresh (tenants_answer (p_now p) (r_cfg x)) x).2).
Proof.
  unfold refresh, p_tick, gets, modify, mbind, M_bind. cbn. destruct (p_registries p !! k) as [x|] eqn:Hk; intros [= <- <-]; [|done]. cbn.
  split_and!; [done..|by rewrite length_insert| |].
  - intros j Hj. by rewrite list_lookup_insert_ne.
  - intros y [= <-]. apply list_lookup_insert_eq. by eapply lookup_lt_Some.
Qed.
Lemma polled_refresh i : preserves (only_polled i) (refresh i).
Proof.
  intros p Hp. destruct (refresh i p) as [r p'] eqn:E. destruct (refresh_at _ _ _ _ E) as (_&Hpl&_&_&Hlen&Hk&_). cbn.
  rewrite Hpl, Hlen. split_and!; [done..|]. intros j _ Hj. by apply Hk.
Qed.
Lemma NewTenantRegistryFromConfig_returns c : match NewTenantRegistryFromConfig c with Panic | OutOfFuel => False | _ => True end.
Proof.
  unfold NewTenantRegistryFromConfig. case_bool_decide; [done|]. destruct (if bool_decide _ then _ else parse_duration (reg_Timeout c)); [|done].
  destruct (if bool_decide _ then _ else parse_duration (PollInterval c)); [|done]. unfold NewHTTPTenantRegistry. by case_bool_decide.
Qed.
(** What applying the settings of a registry does. *)
Lemma applyTenantRegistry_run c p r p' : applyTenantRegistry (Some c) p = (r, p') →
  p_daemon p' = p_daemon p ∧ (is_Some (p_polled p) → p_polled p' = p_polled p) ∧ length (p_registries p) ≤ length (p_registries p')
  ∧ (∀ j, j < length (p_registries p) → p_registries p' !! j = p_registries p !! j)
  ∧ r = Ok tt ∧ registry_follows (TenantRegistry c) (p_global p) p'.
Proof.
  unfold applyTenantRegistry, registry_follows. pose proof (NewTenantRegistryFromConfig_returns (TenantRegistry c)) as Hret.
  destruct (NewTenantRegistryFromConfig (TenantRegistry c)) as [[x|]|e| |]; [|by intros [= <- <-]; split_and!..|done|done].
  unfold gets, modify, mbind at 1 2 3 4, M_bind. cbn. set (l := p_registries p). set (i := length l).
  set (p1 := set_global (Some i) (set_registries (l ++ [x]) p)).
  assert (H1 : p_registries p1 !! i = Some x) by (cbn; unfold i; by rewrite lookup_app_r, Nat.sub_diag by done).
  (* the state in which the registry is refreshed last *)
  assert (Hlast : ∀ p2 r p', refresh i p2 = (r, p') → p_global p2 = Some i → p_daemon p2 = p_daemon p → (is_Some (p_polled p) → p_polled p2 = p_polled p) →
    length (p_registries p2) = S i → (∀ j, j < i → p_registries p2 !! j = l !! j) → (∃ x', p_registries p2 !! i = Some x' ∧ r_cfg x' = r_cfg x) →
    p_daemon p' = p_daemon p ∧ (is_Some (p_polled p) → p_polled p' = p_polled p) ∧ length l ≤ length (p_registries p')
    ∧ (∀ j, j < length l → p_registries p' !! j = l !! j)
    ∧ r = Ok tt ∧ (∃ i r' t, p_global p' = Some i ∧ p_registries p' !! i = Some (Refresh (tenants_answer t (r_cfg x)) r').2 ∧ r_cfg r' = r_cfg x)).
  { intros p2 r2 p3 E Hg Hd Hpl Hlen Hold (x'&Hx'&Hcfg). destruct (refresh_at _ _ _ _ E) as (E0&E1&E2&E3&E4&E5&E6).
    rewrite E1, E2, E3, E4, Hd, Hg, Hlen. split_and!; [done|done|unfold i; lia| |exact E0|].
    - intros j Hj. rewrite E5 by (unfold i; lia). by apply Hold.
    - exists i, x', (p_now p2). split_and!; [done| |done]. rewrite (E6 _ Hx'). by rewrite Hcfg. }
  intros E. fold p1 in E. destruct (p_polled p) as [k|] eqn:Hp.
  - change (refresh i p1 = (r, p')) in E. apply (Hlast _ _ _ E); try done; [cbn; rewrite length_app; cbn; unfold i; lia|intros j Hj; cbn; by apply lookup_app_l|by exists x].
  - destruct (start_poller i p1) as [r1 p2] eqn:E1. unfold mbind, M_bind in E. rewrite E1 in E. unfold start_poller, modify, mbind, M_bind in E1. cbn in E1.
    destruct (refresh_at _ _ _ _ E1) as (->&F1&F2&F3&F4&F5&F6). apply (Hlast _ _ _ E); try done.
    + rewrite F4. cbn. rewrite length_app. cbn. unfold i. lia.
    + intros j Hj. rewrite F5 by lia. cbn. by apply lookup_app_l.
    + rewrite (F6 _ H1). eexists. split; [done|]. unfold Refresh. destruct (tenants_answer _ _) as [[st body]|]; [|done].
      destruct (_ || _); [done|]. by destruct (ParseTenantsList body).
Qed.
Lemma polled_applyTenantRegistry i c : preserves (only_polled i) (applyTenantRegistry c).
Proof.
  destruct c as [c|]; [|apply polled_global]. intros p Hp. destruct (applyTenantRegistry (Some c) p) as [r p'] eqn:E.
  destruct (applyTenantRegistry_run _ _ _ _ E) as (_&Hpl&Hlen&Hk&_&_). cbn. rewrite Hpl by by eexists. split_and!; [done..|]. intros j Hj _. by apply Hk.
Qed.
#[local] Hint Resolve polled_readConfig polled_applyAuthenticator polled_applyTenantRegistry : preserves.
Lemma polled_handle_signal i f s : preserves (only_polled i) (handle_signal f s).
Proof. destruct s; unfold handle_signal; preserved. Qed.
Lemma polled_poller_tick i : preserves (only_polled i) poller_tick.
Proof.
  intros p Hp. unfold poller_tick, gets, mbind, M_bind. cbn. rewrite Hp. by apply polled_refresh.
Qed.
Lemma polled_sigHandler i f l : preserves (only_polled i) (sigHandler f l).
Proof.
  induction l as [|[s|] l IH]; cbn [sigHandler]; [apply preserves_ret, _| |].
  - apply preserves_bind; [apply _|apply polled_handle_signal|]. intros [code|]; [apply preserves_ret, _|done].
  - apply preserves_bind; [apply _|apply polled_poller_tick|]. by intros _.
Qed.

(** ** What a SIGHUP does to the daemon *)
#[local] Instance same_auth_pre : PreOrder same_auth.
Proof. split; [done|]. intros a b c. unfold same_auth. congruence. Qed.
Lemma auth_on_app {A} (m : M app Empty_set A) : preserves same_auth (on_app m).
Proof. intros d. unfold on_app, same_auth. destruct (d_g d); [|done]. by destruct (m _). Qed.
Lemma auth_api_now : preserves same_auth api_now.
Proof. by intros d. Qed.
Lemma auth_set_Config c : preserves same_auth (modify (set_Config c) : M daemon api_error unit).
Proof. by intros d. Qed.
#[local] Hint Resolve auth_on_app auth_api_now auth_set_Config : preserves.
Lemma auth_emit_events l : preserves same_auth (emit_events l).
Proof. induction l; cbn; preserved. Qed.
#[local] Hint Resolve auth_emit_events : preserves.
Lemma auth_ReloadConfig c : preserves same_auth (ReloadConfig c).
Proof. unfold ReloadConfig, SetConfig, emit_changes, config_, load. preserved. Qed.
Lemma on_daemon_ok {A} (m : M daemon api_error A) p a d : m (p_daemon p) = (Ok a, d) → on_daemon m p = (Ok (inl a), set_daemon d p).
Proof. unfold on_daemon. by intros ->. Qed.
Lemma on_daemon_err {A} (m : M daemon api_error A) p e d : m (p_daemon p) = (Err e, d) → on_daemon m p = (Ok (inr e), set_daemon d p).
Proof. unfold on_daemon. by intros ->. Qed.
Lemma running_later c d : running c d → running c (api_now d).2.
Proof. done. Qed.
Lemma LoadConfig_run path d old data ac : d_Config d = Some old → reads_file (d_now d) path = Some data →
  Load (json_unmarshal data empty_AppConfig) = Ok ac → LoadConfig path d = (Ok ac, (api_now d).2).
Proof.
  intros Hc Hf Hl. unfold LoadConfig, load, modify, api_now, mbind, M_bind. cbn. rewrite Hf, Hl. cbn. by rewrite Hc.
Qed.
Lemma SetAuthenticator_running a c d : running c d → ∃ d', SetAuthenticator a d = (Ok tt, d') ∧ running c d' ∧ d_authenticator d' = a ∧ authenticated d'.
Proof.
  intros Hr. destruct (SetAuthenticator a d) as [r d'] eqn:E. pose proof (SetAuthenticator_authenticates a d) as Ha. rewrite E in Ha.
  destruct Hr as (Hc&Hnd&x&users&Hg&Hw&Hst&Hcf&Hs&Hh). revert E. unfold SetAuthenticator, modify, gets, mbind, M_bind. cbn. rewrite Hg.
  unfold on_app. cbn. rewrite Hg. cbn. intros [= <- <-]. eexists. split; [done|]. split_and!; [|done|exact Ha].
  split_and!; [done..|]. eexists _, users. split_and!; [done|exact Hw|done|done| |].
  2: { cbn. intros k s. rewrite lookup_fmap. intros (s'&Hk&->)%fmap_Some. exact (Hh k s' Hk). }
  assert (Hl : lives (set_servers (setAuthenticator a <$> g_servers (a_g x)) (set_auth a (a_g x))) = lives (a_g x)).
  { by apply (lives_map (setAuthenticator a) (set_auth a (a_g x))). }
  intros k. specialize (Hs k). rewrite <- Hl in Hs. exact Hs.
Qed.
Lemma NewHTTPAuthenticator_returns c : match NewHTTPAuthenticatorFromConfig c with Panic | OutOfFuel => False | _ => True end.
Proof. unfold NewHTTPAuthenticatorFromConfig. do 2 (case_bool_decide; [done|]). by destruct (parse_duration _). Qed.
Lemma applyAuthenticator_run c0 c p : running c (p_daemon p) → ∃ d', applyAuthenticator (Some c0) p = (Ok tt, set_daemon d' p) ∧ running c d' ∧
  d_authenticator d' = configured_auth (Auth c0) (d_authenticator (p_daemon p)) ∧ (authenticated (p_daemon p) → authenticated d').
Proof.
  intros Hr. unfold applyAuthenticator, configured_auth. pose proof (NewHTTPAuthenticator_returns (Auth c0)) as Hret.
  assert (Hset : ∀ a, ∃ d', (on_daemon (SetAuthenticator a);; mret tt) p = (Ok tt, set_daemon d' p) ∧ running c d' ∧ d_authenticator d' = a ∧ authenticated d').
  { intros a. destruct (SetAuthenticator_running a c (p_daemon p) Hr) as (d'&E&?&?&?). exists d'. unfold mbind, M_bind.
    by rewrite (on_daemon_ok _ _ _ _ E). }
  assert (Hkeep : ∃ d', (Ok tt : outcome Empty_set unit, p) = (Ok tt, set_daemon d' p) ∧ running c d' ∧ d_authenticator d' = d_authenticator (p_daemon p) ∧ (authenticated (p_daemon p) → authenticated d')).
  { exists (p_daemon p). by destruct p. }
  destruct (negb (Enabled (Auth c0))); [destruct (Hset None) as (d'&?&?&?&?); by exists d'|].
  destruct (negb (EqualFold _ _)); [exact Hkeep|]. destruct (NewHTTPAuthenticatorFromConfig (Auth c0)) as [h|e| |]; [|exact Hkeep|done|done].
  destruct (Hset (Some (http_authenticator h))) as (d'&?&?&?&?). by exists d'.
Qed.

Lemma all_clients_sum n l : Forall (λ sc, 0 ≤ MaxClients sc)%Z l → (0 ≤ n)%Z → (n + foldr (λ sc, Z.add (MaxClients sc)) 0 l < 2 ^ 63)%Z →
  fold_left (λ n sc, wrap64 (n + MaxClients sc)) l n = (n + foldr (λ sc, Z.add (MaxClients sc)) 0 l)%Z.
Proof.
  intros Hl. revert n. induction Hl as [|sc l Hsc Hl IH]; intros n Hn Hb; cbn in *; [lia|].
  assert (Hs : (0 ≤ foldr (λ sc, Z.add (MaxClients sc)) 0 l)%Z) by (clear -Hl; induction Hl; cbn; lia).
  assert (Hw : wrap64 (n + MaxClients sc) = (n + MaxClients sc)%Z) by (unfold wrap64; rewrite Z.mod_small; lia).
  rewrite Hw, IH; lia.
Qed.
End Proofs.

(** ** The properties *)


(** The registry that is polled is the first one for good: once a poller has been started, whatever signals and ticks come, it refreshes
    that registry, and every other registry, those that a SIGHUP makes the current one included, stays as it was when
    the SIGHUP was done. *)
Lemma first_registry_stays_polled {U : Unicode} {Mc : Machine} {H : Host_} {L : BackendLife} {EB : EventBus} {CJ : ConfigJSON} {Ch : Chances}
    {Du : Durations} {TD : TenantDecoder} {AS : AuthServer} {AD : AuthDecoder} {Sy : System} f l p i :
  p_polled p = Some i → let p' := (sigHandler f l p).2 in
  p_polled p' = Some i ∧ ∀ j, j < length (p_registries p) → j ≠ i → p_registries p' !! j = p_registries p !! j.
Proof. intros Hp p'. destruct (polled_sigHandler i f l p Hp) as (H1&_&H2). by split. Qed.

(** The check of open files: as long as the clients of all servers together are counted without overflow, it passes exactly when the
    limit allows them; and it passes when the limit is not known. *)
Lemma CheckFileLimit_spec limit c : Servers c ≠ [] → Forall (λ sc, 0 ≤ MaxClients sc)%Z (Servers c) →
  let clients := foldr (λ sc, Z.add (MaxClients sc)) 0%Z (Servers c) in
  (clients < 2 ^ 63)%Z → CheckFileLimit limit c =
    match limit with Some n => (bool_decide (clients ≤ n)%Z, clients, n) | None => (true, 0, 0)%Z end.
Proof.
  intros Hne Hc clients Hb. unfold CheckFileLimit. destruct limit as [n|]; [|done].
  assert (Hs : all_clients (Servers c) = clients) by (unfold all_clients; rewrite all_clients_sum; lia || done).
  assert (H0 : (0 ≤ clients)%Z) by (unfold clients; clear -Hc; induction Hc; cbn; lia).
  destruct (Servers c) as [|sc l] eqn:E; [done|]. rewrite Hs. unfold as_uint64. rewrite Z.mod_small by lia.
  f_equal. f_equal. destruct (Z.ltb_spec n clients); [by rewrite bool_decide_eq_false_2 by lia|by rewrite bool_decide_eq_true_2 by lia].
Qed.

(** ** Witnesses and examples *)
#[local] Existing Instances ascii_only test_machine test_life test_bus serve_json test_chances one_second serve_tenants no_auth_server no_decoder.
#[local] Instance host_two : Host_ := serve_host 3.
#[local] Instance system_known : System := serve_system (Some 1000%Z).
(** The registry of the second file is refreshed once; the ticks go to the first. *)
Example new_registry_goes_stale :
  (let '(r, p) := serve plain_flags [Signal SIGHUP; PollerTick; PollerTick] (new_process (bs "main.log")) in
   (r, p_global p, p_polled p, map (λ r, (rc_URL (r_cfg r), map TenantID (All r))) (p_registries p))) =
  (Ok None, Some 1, Some 0, [(bs "http://one", [bs "late"]); (bs "http://two", [bs "early"])]).
Proof. vm_compute. reflexivity. Qed.
(** Clients that overflow pass the check. *)
Example clients_overflow :
  let s n := set_Servers [mkServerConfig zero_ServerTLSConfig [] [] [] 0 0 n true false; mkServerConfig zero_ServerTLSConfig [] [] [] 0 0 n true false] empty_AppConfig in
  CheckFileLimit (Some 1024%Z) (s (2 ^ 62 + 2 ^ 62 - 1)%Z) = (false, -2, 1024)%Z ∧ CheckFileLimit (Some 1024%Z) (s (- 2 ^ 63)%Z) = (true, 0, 1024)%Z.
Proof. split; vm_compute; reflexivity. Qed.

Lemma CheckFileLimit_spec_witness :
  CheckFileLimit (Some 15%Z) (test_config [test_server "a:25" true 30; test_server "b:25" true 60]) = (false, 20, 15)%Z.
Proof. rewrite CheckFileLimit_spec; [reflexivity|discriminate|repeat constructor; discriminate|reflexivity]. Defined.
Lemma first_registry_stays_polled_witness : ∃ p p', (sigHandler plain_flags [Signal SIGHUP; PollerTick; PollerTick] p).2 = p' ∧
  p_polled p = Some 0 ∧ p_global p = Some 1 ∧ p_registries p' !! 1 = p_registries p !! 1.
Proof.
  set (p := (serve plain_flags [Signal SIGHUP] (new_process (bs "main.log"))).2).
  assert (Hp : p_polled p = Some 0) by (vm_compute; reflexivity).
  assert (Hg : p_global p = Some 1) by (vm_compute; reflexivity).
  assert (Hl : length (p_registries p) = 2) by (vm_compute; reflexivity).
  clearbody p. eexists p, _. split; [reflexivity|]. split; [exact Hp|]. split; [exact Hg|].
  refine (proj2 (first_registry_stays_polled plain_flags [Signal SIGHUP; PollerTick; PollerTick] p 0 Hp) 1 _ _); [rewrite Hl; lia|discriminate].
Defined.
Lemma host_two_works : machine_works.
Proof. by split_and!. Qed.
Lemma test_back_starts t (b : @Back test_life) : (b_Start t b).1 = None.
Proof. reflexivity. Qed.
Lemma test_host_named : ∃ h, @os_Hostname test_machine = Some h ∧ h ≠ [].
Proof. exists (bs "host"). split; [reflexivity|discriminate]. Qed.
Lemma some_is_Some {A} (o : option A) : match o with Some _ => true | None => false end = true → is_Some o.
Proof. destruct o; [eexists; reflexivity|discriminate]. Qed.
